(* ===== verification/_CoqProject ===== *)
-Q . S2P
Prelude.v
RustStr.v
Error.v
Common.v
F64.v
Assert.v
WaitGroup.v
Proto.v
Reporter.v
Codec.v
SpanStack.v
Tracer.v
TraceContext.v
ContextSpec.v
Session.v
ContextRefinement.v
Segment.v
Typing.v
Agent.v
AgentSpec.v
AgentRefinement.v
Base64.v
Propagation.v
Debug.v
Overflow.v
Logging.v
E2e.v
Meter.v
Channel.v
Task.v
Metricer.v
Booting.v
E2eMetrics.v
MetricExample.v
Management.v
Pipeline.v
Running.v
Grpc.v
GrpcStream.v
GrpcSystem.v
Kafka.v
Backends.v
E2eBackends.v
E2eKafka.v
Examples.v
Print.v
Tests.v
