(* ===== verification/Prelude.v ===== *)
(** * Verification of the SkyWalking Rust agent

    The library under src/src is an agent: an application links it, opens spans
    and writes logs and metrics, and the agent ships them to a SkyWalking
    collector. This development models the library in Rocq and proves what makes
    each of its parts correct.

    ** The program and where it is modelled

    Data flows from four front ends through one interface into a reporter:

<<
      tracer, contexts, spans --.
      logger                   --+--> Report --> channel --> worker --> sink
      metricer and meters      --+                                     (gRPC,
      manager (heartbeat)      --'                                      Kafka)
>>

    - Prelude.v: this file. Outcomes of a call ([Ret], [Panic], [Abort]), the
      state monad [M] with panics, destructors run at scope exit ([scoped],
      [leave]), fixed-width integers, generic lemmas.
    - RustStr.v, F64.v: what the agent uses of the language's strings and of
      [f64]; executable, and proved against their usual descriptions. Assert.v:
      the assertions of its test programs.
    - Error.v (error/mod.rs), Common.v (common/system_time.rs,
      random_generator.rs), Proto.v (proto/v3/mod.rs).
    - WaitGroup.v (common/wait_group.rs): [wg_add], [wg_done], [wait_check]; the
      module [Machine] interleaves any number of threads in them.
    - Reporter.v (reporter/mod.rs): [CollectItem], the interface [Report] with
      its laws [ReportLaws], and the delegating instances.
    - SpanStack.v, TraceContext.v (trace/trace_context.rs, trace/span.rs,
      trace/propagation/context.rs): the span stack with its try-locks, then
      contexts, spans, asynchronous spans, snapshots, operation by operation and
      with the source's names.
    - ContextSpec.v, Session.v, ContextRefinement.v: an abstract specification of
      a context; a client's use of a context as a step relation, with its
      invariant; the proof that the two simulate each other.
    - Tracer.v, Segment.v (trace/tracer.rs and the end of a context's life);
      Typing.v: the machine types of the numbers a context works with; Agent.v:
      many contexts and tracers over one reporter.
    - Base64.v, Propagation.v (trace/propagation/encoder.rs, decoder.rs);
      Overflow.v: builds with and without overflow checks, and the span counter at
      its limit. Debug.v: the [Debug] output of
      contexts, spans, snapshots and propagation contexts.
    - Logging.v (logging/record.rs, logger.rs), Meter.v (metrics/meter.rs),
      Metricer.v, Booting.v (metrics/metricer.rs: the metricer, then its task and
      the handle of [boot]), Management.v (management/instance.rs, manager.rs).
    - AgentSpec.v, AgentRefinement.v: an abstract machine for all contexts of an
      agent together, and the proof that Agent.v and it simulate each other.
    - Channel.v, Task.v: tokio's channels, tasks and timers as interfaces.
    - Pipeline.v (reporter/mod.rs and what grpc.rs and kafka.rs have in common),
      Grpc.v (reporter/grpc.rs: builders, interceptor, the worker's sink),
      GrpcStream.v (its streaming tasks), GrpcSystem.v (the four tasks and their
      join handle), Kafka.v (reporter/kafka.rs), Print.v (reporter/print.rs).
    - Running.v, Backends.v: a running system (caller, worker, streaming tasks)
      as a reporter of the front ends, for any system with a pipeline, then for
      gRPC and Kafka; with a shutdown signal, without one ([pending]), and after
      the drop of the last reporter.
    - E2e.v, E2eMetrics.v (e2e/src/main.rs): the handlers of the end-to-end
      program over any reporter; E2eBackends.v over the running gRPC and Kafka
      reporters; Codec.v, E2eKafka.v (e2e/src/e2e_kafka.rs): the program that
      checks the records.
    - MetricExample.v, Examples.v (examples/): the four [main] functions, as
      relations between the network, the result and the state of the reporting.
    - Tests.v (tests/): the integration tests, as programs over the model with
      the reporters and assertions of their files.

    A Rust method [T::f] is the definition [f], or [T.f] inside the module of its
    type ([Counter.increment], [LogRecord.add_tag]); a method that mutates acts
    in [M] on the state it can reach, one that fails returns [result] or panics,
    and a getter is the record's projection.

    ** Interfaces

    Code that is not in the repository is a parameter with named laws, and each
    group of laws has an instance that shows it can hold: parking_lot's locks
    ([RwLock], instance [CountingLock]), the base64 crate ([Base64],
    [Base64Laws], instance [Rfc4648]), tokio's channels ([Mpsc], [MpscLaws],
    instance [Channel.Reference]), its task handles and timers ([Tasks],
    [TasksLaws], [Intervals], [IntervalsLaws], instances in [Task.Inline]),
    rdkafka's configuration ([RdConfig],
    [RdConfigLaws]), tonic's metadata ([Tonic]), prost's encoding
    and decoding ([ProstMessage], [ProstDecode], instances in Codec.v), rdkafka's
    consumer and the broker ([KafkaClient], [KafkaClientLaws]), the numbers the
    generator gives to enumerations ([ProtoNums], [ProtoNumsLaws]), foreign errors
    ([ForeignErrors]), the characters beyond ASCII that [Debug] prints
    ([Printable], without laws: theorems hold for every table). The traits of the program are
    classes: [Report]/[ReportLaws] (clients are proved against them; the
    instances for boxes, counted pointers, cells and channel reporters discharge
    them), [HandleSpanObject], [Transform]/[TransformLaws],
    [CollectItemProduce] and [CollectItemConsume] with [ChannelLaws]. [Build]
    says whether integer overflow is checked, and the clock, the random source,
    the order of hash maps and what the system tells about itself are arguments:
    theorems hold for all of them.

    ** What is proved

    - Tracing: the segment of a closed context has every span once and a
      well-formed parent forest; contexts refine their specification; which spans
      can be closed, and what the others do (panic, abort); asynchronous spans
      can be dropped in any order, unless another thread holds the lock of the
      finalized spans: then the destructor panics; [wait] never reports an
      unfinished segment, and panics if the tracer is gone; the drop of a context
      delivers exactly one segment, which lacks the spans that were still open,
      and these can be closed later without effect; references of [continued] are
      delivered once; overflow checks make no difference while the span counter
      has room; with many contexts and tracers, one segment per dropped context,
      all distinct; the whole agent refines an abstract machine, step by step.
    - Propagation: the header round trip, the exact language of the decoder, and
      that the two sides of a request end up in one trace; the end-to-end program
      reports one trace over two processes and three tasks; whatever text a peer
      puts into its header, the [Debug] output of what comes of it is one line.
    - The wait group: no lost wake-up.
    - Reporting: exactly once and in order through channel and worker, nothing
      accepted before a graceful shutdown is lost, the flush ends, the streams of
      the gRPC tasks yield everything once, end to end for gRPC and Kafka; a join
      handle that is ready with [Ok] means that everything was served, and once
      the shutdown signal has come the handle can become ready; without a signal
      it never does, but the system can always serve all it has; the routing and
      the error paths of both sinks; a dropped reporter makes the task fail.
    - Programs: what the end-to-end processes report for a ping is served by both
      running reporters, which have no shutdown signal; the assertions of the check program hold of the records;
      the integration tests pass, those of tasks in every run of the task;
      the logging, management and metric examples report what they mean to and
      end as they mean to, the tracing example ends with an error (unless Ctrl-C
      is pressed while its request is handled), since its only reporter is dropped
      with the request.
    - Logging, meters, metricer, management: the messages field by field,
      histogram counts, binary search against a scan, windows of RATE counters
      under concurrency, one message per meter and round (up to a meter that
      panics), how the metricer's task ends, the life of the heartbeat's task, properties as a multimap.

    Each theorem with hypotheses has a witness in a [Demo] module at the end of
    its file: a concrete run in which the hypotheses hold.

    ** Bounds and fuel

    Three functions recurse on fuel. [dec_string] gives [dec_go] one more than the
    binary length of the number, which bounds its decimal digits
    ([dec_string_val]); [binary_search_by] gives [search_loop] the length of the
    slice, which bounds the halvings ([search_loop_spec]); [hex_string] gives
    [hex_go] the eight digits of a 32-bit number ([hex_string_val]). The span
    counter is an [i32]: sessions ask for [room] before they create a span, since
    past two billion spans in one context the code panics or wraps (Overflow.v).
    The span uids, the wait group and the counter of the heartbeat are proved not to overflow;
    the counts of a histogram wrap around, as stated.

    ** What is not modelled

    The transport below the gRPC and Kafka clients, the generated protobuf code
    (and with it the [Debug] text of the messages), the log lines of the default
    error handlers, the HTTP below the routing and the command line of the
    end-to-end program, and the build program, which runs the generator: all of
    this is code outside the repository or its input and output. The derived
    [Debug] of configuration, meters and items is left out, since nothing prints
    them. Step relations interleave threads at the granularity of lock-protected sections and atomic accesses;
    the memory model below that is out of scope ([Relaxed] flags are read and
    written as single atomic steps). Fairness is not assumed: what is proved
    about ends and handles is that the tasks have the steps of their own that
    lead there.

    ** Coverage

    Every component of src/src that keeps state or computes is modelled, with all
    of its operations, and so are the examples, the integration tests and the
    programs of e2e/ above HTTP. Several requests at once are several contexts:
    Agent.v interleaves the calls on all of them, with tracers and front ends. *)

From Stdlib Require Export ZArith Lia.
From Stdlib Require Ascii.
Export Ascii (ascii(..), ascii_of_N, N_of_ascii).
Export (notations) Ascii.
From stdpp Require Export base tactics option list strings gmap.

(** ** Notations *)
Declare Scope sky_scope.
Delimit Scope sky_scope with sky.

Create HintDb sky.

(** ** Outcomes of Rust code

    A call returns, unwinds with a panic message, or aborts the process: the
    language aborts when a destructor panics while another panic unwinds. *)
Inductive outcome (A : Type) : Type :=
| Ret (a : A)
| Panic (msg : string)
| Abort.
Arguments Ret {A} a.
Arguments Panic {A} msg.
Arguments Abort {A}.

(** [Result<T, E>] of the language. *)
Inductive result (T E : Type) : Type :=
| Ok (t : T)
| Err (e : E).
Arguments Ok {T E} t.
Arguments Err {T E} e.

(** The [?] operator: [Result::and_then]. *)
Definition and_then {T U E} (r : result T E) (k : T → result U E) : result U E :=
  match r with Ok t => k t | Err e => Err e end.
Notation "x <-? r ;; k" := (and_then r (λ x, k))
  (at level 100, r at next level, k at level 200, right associativity) : sky_scope.

Lemma and_then_Ok {T U E} (r : result T E) (k : T → result U E) u :
  and_then r k = Ok u ↔ ∃ t, r = Ok t ∧ k t = Ok u.
Proof. destruct r; cbn; naive_solver. Qed.

(** A closed equation, checked by evaluation. *)
Ltac by_evaluation := match goal with |- ?l = ?r => exact (@eq_refl _ r <: l = r) end.

(** Breaks "this sequence of [?] succeeded" into its steps. *)
Ltac inv_ok :=
  repeat match goal with
  | H : and_then _ _ = Ok _ |- _ =>
      let t := fresh "t" in let Ht := fresh "Hok" in apply and_then_Ok in H as (t & Ht & H)
  end.

(** [Result::ok] and [Option::ok_or]. *)
Definition result_ok {T E} (r : result T E) : option T :=
  match r with Ok t => Some t | Err _ => None end.
Definition ok_or {T E} (e : E) (o : option T) : result T E :=
  match o with Some t => Ok t | None => Err e end.

(** ** Stateful code

    The state survives a panic, since destructors, later code and other threads
    still observe it. *)
Definition M (S A : Type) : Type := S → outcome A * S.

Definition ret {S A} (a : A) : M S A := λ s, (Ret a, s).
Definition bind {S A B} (m : M S A) (k : A → M S B) : M S B := λ s,
  match m s with
  | (Ret a, s') => k a s'
  | (Panic e, s') => (Panic e, s')
  | (Abort, s') => (Abort, s')
  end.

Notation "x <- m ;; k" := (bind m (λ x, k))
  (at level 100, m at next level, k at level 200, right associativity) : sky_scope.
Notation "m ;; k" := (bind m (λ _, k)) (at level 100, k at level 200, right associativity) : sky_scope.

(** A run of [m] from [s] that returns [a], or that unwinds with message [e],
    in state [s']. *)
Notation "s '⊢' m '⇓' a '⊣' s'" := (m s = (Ret a, s'))
  (at level 70, m at level 69, a at level 69, s' at level 69, only parsing) : sky_scope.
Notation "s '⊢' m '⇑' e '⊣' s'" := (m s = (Panic e, s'))
  (at level 70, m at level 69, e at level 69, s' at level 69, only parsing) : sky_scope.

Definition panic {S A} (msg : string) : M S A := λ s, (Panic msg, s).
Definition gets {S A} (f : S → A) : M S A := λ s, (Ret (f s), s).
Definition modify {S} (f : S → S) : M S unit := λ s, (Ret tt, f s).

(** [Option::expect]. *)
Definition expect {S A} (msg : string) (o : option A) : M S A :=
  match o with Some a => ret a | None => panic msg end.

(** [assert]-like guard: an explicit [if !c { panic!(msg) }]. *)
Definition panic_unless {S} (c : bool) (msg : string) : M S unit :=
  if c then ret tt else panic msg.

(** A value with a destructor leaves its scope: [on_ret] runs on the normal
    path, [on_unwind] while unwinding, where a second panic aborts. *)
Definition leave {S A} (m : M S A) (on_ret on_unwind : M S unit) : M S A := λ s,
  match m s with
  | (Ret a, s') =>
      match on_ret s' with
      | (Ret _, s'') => (Ret a, s'')
      | (Panic e, s'') => (Panic e, s'')
      | (Abort, s'') => (Abort, s'')
      end
  | (Panic e, s') =>
      match on_unwind s' with
      | (Ret _, s'') => (Panic e, s'')
      | (_, s'') => (Abort, s'')
      end
  | (Abort, s') => (Abort, s')
  end.
Definition scoped {S A} (m : M S A) (drop : M S unit) : M S A := leave m drop drop.

(** Running code on a part of a larger state. *)
Definition zoom {S T A} (get : S → T) (put : T → S → S) (m : M T A) : M S A :=
  λ s, let '(r, t) := m (get s) in (r, put t s).

(** The outcome and the final state of a run. *)
Definition outcome_of {S A} (m : M S A) (s : S) : outcome A := (m s).1.
Definition state_of {S A} (m : M S A) (s : S) : S := (m s).2.

Section Monad.
Local Open Scope sky_scope.
Context {S : Type}.

Lemma bind_ret_l {A B} (a : A) (k : A → M S B) s : bind (ret a) k s = k a s.
Proof. done. Qed.

Lemma bind_Ret {A B} (m : M S A) (k : A → M S B) s a s' :
  s ⊢ m ⇓ a ⊣ s' → bind m k s = k a s'.
Proof. intros H. unfold bind. by rewrite H. Qed.

Lemma bind_Panic {A B} (m : M S A) (k : A → M S B) s e s' :
  s ⊢ m ⇑ e ⊣ s' → s ⊢ bind m k ⇑ e ⊣ s'.
Proof. intros H. unfold bind. by rewrite H. Qed.

(** A run that returned decomposes into two runs that returned. *)
Lemma bind_inv_Ret {A B} (m : M S A) (k : A → M S B) s b s'' :
  s ⊢ bind m k ⇓ b ⊣ s'' → ∃ a s', (s ⊢ m ⇓ a ⊣ s') ∧ (s' ⊢ k a ⇓ b ⊣ s'').
Proof.
  unfold bind. destruct (m s) as [[a|e|] s'] eqn:Hm; naive_solver.
Qed.

Lemma leave_Ret {A} (m : M S A) d d' s a s' s'' :
  s ⊢ m ⇓ a ⊣ s' → s' ⊢ d ⇓ tt ⊣ s'' → s ⊢ leave m d d' ⇓ a ⊣ s''.
Proof. intros H1 H2. unfold leave. by rewrite H1, H2. Qed.

Lemma leave_inv_Ret {A} (m : M S A) d d' s a s'' :
  s ⊢ leave m d d' ⇓ a ⊣ s'' → ∃ s', (s ⊢ m ⇓ a ⊣ s') ∧ (s' ⊢ d ⇓ tt ⊣ s'').
Proof.
  unfold leave. destruct (m s) as [[b|e|] s'].
  - destruct (d s') as [[[]|?|] ?] eqn:?; naive_solver.
  - destruct (d' s') as [[[]|?|] ?]; naive_solver.
  - naive_solver.
Qed.

Lemma scoped_Ret {A} (m : M S A) d s a s' s'' :
  s ⊢ m ⇓ a ⊣ s' → s' ⊢ d ⇓ tt ⊣ s'' → s ⊢ scoped m d ⇓ a ⊣ s''.
Proof. apply leave_Ret. Qed.

Lemma scoped_inv_Ret {A} (m : M S A) d s a s'' :
  s ⊢ scoped m d ⇓ a ⊣ s'' → ∃ s', (s ⊢ m ⇓ a ⊣ s') ∧ (s' ⊢ d ⇓ tt ⊣ s'').
Proof. apply leave_inv_Ret. Qed.

Lemma zoom_run {T A} get put (m : M T A) (s : S) r t :
  m (get s) = (r, t) → zoom get put m s = (r, put t s).
Proof. intros H. unfold zoom. by rewrite H. Qed.
End Monad.

(** ** Build configuration

    [feature_mock] is the cargo feature [mock] of Cargo.toml; [overflow_checks]
    is the compiler's setting (on in debug builds, off in release builds). *)
Class Build := {
  feature_mock : bool;
  overflow_checks : bool
}.

(** The two builds the repository's own tests and users run. *)
Definition test_build : Build := {| feature_mock := true; overflow_checks := true |}.
Definition release_build : Build := {| feature_mock := false; overflow_checks := false |}.

(** ** Machine integers: a [w]-bit integer as a [Z] *)

Definition in_signed (w z : Z) : bool := (- 2 ^ (w - 1) <=? z)%Z && (z <? 2 ^ (w - 1))%Z.
Definition wrap_signed (w z : Z) : Z := ((z + 2 ^ (w - 1)) `mod` 2 ^ w - 2 ^ (w - 1))%Z.
Definition in_unsigned (w z : Z) : bool := (0 <=? z)%Z && (z <? 2 ^ w)%Z.
Definition wrap_unsigned (w z : Z) : Z := (z `mod` 2 ^ w)%Z.

(** [usize] on the 64-bit targets the agent is built for. *)
Definition usize_bits : Z := 64.

(** Arithmetic of the language: an out-of-range result panics when overflow
    checks are on and wraps otherwise. *)
Definition arith `{!Build} {S} (fits : bool) (exact wrapped : Z) (msg : string) : M S Z :=
  if fits then ret exact
  else if overflow_checks then panic msg
  else ret wrapped.

Definition ADD_OVERFLOW : string := "attempt to add with overflow".
Definition SUB_OVERFLOW : string := "attempt to subtract with overflow".

Definition i32_add `{!Build} {S} (a b : Z) : M S Z :=
  arith (in_signed 32 (a + b)) (a + b) (wrap_signed 32 (a + b)) ADD_OVERFLOW.
Definition usize_add `{!Build} {S} (a b : Z) : M S Z :=
  arith (in_unsigned usize_bits (a + b)) (a + b) (wrap_unsigned usize_bits (a + b)) ADD_OVERFLOW.
Definition usize_sub `{!Build} {S} (a b : Z) : M S Z :=
  arith (in_unsigned usize_bits (a - b)) (a - b) (wrap_unsigned usize_bits (a - b)) SUB_OVERFLOW.

Lemma in_signed_spec w z :
  in_signed w z = true ↔ (- 2 ^ (w - 1) ≤ z < 2 ^ (w - 1))%Z.
Proof. unfold in_signed. rewrite andb_true_iff, Z.leb_le, Z.ltb_lt. done. Qed.

Lemma in_unsigned_spec w z : in_unsigned w z = true ↔ (0 ≤ z < 2 ^ w)%Z.
Proof. unfold in_unsigned. rewrite andb_true_iff, Z.leb_le, Z.ltb_lt. done. Qed.

(** A wrapped integer is in range, and wrapping is the identity in range. *)
Lemma wrap_signed_range w z : (0 < w)%Z → in_signed w (wrap_signed w z) = true.
Proof.
  intros Hw. rewrite in_signed_spec. unfold wrap_signed.
  assert (2 ^ w = 2 * 2 ^ (w - 1))%Z as E.
  { rewrite <-Z.pow_succ_r by lia. f_equal. lia. }
  assert (0 < 2 ^ (w - 1))%Z by (apply Z.pow_pos_nonneg; lia).
  pose proof (Z.mod_pos_bound (z + 2 ^ (w - 1)) (2 ^ w) ltac:(lia)). lia.
Qed.

Lemma wrap_signed_id w z : (0 < w)%Z → in_signed w z = true → wrap_signed w z = z.
Proof.
  intros Hw Hz%in_signed_spec. unfold wrap_signed.
  assert (2 ^ w = 2 * 2 ^ (w - 1))%Z as E.
  { rewrite <-Z.pow_succ_r by lia. f_equal. lia. }
  rewrite Z.mod_small; lia.
Qed.

Lemma wrap_signed_add_l w a b :
  wrap_signed w (wrap_signed w a + b) = wrap_signed w (a + b).
Proof.
  unfold wrap_signed. f_equal.
  replace ((a + 2 ^ (w - 1)) `mod` 2 ^ w - 2 ^ (w - 1) + b + 2 ^ (w - 1))%Z
    with ((a + 2 ^ (w - 1)) `mod` 2 ^ w + b)%Z by lia.
  rewrite Zplus_mod_idemp_l. f_equal. lia.
Qed.

(** ** Evaluating and destructing runs

    [run_step lem] evaluates the first computation of a sequence with [lem].

    [inv_run] breaks a hypothesis "this composite run returned" into the runs of
    its parts. *)
Tactic Notation "run_step" uconstr(lem) :=
  (erewrite bind_Ret; [|solve [apply lem; done || assumption]]); cbv beta zeta.

Ltac inv_run :=
  repeat match goal with
  | H : bind ?m ?k ?s = (Ret _, _) |- _ =>
      let a := fresh "a" in let s' := fresh "s" in let H1 := fresh "Hrun" in
      apply bind_inv_Ret in H as (a & s' & H1 & H)
  | H : scoped ?m ?d ?s = (Ret _, _) |- _ =>
      let s' := fresh "s" in let H1 := fresh "Hrun" in
      apply scoped_inv_Ret in H as (s' & H1 & H)
  | H : ret _ _ = (Ret _, _) |- _ => unfold ret in H; simplify_eq/=
  | H : gets _ _ = (Ret _, _) |- _ => unfold gets in H; simplify_eq/=
  | H : modify _ _ = (Ret _, _) |- _ => unfold modify in H; simplify_eq/=
  | H : panic _ _ = (Ret _, _) |- _ => unfold panic in H; discriminate H
  end.

(** ** Lists shared by the components *)
Section ListFacts.
Context {A : Type}.
Implicit Types (l : list A) (x : A).

Lemma last_snoc_inv l x : last l = Some x → ∃ l', l = l' ++ [x].
Proof.
  destruct l as [|y l' _] using rev_ind; [done|].
  rewrite last_snoc. intros [= ->]. eauto.
Qed.

Lemma Forall_impl_strong (P Q : A → Prop) l :
  (∀ x, x ∈ l → P x → Q x) → Forall P l → Forall Q l.
Proof. rewrite !Forall_forall. eauto. Qed.

Lemma alter_is_insert (f : A → A) l i x : l !! i = Some x → alter f i l = <[i := f x]> l.
Proof.
  revert i. induction l as [|y l IH]; intros [|i]; cbn; intros H; simplify_eq; [done|].
  f_equal. by apply IH.
Qed.

Lemma sublist_full l k : l `sublist_of` k → length k ≤ length l → l = k.
Proof.
  induction 1 as [|x l k _ IH|x l k Hs _]; cbn; intros Hle; [done|f_equal; apply IH; lia|].
  apply sublist_length in Hs. lia.
Qed.

Lemma filter_all (P : A → Prop) `{!∀ x, Decision (P x)} l : Forall P l → filter P l = l.
Proof. induction 1 as [|x l Hx _ IH]; [done|]. by rewrite filter_cons_True, IH. Qed.

Lemma filter_none (P : A → Prop) `{!∀ x, Decision (P x)} l : Forall (λ x, ¬ P x) l → filter P l = [].
Proof. induction 1 as [|x l Hx _ IH]; [done|]. by rewrite filter_cons_False. Qed.

Lemma filter_map {B} (f : B → A) (P : A → Prop) `{!∀ x, Decision (P x)} (k : list B) :
  filter P (f <$> k) = f <$> filter (λ y, P (f y)) k.
Proof. induction k as [|y k IH]; [done|]. rewrite fmap_cons, !filter_cons, IH. by case_decide. Qed.

Lemma lookup_split l i x :
  l !! i = Some x → ∃ l1 l2, l = l1 ++ x :: l2 ∧ length l1 = i.
Proof.
  intros H. destruct (list_elem_of_split_length _ _ _ H) as (l1 & l2 & -> & ->). eauto.
Qed.
End ListFacts.
