(* ===== verification/RustStr.v ===== *)
(** * Strings of the language and its standard library

    A Rust [String] is a byte string holding valid UTF-8; it is modelled as a
    [string] (of bytes), with [utf8_valid] as the type's invariant. This file
    holds what the agent uses of [str]: [split], [starts_with], [is_empty],
    [String::from_utf8], the decimal [to_string] of integers and
    [str::parse::<i32>]. *)

From S2P Require Import Prelude.

Local Open Scope Z_scope.

(** ** Characters and splitting *)

Definition dash : ascii := "-"%char.

Fixpoint contains_char (c : ascii) (s : string) : bool :=
  match s with
  | EmptyString => false
  | String a s' => Ascii.eqb a c || contains_char c s'
  end.

(** [str::split(c)] collected into a vector: there is always a first piece. *)
Fixpoint split_on (c : ascii) (s : string) : list string :=
  match s with
  | EmptyString => [EmptyString]
  | String a s' =>
      if Ascii.eqb a c then EmptyString :: split_on c s'
      else match split_on c s' with
           | p :: ps => String a p :: ps
           | [] => [String a EmptyString]
           end
  end.

(** Pieces separated by one character, as [format!("{}-{}-...")] writes them. *)
Fixpoint join_with (c : ascii) (ps : list string) : string :=
  match ps with
  | [] => EmptyString
  | [p] => p
  | p :: ps' => p +:+ String c (join_with c ps')
  end.

(** [str::is_empty] and [str::starts_with]. *)
Definition is_empty (s : string) : bool :=
  match s with EmptyString => true | _ => false end.
Definition starts_with (p s : string) : bool := String.prefix p s.

Lemma is_empty_spec s : is_empty s = true ↔ s = EmptyString.
Proof. destruct s; naive_solver. Qed.

Lemma app_nil_str s : EmptyString +:+ s = s.
Proof. done. Qed.

Lemma app_cons_str a s t : String a s +:+ t = String a (s +:+ t).
Proof. done. Qed.

Lemma contains_char_app c s t :
  contains_char c (s +:+ t) = contains_char c s || contains_char c t.
Proof.
  induction s as [|a s IH]; [done|].
  rewrite app_cons_str. cbn. by rewrite IH, orb_assoc.
Qed.

Lemma split_on_nonempty c s : split_on c s ≠ [].
Proof. destruct s as [|a s]; cbn; [done|]. repeat case_match; done. Qed.

Lemma split_on_none c s : contains_char c s = false → split_on c s = [s].
Proof.
  induction s as [|a s IH]; [done|]. cbn.
  destruct (Ascii.eqb a c); [done|]. intros H. by rewrite (IH H).
Qed.

Lemma split_on_app c s t :
  contains_char c s = false →
  split_on c (s +:+ String c t) = s :: split_on c t.
Proof.
  induction s as [|a s IH].
  - intros _. rewrite app_nil_str. cbn. by rewrite Ascii.eqb_refl.
  - rewrite app_cons_str. cbn. destruct (Ascii.eqb a c); [done|].
    intros H. by rewrite (IH H).
Qed.

(** Splitting undoes joining when no piece holds the separator. *)
Lemma split_on_join c ps :
  ps ≠ [] → Forall (λ p, contains_char c p = false) ps →
  split_on c (join_with c ps) = ps.
Proof.
  intros Hne Hps. destruct ps as [|p ps]; [done|]. clear Hne.
  revert p Hps. induction ps as [|q ps IH]; intros p [Hp Hps]%Forall_cons.
  - by apply split_on_none.
  - change (join_with c (p :: q :: ps)) with (p +:+ String c (join_with c (q :: ps))).
    rewrite split_on_app by done. by rewrite IH.
Qed.

(** Joining undoes splitting, whatever the string holds. *)
Lemma split_on_pieces c s : Forall (λ p, contains_char c p = false) (split_on c s).
Proof.
  induction s as [|a s IH]; cbn; [by constructor|].
  destruct (Ascii.eqb a c) eqn:E; [by constructor|].
  destruct (split_on c s) as [|p ps]; [by constructor; [cbn; rewrite E|]|].
  apply Forall_cons in IH as [Hp Hps]. constructor; [|done]. cbn. by rewrite E.
Qed.

Lemma join_split_on c s : join_with c (split_on c s) = s.
Proof.
  induction s as [|a s IH]; [done|]. cbn.
  destruct (Ascii.eqb a c) eqn:E.
  - apply Ascii.eqb_eq in E as ->. destruct (split_on c s) eqn:Hs.
    + by apply split_on_nonempty in Hs.
    + cbn [join_with]. rewrite app_nil_str. f_equal. done.
  - destruct (split_on c s) as [|p [|q ps]] eqn:Hs.
    + by apply split_on_nonempty in Hs.
    + cbn in *. by f_equal.
    + cbn [join_with] in *. rewrite app_cons_str. by f_equal.
Qed.

(** ** Decimal integers *)

Definition digit_char (d : Z) : ascii := ascii_of_N (Z.to_N (48 + d)).
Definition digit_val (c : ascii) : option Z :=
  let x := Z.of_N (N_of_ascii c) in
  if (48 <=? x) && (x <=? 57) then Some (x - 48) else None.

Fixpoint dec_go (fuel : nat) (n : Z) (acc : string) : string :=
  match fuel with
  | O => acc
  | S f =>
      let acc' := String (digit_char (n `mod` 10)) acc in
      if n / 10 =? 0 then acc' else dec_go f (n / 10) acc'
  end.

(** [to_string] of an unsigned integer; the fuel bounds its number of digits
    by its number of bits ([dec_val] shows it is enough). *)
Definition dec_string (n : Z) : string := dec_go (S (Z.to_nat (Z.log2 n))) n EmptyString.

(** [to_string] of a signed integer. *)
Definition int_string (z : Z) : string :=
  if z <? 0 then String dash (dec_string (- z)) else dec_string z.

(** [str::parse::<i32>]: an optional sign, then at least one digit, each step
    checked against the type's range. *)
Fixpoint parse_digits (add : Z → Z → Z) (acc : Z) (s : string) : option Z :=
  match s with
  | EmptyString => Some acc
  | String c s' =>
      d ← digit_val c;
      if in_signed 32 (acc * 10) && in_signed 32 (add (acc * 10) d)
      then parse_digits add (add (acc * 10) d) s'
      else None
  end.

Definition parse_nonempty (add : Z → Z → Z) (s : string) : option Z :=
  if is_empty s then None else parse_digits add 0 s.

Definition parse_i32 (s : string) : option Z :=
  match s with
  | EmptyString => None
  | String c s' =>
      if Ascii.eqb c "+"%char then parse_nonempty Z.add s'
      else if Ascii.eqb c dash then parse_nonempty Z.sub s'
      else parse_digits Z.add 0 s
  end.

(** The value of a digit string without any bound, and what counts as one. *)
Fixpoint digits_val (acc : Z) (s : string) : Z :=
  match s with
  | EmptyString => acc
  | String c s' => digits_val (acc * 10 + default 0 (digit_val c)) s'
  end.

Fixpoint all_digits (s : string) : bool :=
  match s with
  | EmptyString => true
  | String c s' => bool_decide (is_Some (digit_val c)) && all_digits s'
  end.

Lemma digit_val_char d : 0 ≤ d < 10 → digit_val (digit_char d) = Some d.
Proof.
  intros Hd. assert (∃ n : nat, (n < 10)%nat ∧ d = Z.of_nat n) as (n & Hn & ->).
  { exists (Z.to_nat d). lia. }
  do 10 (destruct n as [|n]; [reflexivity|]). lia.
Qed.

Lemma digit_val_range c d : digit_val c = Some d → 0 ≤ d < 10.
Proof. unfold digit_val. repeat case_match; intros; simplify_eq. lia. Qed.

Lemma all_digits_no_dash s : all_digits s = true → contains_char dash s = false.
Proof.
  induction s as [|c s IH]; [done|]. cbn. intros [Hc Hs]%andb_true_iff.
  rewrite IH by done. rewrite orb_false_r.
  destruct (Ascii.eqb c dash) eqn:E; [|done].
  apply Ascii.eqb_eq in E. subst. cbn in Hc. done.
Qed.

Lemma dec_go_digits fuel n acc :
  0 ≤ n → all_digits acc = true → all_digits (dec_go fuel n acc) = true.
Proof.
  revert n acc. induction fuel as [|f IH]; intros n acc Hn Hacc; [done|]. cbn.
  pose proof (Z.mod_pos_bound n 10 ltac:(lia)).
  assert (all_digits (String (digit_char (n `mod` 10)) acc) = true) as Hacc'.
  { cbn. by rewrite digit_val_char, bool_decide_true by eauto. }
  case_match; [done|]. apply IH; [|done]. apply Z.div_pos; lia.
Qed.

Lemma dec_go_val fuel n acc :
  0 ≤ n < 2 ^ Z.of_nat fuel → digits_val 0 (dec_go fuel n acc) = digits_val n acc ∨ fuel = O.
Proof.
  revert n acc. induction fuel as [|f IH]; intros n acc Hn; [by right|]. left.
  cbn [dec_go]. pose proof (Z.mod_pos_bound n 10 ltac:(lia)).
  pose proof (Z.div_mod n 10 ltac:(lia)) as Hdm.
  destruct (n / 10 =? 0) eqn:E.
  - apply Z.eqb_eq in E. cbn. rewrite digit_val_char by done. cbn.
    f_equal. lia.
  - apply Z.eqb_neq in E.
    assert (0 ≤ n / 10) by (apply Z.div_pos; lia).
    assert (n / 10 < 2 ^ Z.of_nat f).
    { rewrite Nat2Z.inj_succ, Z.pow_succ_r in Hn by lia. apply Z.div_lt_upper_bound; lia. }
    destruct (IH (n / 10) (String (digit_char (n `mod` 10)) acc)) as [->| ->]; [lia| |].
    + cbn. rewrite digit_val_char by done. cbn. f_equal. lia.
    + cbn in *. lia.
Qed.

Lemma dec_string_digits n : 0 ≤ n → all_digits (dec_string n) = true.
Proof. intros. by apply dec_go_digits. Qed.

Lemma dec_string_val n : 0 ≤ n → digits_val 0 (dec_string n) = n.
Proof.
  intros Hn. unfold dec_string.
  destruct (dec_go_val (S (Z.to_nat (Z.log2 n))) n EmptyString) as [->|?]; [|done|done].
  split; [done|]. rewrite Nat2Z.inj_succ, Z2Nat.id by apply Z.log2_nonneg.
  destruct (decide (n = 0)) as [->|]; [done|].
  apply Z.log2_spec. lia.
Qed.

Lemma dec_string_nonempty n : is_empty (dec_string n) = false.
Proof.
  unfold dec_string. cbn [dec_go]. case_match; [done|].
  generalize (digit_char (n `mod` 10)), EmptyString, (n / 10).
  generalize (Z.to_nat (Z.log2 n)). intros f. induction f as [|f IH]; intros d acc m; [done|].
  cbn. case_match; [done|]. apply IH.
Qed.

Lemma dec_string_inj n m : 0 ≤ n → 0 ≤ m → dec_string n = dec_string m → n = m.
Proof. intros Hn Hm H. rewrite <-(dec_string_val n), H by done. by apply dec_string_val. Qed.

Lemma digits_val_ge acc s : 0 ≤ acc → acc ≤ digits_val acc s.
Proof.
  revert acc. induction s as [|c s IH]; intros acc Hacc; cbn; [lia|].
  assert (0 ≤ default 0 (digit_val c)).
  { destruct (digit_val c) eqn:E; cbn; [|lia]. apply digit_val_range in E. lia. }
  specialize (IH (acc * 10 + default 0 (digit_val c)) ltac:(lia)). lia.
Qed.

(** The checked loop computes the unbounded value as long as it fits, upwards
    for a non-negative literal and downwards for a negative one. *)
Lemma parse_digits_add acc s :
  all_digits s = true → 0 ≤ acc → digits_val acc s < 2 ^ 31 →
  parse_digits Z.add acc s = Some (digits_val acc s).
Proof.
  revert acc. induction s as [|c s IH]; intros acc; [done|].
  intros [Hc Hs]%andb_true_iff Hacc Hv. cbn in *.
  apply bool_decide_eq_true in Hc as [d Hd]. rewrite Hd in *. cbn in *.
  pose proof (digit_val_range _ _ Hd).
  pose proof (digits_val_ge (acc * 10 + d) s ltac:(lia)).
  rewrite !(proj2 (in_signed_spec _ _)) by lia. cbn. apply IH; [done|lia|done].
Qed.

Lemma parse_digits_sub acc s :
  all_digits s = true → 0 ≤ acc → digits_val acc s ≤ 2 ^ 31 →
  parse_digits Z.sub (- acc) s = Some (- digits_val acc s).
Proof.
  revert acc. induction s as [|c s IH]; intros acc; [done|].
  intros [Hc Hs]%andb_true_iff Hacc Hv. cbn in *.
  apply bool_decide_eq_true in Hc as [d Hd]. rewrite Hd in *. cbn in *.
  pose proof (digit_val_range _ _ Hd).
  pose proof (digits_val_ge (acc * 10 + d) s ltac:(lia)).
  rewrite !(proj2 (in_signed_spec _ _)) by lia. cbn.
  replace (- acc * 10 - d) with (- (acc * 10 + d)) by lia. apply IH; [done|lia|done].
Qed.

Lemma parse_digits_range add acc s z :
  in_signed 32 acc = true → parse_digits add acc s = Some z → in_signed 32 z = true.
Proof.
  revert acc. induction s as [|c s IH]; intros acc Hacc; cbn; [by intros [= <-]|].
  destruct (digit_val c); cbn; [|done]. case_match eqn:E; [|done].
  apply andb_true_iff in E as [_ E]. by apply IH.
Qed.

(** A parsed integer is in range. *)
Lemma parse_i32_range s z : parse_i32 s = Some z → in_signed 32 z = true.
Proof.
  unfold parse_i32, parse_nonempty. repeat case_match; try done;
    eapply parse_digits_range; done.
Qed.

Lemma parse_digits_add_ge acc s z : 0 ≤ acc → parse_digits Z.add acc s = Some z → acc ≤ z.
Proof.
  revert acc. induction s as [|c s IH]; intros acc Hacc; cbn; [intros [= <-]; lia|].
  destruct (digit_val c) as [d|] eqn:Hd; cbn; [|done]. pose proof (digit_val_range _ _ Hd).
  case_match; [|done]. intros Hz%IH; lia.
Qed.

(** Without a minus sign the result is not negative. *)
Lemma parse_i32_no_dash s z :
  contains_char dash s = false → parse_i32 s = Some z → 0 ≤ z < 2 ^ 31.
Proof.
  intros Hs Hz. pose proof (parse_i32_range _ _ Hz) as [_ ?]%in_signed_spec.
  split; [|done]. unfold parse_i32, parse_nonempty in Hz.
  destruct s as [|c s]; [done|]. cbn in Hs. apply orb_false_iff in Hs as [Hc _]. rewrite Hc in Hz.
  repeat case_match; try done; by apply parse_digits_add_ge in Hz.
Qed.

(** A digit string starts with a digit, hence with no sign. *)
Lemma digit_not_sign c : is_Some (digit_val c) → Ascii.eqb c "+"%char = false ∧ Ascii.eqb c dash = false.
Proof.
  intros [d Hd]. split; apply Ascii.eqb_neq; intros ->; discriminate Hd.
Qed.

(** Parsing undoes printing on the whole range of the type. *)
Lemma parse_int_string z : in_signed 32 z = true → parse_i32 (int_string z) = Some z.
Proof.
  intros Hz%in_signed_spec. change (32 - 1) with 31 in Hz.
  unfold int_string. destruct (z <? 0) eqn:E.
  - apply Z.ltb_lt in E. cbn -[dec_string parse_digits]. unfold parse_nonempty. rewrite dec_string_nonempty.
    change 0 with (- 0) at 1. rewrite parse_digits_sub;
      rewrite ?dec_string_val; auto using dec_string_digits with lia.
    by rewrite Z.opp_involutive.
  - apply Z.ltb_ge in E. pose proof (dec_string_nonempty z) as Hne.
    pose proof (dec_string_digits z E) as Hd.
    pose proof (dec_string_val z E) as Hv.
    destruct (dec_string z) as [|c s] eqn:Hs; [done|].
    pose proof Hd as Hd'. cbn in Hd'. apply andb_true_iff in Hd' as [Hc _].
    apply bool_decide_eq_true, digit_not_sign in Hc as [H1 H2].
    unfold parse_i32. rewrite H1, H2. rewrite parse_digits_add by (try rewrite Hv; done || lia). by rewrite Hv.
Qed.

(** Only a negative integer prints a dash. *)
Lemma int_string_no_dash z : 0 ≤ z → contains_char dash (int_string z) = false.
Proof.
  intros Hz. unfold int_string. rewrite (proj2 (Z.ltb_ge _ _)) by done.
  by apply all_digits_no_dash, dec_string_digits.
Qed.

(** ** UTF-8 *)

Definition byte_in (lo hi : N) (c : ascii) : bool :=
  (lo <=? N_of_ascii c)%N && (N_of_ascii c <=? hi)%N.
Definition is_cont : ascii → bool := byte_in 128 191.

(** The well-formed byte sequences, by the length of the encoded scalar. *)
Definition utf8_2 (a b : ascii) : bool := byte_in 194 223 a && is_cont b.
Definition utf8_3 (a b c : ascii) : bool :=
  ((byte_in 224 224 a && byte_in 160 191 b) || (byte_in 225 236 a && is_cont b)
   || (byte_in 237 237 a && byte_in 128 159 b) || (byte_in 238 239 a && is_cont b))
  && is_cont c.
Definition utf8_4 (a b c d : ascii) : bool :=
  ((byte_in 240 240 a && byte_in 144 191 b) || (byte_in 241 243 a && is_cont b)
   || (byte_in 244 244 a && byte_in 128 143 b))
  && is_cont c && is_cont d.

Fixpoint utf8_valid (s : string) : bool :=
  match s with
  | EmptyString => true
  | String a s1 =>
      if byte_in 0 127 a then utf8_valid s1
      else match s1 with
      | EmptyString => false
      | String b s2 =>
          if utf8_2 a b then utf8_valid s2
          else match s2 with
          | EmptyString => false
          | String c s3 =>
              if utf8_3 a b c then utf8_valid s3
              else match s3 with
              | EmptyString => false
              | String d s4 => utf8_4 a b c d && utf8_valid s4
              end
          end
      end
  end.

(** [String::from_utf8]. *)
Definition from_utf8 (bytes : string) : option string :=
  if utf8_valid bytes then Some bytes else None.

Lemma from_utf8_spec bytes s : from_utf8 bytes = Some s ↔ s = bytes ∧ utf8_valid bytes = true.
Proof. unfold from_utf8. case_match; naive_solver. Qed.

(** The decimal strings the agent prints are ASCII, hence valid UTF-8. *)
Lemma digit_ascii c : is_Some (digit_val c) → byte_in 0 127 c = true.
Proof.
  intros [d Hd]. unfold digit_val, byte_in in *. case_match eqn:E; [|done].
  apply andb_true_iff in E as [E1%Z.leb_le E2%Z.leb_le].
  apply andb_true_iff. rewrite !N.leb_le. lia.
Qed.

Lemma all_digits_utf8 s : all_digits s = true → utf8_valid s = true.
Proof.
  induction s as [|c s IH]; [done|]. cbn -[byte_in]. intros [Hc Hs]%andb_true_iff.
  apply bool_decide_eq_true in Hc. rewrite (digit_ascii _ Hc). by apply IH.
Qed.

#[export] Hint Resolve dec_string_digits all_digits_utf8 all_digits_no_dash
  int_string_no_dash dec_string_nonempty : sky.
