(* ===== verification/Error.v ===== *)
(** * src/error/mod.rs: the crate's error type

    The payloads that come from other crates (tonic, tokio, rdkafka, a boxed
    [std::error::Error]) are the types of the class [ForeignErrors], with the
    text their [Display] writes. *)

From S2P Require Import Prelude.

Class ForeignErrors := {
  transport_error : Type;  transport_display : transport_error → string;
  status : Type;           status_display : status → string;
  join_error : Type;       join_display : join_error → string;
  rdkafka_error : Type;    rdkafka_display : rdkafka_error → string;
  other_error : Type;      other_display : other_error → string
}.

(** The error of the Kafka reporter (src/reporter/kafka.rs). *)
Module KafkaError.
Inductive t `{ForeignErrors} := RdKafka (e : rdkafka_error) | TopicNotFound (topic : string).

Definition display `{ForeignErrors} (e : t) : string :=
  match e with
  | RdKafka e => rdkafka_display e
  | TopicNotFound topic => "topic not found: " +:+ topic
  end.
End KafkaError.

Inductive Error `{ForeignErrors} :=
| DecodePropagation (msg : string)
| ReporterShutdown (msg : string)
| TonicTransport (e : transport_error)
| TonicStatus (e : status)
| TokioJoin (e : join_error)
| KafkaReporter (e : KafkaError.t)
| Other (e : other_error).

(** The [Display] that the [#[error(..)]] attributes derive. *)
Definition display `{ForeignErrors} (e : Error) : string :=
  match e with
  | DecodePropagation msg => "decode propagation failed: " +:+ msg
  | ReporterShutdown msg => "reporter shutdown failed: " +:+ msg
  | TonicTransport e => "tonic transport failed: " +:+ transport_display e
  | TonicStatus e => "tonic status: " +:+ status_display e
  | TokioJoin e => "tokio join failed: " +:+ join_display e
  | KafkaReporter e => "kafka reporter failed: " +:+ KafkaError.display e
  | Other e => other_display e
  end.

(** Foreign errors that are their own text. *)
Definition text_errors : ForeignErrors := {|
  transport_error := string; transport_display := id;
  status := string; status_display := id;
  join_error := string; join_display := id;
  rdkafka_error := string; rdkafka_display := id;
  other_error := string; other_display := id
|}.
