(* ===== verification/Common.v ===== *)
(** * src/common: system_time.rs and random_generator.rs

    The clock and the random source belong to the operating system and to the
    [uuid] crate: their readings are arguments. A [SystemTime] is the number of
    nanoseconds since the Unix epoch (negative before it); a UUID is the value
    of [as_u128]. *)

From S2P Require Import Prelude RustStr.

Local Open Scope Z_scope.

(** ** system_time.rs *)
Module SystemTime.
Inductive TimePeriod := Start | Log | Metric | End.

(** [SystemTime::duration_since(UNIX_EPOCH)]: an error before the epoch. *)
Definition duration_since_epoch (t : Z) : result Z unit :=
  if t <? 0 then Err tt else Ok t.

(** [Duration::as_millis() as i64]: truncated to 64 bits. *)
Definition as_millis_i64 (dur : Z) : Z := wrap_signed 64 (dur / 1000000).

(** [.map(|dur| dur.as_millis() as i64).unwrap_or_default()]. *)
Definition millis_since_epoch (t : Z) : Z :=
  match duration_since_epoch t with Ok dur => as_millis_i64 dur | Err _ => 0 end.

(** The two variants selected by the cargo feature [mock]. *)
Definition fetch_time_mock (period : TimePeriod) : Z :=
  match period with Start => 1 | Log => 10 | Metric => 10 | End => 100 end.
Definition fetch_time_real (now : Z) (_period : TimePeriod) : Z := millis_since_epoch now.

Definition fetch_time `{!Build} (now : Z) (period : TimePeriod) : Z :=
  if feature_mock then fetch_time_mock period else fetch_time_real now period.

Lemma millis_range t : in_signed 64 (millis_since_epoch t) = true.
Proof.
  unfold millis_since_epoch, as_millis_i64. case_match; [by apply wrap_signed_range|done].
Qed.

(** The result is a valid [i64] whatever the clock says. *)
Lemma fetch_time_range `{!Build} now period : in_signed 64 (fetch_time now period) = true.
Proof.
  unfold fetch_time, fetch_time_mock, fetch_time_real.
  case_match; [by case_match|apply millis_range].
Qed.

(** A clock that does not go back gives times that do not go back, as long as
    the reading fits: for about 292 million years after the epoch. *)
Lemma fetch_time_mono t1 t2 p :
  0 ≤ t1 ≤ t2 → t2 < 2 ^ 63 * 1000000 → fetch_time_real t1 p ≤ fetch_time_real t2 p.
Proof.
  intros H12 Hmax. unfold fetch_time_real, millis_since_epoch, duration_since_epoch.
  rewrite !(proj2 (Z.ltb_ge _ _)) by lia. unfold as_millis_i64.
  pose proof (Z.div_le_mono t1 t2 1000000 ltac:(lia) ltac:(lia)).
  pose proof (Z.div_pos t1 1000000 ltac:(lia) ltac:(lia)).
  assert (t2 / 1000000 < 2 ^ 63) by (apply Z.div_lt_upper_bound; lia).
  rewrite !wrap_signed_id; rewrite ?in_signed_spec; change (64 - 1) with 63; lia.
Qed.
End SystemTime.

(** ** random_generator.rs *)
Module RandomGenerator.
(** [Uuid::new_v4().as_u128().to_string()], for the UUID the crate drew. *)
Definition generate (uuid : Z) : string := dec_string uuid.

(** Identifiers are never empty, hold decimal digits only (no dash, so they
    need no escaping in the propagation header) and are distinct for distinct
    UUIDs. *)
Lemma generate_nonempty uuid : is_empty (generate uuid) = false.
Proof. apply dec_string_nonempty. Qed.

Lemma generate_inj u1 u2 :
  in_unsigned 128 u1 = true → in_unsigned 128 u2 = true →
  generate u1 = generate u2 → u1 = u2.
Proof. rewrite !in_unsigned_spec. intros [??] [??]. by apply dec_string_inj. Qed.

Lemma generate_utf8 uuid : in_unsigned 128 uuid = true → utf8_valid (generate uuid) = true.
Proof. rewrite in_unsigned_spec. intros [? _]. eauto with sky. Qed.
End RandomGenerator.

#[export] Hint Resolve RandomGenerator.generate_nonempty SystemTime.fetch_time_range : sky.
