(* ===== verification/F64.v ===== *)
(** * The [f64] type

    IEEE 754 binary64 through the Standard Library's executable specification
    ([SpecFloat], no axioms): 53 bits of precision, exponents below 1024,
    rounding to nearest even. [partial_cmp] is unordered on NaN only; on the
    other values it is a total preorder (with [-0 = +0]). *)

From Stdlib Require Export SpecFloat.
From S2P Require Import Prelude.

Local Open Scope Z_scope.

Definition f64 : Type := spec_float.

Definition f64_add (a b : f64) : f64 := SFadd 53 1024 a b.
Definition f64_sub (a b : f64) : f64 := SFsub 53 1024 a b.

(** [partial_cmp] and [==]. *)
Definition f64_cmp (a b : f64) : option comparison := SFcompare a b.
Definition f64_eqb (a b : f64) : bool :=
  match f64_cmp a b with Some Eq => true | _ => false end.

(** The value nearest to an integer, and the constant [0.]. *)
Definition f64_of_Z (z : Z) : f64 := binary_normalize 53 1024 z 0 false.
Definition f64_zero : f64 := S754_zero false.

Definition is_nan (a : f64) : bool :=
  match a with S754_nan => true | _ => false end.

(** ** The order on the values that are not NaN *)

(** The position of a value on the number line, as a lexicographic key. *)
Definition f64_key (a : f64) : Z * Z * Z :=
  match a with
  | S754_infinity true => (-2, 0, 0)
  | S754_finite true m e => (-1, - e, - Zpos m)
  | S754_zero _ => (0, 0, 0)
  | S754_finite false m e => (1, e, Zpos m)
  | S754_infinity false => (2, 0, 0)
  | S754_nan => (3, 0, 0)
  end.

Definition key_cmp (k1 k2 : Z * Z * Z) : comparison :=
  let '(a1, b1, c1) := k1 in
  let '(a2, b2, c2) := k2 in
  match a1 ?= a2 with
  | Eq => match b1 ?= b2 with Eq => c1 ?= c2 | c => c end
  | c => c
  end.

Lemma f64_cmp_key a b :
  is_nan a = false → is_nan b = false → f64_cmp a b = Some (key_cmp (f64_key a) (f64_key b)).
Proof.
  destruct a as [[]|[]| |[] m1 e1], b as [[]|[]| |[] m2 e2]; intros Ha Hb;
    try discriminate; try reflexivity; cbn.
  - rewrite Z.compare_opp, (Z.compare_antisym e1 e2). by destruct (e1 ?= e2).
Qed.

Lemma f64_cmp_nan a b : is_nan a || is_nan b = true → f64_cmp a b = None.
Proof. by destruct a as [[]|[]| |[]], b as [[]|[]| |[]]. Qed.

(** Strict order of two values; [-0] and [+0] are equivalent. *)
Definition f64_lt (a b : f64) : Prop := f64_cmp a b = Some Lt.
Definition f64_le (a b : f64) : Prop := f64_cmp a b = Some Lt ∨ f64_cmp a b = Some Eq.

Lemma key_cmp_lt k1 k2 :
  key_cmp k1 k2 = Lt ↔
  k1.1.1 < k2.1.1 ∨ (k1.1.1 = k2.1.1 ∧ (k1.1.2 < k2.1.2 ∨ (k1.1.2 = k2.1.2 ∧ k1.2 < k2.2))).
Proof.
  destruct k1 as [[a1 b1] c1], k2 as [[a2 b2] c2]; cbn.
  destruct (Z.compare_spec a1 a2), (Z.compare_spec b1 b2), (Z.compare_spec c1 c2);
    split; intros; try done; lia.
Qed.

Lemma key_cmp_eq k1 k2 : key_cmp k1 k2 = Eq ↔ k1 = k2.
Proof.
  destruct k1 as [[a1 b1] c1], k2 as [[a2 b2] c2]; cbn.
  destruct (Z.compare_spec a1 a2), (Z.compare_spec b1 b2), (Z.compare_spec c1 c2);
    split; intros; simplify_eq; try done; lia.
Qed.

Lemma key_cmp_antisym k1 k2 : key_cmp k2 k1 = CompOpp (key_cmp k1 k2).
Proof.
  destruct k1 as [[a1 b1] c1], k2 as [[a2 b2] c2]; cbn.
  rewrite (Z.compare_antisym a1 a2), (Z.compare_antisym b1 b2), (Z.compare_antisym c1 c2).
  by destruct (a1 ?= a2), (b1 ?= b2), (c1 ?= c2).
Qed.

Lemma f64_lt_key a b :
  is_nan a = false → is_nan b = false → f64_lt a b ↔ key_cmp (f64_key a) (f64_key b) = Lt.
Proof. intros Ha Hb. unfold f64_lt. rewrite f64_cmp_key by done. split; congruence. Qed.

Lemma f64_cmp_not_nan a b c : f64_cmp a b = Some c → is_nan a = false ∧ is_nan b = false.
Proof.
  intros H. destruct (is_nan a || is_nan b) eqn:E.
  - rewrite f64_cmp_nan in H by done. done.
  - by apply orb_false_iff in E.
Qed.

Lemma f64_lt_irrefl a : ¬ f64_lt a a.
Proof.
  intros H. destruct (f64_cmp_not_nan _ _ _ H) as [Ha _].
  apply f64_lt_key in H; [|done..]. rewrite (proj2 (key_cmp_eq _ _)) in H; done.
Qed.

Lemma f64_lt_trans a b c : f64_lt a b → f64_lt b c → f64_lt a c.
Proof.
  intros H1 H2. destruct (f64_cmp_not_nan _ _ _ H1) as [Ha Hb].
  destruct (f64_cmp_not_nan _ _ _ H2) as [_ Hc].
  rewrite f64_lt_key, key_cmp_lt in * by done. lia.
Qed.

Lemma f64_le_lt_trans a b c : f64_le a b → f64_lt b c → f64_lt a c.
Proof.
  intros [H1|H1] H2; [by eapply f64_lt_trans|].
  destruct (f64_cmp_not_nan _ _ _ H1) as [Ha Hb].
  destruct (f64_cmp_not_nan _ _ _ H2) as [_ Hc].
  rewrite f64_cmp_key in H1 by done. injection H1 as H1%key_cmp_eq.
  rewrite f64_lt_key in * by done. by rewrite H1.
Qed.

Lemma f64_lt_le_trans a b c : f64_lt a b → f64_le b c → f64_lt a c.
Proof.
  intros H1 [H2|H2]; [by eapply f64_lt_trans|].
  destruct (f64_cmp_not_nan _ _ _ H1) as [Ha Hb].
  destruct (f64_cmp_not_nan _ _ _ H2) as [_ Hc].
  rewrite f64_cmp_key in H2 by done. injection H2 as H2%key_cmp_eq.
  rewrite f64_lt_key in * by done. by rewrite <-H2.
Qed.

Lemma f64_le_trans a b c : f64_le a b → f64_le b c → f64_le a c.
Proof.
  intros H1 [H2|H2]; [left; by eapply f64_le_lt_trans|].
  destruct H1 as [H1|H1]; [left; eapply f64_lt_le_trans; [exact H1|by right]|]. right.
  destruct (f64_cmp_not_nan _ _ _ H1) as [Ha Hb].
  destruct (f64_cmp_not_nan _ _ _ H2) as [_ Hc].
  rewrite f64_cmp_key in * by done. injection H1 as H1%key_cmp_eq. by rewrite H1.
Qed.

Lemma f64_le_refl a : is_nan a = false → f64_le a a.
Proof. intros Ha. right. rewrite f64_cmp_key by done. f_equal. by apply key_cmp_eq. Qed.

Lemma f64_le_antisym a b : f64_le a b → f64_le b a → f64_cmp a b = Some Eq.
Proof. intros [H|H] Hba; [|done]. destruct (f64_lt_irrefl a). by eapply f64_lt_le_trans. Qed.

Lemma f64_le_number a b : f64_le a b → is_nan a = false ∧ is_nan b = false.
Proof. intros [H|H]; by apply f64_cmp_not_nan in H. Qed.

(** Swapping the operands mirrors the answer; two numbers always compare. *)
Lemma f64_cmp_antisym a b : f64_cmp b a = CompOpp <$> f64_cmp a b.
Proof.
  destruct (is_nan a || is_nan b) eqn:E.
  - rewrite (f64_cmp_nan a b), (f64_cmp_nan b a) by (done || by rewrite orb_comm). done.
  - apply orb_false_iff in E as [Ha Hb]. rewrite !f64_cmp_key by done.
    cbn. f_equal. apply key_cmp_antisym.
Qed.

Lemma f64_total a b :
  is_nan a = false → is_nan b = false → f64_lt a b ∨ f64_cmp a b = Some Eq ∨ f64_lt b a.
Proof.
  intros Ha Hb. unfold f64_lt. rewrite (f64_cmp_antisym a b), f64_cmp_key by done.
  destruct (key_cmp _ _); cbn; auto.
Qed.

Lemma f64_eqb_spec a b : f64_eqb a b = true ↔ f64_cmp a b = Some Eq.
Proof. unfold f64_eqb. repeat case_match; naive_solver. Qed.

(** The comparison operators. *)
Definition f64_ltb (a b : f64) : bool := match f64_cmp a b with Some Lt => true | _ => false end.
Definition f64_leb (a b : f64) : bool :=
  match f64_cmp a b with Some Lt | Some Eq => true | _ => false end.

Lemma f64_ltb_spec a b : f64_ltb a b = true ↔ f64_lt a b.
Proof. unfold f64_ltb, f64_lt. repeat case_match; naive_solver. Qed.
Lemma f64_leb_spec a b : f64_leb a b = true ↔ f64_le a b.
Proof. unfold f64_leb, f64_le. repeat case_match; naive_solver. Qed.

#[export] Hint Resolve f64_lt_trans f64_le_lt_trans f64_lt_le_trans : sky.
