(* ===== verification/Assert.v ===== *)
(** * Programs that check

    The assertions of the test programs, as panics: [assert_eq!], [assert_ne!],
    [assert!], indexing, [unwrap]; and, for a check without side effects, what it
    is to pass. The texts of the panics leave out the Debug output of the
    values. *)

From S2P Require Import Prelude F64.

Local Open Scope sky_scope.

Section Assert.
Context {S : Type}.

Definition UNWRAP_ERR_MSG : string := "called `Result::unwrap()` on an `Err` value".
Definition UNWRAP_NONE_MSG : string := "called `Option::unwrap()` on a `None` value".
Definition unwrap {T E} (r : result T E) : M S T :=
  match r with Ok t => ret t | Err _ => panic UNWRAP_ERR_MSG end.
Definition assert_eq {A} `{!EqDecision A} (left right : A) : M S unit :=
  panic_unless (bool_decide (left = right)) "assertion `left == right` failed".
(** Equality of [f64] is not reflexive. *)
Definition assert_eq_f64 (left right : f64) : M S unit :=
  panic_unless (f64_eqb left right) "assertion `left == right` failed".
(** [list[i]] and [list.last().unwrap()]. *)
Definition index {A} (l : list A) (i : nat) : M S A := expect "index out of bounds" (l !! i).
Definition last_of {A} (l : list A) : M S A := expect UNWRAP_NONE_MSG (last l).

(** [for _ in 0..n]. *)
Fixpoint repeatedly (n : nat) (body : M S unit) : M S unit :=
  match n with O => ret tt | Datatypes.S n => body ;; repeatedly n body end.

Definition assert_ne {A} `{!EqDecision A} (left right : A) : M S unit :=
  panic_unless (bool_decide (left ≠ right)) "assertion `left != right` failed".
Definition assert (c : bool) : M S unit := panic_unless c "assertion failed".
End Assert.

(** ** Checks that pass, whatever the state *)
Section Checks.
Context {S : Type}.

Definition passes (m : M S unit) : Prop := ∀ n, n ⊢ m ⇓ tt ⊣ n.

Lemma passes_bind m k : passes m → passes k → passes (m ;; k).
Proof. intros Hm Hk n. rewrite (bind_Ret _ _ _ _ _ (Hm n)). apply Hk. Qed.
Lemma passes_ret : passes (ret tt).
Proof. done. Qed.
Lemma passes_assert {A} `{!EqDecision A} (a b : A) : a = b → passes (assert_eq a b).
Proof. intros -> n. unfold assert_eq. by rewrite bool_decide_eq_true_2. Qed.
Lemma passes_assert_f64 a b : f64_eqb a b = true → passes (assert_eq_f64 a b).
Proof. intros H n. unfold assert_eq_f64. by rewrite H. Qed.
Lemma passes_assert_ne {A} `{!EqDecision A} (a b : A) : a ≠ b → passes (assert_ne a b).
Proof. intros H n. unfold assert_ne. by rewrite bool_decide_eq_true_2. Qed.
Lemma passes_assert_true b : b = true → passes (assert b).
Proof. by intros -> n. Qed.
Lemma passes_expect {A} msg (o : option A) x (k : A → M S unit) :
  o = Some x → passes (k x) → passes (y <- expect msg o ;; k y).
Proof. intros ->. done. Qed.
Lemma passes_if (b : bool) m m' : b = true → passes m → passes (if b then m else m').
Proof. by intros ->. Qed.
Lemma passes_else (b : bool) m m' : b = false → passes m' → passes (if b then m else m').
Proof. by intros ->. Qed.
End Checks.
