(* ===== verification/WaitGroup.v ===== *)
(** * src/common/wait_group.rs

    A counter behind a mutex, with a condition variable on which
    [TracingContext::wait] sleeps until every asynchronous span is finished.
    The mutex and the condition variable are the standard library's: the mutex
    is poisoned when a thread panics while it holds the guard, and a sleeping
    thread may be woken spuriously. *)

From S2P Require Import Prelude.

Local Open Scope Z_scope.
Local Open Scope sky_scope.

Definition POISON_MSG : string := "called `Result::unwrap()` on an `Err` value: PoisonError".

(** [Inner { var, count: Mutex<usize> }]; the threads waiting on [var] are in
    [Machine.state] below. *)
Record WaitGroup := { count : Z; poisoned : bool }.

Definition set_count (c : Z) (wg : WaitGroup) : WaitGroup :=
  {| count := c; poisoned := poisoned wg |}.

(** [WaitGroup::default]. *)
Definition wg_default : WaitGroup := {| count := 0; poisoned := false |}.

Section Operations.
Context {BC : Build}.

(** [self.inner.count.lock().unwrap()]. *)
Definition lock_count : M WaitGroup Z :=
  p <- gets poisoned ;; if p then panic POISON_MSG else gets count.

(** A computation run while the guard is held: a panic poisons the mutex. *)
Definition guarded {A} (m : M WaitGroup A) : M WaitGroup A := λ wg,
  match m wg with
  | (Panic e, wg') => (Panic e, {| count := count wg'; poisoned := true |})
  | r => r
  end.

Definition wg_add (n : Z) : M WaitGroup unit :=
  c <- lock_count ;;
  guarded (c' <- usize_add c n ;; modify (set_count c')).

(** The boolean result says that [notify_all] was called. *)
Definition wg_done : M WaitGroup bool :=
  c <- lock_count ;;
  guarded (c' <- usize_sub c 1 ;; modify (set_count c');; ret (c' =? 0)).

(** One evaluation of the loop condition of [wait], under the lock: [false]
    means that the thread goes to sleep on the condition variable. *)
Definition wait_check : M WaitGroup bool := c <- lock_count ;; ret (negb (0 <? c)).

(** The operations on a healthy counter. *)
Lemma wg_add_ok n c :
  in_unsigned usize_bits (c + n) = true →
  {| count := c; poisoned := false |} ⊢ wg_add n ⇓ tt ⊣ {| count := c + n; poisoned := false |}.
Proof. intros H. cbv [wg_add lock_count guarded usize_add arith]. cbn. by rewrite H. Qed.

Lemma wg_done_ok c :
  0 < c < 2 ^ usize_bits →
  {| count := c; poisoned := false |} ⊢ wg_done
    ⇓ (c - 1 =? 0) ⊣ {| count := c - 1; poisoned := false |}.
Proof.
  intros H. cbv [wg_done lock_count guarded usize_sub arith]. cbn.
  assert (in_unsigned usize_bits (c - 1) = true) as ->; [|done].
  apply in_unsigned_spec. lia.
Qed.

(** One [done] too many: a panic that poisons the mutex when overflow checks
    are on, a counter of [2^64 - 1] (so that [wait] never returns) when they
    are off. *)
Lemma wg_done_underflow :
  wg_done wg_default =
    if overflow_checks then (Panic SUB_OVERFLOW, {| count := 0; poisoned := true |})
    else (Ret false, {| count := 2 ^ usize_bits - 1; poisoned := false |}).
Proof. cbv [wg_done lock_count guarded usize_sub arith]. cbn. by destruct overflow_checks. Qed.

Lemma wait_check_ok c :
  {| count := c; poisoned := false |} ⊢ wait_check ⇓ negb (0 <? c) ⊣ {| count := c; poisoned := false |}.
Proof. done. Qed.
End Operations.

(** ** The counter shared by threads

    [waiters] gives the state of each thread inside [wait]. Every constructor
    is one critical section of the mutex, or a wake-up of the condition
    variable. *)
Module Machine.
Inductive wpc := Asleep | Woken | Returned.
#[global] Instance wpc_eq_dec : EqDecision wpc.
Proof. solve_decision. Defined.

Record state := { wg : WaitGroup; waiters : gmap nat wpc }.

(** [notify_all]. *)
Definition wake (pc : wpc) : wpc := match pc with Asleep => Woken | pc => pc end.
Definition notify_all (ws : gmap nat wpc) : gmap nat wpc := wake <$> ws.

Inductive step `{!Build} : state → state → Prop :=
| step_add n s wg' :
    (0 < n)%Z → (count (wg s) + n < 2 ^ usize_bits)%Z →
    wg s ⊢ wg_add n ⇓ tt ⊣ wg' →
    step s {| wg := wg'; waiters := waiters s |}
| step_done s zero wg' :
    (0 < count (wg s))%Z →
    wg s ⊢ wg_done ⇓ zero ⊣ wg' →
    step s {| wg := wg'; waiters := if zero : bool then notify_all (waiters s) else waiters s |}
| step_check t s go wg' :
    (waiters s !! t = None ∨ waiters s !! t = Some Woken) →
    wg s ⊢ wait_check ⇓ go ⊣ wg' →
    step s {| wg := wg'; waiters := <[t := if go : bool then Returned else Asleep]> (waiters s) |}
| step_spurious t s :
    waiters s !! t = Some Asleep →
    step s {| wg := wg s; waiters := <[t := Woken]> (waiters s) |}.

Definition init : state := {| wg := wg_default; waiters := ∅ |}.

(** A thread sleeps only while the counter is positive. *)
Record inv (s : state) : Prop := {
  inv_healthy : poisoned (wg s) = false;
  inv_range : (0 ≤ count (wg s) < 2 ^ usize_bits)%Z;
  inv_asleep : ∀ t, waiters s !! t = Some Asleep → (0 < count (wg s))%Z
}.

Section Invariant.
Context {BC : Build}.

Lemma wake_not_asleep ws t : notify_all ws !! t ≠ Some Asleep.
Proof.
  unfold notify_all. rewrite lookup_fmap.
  by destruct (ws !! t) as [[]|].
Qed.

Lemma counter_inv_init : inv init.
Proof. split; [done|cbn; unfold usize_bits; lia|done]. Qed.

Lemma counter_inv_step s s' : inv s → step s s' → inv s'.
Proof.
  intros [Hp Hr Ha]. destruct s as [[c p] ws]. cbn in *. subst p.
  inversion 1 as [n ? wg' Hn Hmax Hrun|? zero wg' Hc Hrun|t ? go wg' Ht Hrun|t ? Ht];
    simplify_eq/=.
  - rewrite wg_add_ok in Hrun by (apply in_unsigned_spec; lia). simplify_eq.
    split; cbn; [done|lia|]. intros. specialize (Ha _ ltac:(done)). lia.
  - rewrite wg_done_ok in Hrun by lia. simplify_eq. split; cbn; [done|lia|].
    intros t. case_match eqn:E.
    + intros []%wake_not_asleep.
    + apply Z.eqb_neq in E. lia.
  - rewrite wait_check_ok in Hrun. simplify_eq. split; cbn; [done|lia|].
    intros t'. destruct (0 <? c) eqn:E; cbn.
    + apply Z.ltb_lt in E. done.
    + rewrite lookup_insert. case_decide; naive_solver.
  - split; cbn; [done|lia|]. intros t'. rewrite lookup_insert. case_decide; naive_solver.
Qed.

Lemma counter_inv_reachable s : rtc step init s → inv s.
Proof.
  intros H. remember init as s0 eqn:E. assert (inv s0) as Hinv by (subst; apply counter_inv_init).
  clear E. induction H; eauto using counter_inv_step.
Qed.

(** A thread leaves [wait] only through a check that finds zero. *)
Lemma returned_at_zero s s' t :
  inv s → step s s' → waiters s !! t ≠ Some Returned →
  waiters s' !! t = Some Returned → count (wg s) = 0.
Proof.
  intros [Hp Hr Ha] Hstep Hn Hy. destruct s as [[c p] ws]. cbn in *. subst p.
  inversion Hstep as [n ? wg' ? ? Hrun|? zero wg' ? Hrun|t' ? go wg' ? Hrun|t' ? Ht];
    simplify_eq/=; try done.
  - destruct zero; [|done]. unfold notify_all in Hy. rewrite lookup_fmap in Hy.
    destruct (ws !! t) as [[]|]; done.
  - rewrite wait_check_ok in Hrun. simplify_eq.
    rewrite lookup_insert in Hy. case_decide; [|done]. destruct (0 <? c) eqn:E; [done|].
    apply Z.ltb_ge in E. lia.
  - rewrite lookup_insert in Hy. case_decide; naive_solver.
Qed.
End Invariant.

(** C19: [wait] returns exactly when the counter is zero: a thread leaves the
    loop only at zero, and once the counter is zero no waiting thread can be
    stuck asleep: each of them returns with one step of its own, whatever the
    interleaving of [add], [done] and spurious wake-ups before it. *)
Theorem wait_returns_iff_zero `{!Build} s t :
  rtc step init s → waiters s !! t ≠ Some Returned →
  (∀ s', step s s' → waiters s' !! t = Some Returned → count (wg s) = 0%Z) ∧
  (count (wg s) = 0%Z → ∃ s', step s s' ∧ waiters s' !! t = Some Returned).
Proof.
  intros Hreach Ht. pose proof (counter_inv_reachable _ Hreach) as Hinv. split.
  - intros s' Hs Ht'. by eapply returned_at_zero.
  - intros H0. destruct Hinv as [Hp Hr Ha]. destruct s as [[c p] ws]. cbn in *. subst.
    exists {| wg := {| count := 0; poisoned := false |}; waiters := <[t := Returned]> ws |}.
    split; [|cbn; by rewrite lookup_insert_eq].
    apply (step_check t {| wg := _; waiters := ws |} true); [cbn|done].
    destruct (ws !! t) as [[]|] eqn:E; [specialize (Ha t E); lia|by right|done|by left].
Qed.

(** One span in flight: the context thread sleeps, the span finishes. *)
Definition witness_state : state :=
  {| wg := wg_default; waiters := {[ 0%nat := Woken ]} |}.

Lemma wait_returns_iff_zero_witness :
  ∃ s', @step release_build witness_state s' ∧ waiters s' !! 0%nat = Some Returned.
Proof.
  apply (@wait_returns_iff_zero release_build witness_state 0%nat); [|done|done].
  eapply rtc_l; [apply (step_add 1); [lia|cbn; unfold usize_bits; lia|reflexivity]|].
  eapply rtc_l; [apply (step_check 0); [by left|reflexivity]|].
  eapply rtc_l; [apply step_done; [cbn; lia|reflexivity]|]. apply rtc_refl.
Defined.
End Machine.
