(* ===== verification/Proto.v ===== *)
(** * src/proto/v3: the protobuf messages

    The message types are generated at build time from the data-collect
    protocol, which is a git submodule; the records below list the fields that
    the crate and its tests write or read, with the generated names. The
    numbers the generator gives to the variants of an enumeration ([as i32])
    are not in the repository: they are the class [ProtoNums]. The methods
    [add_log] and [add_tag] of proto/v3/mod.rs are in [SpanObject]. *)

From S2P Require Import Prelude Common F64.

Local Open Scope Z_scope.

(** ** Enumerations *)
Inductive SpanType := Entry | Exit | Local.
Inductive SpanLayer := Unknown | Http.
Inductive RefType := CrossProcess | CrossThread.

(** [variant as i32]. *)
Class ProtoNums := {
  SpanType_as_i32 : SpanType → Z;
  SpanLayer_as_i32 : SpanLayer → Z;
  RefType_as_i32 : RefType → Z
}.

(** They are numbers of the type [i32]. *)
Class ProtoNumsLaws {PN : ProtoNums} : Prop := {
  SpanType_i32 ty : in_signed 32 (SpanType_as_i32 ty) = true;
  SpanLayer_i32 ly : in_signed 32 (SpanLayer_as_i32 ly) = true;
  RefType_i32 ty : in_signed 32 (RefType_as_i32 ty) = true
}.

(** A concrete numbering, used to evaluate the model. *)
Definition example_nums : ProtoNums := {|
  SpanType_as_i32 t := match t with Entry => 0 | Exit => 1 | Local => 2 end;
  SpanLayer_as_i32 l := match l with Unknown => 0 | Http => 3 end;
  RefType_as_i32 r := match r with CrossProcess => 0 | CrossThread => 1 end
|}.

Lemma example_nums_laws : ProtoNumsLaws (PN := example_nums).
Proof. split; by intros []. Qed.

(** ** Tracing

    [well_typed] says of a message that every number in it is of the type its
    field has in the generated code. *)
Module KeyStringValuePair.
Record t := Mk { key : string; value : string }.
#[global] Instance eq_dec : EqDecision t.
Proof. solve_decision. Defined.
End KeyStringValuePair.

Module Log.
Record t := Mk { time : Z; data : list KeyStringValuePair.t }.
Definition well_typed (l : t) : bool := in_signed 64 (time l).
#[global] Instance eq_dec : EqDecision t.
Proof. solve_decision. Defined.
End Log.

Module SegmentReference.
Record t := Mk {
  ref_type : Z;
  trace_id : string;
  parent_trace_segment_id : string;
  parent_span_id : Z;
  parent_service : string;
  parent_service_instance : string;
  parent_endpoint : string;
  network_address_used_at_peer : string
}.
Definition well_typed (r : t) : bool := in_signed 32 (ref_type r) && in_signed 32 (parent_span_id r).
#[global] Instance eq_dec : EqDecision t.
Proof. solve_decision. Defined.
End SegmentReference.

Module SpanObject.
Record t := Mk {
  span_id : Z;
  parent_span_id : Z;
  start_time : Z;
  end_time : Z;
  refs : list SegmentReference.t;
  operation_name : string;
  peer : string;
  span_type : Z;
  span_layer : Z;
  component_id : Z;
  is_error : bool;
  tags : list KeyStringValuePair.t;
  logs : list Log.t;
  skip_analysis : bool
}.
#[global] Instance eq_dec : EqDecision t.
Proof. solve_decision. Defined.

Definition well_typed (o : t) : bool :=
  in_signed 32 (span_id o) && in_signed 32 (parent_span_id o) &&
  in_signed 64 (start_time o) && in_signed 64 (end_time o) &&
  in_signed 32 (span_type o) && in_signed 32 (span_layer o) && in_signed 32 (component_id o) &&
  forallb SegmentReference.well_typed (refs o) && forallb Log.well_typed (logs o).

(** Assignments to one field. *)
Definition set_end_time (v : Z) (o : t) : t :=
  Mk (span_id o) (parent_span_id o) (start_time o) v (refs o) (operation_name o) (peer o)
     (span_type o) (span_layer o) (component_id o) (is_error o) (tags o) (logs o)
     (skip_analysis o).
Definition set_refs (v : list SegmentReference.t) (o : t) : t :=
  Mk (span_id o) (parent_span_id o) (start_time o) (end_time o) v (operation_name o) (peer o)
     (span_type o) (span_layer o) (component_id o) (is_error o) (tags o) (logs o)
     (skip_analysis o).
Definition set_tags (v : list KeyStringValuePair.t) (o : t) : t :=
  Mk (span_id o) (parent_span_id o) (start_time o) (end_time o) (refs o) (operation_name o)
     (peer o) (span_type o) (span_layer o) (component_id o) (is_error o) v (logs o)
     (skip_analysis o).
Definition set_logs (v : list Log.t) (o : t) : t :=
  Mk (span_id o) (parent_span_id o) (start_time o) (end_time o) (refs o) (operation_name o)
     (peer o) (span_type o) (span_layer o) (component_id o) (is_error o) (tags o) v
     (skip_analysis o).

(** [self.refs.push(ref)]. *)
Definition push_ref (r : SegmentReference.t) (o : t) : t := set_refs (refs o ++ [r]) o.

(** [SpanObject::add_log]: the pairs become one log entry stamped with the
    current time. *)
Definition add_log `{!Build} (now : Z) (message : list (string * string)) (o : t) : t :=
  let log := Log.Mk (SystemTime.fetch_time now SystemTime.Log)
                    (map (λ '(key, value), KeyStringValuePair.Mk key value) message) in
  set_logs (logs o ++ [log]) o.

(** [SpanObject::add_tag]. *)
Definition add_tag (key value : string) (o : t) : t :=
  set_tags (tags o ++ [KeyStringValuePair.Mk key value]) o.

Lemma well_typed_end_time v o :
  in_signed 64 v = true → well_typed o = true → well_typed (set_end_time v o) = true.
Proof. unfold well_typed. cbn. rewrite !andb_true_iff. tauto. Qed.

Lemma well_typed_push_ref r o :
  SegmentReference.well_typed r = true → well_typed o = true → well_typed (push_ref r o) = true.
Proof. unfold well_typed. cbn. rewrite forallb_app. cbn. rewrite !andb_true_iff. tauto. Qed.

Lemma well_typed_add_log `{!Build} now message o :
  well_typed o = true → well_typed (add_log now message o) = true.
Proof.
  unfold well_typed. cbn. rewrite forallb_app. cbn.
  assert (Hl : ∀ d, Log.well_typed (Log.Mk (SystemTime.fetch_time now SystemTime.Log) d) = true)
    by (intros d; apply SystemTime.fetch_time_range).
  rewrite Hl, !andb_true_iff. tauto.
Qed.
End SpanObject.

Module SegmentObject.
Record t := Mk {
  trace_id : string;
  trace_segment_id : string;
  spans : list SpanObject.t;
  service : string;
  service_instance : string;
  is_size_limited : bool
}.
Definition well_typed (s : t) : bool := forallb SpanObject.well_typed (spans s).
#[global] Instance eq_dec : EqDecision t.
Proof. solve_decision. Defined.
End SegmentObject.

(** ** Logging *)
Module TraceContext.
Record t := Mk { trace_id : string; trace_segment_id : string; span_id : Z }.
#[global] Instance eq_dec : EqDecision t.
Proof. solve_decision. Defined.
End TraceContext.

Module LogDataBody.
(** [log_data_body::Content]: [TextLog], [JsonLog] and [YamlLog] hold one
    string each. *)
Inductive Content := Text (text : string) | Json (json : string) | Yaml (yaml : string).
#[global] Instance content_eq_dec : EqDecision Content.
Proof. solve_decision. Defined.
Record t := Mk { type : string; content : option Content }.
End LogDataBody.

Module LogTags.
Record t := Mk { data : list KeyStringValuePair.t }.
#[global] Instance eq_dec : EqDecision t.
Proof. solve_decision. Defined.
End LogTags.

Module LogData.
Record t := Mk {
  timestamp : Z;
  service : string;
  service_instance : string;
  endpoint : string;
  body : option LogDataBody.t;
  trace_context : option TraceContext.t;
  tags : option LogTags.t;
  layer : string
}.
End LogData.

(** ** Management *)
Module InstanceProperties.
Record t := Mk {
  service : string;
  service_instance : string;
  properties : list KeyStringValuePair.t;
  layer : string
}.
End InstanceProperties.

Module InstancePingPkg.
Record t := Mk { service : string; service_instance : string; layer : string }.
End InstancePingPkg.

(** ** Metrics *)
Module Label.
Record t := Mk { name : string; value : string }.
End Label.

Module MeterSingleValue.
Record t := Mk { name : string; labels : list Label.t; value : f64 }.
End MeterSingleValue.

Module MeterBucketValue.
Record t := Mk { bucket : f64; count : Z; is_negative_infinity : bool }.
End MeterBucketValue.

Module MeterHistogram.
Record t := Mk { name : string; labels : list Label.t; values : list MeterBucketValue.t }.
End MeterHistogram.

Module MeterData.
(** [meter_data::Metric]. *)
Inductive Metric :=
| SingleValue (v : MeterSingleValue.t)
| Histogram (h : MeterHistogram.t).
Record t := Mk {
  service : string;
  service_instance : string;
  timestamp : Z;
  metric : option Metric
}.
End MeterData.
