(* ===== verification/Reporter.v ===== *)
(** * src/reporter/mod.rs: collect items and the [Report] interface

    [Report] is the interface through which the tracer, the logger, the
    metricer and the manager hand their data over; the reporters (print, gRPC,
    Kafka) implement it. A reporter acts on a world [W] of its own choosing. *)

From S2P Require Import Prelude Proto.

Local Open Scope sky_scope.

(** [CollectItem]. *)
Inductive CollectItem :=
| Trace (item : SegmentObject.t)
| Log (item : LogData.t)
| Meter (item : MeterData.t)
| Instance_ (item : InstanceProperties.t)
| Ping (item : InstancePingPkg.t).

(** The encoders that [prost] generates for the messages. *)
Class ProstMessage := {
  encode_segment : SegmentObject.t → string;
  encode_log : LogData.t → string;
  encode_meter : MeterData.t → string;
  encode_instance : InstanceProperties.t → string;
  encode_ping : InstancePingPkg.t → string
}.

(** [CollectItem::encode_to_vec]. *)
Definition encode_to_vec `{!ProstMessage} (item : CollectItem) : string :=
  match item with
  | Trace item => encode_segment item
  | Log item => encode_log item
  | Meter item => encode_meter item
  | Instance_ item => encode_instance item
  | Ping item => encode_ping item
  end.

(** The items of one kind. *)
Definition segment_of (item : CollectItem) : option SegmentObject.t :=
  match item with Trace i => Some i | _ => None end.
Definition log_of (item : CollectItem) : option LogData.t :=
  match item with Log i => Some i | _ => None end.
Definition meter_of (item : CollectItem) : option MeterData.t :=
  match item with Meter i => Some i | _ => None end.

(** ** The [Report] trait *)
Class Report (R W : Type) := report : R → CollectItem → M W unit.

(** The noop reporter [()]. *)
#[export] Instance Report_unit W : Report unit W := λ _ _, ret tt.

(** [Box<T>] and [Arc<T>] delegate to what they point to. *)
Inductive Box (T : Type) := MkBox (deref : T).
Inductive Arc (T : Type) := MkArc (deref : T).
Arguments MkBox {T}. Arguments MkArc {T}.

#[export] Instance Report_Box `{Report T W} : Report (Box T) W :=
  λ '(MkBox t) item, report t item.
#[export] Instance Report_Arc `{Report T W} : Report (Arc T) W :=
  λ '(MkArc t) item, report t item.

(** [OnceCell<T>]: reporting through an empty cell panics. *)
Inductive OnceCell (T : Type) := MkOnceCell (cell : option T).
Arguments MkOnceCell {T}.
#[export] Instance Report_OnceCell `{Report T W} : Report (OnceCell T) W :=
  λ '(MkOnceCell c) item, t <- expect "OnceCell is empty" c ;; report t item.

(** A reporter that keeps what it is given, in order: the reference
    implementation of the interface (the mock reporter of the test-suite). *)
Inductive MockReporter := Mock.
#[export] Instance Report_Mock : Report MockReporter (list CollectItem) :=
  λ _ item, modify (λ items, items ++ [item]).

(** What a client may rely on: reporting returns, and delivers the item. The
    law is stated through what the reporter has delivered so far. *)
Class ReportLaws (R W : Type) `{Report R W} (healthy : R → W → Prop)
    (delivered : W → list CollectItem) : Prop := {
  report_delivers r w item :
    healthy r w →
    ∃ w', (w ⊢ report r item ⇓ tt ⊣ w') ∧ healthy r w' ∧
      delivered w' = delivered w ++ [item]
}.

#[export] Instance Mock_laws : ReportLaws MockReporter (list CollectItem) (λ _ _, True) id.
Proof. split. intros [] w item _. eauto. Qed.

Section Delegation.
Context `{HR : Report T W} (healthy : T → W → Prop) (delivered : W → list CollectItem)
        `{HL : !ReportLaws T W healthy delivered}.

#[export] Instance Box_laws :
  ReportLaws (Box T) W (λ '(MkBox t), healthy t) delivered.
Proof. split. intros [t] w item Ht. apply (report_delivers t w item Ht). Qed.

#[export] Instance Arc_laws :
  ReportLaws (Arc T) W (λ '(MkArc t), healthy t) delivered.
Proof. split. intros [t] w item Ht. apply (report_delivers t w item Ht). Qed.

#[export] Instance OnceCell_laws :
  ReportLaws (OnceCell T) W
    (λ '(MkOnceCell c) w, ∃ t, c = Some t ∧ healthy t w) delivered.
Proof.
  split. intros [c] w item (t & -> & Ht).
  destruct (report_delivers t w item Ht) as (w' & Hrun & Hh & Hd).
  exists w'. split_and!; eauto.
Qed.
End Delegation.
