(* ===== verification/Codec.v ===== *)
(** * Reading messages back

    The decoders that prost generates, and a lossless codec over the messages of
    Proto.v, which shows what is asked of encoder and decoder can be had: each
    message is a tuple of countable things, written as the digits of its number. *)

From S2P Require Import Prelude F64 Proto Reporter.

(** [Message::decode]. *)
Class ProstDecode := {
  decode_error : Type;
  decode_segment : string → result SegmentObject.t decode_error;
  decode_log : string → result LogData.t decode_error;
  decode_meter : string → result MeterData.t decode_error
}.

Section Readable.
Context {PM : ProstMessage} {PD : ProstDecode}.

(** The message is read as it was written: its numbers are in the range of their
    types and its strings are UTF-8. *)
Definition readable (item : CollectItem) : Prop :=
  match item with
  | Trace s => decode_segment (encode_segment s) = Ok s
  | Log l => decode_log (encode_log l) = Ok l
  | Meter m => decode_meter (encode_meter m) = Ok m
  | _ => True
  end.

End Readable.

(** ** The messages are countable *)
#[global] Instance spec_float_eq_dec : EqDecision f64.
Proof. solve_decision. Defined.
#[global] Instance spec_float_countable : Countable f64.
Proof.
  refine (inj_countable'
    (λ x : f64, match x with
      | SpecFloat.S754_zero s => inl (inl s) | SpecFloat.S754_infinity s => inl (inr s)
      | SpecFloat.S754_nan => inr (inl tt) | SpecFloat.S754_finite s m e => inr (inr (s, m, e)) end)
    (λ x : (bool + bool) + (unit + bool * positive * Z), match x with
      | inl (inl s) => SpecFloat.S754_zero s | inl (inr s) => SpecFloat.S754_infinity s
      | inr (inl tt) => SpecFloat.S754_nan | inr (inr (s, m, e)) => SpecFloat.S754_finite s m e end) _).
  by intros [].
Defined.
#[global] Instance pair_countable : Countable KeyStringValuePair.t.
Proof.
  refine (inj_countable' (λ '(KeyStringValuePair.Mk a b), (a, b))
    (λ '(a, b), KeyStringValuePair.Mk a b) _). by intros [].
Defined.
#[global] Instance span_log_countable : Countable Proto.Log.t.
Proof.
  refine (inj_countable' (λ '(Proto.Log.Mk a b), (a, b))
    (λ '(a, b), Proto.Log.Mk a b) _). by intros [].
Defined.
#[global] Instance ref_countable : Countable SegmentReference.t.
Proof.
  refine (inj_countable' (λ '(SegmentReference.Mk a b c d e f g h), (a, b, c, d, e, f, g, h))
    (λ '(a, b, c, d, e, f, g, h), SegmentReference.Mk a b c d e f g h) _). by intros [].
Defined.
#[global] Instance span_countable : Countable SpanObject.t.
Proof.
  refine (inj_countable' (λ '(SpanObject.Mk a b c d e f g h i j k l m n), (a, b, c, d, e, f, g, (h, i, j, k, l, m, n)))
    (λ '(a, b, c, d, e, f, g, (h, i, j, k, l, m, n)), SpanObject.Mk a b c d e f g h i j k l m n) _). by intros [].
Defined.
#[global] Instance segment_countable : Countable SegmentObject.t.
Proof.
  refine (inj_countable' (λ '(SegmentObject.Mk a b c d e f), (a, b, c, d, e, f))
    (λ '(a, b, c, d, e, f), SegmentObject.Mk a b c d e f) _). by intros [].
Defined.
#[global] Instance trace_context_countable : Countable TraceContext.t.
Proof.
  refine (inj_countable' (λ '(TraceContext.Mk a b c), (a, b, c))
    (λ '(a, b, c), TraceContext.Mk a b c) _). by intros [].
Defined.
#[global] Instance content_countable : Countable LogDataBody.Content.
Proof.
  refine (inj_countable'
    (λ c, match c with
      | LogDataBody.Text s => inl s | LogDataBody.Json s => inr (inl s) | LogDataBody.Yaml s => inr (inr s) end)
    (λ c, match c with
      | inl s => LogDataBody.Text s | inr (inl s) => LogDataBody.Json s | inr (inr s) => LogDataBody.Yaml s end) _).
  by intros [].
Defined.
#[global] Instance logdatabody_eq_dec : EqDecision LogDataBody.t.
Proof. solve_decision. Defined.
#[global] Instance body_countable : Countable LogDataBody.t.
Proof.
  refine (inj_countable' (λ '(LogDataBody.Mk a b), (a, b))
    (λ '(a, b), LogDataBody.Mk a b) _). by intros [].
Defined.
#[global] Instance tags_countable : Countable LogTags.t.
Proof. refine (inj_countable' LogTags.data LogTags.Mk _). by intros []. Defined.
#[global] Instance logdata_eq_dec : EqDecision LogData.t.
Proof. solve_decision. Defined.
#[global] Instance log_countable : Countable LogData.t.
Proof.
  refine (inj_countable' (λ '(LogData.Mk a b c d e f g h), (a, b, c, d, e, f, g, h))
    (λ '(a, b, c, d, e, f, g, h), LogData.Mk a b c d e f g h) _). by intros [].
Defined.
#[global] Instance label_eq_dec : EqDecision Label.t.
Proof. solve_decision. Defined.
#[global] Instance label_countable : Countable Label.t.
Proof.
  refine (inj_countable' (λ '(Label.Mk a b), (a, b))
    (λ '(a, b), Label.Mk a b) _). by intros [].
Defined.
#[global] Instance metersinglevalue_eq_dec : EqDecision MeterSingleValue.t.
Proof. solve_decision. Defined.
#[global] Instance single_countable : Countable MeterSingleValue.t.
Proof.
  refine (inj_countable' (λ '(MeterSingleValue.Mk a b c), (a, b, c))
    (λ '(a, b, c), MeterSingleValue.Mk a b c) _). by intros [].
Defined.
#[global] Instance meterbucketvalue_eq_dec : EqDecision MeterBucketValue.t.
Proof. solve_decision. Defined.
#[global] Instance bucket_countable : Countable MeterBucketValue.t.
Proof.
  refine (inj_countable' (λ '(MeterBucketValue.Mk a b c), (a, b, c))
    (λ '(a, b, c), MeterBucketValue.Mk a b c) _). by intros [].
Defined.
#[global] Instance meterhistogram_eq_dec : EqDecision MeterHistogram.t.
Proof. solve_decision. Defined.
#[global] Instance histogram_countable : Countable MeterHistogram.t.
Proof.
  refine (inj_countable' (λ '(MeterHistogram.Mk a b c), (a, b, c))
    (λ '(a, b, c), MeterHistogram.Mk a b c) _). by intros [].
Defined.
#[global] Instance metric_eq_dec : EqDecision MeterData.Metric.
Proof. solve_decision. Defined.
#[global] Instance metric_countable : Countable MeterData.Metric.
Proof.
  refine (inj_countable'
    (λ m, match m with MeterData.SingleValue v => inl v | MeterData.Histogram h => inr h end)
    (λ m, match m with inl v => MeterData.SingleValue v | inr h => MeterData.Histogram h end) _).
  by intros [].
Defined.
#[global] Instance meterdata_eq_dec : EqDecision MeterData.t.
Proof. solve_decision. Defined.
#[global] Instance meter_countable : Countable MeterData.t.
Proof.
  refine (inj_countable' (λ '(MeterData.Mk a b c d), (a, b, c, d))
    (λ '(a, b, c, d), MeterData.Mk a b c d) _). by intros [].
Defined.

(** ** Numbers as strings *)
Fixpoint digits (p : positive) : string :=
  match p with
  | xH => ""
  | xO p => String "0" (digits p)
  | xI p => String "1" (digits p)
  end.
Fixpoint undigits (s : string) : positive :=
  match s with
  | EmptyString => xH
  | String c s => if decide (c = "1"%char) then xI (undigits s) else xO (undigits s)
  end.

Lemma undigits_digits p : undigits (digits p) = p.
Proof. induction p as [p IH|p IH|]; cbn; by rewrite ?IH. Qed.

Definition write `{Countable T} (t : T) : string := digits (encode t).
Definition read `{Countable T} (s : string) : result T unit :=
  match decode (undigits s) with Some t => Ok t | None => Err tt end.

Lemma read_write `{Countable T} (t : T) : read (write t) = Ok t.
Proof. unfold read, write. by rewrite undigits_digits, decode_encode. Qed.

Definition lossless_encoder : ProstMessage := {|
  encode_segment := write; encode_log := write; encode_meter := write;
  encode_instance i := InstanceProperties.service_instance i;
  encode_ping i := InstancePingPkg.service_instance i
|}.
Definition lossless_decoder : ProstDecode := {|
  decode_error := unit; decode_segment := read; decode_log := read; decode_meter := read
|}.

Lemma lossless_readable item : readable (PM := lossless_encoder) (PD := lossless_decoder) item.
Proof. destruct item; cbn; done || apply read_write. Qed.
