(* ===== verification/SpanStack.v ===== *)
(** * src/trace/trace_context.rs: the span stack

    [SpanStack] keeps the active spans of a context (a stack, the last element
    on top) and the finalized ones (the spans of the segment to report). It is
    shared by the context, its spans and its asynchronous spans. Each half is
    behind a [parking_lot] lock that the code only ever tries to take:
    contention is a panic. *)

From S2P Require Import Prelude Common Proto.

Local Open Scope Z_scope.
Local Open Scope sky_scope.

(** ** The lock interface

    What the code relies on of [parking_lot::RwLock]: a fresh lock can be
    taken, dropping the guard gives the fresh lock back, and while a write
    guard is out every other attempt fails. *)
Class RwLock := {
  Lock : Type;
  lock_new : Lock;
  try_read : Lock → option Lock;
  try_write : Lock → option Lock;
  drop_read : Lock → Lock;
  drop_write : Lock → Lock;
  try_read_new : ∃ g, try_read lock_new = Some g ∧ drop_read g = lock_new;
  try_write_new : ∃ g, try_write lock_new = Some g ∧ drop_write g = lock_new;
  try_read_excl l g : try_write l = Some g → try_read g = None;
  try_write_excl l g : try_write l = Some g → try_write g = None
}.

(** An instance: a count of readers, or one writer. *)
Module CountingLock.
Inductive word := Readers (n : nat) | Writer.
Definition try_read (l : word) : option word :=
  match l with Readers n => Some (Readers (S n)) | Writer => None end.
Definition try_write (l : word) : option word :=
  match l with Readers 0 => Some Writer | _ => None end.
Definition drop_read (l : word) : word :=
  match l with Readers (S n) => Readers n | l => l end.
Definition drop_write (l : word) : word :=
  match l with Writer => Readers 0 | l => l end.

Lemma read_excl l g : try_write l = Some g → try_read g = None.
Proof. by destruct l as [[]|]; intros [= <-]. Qed.
Lemma write_excl l g : try_write l = Some g → try_write g = None.
Proof. by destruct l as [[]|]; intros [= <-]. Qed.

Definition lock : RwLock := {|
  Lock := word;
  lock_new := Readers 0;
  SpanStack.try_read := try_read;
  SpanStack.try_write := try_write;
  SpanStack.drop_read := drop_read;
  SpanStack.drop_write := drop_write;
  try_read_new := ex_intro _ (Readers 1) (conj eq_refl eq_refl);
  try_write_new := ex_intro _ Writer (conj eq_refl eq_refl);
  try_read_excl := read_excl;
  try_write_excl := write_excl
|}.
End CountingLock.

(** [error::LOCK_MSG]. *)
Definition LOCK_MSG : string := "should not cross threads/coroutines (locked)".

(** ** Data *)

(** [SpanUid], a [usize]. *)
Abbreviation SpanUid := Z.

Module ActiveSpan.
Record t := Mk { uid : SpanUid; span_id : Z; ref : option SegmentReference.t }.
(** [ActiveSpan::new]. *)
Definition new (uid : SpanUid) (span_id : Z) : t := Mk uid span_id None.
Definition set_ref (r : SegmentReference.t) (a : t) : t := Mk (uid a) (span_id a) (Some r).
End ActiveSpan.

Module FinalizeSpan.
Record t := Mk { uid : SpanUid; obj : option SpanObject.t; ref : option SegmentReference.t }.
(** [FinalizeSpan::new]. *)
Definition new (uid : SpanUid) (obj : option SpanObject.t) (ref : option SegmentReference.t) : t :=
  Mk uid obj ref.
End FinalizeSpan.

Section SpanStack.
Context {BC : Build} {RW : RwLock}.

Record SpanStack := {
  finalized_lock : Lock;
  finalized : list FinalizeSpan.t;
  active_lock : Lock;
  active : list ActiveSpan.t
}.

(** [SpanStack::default]. *)
Definition stack_default : SpanStack :=
  {| finalized_lock := lock_new; finalized := []; active_lock := lock_new; active := [] |}.

Definition set_finalized_lock (l : Lock) (s : SpanStack) : SpanStack :=
  {| finalized_lock := l; finalized := finalized s; active_lock := active_lock s; active := active s |}.
Definition set_finalized (f : list FinalizeSpan.t) (s : SpanStack) : SpanStack :=
  {| finalized_lock := finalized_lock s; finalized := f; active_lock := active_lock s; active := active s |}.
Definition set_active_lock (l : Lock) (s : SpanStack) : SpanStack :=
  {| finalized_lock := finalized_lock s; finalized := finalized s; active_lock := l; active := active s |}.
Definition set_active (a : list ActiveSpan.t) (s : SpanStack) : SpanStack :=
  {| finalized_lock := finalized_lock s; finalized := finalized s; active_lock := active_lock s; active := a |}.

(** ** Guards

    [finalized], [finalized_mut], [active] and [active_mut] return a guard;
    [m] is the code run while it is alive, and the guard is dropped when [m]
    leaves, also by a panic. *)
Definition with_guard {A} (get : SpanStack → Lock) (put : Lock → SpanStack → SpanStack)
    (acquire : Lock → option Lock) (release : Lock → Lock) (m : M SpanStack A) : M SpanStack A :=
  l <- gets get ;;
  g <- expect LOCK_MSG (acquire l) ;;
  modify (put g) ;;
  scoped m (modify (λ s, put (release (get s)) s)).

Definition with_finalized {A} : M SpanStack A → M SpanStack A :=
  with_guard finalized_lock set_finalized_lock try_read drop_read.
Definition with_finalized_mut {A} : M SpanStack A → M SpanStack A :=
  with_guard finalized_lock set_finalized_lock try_write drop_write.
Definition with_active {A} : M SpanStack A → M SpanStack A :=
  with_guard active_lock set_active_lock try_read drop_read.
Definition with_active_mut {A} : M SpanStack A → M SpanStack A :=
  with_guard active_lock set_active_lock try_write drop_write.

(** ** Operations *)

(** [stack.last().map(|span| span.uid() == uid).unwrap_or_default()]. *)
Definition last_is (uid : SpanUid) (stack : list ActiveSpan.t) : bool :=
  match last stack with Some span => ActiveSpan.uid span =? uid | None => false end.

(** [SpanStack::pop_active]. *)
Definition pop_active (uid : SpanUid) : M SpanStack (option ActiveSpan.t) :=
  with_active_mut (
    stack <- gets active ;;
    if last_is uid stack then
      modify (set_active (removelast stack)) ;; ret (last stack)
    else ret None).

Definition NOT_ACTIVE_MSG : string := "Finalize span isn't the active span".
Definition UNREACHABLE_MSG : string := "internal error: entered unreachable code".

(** The entry that [finalize_span] pushes: a finished span takes its end time
    and the reference kept by the active span; an asynchronous one leaves an
    empty slot that keeps the reference. *)
Definition finalize_entry (now : Z) (uid : SpanUid) (obj : option SpanObject.t)
    (active_span : ActiveSpan.t) : FinalizeSpan.t :=
  match obj with
  | Some obj =>
      let obj := SpanObject.set_end_time (SystemTime.fetch_time now SystemTime.End) obj in
      let obj := match ActiveSpan.ref active_span with
                 | Some r => SpanObject.push_ref r obj
                 | None => obj
                 end in
      FinalizeSpan.new uid (Some obj) None
  | None => FinalizeSpan.new uid None (ActiveSpan.ref active_span)
  end.

(** [SpanStack::finalize_span]. *)
Definition finalize_span (now : Z) (uid : SpanUid) (obj : option SpanObject.t) : M SpanStack unit :=
  popped <- pop_active uid ;;
  match popped with
  | None => panic NOT_ACTIVE_MSG
  | Some active_span =>
      let entry := finalize_entry now uid obj active_span in
      with_finalized_mut (modify (λ s, set_finalized (finalized s ++ [entry]) s))
  end.

(** The loop of [finalize_async_span]: the first slot with the uid is filled;
    [None] when there is none. *)
Definition fill_slot (now : Z) (obj : SpanObject.t) (f : FinalizeSpan.t) : FinalizeSpan.t :=
  let obj := SpanObject.set_end_time (SystemTime.fetch_time now SystemTime.End) obj in
  let obj := match FinalizeSpan.ref f with
             | Some r => SpanObject.push_ref r obj
             | None => obj
             end in
  FinalizeSpan.Mk (FinalizeSpan.uid f) (Some obj) None.

Fixpoint fill_first (now : Z) (uid : SpanUid) (obj : SpanObject.t) (l : list FinalizeSpan.t)
    : option (list FinalizeSpan.t) :=
  match l with
  | [] => None
  | f :: l' =>
      if FinalizeSpan.uid f =? uid then Some (fill_slot now obj f :: l')
      else cons f <$> fill_first now uid obj l'
  end.

(** [SpanStack::finalize_async_span]. *)
Definition finalize_async_span (now : Z) (uid : SpanUid) (obj : SpanObject.t) : M SpanStack unit :=
  with_finalized_mut (
    l <- gets finalized ;;
    match fill_first now uid obj l with
    | Some l' => modify (set_finalized l')
    | None => panic UNREACHABLE_MSG
    end).
End SpanStack.

(** ** Behaviour on an uncontended stack *)
Section Uncontended.
Context {BC : Build} {RW : RwLock}.

(** No guard is out. *)
Definition free_stack (f : list FinalizeSpan.t) (a : list ActiveSpan.t) : SpanStack :=
  {| finalized_lock := lock_new; finalized := f; active_lock := lock_new; active := a |}.

Definition unlocked (s : SpanStack) : Prop :=
  finalized_lock s = lock_new ∧ active_lock s = lock_new.

Lemma unlocked_free s : unlocked s ↔ s = free_stack (finalized s) (active s).
Proof. split; [by intros [??]; destruct s; cbn in *; subst|by intros ->]. Qed.

Lemma with_guard_free {A} get put acquire release (m : M SpanStack A) s g r s' :
  acquire (get s) = Some g → m (put g s) = (r, s') → r ≠ Abort →
  with_guard get put acquire release m s = (r, put (release (get s')) s').
Proof.
  intros Hg Hm Hr. unfold with_guard, bind, gets, scoped, leave, modify. cbn.
  rewrite Hg. cbn. rewrite Hm. by destruct r.
Qed.

Lemma with_guard_busy {A} get put acquire release (m : M SpanStack A) s :
  acquire (get s) = None →
  s ⊢ with_guard get put acquire release m ⇑ LOCK_MSG ⊣ s.
Proof. intros H. unfold with_guard, bind, gets. cbn. by rewrite H. Qed.

Lemma last_is_Some uid a :
  last_is uid a = true ↔ ∃ a' s, a = a' ++ [s] ∧ ActiveSpan.uid s = uid.
Proof.
  unfold last_is. destruct (last a) as [s|] eqn:E.
  - apply last_snoc_inv in E as [a' ->]. rewrite Z.eqb_eq. split; [eauto|].
    intros (a'' & s' & H & <-). by apply app_inj_tail in H as [_ ->].
  - split; [done|]. intros (a' & s & -> & _). by rewrite last_snoc in E.
Qed.

Lemma is_active_free uid f a :
  with_active (gets (λ s, last_is uid (active s))) (free_stack f a) =
    (Ret (last_is uid a), free_stack f a).
Proof.
  destruct try_read_new as (g & Hg & Hd). unfold with_active.
  erewrite with_guard_free; [|exact Hg|reflexivity|done].
  unfold set_active_lock, free_stack. cbn. by rewrite Hd.
Qed.

Lemma pop_active_free uid f a :
  pop_active uid (free_stack f a) =
    if last_is uid a then (Ret (last a), free_stack f (removelast a))
    else (Ret None, free_stack f a).
Proof.
  destruct try_write_new as (g & Hg & Hd). unfold pop_active, with_active_mut.
  destruct (last_is uid a) eqn:E.
  - erewrite with_guard_free;
      [|exact Hg|unfold bind, gets; cbn; rewrite E; reflexivity|discriminate].
    unfold set_active_lock, free_stack. cbn. by rewrite Hd.
  - erewrite with_guard_free;
      [|exact Hg|unfold bind, gets; cbn; rewrite E; reflexivity|discriminate].
    unfold set_active_lock, free_stack. cbn. by rewrite Hd.
Qed.

(** The top span is popped and its entry pushed ... *)
Lemma finalize_span_top now uid obj f a s :
  ActiveSpan.uid s = uid →
  free_stack f (a ++ [s]) ⊢ finalize_span now uid obj
    ⇓ tt ⊣ free_stack (f ++ [finalize_entry now uid obj s]) a.
Proof.
  intros Hs. unfold finalize_span, bind. rewrite pop_active_free.
  assert (last_is uid (a ++ [s]) = true) as -> by (apply last_is_Some; eauto).
  rewrite last_snoc, removelast_last.
  destruct try_write_new as (g & Hg & Hd). unfold with_finalized_mut.
  erewrite with_guard_free; [|exact Hg|reflexivity|discriminate].
  unfold set_finalized_lock, free_stack. cbn. by rewrite Hd.
Qed.

(** ... and any other span panics, leaving the stack as it was. *)
Lemma finalize_span_not_top now uid obj f a :
  last_is uid a = false →
  free_stack f a ⊢ finalize_span now uid obj ⇑ NOT_ACTIVE_MSG ⊣ free_stack f a.
Proof. intros H. unfold finalize_span, bind. by rewrite pop_active_free, H. Qed.

(** The first slot with the uid. *)
Lemma fill_first_app now uid obj f1 f f2 :
  FinalizeSpan.uid f = uid →
  Forall (λ f', FinalizeSpan.uid f' ≠ uid) f1 →
  fill_first now uid obj (f1 ++ f :: f2) = Some (f1 ++ fill_slot now obj f :: f2).
Proof.
  intros Hf. induction 1 as [|f' f1 Hne _ IH]; cbn.
  - by rewrite (proj2 (Z.eqb_eq _ _) Hf).
  - rewrite (proj2 (Z.eqb_neq _ _) Hne), IH. done.
Qed.

Lemma fill_first_Some now uid obj l l' :
  fill_first now uid obj l = Some l' →
  ∃ f1 f f2, l = f1 ++ f :: f2 ∧ l' = f1 ++ fill_slot now obj f :: f2 ∧ FinalizeSpan.uid f = uid.
Proof.
  revert l'. induction l as [|f l IH]; intros l'; cbn; [done|].
  case_match eqn:E.
  - intros [= <-]. apply Z.eqb_eq in E. by exists [], f, l.
  - destruct (fill_first now uid obj l) as [l2|] eqn:E2; [|done]. intros [= <-].
    destruct (IH _ eq_refl) as (f1 & f' & f2 & -> & -> & ?). by exists (f :: f1), f', f2.
Qed.

Lemma fill_first_None now uid obj l :
  fill_first now uid obj l = None ↔ Forall (λ f, FinalizeSpan.uid f ≠ uid) l.
Proof.
  induction l as [|f l IH]; cbn; [by split|]. rewrite Forall_cons. case_match eqn:E.
  - apply Z.eqb_eq in E. split; [done|by intros [? _]].
  - apply Z.eqb_neq in E. rewrite fmap_None, IH. naive_solver.
Qed.

(** While the other lock is held: the slot is not filled, and a closed span is
    popped but not recorded. *)
Lemma finalize_async_span_busy now uid obj s :
  try_write (finalized_lock s) = None →
  s ⊢ finalize_async_span now uid obj ⇑ LOCK_MSG ⊣ s.
Proof. apply with_guard_busy. Qed.

Lemma finalize_span_busy now uid obj l f a s :
  ActiveSpan.uid s = uid → try_write l = None →
  let busy a := {| finalized_lock := l; finalized := f; active_lock := lock_new; active := a |} in
  busy (a ++ [s]) ⊢ finalize_span now uid obj ⇑ LOCK_MSG ⊣ busy a.
Proof.
  intros Hs Hl busy. destruct try_write_new as (g & Hg & Hd).
  assert (busy (a ++ [s]) ⊢ pop_active uid ⇓ Some s ⊣ busy a) as Hpop.
  { unfold pop_active, with_active_mut. erewrite with_guard_free;
      [|exact Hg|unfold bind, gets; cbn; rewrite (proj2 (last_is_Some _ _)) by eauto; reflexivity|done].
    unfold busy, set_active_lock. cbn. by rewrite last_snoc, removelast_last, Hd. }
  unfold finalize_span. rewrite (bind_Ret _ _ _ _ _ Hpop). by apply with_guard_busy.
Qed.

Lemma finalize_async_span_free now uid obj f a :
  finalize_async_span now uid obj (free_stack f a) =
    match fill_first now uid obj f with
    | Some f' => (Ret tt, free_stack f' a)
    | None => (Panic UNREACHABLE_MSG, free_stack f a)
    end.
Proof.
  destruct try_write_new as (g & Hg & Hd). unfold finalize_async_span, with_finalized_mut.
  destruct (fill_first now uid obj f) as [f'|] eqn:E.
  - erewrite with_guard_free;
      [|exact Hg|unfold bind, gets; cbn; rewrite E; reflexivity|discriminate].
    unfold set_finalized_lock, free_stack. cbn. by rewrite Hd.
  - erewrite with_guard_free;
      [|exact Hg|unfold bind, gets; cbn; rewrite E; reflexivity|discriminate].
    unfold set_finalized_lock, free_stack. cbn. by rewrite Hd.
Qed.

(** Whatever the state of the lock, as long as it can be taken. *)
Lemma finalize_async_span_locked now uid obj s g f' :
  try_write (finalized_lock s) = Some g → fill_first now uid obj (finalized s) = Some f' →
  s ⊢ finalize_async_span now uid obj ⇓ tt ⊣ set_finalized f' (set_finalized_lock (drop_write g) s).
Proof.
  intros Hg Hf. unfold finalize_async_span, with_finalized_mut.
  by erewrite with_guard_free;
    [|exact Hg|unfold bind, gets; cbn; rewrite Hf; reflexivity|discriminate].
Qed.
End Uncontended.
