(* ===== verification/Tracer.v ===== *)
(** * src/trace/tracer.rs: the tracer and its weak handle

    A [Tracer] is a counted pointer to [Inner]; a context keeps a [WeakTracer]
    that it upgrades when it needs the tracer. [Tracers] is the memory the two
    kinds of pointers share. [finalize_context] is in Segment.v, after the
    context it converts. *)

From S2P Require Import Prelude Reporter.

Local Open Scope sky_scope.

Section Tracer.
Context {R : Type}.

Record Inner := { service_name : string; instance_name : string; reporter : R }.

(** The allocation behind the [Arc]s: the number of strong pointers to it. *)
Record ArcCell := { strong : nat; inner : Inner }.

Record Tracer := MkTracer { tracer_ptr : nat }.
Record WeakTracer := MkWeak { weak_ptr : nat }.

(** [Tracer::new]: a fresh allocation with one strong pointer. *)
Definition tracer_new (service_name instance_name : string) (reporter : R)
    (ts : gmap nat ArcCell) : Tracer * gmap nat ArcCell :=
  let p := fresh (dom ts) in
  (MkTracer p,
   <[p := {| strong := 1;
             inner := {| service_name := service_name;
                         instance_name := instance_name;
                         reporter := reporter |} |}]> ts).

(** [Tracer::clone] and the drop of a [Tracer]. *)
Definition tracer_clone (t : Tracer) (ts : gmap nat ArcCell) : Tracer * gmap nat ArcCell :=
  (t, alter (λ c, {| strong := S (strong c); inner := inner c |}) (tracer_ptr t) ts).
Definition tracer_drop (t : Tracer) (ts : gmap nat ArcCell) : gmap nat ArcCell :=
  alter (λ c, {| strong := pred (strong c); inner := inner c |}) (tracer_ptr t) ts.

(** [Tracer::downgrade]. *)
Definition downgrade (t : Tracer) : WeakTracer := MkWeak (tracer_ptr t).

(** [WeakTracer::upgrade]: fails once every strong pointer is gone. The
    temporary strong pointer is dropped at the end of the calling statement,
    so that the count is unchanged after it. *)
Definition upgrade (w : WeakTracer) (ts : gmap nat ArcCell) : option Tracer :=
  c ← ts !! weak_ptr w;
  if decide (strong c = 0) then None else Some (MkTracer (weak_ptr w)).

(** [Deref] of the tracer's pointer, and the accessors. *)
Definition deref (t : Tracer) (ts : gmap nat ArcCell) : option Inner :=
  inner <$> ts !! tracer_ptr t.

(** The tracer behind a weak pointer, when it is alive. *)
Definition upgraded (w : WeakTracer) (ts : gmap nat ArcCell) : option Inner :=
  t ← upgrade w ts; deref t ts.

Lemma upgrade_deref w ts t : upgrade w ts = Some t → is_Some (deref t ts).
Proof.
  unfold upgrade, deref. destruct (ts !! weak_ptr w) as [c|] eqn:E; cbn; [|done].
  case_decide; [done|]. intros [= <-]. cbn. rewrite E. eauto.
Qed.

Lemma tracer_new_upgrade s i r ts :
  upgraded (downgrade (tracer_new s i r ts).1) (tracer_new s i r ts).2
    = Some {| service_name := s; instance_name := i; reporter := r |}.
Proof.
  unfold upgraded, upgrade, deref, tracer_new, downgrade. cbn.
  rewrite lookup_insert_eq. cbn.
  rewrite decide_False by done. cbn. by rewrite lookup_insert_eq.
Qed.

(** Clones and drops balance: the weak handle dies with the last pointer. *)
Lemma drop_last_upgrade s i r ts :
  let '(t, ts') := tracer_new s i r ts in
  upgrade (downgrade t) (tracer_drop t ts') = None ∧
  ∀ t2 ts'', tracer_clone t ts' = (t2, ts'') →
    is_Some (upgrade (downgrade t) (tracer_drop t2 ts'')).
Proof.
  unfold tracer_new, tracer_drop, tracer_clone, upgrade, downgrade. cbn. split.
  - by rewrite lookup_alter_eq, lookup_insert_eq.
  - intros t2 ts'' [= <- <-]. cbn. rewrite !lookup_alter_eq, lookup_insert_eq. cbn. eauto.
Qed.

(** ** The global tracer: a cell set at most once *)

Definition GLOBAL_SET_MSG : string := "global tracer has set".
Definition GLOBAL_UNSET_MSG : string := "global tracer haven't set".

(** [set_global_tracer]. *)
Definition set_global_tracer (t : Tracer) : M (option Tracer) unit :=
  cell <- gets id ;;
  match cell with
  | Some _ => panic GLOBAL_SET_MSG
  | None => modify (λ _, Some t)
  end.

(** [global_tracer]. *)
Definition global_tracer : M (option Tracer) Tracer :=
  cell <- gets id ;; expect GLOBAL_UNSET_MSG cell.
End Tracer.

Arguments Inner : clear implicits.
Arguments ArcCell : clear implicits.
