(* ===== verification/TraceContext.v ===== *)
(** * src/trace/trace_context.rs and span.rs: contexts and spans

    A [TracingContext] owns a [Shared] block: its span stack (behind an [Arc]
    whose strong pointers are the context and its live spans; asynchronous
    spans hold weak ones) and its wait group. A [Span] or an [AsyncSpan] is a
    value held by the client that points to the same block. Operations of a
    context run on [CtxState], those of a span on [Shared]. *)

From S2P Require Import Prelude RustStr Common WaitGroup Proto Tracer SpanStack.

Local Open Scope Z_scope.
Local Open Scope sky_scope.

(** [find_map] of an iterator. *)
Definition find_map {A B} (f : A → option B) (l : list A) : option B :=
  foldr (λ a acc, match f a with Some b => Some b | None => acc end) None l.

(** ** Data *)

Record TracingContext := MkContext {
  trace_id : string;
  trace_segment_id : string;
  service : string;
  service_instance : string;
  next_span_id : Z;
  primary_endpoint_name : string;
  span_uid_generator : Z;
  tracer : WeakTracer
}.

Definition set_trace_id (v : string) (c : TracingContext) : TracingContext :=
  MkContext v (trace_segment_id c) (service c) (service_instance c) (next_span_id c)
    (primary_endpoint_name c) (span_uid_generator c) (tracer c).
Definition set_next_span_id (v : Z) (c : TracingContext) : TracingContext :=
  MkContext (trace_id c) (trace_segment_id c) (service c) (service_instance c) v
    (primary_endpoint_name c) (span_uid_generator c) (tracer c).
Definition set_primary_endpoint_name (v : string) (c : TracingContext) : TracingContext :=
  MkContext (trace_id c) (trace_segment_id c) (service c) (service_instance c) (next_span_id c)
    v (span_uid_generator c) (tracer c).
Definition set_span_uid_generator (v : Z) (c : TracingContext) : TracingContext :=
  MkContext (trace_id c) (trace_segment_id c) (service c) (service_instance c) (next_span_id c)
    (primary_endpoint_name c) v (tracer c).

Module Span.
Record t := Mk { uid : SpanUid; obj : option SpanObject.t }.
End Span.

Module AsyncSpan.
Record t := Mk { uid : SpanUid; obj : option SpanObject.t }.
End AsyncSpan.

Module ContextSnapshot.
Record t := Mk {
  trace_id : string;
  trace_segment_id : string;
  span_id : Z;
  parent_endpoint : string
}.

(** [ContextSnapshot::is_from_current]. *)
Definition is_from_current (s : t) (context : TracingContext) : bool :=
  negb (is_empty (trace_segment_id s)) &&
  bool_decide (trace_segment_id s = TraceContext.trace_segment_id context).

(** [ContextSnapshot::is_valid]. *)
Definition is_valid (s : t) : bool :=
  negb (is_empty (trace_segment_id s)) && (-1 <? span_id s) && negb (is_empty (trace_id s)).
End ContextSnapshot.

(** [PropagationContext] of propagation/context.rs. *)
Module PropagationContext.
Record t := new {
  do_sample : bool;
  parent_trace_id : string;
  parent_trace_segment_id : string;
  parent_span_id : Z;
  parent_service : string;
  parent_service_instance : string;
  destination_endpoint : string;
  destination_address : string
}.
End PropagationContext.

(** ** [HandleSpanObject]: access to the object a span carries *)

Definition UNWRAP_MSG : string := "called `Option::unwrap()` on a `None` value".

Class HandleSpanObject (H : Type) := {
  handle_obj : H → option SpanObject.t;
  handle_set_obj : SpanObject.t → H → H
}.

#[export] Instance Handle_Span : HandleSpanObject Span.t := {|
  handle_obj := Span.obj;
  handle_set_obj o s := Span.Mk (Span.uid s) (Some o)
|}.
#[export] Instance Handle_AsyncSpan : HandleSpanObject AsyncSpan.t := {|
  handle_obj := AsyncSpan.obj;
  handle_set_obj o s := AsyncSpan.Mk (AsyncSpan.uid s) (Some o)
|}.

Section Handle.
Context {BC : Build} `{HandleSpanObject H}.

(** [span_object] and an update through [span_object_mut]: both unwrap. *)
Definition span_object (h : H) : outcome SpanObject.t :=
  match handle_obj h with Some o => Ret o | None => Panic UNWRAP_MSG end.
Definition span_object_mut (f : SpanObject.t → SpanObject.t) (h : H) : outcome H :=
  match handle_obj h with Some o => Ret (handle_set_obj (f o) h) | None => Panic UNWRAP_MSG end.

(** The provided methods of the trait. *)
Definition handle_span_id (h : H) : outcome Z :=
  match span_object h with Ret o => Ret (SpanObject.span_id o) | Panic e => Panic e | Abort => Abort end.
Definition handle_add_log (now : Z) (message : list (string * string)) (h : H) : outcome H :=
  span_object_mut (SpanObject.add_log now message) h.
Definition handle_add_tag (key value : string) (h : H) : outcome H :=
  span_object_mut (SpanObject.add_tag key value) h.
End Handle.

Section Shared.
Context {BC : Build} {RW : RwLock}.

Record Shared := MkShared { stack : SpanStack; strong : nat; wg : WaitGroup }.

Definition on_stack {A} : M SpanStack A → M Shared A :=
  zoom stack (λ v s, MkShared v (strong s) (wg s)).
Definition on_wg {A} : M WaitGroup A → M Shared A :=
  zoom wg (λ v s, MkShared (stack s) (strong s) v).

(** [Arc::clone] and the drop of a strong pointer to the stack. *)
Definition clone_stack : M Shared unit :=
  modify (λ s, MkShared (stack s) (S (strong s)) (wg s)).
Definition drop_stack : M Shared unit :=
  modify (λ s, MkShared (stack s) (pred (strong s)) (wg s)).

(** ** [Span] *)

(** [Span::new]. *)
Definition span_new (uid : SpanUid) (obj : SpanObject.t) : M Shared Span.t :=
  clone_stack ;; ret (Span.Mk uid (Some obj)).

Definition SKYWALKING_RUST_COMPONENT_ID : Z := 11000.

(** [Span::new_obj]; the fields not named take their default. *)
Definition new_obj `{!ProtoNums} (now span_id parent_span_id : Z)
    (operation_name remote_peer : string) (span_type : SpanType) (span_layer : SpanLayer)
    (skip_analysis : bool) : SpanObject.t := {|
  SpanObject.span_id := span_id;
  SpanObject.parent_span_id := parent_span_id;
  SpanObject.start_time := SystemTime.fetch_time now SystemTime.Start;
  SpanObject.end_time := 0;
  SpanObject.refs := [];
  SpanObject.operation_name := operation_name;
  SpanObject.peer := remote_peer;
  SpanObject.span_type := SpanType_as_i32 span_type;
  SpanObject.span_layer := SpanLayer_as_i32 span_layer;
  SpanObject.component_id := SKYWALKING_RUST_COMPONENT_ID;
  SpanObject.is_error := false;
  SpanObject.tags := [];
  SpanObject.logs := [];
  SpanObject.skip_analysis := skip_analysis
|}.

(** [Span::is_active_span]. *)
Definition is_active_span (s : Span.t) : M Shared bool :=
  on_stack (with_active (gets (λ st, last_is (Span.uid s) (active st)))).

(** [Drop for Span]: the stack pointer is dropped whatever happens. *)
Definition span_drop (now : Z) (s : Span.t) : M Shared unit :=
  scoped (on_stack (finalize_span now (Span.uid s) (Span.obj s))) drop_stack.

Definition NOT_ACTIVE_SPAN_MSG : string := "current span isn't active span".

(** [Span::prepare_for_async]: [self] is dropped at the end without its
    object, or with it when the body panics. *)
Definition prepare_for_async (now : Z) (s : Span.t) : M Shared AsyncSpan.t :=
  leave (act <- is_active_span s ;;
         panic_unless act NOT_ACTIVE_SPAN_MSG ;;
         on_wg (wg_add 1) ;;
         ret (AsyncSpan.Mk (Span.uid s) (Span.obj s)))
        (span_drop now (Span.Mk (Span.uid s) None))
        (span_drop now s).

(** ** [AsyncSpan] *)

Definition CONTEXT_DROPPED_MSG : string := "TracingContext has dropped".

(** The two statements of [Drop for AsyncSpan]: filling the slot, ... *)
Definition async_finish (now : Z) (s : AsyncSpan.t) : M Shared unit :=
  n <- gets strong ;;
  panic_unless (negb (n =? 0)%nat) CONTEXT_DROPPED_MSG ;;
  obj <- expect UNWRAP_MSG (AsyncSpan.obj s) ;;
  on_stack (finalize_async_span now (AsyncSpan.uid s) obj).

(** ... then telling the wait group. *)
Definition async_done : M Shared unit := on_wg (_ <- wg_done ;; ret tt).

(** [Drop for AsyncSpan]. *)
Definition async_drop (now : Z) (s : AsyncSpan.t) : M Shared unit :=
  async_finish now s ;; async_done.
End Shared.

Section Context_.
Context {BC : Build} {RW : RwLock} {PN : ProtoNums}.

(** A context with the block it shares with its spans. *)
Record CtxState := MkCtx { ctx : TracingContext; shared : Shared }.

Definition on_ctx {A} : M TracingContext A → M CtxState A :=
  zoom ctx (λ v s, MkCtx v (shared s)).
Definition on_shared {A} : M Shared A → M CtxState A :=
  zoom shared (λ v s, MkCtx (ctx s) v).

(** [TracingContext::new], with the two UUIDs it draws. *)
Definition context_new (uuid1 uuid2 : Z) (service_name instance_name : string)
    (tracer : WeakTracer) : CtxState :=
  MkCtx (MkContext (RandomGenerator.generate uuid1) (RandomGenerator.generate uuid2)
           service_name instance_name 0 "" 0 tracer)
        (MkShared stack_default 1 wg_default).

(** [TracingContext::inc_next_span_id]. *)
Definition inc_next_span_id : M TracingContext Z :=
  span_id <- gets next_span_id ;;
  next <- i32_add span_id 1 ;;
  modify (set_next_span_id next) ;;
  ret span_id.

(** [TracingContext::generate_span_uid]: [fetch_add] wraps. *)
Definition generate_span_uid : M TracingContext SpanUid :=
  uid <- gets span_uid_generator ;;
  modify (set_span_uid_generator (wrap_unsigned usize_bits (uid + 1))) ;;
  ret uid.

(** [TracingContext::last_span]. *)
Definition last_span : M CtxState (option SpanObject.t) :=
  on_shared (on_stack (with_finalized (gets (λ s, find_map FinalizeSpan.obj (rev (finalized s)))))).

(** [TracingContext::active_span] and [peek_active_span_id]. *)
Definition active_span : M CtxState (option ActiveSpan.t) :=
  on_shared (on_stack (with_active (gets (λ s, last (active s))))).
Definition peek_active_span_id : M CtxState (option Z) :=
  span <- active_span ;; ret (ActiveSpan.span_id <$> span).

(** An assignment through [TracingContext::active_span_mut]. *)
Definition set_last_ref (r : SegmentReference.t) (l : list ActiveSpan.t) : list ActiveSpan.t :=
  match last l with
  | Some span => removelast l ++ [ActiveSpan.set_ref r span]
  | None => l
  end.
Definition active_span_mut_set_ref (r : SegmentReference.t) : M CtxState unit :=
  on_shared (on_stack (with_active_mut (modify (λ s, set_active (set_last_ref r (active s)) s)))).

(** [TracingContext::push_active_span]. *)
Definition push_active_span (span : SpanObject.t) : M CtxState SpanUid :=
  uid <- on_ctx generate_span_uid ;;
  on_ctx (modify (set_primary_endpoint_name (SpanObject.operation_name span))) ;;
  on_shared (on_stack (with_active_mut (modify (λ s,
    set_active (active s ++ [ActiveSpan.new uid (SpanObject.span_id span)]) s)))) ;;
  ret uid.

(** [TracingContext::create_entry_span]. *)
Definition create_entry_span (now : Z) (operation_name : string) : M CtxState Span.t :=
  span_id <- on_ctx inc_next_span_id ;;
  parent <- peek_active_span_id ;;
  let span := new_obj now span_id (default (-1) parent) operation_name "" Entry Http false in
  index <- push_active_span span ;;
  on_shared (span_new index span).

(** The reference that [create_entry_span_with_propagation] adds. *)
Definition propagation_ref (trace_id : string) (p : PropagationContext.t) : SegmentReference.t := {|
  SegmentReference.ref_type := RefType_as_i32 CrossProcess;
  SegmentReference.trace_id := trace_id;
  SegmentReference.parent_trace_segment_id := PropagationContext.parent_trace_segment_id p;
  SegmentReference.parent_span_id := PropagationContext.parent_span_id p;
  SegmentReference.parent_service := PropagationContext.parent_service p;
  SegmentReference.parent_service_instance := PropagationContext.parent_service_instance p;
  SegmentReference.parent_endpoint := PropagationContext.destination_endpoint p;
  SegmentReference.network_address_used_at_peer := PropagationContext.destination_address p
|}.

(** Lifting the outcome of an update of a handle. *)
Definition of_outcome {S A} (o : outcome A) : M S A := λ s, (o, s).

(** [TracingContext::create_entry_span_with_propagation]. *)
Definition create_entry_span_with_propagation (now : Z) (operation_name : string)
    (propagation : PropagationContext.t) : M CtxState Span.t :=
  span <- create_entry_span now operation_name ;;
  on_ctx (modify (set_trace_id (PropagationContext.parent_trace_id propagation))) ;;
  c <- on_ctx (gets id) ;;
  of_outcome (span_object_mut (SpanObject.push_ref (propagation_ref (trace_id c) propagation)) span).

Definition ENTRY_MSG : string := "entry span must be existed.".

(** [TracingContext::create_common_span]. *)
Definition create_common_span (now : Z) (operation_name remote_peer : string)
    (span_type : SpanType) (parent_span_id : Z) : M CtxState Span.t :=
  next <- on_ctx (gets next_span_id) ;;
  panic_unless (negb (next =? 0)) ENTRY_MSG ;;
  span_id <- on_ctx inc_next_span_id ;;
  let span := new_obj now span_id parent_span_id operation_name remote_peer span_type Unknown false in
  uid <- push_active_span span ;;
  on_shared (span_new uid span).

(** [TracingContext::create_exit_span] and [create_local_span]. *)
Definition create_exit_span (now : Z) (operation_name remote_peer : string) : M CtxState Span.t :=
  parent <- peek_active_span_id ;;
  create_common_span now operation_name remote_peer Exit (default (-1) parent).
Definition create_local_span (now : Z) (operation_name : string) : M CtxState Span.t :=
  parent <- peek_active_span_id ;;
  create_common_span now operation_name "" Local (default (-1) parent).

(** [TracingContext::capture]. *)
Definition capture : M CtxState ContextSnapshot.t :=
  span_id <- peek_active_span_id ;;
  c <- on_ctx (gets id) ;;
  ret (ContextSnapshot.Mk (trace_id c) (trace_segment_id c) (default (-1) span_id)
         (primary_endpoint_name c)).

Definition TRACER_DROPPED_MSG : string := "Tracer has dropped".

(** [TracingContext::upgrade_tracer], read in the tracers' memory. *)
Definition upgrade_tracer {R} (ts : gmap nat (ArcCell R)) : M CtxState (Inner R) :=
  c <- on_ctx (gets id) ;; expect TRACER_DROPPED_MSG (upgraded (tracer c) ts).

(** The reference that [continued] builds. *)
Definition continued_ref {R} (snapshot : ContextSnapshot.t) (t : Inner R) : SegmentReference.t := {|
  SegmentReference.ref_type := RefType_as_i32 CrossThread;
  SegmentReference.trace_id := ContextSnapshot.trace_id snapshot;
  SegmentReference.parent_trace_segment_id := ContextSnapshot.trace_segment_id snapshot;
  SegmentReference.parent_span_id := ContextSnapshot.span_id snapshot;
  SegmentReference.parent_service := service_name t;
  SegmentReference.parent_service_instance := instance_name t;
  SegmentReference.parent_endpoint := ContextSnapshot.parent_endpoint snapshot;
  SegmentReference.network_address_used_at_peer := ""
|}.

(** [TracingContext::continued]. *)
Definition continued {R} (ts : gmap nat (ArcCell R)) (snapshot : ContextSnapshot.t) : M CtxState unit :=
  if ContextSnapshot.is_valid snapshot then
    on_ctx (modify (set_trace_id (ContextSnapshot.trace_id snapshot))) ;;
    t <- upgrade_tracer ts ;;
    active_span_mut_set_ref (continued_ref snapshot t)
  else ret tt.

Definition UNFINISHED_MSG : string := "Some async span haven't finished".

(** [TracingContext::convert_to_segment_object]: the spans are taken before
    they are unwrapped. *)
Definition convert_to_segment_object : M CtxState SegmentObject.t :=
  c <- on_ctx (gets id) ;;
  spans <- on_shared (on_stack (with_finalized_mut (
             l <- gets finalized ;; modify (set_finalized []) ;; ret l))) ;;
  spans <- expect UNFINISHED_MSG (mapM FinalizeSpan.obj spans) ;;
  ret (SegmentObject.Mk (trace_id c) (trace_segment_id c) spans (service c)
         (service_instance c) false).
End Context_.

(** ** Runs on an uncontended state

    [uncontended c f a n g] is the state of a context whose locks are free:
    finalized spans [f], active spans [a], [n] strong stack pointers and wait
    group [g]. The lemmas below evaluate every operation on such a state. *)
Section Runs.
Context {BC : Build} {RW : RwLock} {PN : ProtoNums}.

Definition uncontended_shared f a n g : Shared := MkShared (free_stack f a) n g.
Abbreviation uncontended c f a n g := (MkCtx c (uncontended_shared f a n g)).

Lemma on_stack_run {A} (m : M SpanStack A) f a n g r f' a' :
  m (free_stack f a) = (r, free_stack f' a') →
  on_stack m (uncontended_shared f a n g) = (r, uncontended_shared f' a' n g).
Proof. intros H. unfold on_stack, zoom. cbn. by rewrite H. Qed.

Lemma on_wg_run {A} (m : M WaitGroup A) f a n g r g' :
  m g = (r, g') → on_wg m (uncontended_shared f a n g) = (r, uncontended_shared f a n g').
Proof. intros H. unfold on_wg, zoom. cbn. by rewrite H. Qed.

Lemma on_shared_run {A} (m : M Shared A) c f a n g r sh :
  m (uncontended_shared f a n g) = (r, sh) →
  on_shared m (uncontended c f a n g) = (r, MkCtx c sh).
Proof. intros H. unfold on_shared, zoom. cbn. by rewrite H. Qed.

(** Taking a guard on a free stack around a total read or update. *)
Lemma with_active_gets {A} (h : SpanStack → A) f a :
  (∀ g, h (set_active_lock g (free_stack f a)) = h (free_stack f a)) →
  with_active (gets h) (free_stack f a) = (Ret (h (free_stack f a)), free_stack f a).
Proof.
  intros Hh. destruct try_read_new as (g & Hg & Hd). unfold with_active.
  erewrite with_guard_free; [|exact Hg|reflexivity|discriminate].
  rewrite Hh. unfold set_active_lock, free_stack. cbn. by rewrite Hd.
Qed.

Lemma with_active_mut_modify h f a :
  with_active_mut (modify (λ s, set_active (h (active s)) s)) (free_stack f a)
    = (Ret tt, free_stack f (h a)).
Proof.
  destruct try_write_new as (g & Hg & Hd). unfold with_active_mut.
  erewrite with_guard_free; [|exact Hg|reflexivity|discriminate].
  unfold set_active_lock, free_stack. cbn. by rewrite Hd.
Qed.

Lemma peek_run c f a n g :
  peek_active_span_id (uncontended c f a n g) =
    (Ret (ActiveSpan.span_id <$> last a), uncontended c f a n g).
Proof.
  unfold peek_active_span_id, active_span, bind.
  erewrite on_shared_run; [|apply on_stack_run, with_active_gets; done]. done.
Qed.

(** The context after a span was numbered and pushed. *)
Definition pushed (operation_name : string) (c : TracingContext) : TracingContext :=
  set_primary_endpoint_name operation_name
    (set_span_uid_generator (wrap_unsigned usize_bits (span_uid_generator c + 1))
       (set_next_span_id (next_span_id c + 1) c)).

Lemma push_run o c f a n g :
  push_active_span o (uncontended c f a n g) =
    (Ret (span_uid_generator c),
     uncontended
       (set_primary_endpoint_name (SpanObject.operation_name o)
          (set_span_uid_generator (wrap_unsigned usize_bits (span_uid_generator c + 1)) c))
       f (a ++ [ActiveSpan.new (span_uid_generator c) (SpanObject.span_id o)]) n g).
Proof.
  unfold push_active_span, bind, on_ctx, zoom, generate_span_uid, gets, modify, ret. cbn.
  erewrite on_shared_run.
  2: { apply on_stack_run,
       (with_active_mut_modify (λ l, l ++ [ActiveSpan.new _ (SpanObject.span_id o)])). }
  done.
Qed.

Lemma inc_run c f a n g :
  in_signed 32 (next_span_id c + 1) = true →
  on_ctx inc_next_span_id (uncontended c f a n g) =
    (Ret (next_span_id c), uncontended (set_next_span_id (next_span_id c + 1) c) f a n g).
Proof.
  intros H. unfold on_ctx, zoom, inc_next_span_id, bind, gets, i32_add, arith. cbn.
  by rewrite H.
Qed.

(** The object of a new span on a state. *)
Definition parent_on (a : list ActiveSpan.t) : Z := default (-1) (ActiveSpan.span_id <$> last a).

Lemma create_entry_span_run now op c f a n g :
  in_signed 32 (next_span_id c + 1) = true →
  let o := new_obj now (next_span_id c) (parent_on a) op "" Entry Http false in
  create_entry_span now op (uncontended c f a n g) =
    (Ret (Span.Mk (span_uid_generator c) (Some o)),
     uncontended (pushed op c) f
       (a ++ [ActiveSpan.new (span_uid_generator c) (next_span_id c)]) (S n) g).
Proof.
  intros H. unfold create_entry_span. run_step inc_run. run_step peek_run. run_step push_run.
  done.
Qed.

Lemma create_common_span_run now op peer ty parent c f a n g :
  in_signed 32 (next_span_id c + 1) = true → next_span_id c ≠ 0 →
  let o := new_obj now (next_span_id c) parent op peer ty Unknown false in
  create_common_span now op peer ty parent (uncontended c f a n g) =
    (Ret (Span.Mk (span_uid_generator c) (Some o)),
     uncontended (pushed op c) f
       (a ++ [ActiveSpan.new (span_uid_generator c) (next_span_id c)]) (S n) g).
Proof.
  intros H H0. unfold create_common_span.
  rewrite (bind_Ret (on_ctx (gets next_span_id)) _ _ (next_span_id c) (uncontended c f a n g)) by done.
  rewrite (proj2 (Z.eqb_neq _ _) H0). cbv [negb panic_unless]. rewrite bind_ret_l.
  run_step inc_run. run_step push_run. done.
Qed.

Lemma create_entry_span_with_propagation_run now op p c f a n g :
  in_signed 32 (next_span_id c + 1) = true →
  let o := new_obj now (next_span_id c) (parent_on a) op "" Entry Http false in
  let tid := PropagationContext.parent_trace_id p in
  create_entry_span_with_propagation now op p (uncontended c f a n g) =
    (Ret (Span.Mk (span_uid_generator c) (Some (SpanObject.push_ref (propagation_ref tid p) o))),
     uncontended (set_trace_id tid (pushed op c)) f
       (a ++ [ActiveSpan.new (span_uid_generator c) (next_span_id c)]) (S n) g).
Proof.
  intros H. unfold create_entry_span_with_propagation. run_step create_entry_span_run. done.
Qed.

Lemma create_exit_span_run now op peer c f a n g :
  in_signed 32 (next_span_id c + 1) = true → next_span_id c ≠ 0 →
  let o := new_obj now (next_span_id c) (parent_on a) op peer Exit Unknown false in
  create_exit_span now op peer (uncontended c f a n g) =
    (Ret (Span.Mk (span_uid_generator c) (Some o)),
     uncontended (pushed op c) f
       (a ++ [ActiveSpan.new (span_uid_generator c) (next_span_id c)]) (S n) g).
Proof.
  intros H H0. unfold create_exit_span. run_step peek_run. by apply create_common_span_run.
Qed.

Lemma create_local_span_run now op c f a n g :
  in_signed 32 (next_span_id c + 1) = true → next_span_id c ≠ 0 →
  let o := new_obj now (next_span_id c) (parent_on a) op "" Local Unknown false in
  create_local_span now op (uncontended c f a n g) =
    (Ret (Span.Mk (span_uid_generator c) (Some o)),
     uncontended (pushed op c) f
       (a ++ [ActiveSpan.new (span_uid_generator c) (next_span_id c)]) (S n) g).
Proof.
  intros H H0. unfold create_local_span. run_step peek_run. by apply create_common_span_run.
Qed.

(** Without any span created before, an exit or a local span panics and
    nothing changes. *)
Lemma create_common_span_first now op peer ty parent c f a n g :
  next_span_id c = 0 →
  uncontended c f a n g ⊢ create_common_span now op peer ty parent
    ⇑ ENTRY_MSG ⊣ uncontended c f a n g.
Proof.
  intros H0. unfold create_common_span, bind, on_ctx, zoom, gets. cbn. by rewrite H0.
Qed.

Lemma create_exit_span_first now op peer c f a n g :
  next_span_id c = 0 →
  uncontended c f a n g ⊢ create_exit_span now op peer ⇑ ENTRY_MSG ⊣ uncontended c f a n g.
Proof.
  intros H0. unfold create_exit_span. run_step peek_run. by apply create_common_span_first.
Qed.

Lemma create_local_span_first now op c f a n g :
  next_span_id c = 0 →
  uncontended c f a n g ⊢ create_local_span now op ⇑ ENTRY_MSG ⊣ uncontended c f a n g.
Proof.
  intros H0. unfold create_local_span. run_step peek_run. by apply create_common_span_first.
Qed.

Lemma span_drop_top now u o f a s n g :
  ActiveSpan.uid s = u →
  uncontended_shared f (a ++ [s]) n g ⊢ span_drop now (Span.Mk u o)
    ⇓ tt ⊣ uncontended_shared (f ++ [finalize_entry now u o s]) a (pred n) g.
Proof.
  intros H. unfold span_drop, scoped, leave.
  erewrite on_stack_run by (apply finalize_span_top; exact H). done.
Qed.

Lemma span_drop_not_top now s f a n g :
  last_is (Span.uid s) a = false →
  uncontended_shared f a n g ⊢ span_drop now s
    ⇑ NOT_ACTIVE_MSG ⊣ uncontended_shared f a (pred n) g.
Proof.
  intros H. unfold span_drop, scoped, leave.
  erewrite on_stack_run by (apply finalize_span_not_top; exact H). done.
Qed.

Lemma is_active_run s f a n g :
  is_active_span s (uncontended_shared f a n g) =
    (Ret (last_is (Span.uid s) a), uncontended_shared f a n g).
Proof. unfold is_active_span. by erewrite on_stack_run by apply is_active_free. Qed.

Lemma prepare_for_async_top now u o f a s n c :
  ActiveSpan.uid s = u → in_unsigned usize_bits (c + 1) = true →
  uncontended_shared f (a ++ [s]) n {| count := c; poisoned := false |}
    ⊢ prepare_for_async now (Span.Mk u o) ⇓ AsyncSpan.Mk u o
    ⊣ uncontended_shared (f ++ [FinalizeSpan.Mk u None (ActiveSpan.ref s)]) a (pred n)
        {| count := c + 1; poisoned := false |}.
Proof.
  intros Hu Hc. unfold prepare_for_async.
  eapply leave_Ret; [|cbn; rewrite span_drop_top by done; reflexivity].
  run_step is_active_run. cbn [Span.uid].
  rewrite (proj2 (last_is_Some _ _)) by eauto. cbv [panic_unless]. rewrite bind_ret_l.
  erewrite bind_Ret by (apply on_wg_run, wg_add_ok; done). reflexivity.
Qed.

(** Preparing a span that is not the active one: the panic unwinds through
    the span's own destructor, which panics again, so the process aborts. *)
Lemma prepare_for_async_not_top now s f a n g :
  last_is (Span.uid s) a = false →
  prepare_for_async now s (uncontended_shared f a n g) =
    (Abort, uncontended_shared f a (pred n) g).
Proof.
  intros H. unfold prepare_for_async, leave, bind. rewrite is_active_run, H. cbn.
  rewrite span_drop_not_top by done. done.
Qed.

Lemma async_finish_run now u o f a n g :
  async_finish now (AsyncSpan.Mk u (Some o)) (uncontended_shared f a (S n) g) =
    match fill_first now u o f with
    | Some f' => (Ret tt, uncontended_shared f' a (S n) g)
    | None => (Panic UNREACHABLE_MSG, uncontended_shared f a (S n) g)
    end.
Proof.
  unfold async_finish, bind. cbn.
  destruct (fill_first now u o f) as [f'|] eqn:E; apply on_stack_run;
    by rewrite finalize_async_span_free, E.
Qed.

Lemma async_done_run f a n k :
  0 < k < 2 ^ usize_bits →
  uncontended_shared f a n {| count := k; poisoned := false |} ⊢ async_done
    ⇓ tt ⊣ uncontended_shared f a n {| count := k - 1; poisoned := false |}.
Proof.
  intros Hk. unfold async_done. apply on_wg_run.
  erewrite bind_Ret by (apply wg_done_ok; done). done.
Qed.

Lemma convert_run c f a n g :
  convert_to_segment_object (uncontended c f a n g) =
    match mapM FinalizeSpan.obj f with
    | Some spans =>
        (Ret (SegmentObject.Mk (trace_id c) (trace_segment_id c) spans (service c)
                (service_instance c) false), uncontended c [] a n g)
    | None => (Panic UNFINISHED_MSG, uncontended c [] a n g)
    end.
Proof.
  unfold convert_to_segment_object. unfold bind at 1. unfold on_ctx, zoom, gets. cbn.
  destruct try_write_new as (l & Hl & Hd).
  unfold bind at 1. erewrite on_shared_run.
  2: { apply (on_stack_run _ _ _ _ _ (Ret f) [] a). unfold with_finalized_mut.
       erewrite with_guard_free; [|exact Hl|reflexivity|discriminate].
       unfold set_finalized_lock, free_stack. cbn. by rewrite Hd. }
  unfold bind. by destruct (mapM FinalizeSpan.obj f).
Qed.

Lemma continued_run {R} (ts : gmap nat (ArcCell R)) snap t c f a n g :
  ContextSnapshot.is_valid snap = true → upgraded (tracer c) ts = Some t →
  continued ts snap (uncontended c f a n g) =
    (Ret tt, uncontended (set_trace_id (ContextSnapshot.trace_id snap) c) f
               (set_last_ref (continued_ref snap t) a) n g).
Proof.
  intros Hv Ht. unfold continued. rewrite Hv. unfold bind, upgrade_tracer, on_ctx, zoom, modify.
  cbn. rewrite Ht. cbn.
  unfold active_span_mut_set_ref.
  erewrite on_shared_run;
    [|apply on_stack_run, (with_active_mut_modify (set_last_ref (continued_ref snap t)))].
  done.
Qed.
End Runs.

Abbreviation uncontended c f a n g := (MkCtx c (uncontended_shared f a n g)).

(** Operations are evaluated by their run lemmas, not by reduction. *)
#[global] Arguments span_drop : simpl never.
#[global] Arguments prepare_for_async : simpl never.
#[global] Arguments async_finish : simpl never.
#[global] Arguments async_done : simpl never.
#[global] Arguments async_drop : simpl never.
#[global] Arguments create_entry_span : simpl never.
#[global] Arguments create_entry_span_with_propagation : simpl never.
#[global] Arguments create_exit_span : simpl never.
#[global] Arguments create_local_span : simpl never.
#[global] Arguments continued : simpl never.
#[global] Arguments convert_to_segment_object : simpl never.
#[global] Arguments on_wg : simpl never.
