(* ===== verification/ContextSpec.v ===== *)
(** * What a tracing context promises

    The abstract machine that trace_context.rs and span.rs implement: the parent
    of every span created so far, the stack of open spans, the spans handed to
    other threads, the finished ones. It knows nothing of locks, pointers, wait
    groups or slots. ContextRefinement.v proves that the contexts of
    TraceContext.v and this machine simulate each other. *)
From S2P Require Import Prelude.

Local Open Scope Z_scope.

(** [parents] lists the parent of span 0, 1, ...; the innermost open span comes
    last in [opened]. *)
Record spec := MkSpec {
  parents : list Z;
  opened : list Z;
  detached : gset Z;
  finished : gset Z
}.

#[export] Instance spec_eq_dec : EqDecision spec.
Proof. solve_decision. Defined.

Definition spec_new : spec := MkSpec [] [] ∅ ∅.

(** The next span, a child of the innermost open one. *)
Definition spec_open (σ : spec) : spec :=
  MkSpec (parents σ ++ [default (-1) (last (opened σ))])
    (opened σ ++ [Z.of_nat (length (parents σ))]) (detached σ) (finished σ).

(** The innermost open span is finished, or goes to another thread. *)
Definition spec_close (σ : spec) : option spec :=
  n ← last (opened σ);
  Some (MkSpec (parents σ) (removelast (opened σ)) (detached σ) (finished σ ∪ {[n]})).
Definition spec_detach (σ : spec) : option spec :=
  n ← last (opened σ);
  Some (MkSpec (parents σ) (removelast (opened σ)) (detached σ ∪ {[n]}) (finished σ)).

(** A span in another thread is finished. *)
Definition spec_finish (n : Z) (σ : spec) : option spec :=
  guard (n ∈ detached σ);;
  Some (MkSpec (parents σ) (opened σ) (detached σ ∖ {[n]}) (finished σ ∪ {[n]})).

Inductive spec_step (σ : spec) : spec → Prop :=
| spec_opens : spec_step σ (spec_open σ)
| spec_closes σ' : spec_close σ = Some σ' → spec_step σ σ'
| spec_detaches σ' : spec_detach σ = Some σ' → spec_step σ σ'
| spec_finishes n σ' : spec_finish n σ = Some σ' → spec_step σ σ'.

(** At most one step: most calls of the program are a step, some are none. *)
Definition spec_moves (σ σ' : spec) : Prop := σ' = σ ∨ spec_step σ σ'.

Lemma spec_moves_rtc σ σ' : spec_moves σ σ' → rtc spec_step σ σ'.
Proof. intros [->|H]; [apply rtc_refl|by apply rtc_once]. Qed.

(** What is reported at the end: every span with its parent. *)
Definition spec_report (σ : spec) : list (Z * Z) :=
  imap (λ i p, (Z.of_nat i, p)) (parents σ).

Lemma spec_close_snoc ps st n d f :
  spec_close (MkSpec ps (st ++ [n]) d f) = Some (MkSpec ps st d (f ∪ {[n]})).
Proof. unfold spec_close. cbn. by rewrite last_snoc, removelast_last. Qed.

Lemma spec_detach_snoc ps st n d f :
  spec_detach (MkSpec ps (st ++ [n]) d f) = Some (MkSpec ps st (d ∪ {[n]}) f).
Proof. unfold spec_detach. cbn. by rewrite last_snoc, removelast_last. Qed.

(** The report, from a function that gives the parents. *)
Lemma spec_report_seqZ (par : Z → Z) n st d f :
  spec_report (MkSpec (par <$> seqZ 0 n) st d f) = (λ u, (u, par u)) <$> seqZ 0 n.
Proof.
  unfold spec_report. cbn. apply list_eq. intros i.
  rewrite list_lookup_imap, !list_lookup_fmap.
  destruct (seqZ 0 n !! i) as [u|] eqn:E; [|done]. cbn.
  apply lookup_seqZ in E as [-> _]. by rewrite Z.add_0_l.
Qed.
