(* ===== verification/Session.v ===== *)
(** * The life of a tracing context

    A [session] is a context together with the handles its client holds: live
    spans and live asynchronous spans (possibly in other threads). [step] is
    one call of the client; the destructor of an asynchronous span is two steps
    ([async_finish], then [async_done]), so that the context's thread can run in
    between. Creation steps ask for room in the [i32] span counter, edits
    through [span_object_mut] leave the two identifiers alone, and the numbers a
    client passes are of their types; a step is a call that returned. *)

From stdpp Require Import sorting.
From S2P Require Import Prelude Common WaitGroup Proto Tracer SpanStack TraceContext ContextSpec.

Local Open Scope Z_scope.
Local Open Scope sky_scope.

Section Session.
Context {BC : Build} {RW : RwLock} {PN : ProtoNums} {R : Type}.

Record session := MkSession {
  cs : CtxState;
  spans : list Span.t;
  asyncs : list AsyncSpan.t;
  finishing : nat
}.

(** A new context. *)
Definition session_new (uuid1 uuid2 : Z) (service instance : string) (t : WeakTracer) : session :=
  MkSession (context_new uuid1 uuid2 service instance t) [] [] 0.

Definition keeps_ids (f : SpanObject.t → SpanObject.t) : Prop :=
  ∀ o, SpanObject.span_id (f o) = SpanObject.span_id o ∧
       SpanObject.parent_span_id (f o) = SpanObject.parent_span_id o.

(** What a client does through [span_object_mut]: the identifiers stay, and
    every number stays within its type. *)
Definition client_edit (f : SpanObject.t → SpanObject.t) : Prop :=
  keeps_ids f ∧ ∀ o, SpanObject.well_typed o = true → SpanObject.well_typed (f o) = true.

Definition room (s : session) : Prop := in_signed 32 (next_span_id (ctx (cs s)) + 1) = true.

Inductive step : session → session → Prop :=
| step_create_entry now op s sp cs' :
    room s → cs s ⊢ create_entry_span now op ⇓ sp ⊣ cs' →
    step s (MkSession cs' (spans s ++ [sp]) (asyncs s) (finishing s))
| step_create_entry_with_propagation now op p s sp cs' :
    room s → in_signed 32 (PropagationContext.parent_span_id p) = true →
    cs s ⊢ create_entry_span_with_propagation now op p ⇓ sp ⊣ cs' →
    step s (MkSession cs' (spans s ++ [sp]) (asyncs s) (finishing s))
| step_create_exit now op peer s sp cs' :
    room s → cs s ⊢ create_exit_span now op peer ⇓ sp ⊣ cs' →
    step s (MkSession cs' (spans s ++ [sp]) (asyncs s) (finishing s))
| step_create_local now op s sp cs' :
    room s → cs s ⊢ create_local_span now op ⇓ sp ⊣ cs' →
    step s (MkSession cs' (spans s ++ [sp]) (asyncs s) (finishing s))
| step_continued (ts : gmap nat (ArcCell R)) snapshot s cs' :
    in_signed 32 (ContextSnapshot.span_id snapshot) = true → cs s ⊢ continued ts snapshot ⇓ tt ⊣ cs' →
    step s (MkSession cs' (spans s) (asyncs s) (finishing s))
| step_edit_span f s l1 sp l2 sp' :
    client_edit f → spans s = l1 ++ sp :: l2 → span_object_mut f sp = Ret sp' →
    step s (MkSession (cs s) (l1 ++ sp' :: l2) (asyncs s) (finishing s))
| step_drop_span now s l1 sp l2 sh' :
    spans s = l1 ++ sp :: l2 → shared (cs s) ⊢ span_drop now sp ⇓ tt ⊣ sh' →
    step s (MkSession (MkCtx (ctx (cs s)) sh') (l1 ++ l2) (asyncs s) (finishing s))
| step_prepare_for_async now s l1 sp l2 asp sh' :
    spans s = l1 ++ sp :: l2 → shared (cs s) ⊢ prepare_for_async now sp ⇓ asp ⊣ sh' →
    step s (MkSession (MkCtx (ctx (cs s)) sh') (l1 ++ l2) (asyncs s ++ [asp]) (finishing s))
| step_edit_async f s l1 asp l2 asp' :
    client_edit f → asyncs s = l1 ++ asp :: l2 → span_object_mut f asp = Ret asp' →
    step s (MkSession (cs s) (spans s) (l1 ++ asp' :: l2) (finishing s))
| step_async_finish now s l1 asp l2 sh' :
    asyncs s = l1 ++ asp :: l2 → shared (cs s) ⊢ async_finish now asp ⇓ tt ⊣ sh' →
    step s (MkSession (MkCtx (ctx (cs s)) sh') (spans s) (l1 ++ l2) (S (finishing s)))
| step_async_done s n sh' :
    finishing s = S n → shared (cs s) ⊢ async_done ⇓ tt ⊣ sh' →
    step s (MkSession (MkCtx (ctx (cs s)) sh') (spans s) (asyncs s) n).

(** The sessions a client can reach without a panic. *)
Definition reachable (s : session) : Prop :=
  ∃ u1 u2 service instance t, rtc step (session_new u1 u2 service instance t) s.
End Session.

(** ** The invariant

    [par] gives each span uid its parent's identifier, decided at creation. *)
Section Invariant.
Context {BC : Build} {RW : RwLock} {PN : ProtoNums}.

(** The identifiers an object carries. *)
Definition carries (par : Z → Z) (u : Z) (obj : option SpanObject.t) : Prop :=
  ∃ o, obj = Some o ∧ SpanObject.span_id o = u ∧ SpanObject.parent_span_id o = par u.

(** Each span of the active stack is the parent of the one above it. *)
Fixpoint chain (par : Z → Z) (p : Z) (l : list Z) : Prop :=
  match l with [] => True | u :: l' => par u = p ∧ chain par u l' end.

(** The uids of the slots that wait for an asynchronous span. *)
Definition pending (f : list FinalizeSpan.t) : list Z :=
  FinalizeSpan.uid <$> filter (λ x, FinalizeSpan.obj x = None) f.

(** The uids of the filled slots. *)
Definition completed (f : list FinalizeSpan.t) : list Z :=
  FinalizeSpan.uid <$> filter (λ x, FinalizeSpan.obj x ≠ None) f.

Abbreviation auids a := (ActiveSpan.uid <$> a).
Abbreviation fuids f := (FinalizeSpan.uid <$> f).

Record inv (par : Z → Z) (c : TracingContext) (f : list FinalizeSpan.t)
    (a : list ActiveSpan.t) (sp : list Span.t) (asy : list AsyncSpan.t) (fin : nat) : Prop := {
  i_next : 0 ≤ next_span_id c < 2 ^ 31;
  i_gen : span_uid_generator c = next_span_id c;
  i_uids : auids a ++ fuids f ≡ₚ seqZ 0 (next_span_id c);
  i_act : Forall (λ x, ActiveSpan.span_id x = ActiveSpan.uid x) a;
  i_chain : chain par (-1) (auids a);
  i_spans : Span.uid <$> sp ≡ₚ auids a;
  i_spans_obj : Forall (λ s, carries par (Span.uid s) (Span.obj s)) sp;
  i_fin : Forall (λ x, FinalizeSpan.obj x = None ∨
                       carries par (FinalizeSpan.uid x) (FinalizeSpan.obj x)) f;
  i_asyncs : AsyncSpan.uid <$> asy ≡ₚ pending f;
  i_asyncs_obj : Forall (λ s, carries par (AsyncSpan.uid s) (AsyncSpan.obj s)) asy;
  i_count : (length asy + fin ≤ length f)%nat;
  i_par : ∀ u, 0 ≤ u < next_span_id c → par u = -1 ∨ 0 ≤ par u < u;
  i_order : ∀ f1 u f2, fuids f = f1 ++ u :: f2 →
    par u = -1 ∨ par u ∈ auids a ∨ par u ∈ f2
}.

(** The state of the abstract machine. *)
Definition abs (par : Z → Z) (c : TracingContext) (f : list FinalizeSpan.t)
    (a : list ActiveSpan.t) (asy : list AsyncSpan.t) : spec :=
  MkSpec (par <$> seqZ 0 (next_span_id c)) (auids a)
    (list_to_set (AsyncSpan.uid <$> asy)) (list_to_set (completed f)).

(** *** Lists *)

Lemma chain_snoc par p l u :
  chain par p (l ++ [u]) ↔ chain par p l ∧ par u = default p (last l).
Proof.
  revert p. induction l as [|v l IH]; intros p; cbn; [naive_solver|].
  rewrite IH. destruct l; cbn; [naive_solver|].
  destruct (last (z :: l)) eqn:E; cbn; [naive_solver|]. by apply last_None in E.
Qed.

Lemma chain_ext par par' p l :
  (∀ u, u ∈ l → par u = par' u) → chain par p l → chain par' p l.
Proof.
  revert p. induction l as [|v l IH]; intros p Hext; cbn; [done|]. intros [Hv Hl]. split.
  - rewrite <-Hv. symmetry. apply Hext. by left.
  - apply IH; [|done]. intros u Hu. apply Hext. by right.
Qed.

Lemma carries_ext par par' u o : par u = par' u → carries par u o → carries par' u o.
Proof. intros E (x & -> & ? & ?). exists x. split_and!; congruence. Qed.

Lemma pending_app f1 f2 : pending (f1 ++ f2) = pending f1 ++ pending f2.
Proof. unfold pending. by rewrite filter_app, fmap_app. Qed.

Lemma pending_cons x f :
  pending (x :: f) = (if decide (FinalizeSpan.obj x = None) then [FinalizeSpan.uid x] else []) ++ pending f.
Proof. unfold pending. rewrite filter_cons. by case_decide. Qed.

Lemma completed_app f1 f2 : completed (f1 ++ f2) = completed f1 ++ completed f2.
Proof. unfold completed. by rewrite filter_app, fmap_app. Qed.

Lemma completed_cons x f :
  completed (x :: f) = (if decide (FinalizeSpan.obj x ≠ None) then [FinalizeSpan.uid x] else []) ++ completed f.
Proof. unfold completed. rewrite filter_cons. by case_decide. Qed.

Lemma pending_subset f u : u ∈ pending f → u ∈ fuids f.
Proof.
  unfold pending. rewrite !list_elem_of_fmap. intros (x & -> & Hx%list_elem_of_filter). naive_solver.
Qed.

Lemma perm_remove {A} (l l1 l2 : list A) (x : A) :
  l1 ++ x :: l2 ≡ₚ l ++ [x] → l1 ++ l2 ≡ₚ l.
Proof.
  intros H. apply (Permutation_cons_inv (a := x)).
  by rewrite Permutation_middle, H, Permutation_app_comm.
Qed.

(** *** Consequences of the invariant *)

Section Facts.
Context {par c f a sp asy fin} (I : inv par c f a sp asy fin).

Lemma uids_range u : u ∈ auids a ++ fuids f ↔ 0 ≤ u < next_span_id c.
Proof. rewrite (i_uids _ _ _ _ _ _ _ I), elem_of_seqZ. lia. Qed.

Lemma uids_NoDup : NoDup (auids a ++ fuids f).
Proof. rewrite (i_uids _ _ _ _ _ _ _ I). apply NoDup_seqZ. Qed.

Lemma fin_length : Z.of_nat (length f) ≤ next_span_id c.
Proof.
  pose proof (Permutation_length (i_uids _ _ _ _ _ _ _ I)) as H.
  rewrite length_app, !length_fmap, length_seqZ in H.
  pose proof (i_next _ _ _ _ _ _ _ I). lia.
Qed.

Lemma last_parent : parent_on a = default (-1) (last (auids a)).
Proof.
  unfold parent_on. destruct a as [|x a' _] using rev_ind; [done|].
  rewrite last_snoc, fmap_app. cbn. rewrite last_snoc. cbn.
  pose proof (i_act _ _ _ _ _ _ _ I) as H. rewrite Forall_app, Forall_singleton in H. apply H.
Qed.

Lemma parent_range : parent_on a = -1 ∨ 0 ≤ parent_on a < next_span_id c.
Proof.
  rewrite last_parent. destruct (last (auids a)) as [u|] eqn:E; [|by left]. right. cbn.
  apply uids_range, elem_of_app. left. by apply last_Some_elem_of.
Qed.
End Facts.

Lemma inv_new u1 u2 s i t :
  inv (λ _, -1) (ctx (context_new u1 u2 s i t)) [] [] [] [] 0.
Proof.
  split; cbn; try done; try lia; auto.
Qed.

(** *** Preservation *)

(** A new span is numbered, pushed, and handed out. *)
Lemma inv_push par c c' f a sp asy fin o :
  inv par c f a sp asy fin →
  in_signed 32 (next_span_id c + 1) = true →
  next_span_id c' = next_span_id c + 1 →
  span_uid_generator c' = wrap_unsigned usize_bits (span_uid_generator c + 1) →
  SpanObject.span_id o = next_span_id c → SpanObject.parent_span_id o = parent_on a →
  let u := span_uid_generator c in
  inv (λ v, if decide (v = u) then parent_on a else par v) c' f
    (a ++ [ActiveSpan.new u (next_span_id c)]) (sp ++ [Span.Mk u (Some o)]) asy fin.
Proof.
  intros I Hroom Hn Hg Ho Hp u. set (par' := λ v, _).
  pose proof (i_next _ _ _ _ _ _ _ I) as Hnext.
  pose proof (i_gen _ _ _ _ _ _ _ I) as Hgen. fold u in Hgen.
  assert (Hpar : ∀ v, v ∈ auids a ++ fuids f → par v = par' v).
  { intros v Hv%(uids_range I). unfold par'. rewrite decide_False by lia. done. }
  assert (Hu : par' u = parent_on a) by (unfold par'; by rewrite decide_True).
  apply in_signed_spec in Hroom. change (32 - 1) with 31 in Hroom.
  split.
  - lia.
  - rewrite Hn, Hg. unfold wrap_unsigned, usize_bits. rewrite Z.mod_small; lia.
  - rewrite Hn, fmap_app. cbn. rewrite seqZ_app, <-(i_uids _ _ _ _ _ _ _ I) by lia.
    rewrite Z.add_0_l, <-Hgen, (seqZ_cons u 1), (seqZ_nil (Z.succ u)) by lia.
    rewrite <-!app_assoc. f_equiv. apply Permutation_app_comm.
  - apply Forall_app. split; [apply I|]. constructor; [done|constructor].
  - rewrite fmap_app. apply chain_snoc. split.
    + eapply chain_ext; [|apply I]. intros v Hv. apply Hpar, elem_of_app. by left.
    + cbn. by rewrite Hu, (last_parent I).
  - rewrite !fmap_app, (i_spans _ _ _ _ _ _ _ I). done.
  - apply Forall_app. split.
    + eapply Forall_impl_strong; [|apply I]. intros s Hs. apply carries_ext, Hpar, elem_of_app.
      left. rewrite <-(i_spans _ _ _ _ _ _ _ I). by apply list_elem_of_fmap_2.
    + constructor; [|constructor]. exists o. cbn. split_and!; congruence.
  - eapply Forall_impl_strong; [|apply I]. intros x Hx [?|?]; [by left|right].
    eapply carries_ext; [apply Hpar, elem_of_app; right; by apply list_elem_of_fmap_2|done].
  - apply I.
  - eapply Forall_impl_strong; [|apply I]. intros s Hs. apply carries_ext, Hpar, elem_of_app.
    right. apply pending_subset. rewrite <-(i_asyncs _ _ _ _ _ _ _ I).
    by apply list_elem_of_fmap_2.
  - apply I.
  - intros v Hv. unfold par'. case_decide as E.
    + pose proof (parent_range I). lia.
    + apply (i_par _ _ _ _ _ _ _ I). lia.
  - intros f1 v f2 E. rewrite <-Hpar.
    + rewrite fmap_app, elem_of_app.
      destruct (i_order _ _ _ _ _ _ _ I _ _ _ E) as [?|[?|?]]; tauto.
    + rewrite E. set_solver.
Qed.

(** The entry of a span leaving the active stack, and the asynchronous
    handles after it left. *)
Definition left_behind (par : Z → Z) (u : Z) (e : FinalizeSpan.t) (asy asy' : list AsyncSpan.t) : Prop :=
  (carries par u (FinalizeSpan.obj e) ∧ asy' = asy) ∨
  (FinalizeSpan.obj e = None ∧
   ∃ t, asy' = asy ++ [t] ∧ AsyncSpan.uid t = u ∧ carries par u (AsyncSpan.obj t)).

(** The top span leaves the stack: dropped, or prepared for async. *)
Lemma inv_pop par c f a x sp1 s sp2 asy asy' fin e :
  inv par c f (a ++ [x]) (sp1 ++ s :: sp2) asy fin →
  Span.uid s = ActiveSpan.uid x → FinalizeSpan.uid e = ActiveSpan.uid x →
  left_behind par (ActiveSpan.uid x) e asy asy' →
  inv par c (f ++ [e]) a (sp1 ++ sp2) asy' fin.
Proof.
  intros I Hs He Hleft.
  pose proof (i_chain _ _ _ _ _ _ _ I) as Hch. rewrite fmap_app in Hch.
  apply chain_snoc in Hch as [Hch Hpx].
  pose proof (i_spans_obj _ _ _ _ _ _ _ I) as Hso. apply Forall_app in Hso as [Hso1 Hso2].
  apply Forall_cons in Hso2 as [_ Hso2].
  split.
  - apply I.
  - apply I.
  - rewrite <-(i_uids _ _ _ _ _ _ _ I), !fmap_app, <-app_assoc. cbn. rewrite He.
    f_equiv. apply Permutation_app_comm.
  - pose proof (i_act _ _ _ _ _ _ _ I) as H. by apply Forall_app in H as [H _].
  - done.
  - pose proof (i_spans _ _ _ _ _ _ _ I) as H. rewrite !fmap_app in *. cbn in H.
    rewrite Hs in H. by eapply perm_remove.
  - by apply Forall_app.
  - apply Forall_app. split; [apply I|]. constructor; [|constructor]. rewrite He.
    destruct Hleft as [[? _]|[? _]]; [by right|by left].
  - rewrite pending_app, <-(i_asyncs _ _ _ _ _ _ _ I), pending_cons. unfold pending at 1. cbn.
    destruct Hleft as [[(o & Ho & _) ->]|(Hn & t & -> & Ht & _)].
    + rewrite decide_False by congruence. by rewrite app_nil_r.
    + rewrite decide_True by done. rewrite fmap_app. cbn. by rewrite Ht, He.
  - destruct Hleft as [[_ ->]|(_ & t & -> & Ht & Hc)]; [apply I|].
    apply Forall_app. split; [apply I|]. constructor; [by rewrite Ht|constructor].
  - pose proof (i_count _ _ _ _ _ _ _ I). rewrite length_app. cbn.
    destruct Hleft as [[_ ->]|(_ & t & -> & _)]; rewrite ?length_app; cbn; lia.
  - apply I.
  - intros f1 u f2 E. rewrite fmap_app in E. cbn in E. rewrite He in E.
    destruct f2 as [|z f2 _] using rev_ind.
    + apply app_inj_tail in E as [_ <-]. rewrite Hpx.
      destruct (last (auids a)) as [u|] eqn:Eu; [|by left]. right. left. cbn.
      by apply last_Some_elem_of.
    + rewrite app_comm_cons, app_assoc in E. apply app_inj_tail in E as [E <-].
      destruct (i_order _ _ _ _ _ _ _ I _ _ _ E) as [?|[H|H]]; [by left| |].
      * rewrite fmap_app, elem_of_app in H. set_solver.
      * set_solver.
Qed.

(** An asynchronous span fills its slot. *)
Lemma inv_fill par c f1 x x' f2 a sp asy1 t asy2 fin :
  inv par c (f1 ++ x :: f2) a sp (asy1 ++ t :: asy2) fin →
  AsyncSpan.uid t = FinalizeSpan.uid x → FinalizeSpan.obj x = None →
  FinalizeSpan.uid x' = FinalizeSpan.uid x →
  carries par (FinalizeSpan.uid x) (FinalizeSpan.obj x') →
  inv par c (f1 ++ x' :: f2) a sp (asy1 ++ asy2) (S fin).
Proof.
  intros I Ht Hx Hx' Hc.
  assert (Huids : fuids (f1 ++ x' :: f2) = fuids (f1 ++ x :: f2)).
  { rewrite !fmap_app. cbn. by rewrite Hx'. }
  split; try apply I.
  - rewrite Huids. apply I.
  - pose proof (i_fin _ _ _ _ _ _ _ I) as H. apply Forall_app in H as [H1 [_ H2]%Forall_cons].
    apply Forall_app. split; [done|]. constructor; [|done]. right. by rewrite Hx'.
  - pose proof (i_asyncs _ _ _ _ _ _ _ I) as H.
    rewrite pending_app, pending_cons, decide_True in H by done.
    rewrite pending_app, pending_cons, decide_False by (destruct Hc as (? & -> & _); done).
    rewrite fmap_app in *. cbn in *. rewrite Ht in H.
    eapply (Permutation_cons_inv (a := FinalizeSpan.uid x)).
    by rewrite !Permutation_middle.
  - pose proof (i_asyncs_obj _ _ _ _ _ _ _ I) as H. apply Forall_app in H as [H1 [_ H2]%Forall_cons].
    by apply Forall_app.
  - pose proof (i_count _ _ _ _ _ _ _ I) as H. rewrite !length_app in *. cbn in *. lia.
  - rewrite Huids. apply I.
Qed.

(** Editing a live object, or the reference kept by the top active span. *)
Lemma carries_edit g par u o o' :
  keeps_ids g → o' = g o → carries par u (Some o) → carries par u (Some o').
Proof.
  intros Hg -> (x & [= <-] & ? & ?). destruct (Hg o). exists (g o). split_and!; congruence.
Qed.

Lemma inv_edit_span par c f a sp1 s s' sp2 asy fin :
  inv par c f a (sp1 ++ s :: sp2) asy fin →
  Span.uid s' = Span.uid s →
  (carries par (Span.uid s) (Span.obj s) → carries par (Span.uid s) (Span.obj s')) →
  inv par c f a (sp1 ++ s' :: sp2) asy fin.
Proof.
  intros I Hu Hc. split; try apply I.
  - rewrite <-(i_spans _ _ _ _ _ _ _ I), !fmap_app. cbn. by rewrite Hu.
  - pose proof (i_spans_obj _ _ _ _ _ _ _ I) as H.
    apply Forall_app in H as [H1 [H H2]%Forall_cons]. apply Forall_app. split; [done|].
    constructor; [|done]. rewrite Hu. auto.
Qed.

Lemma inv_edit_async par c f a sp asy1 t t' asy2 fin :
  inv par c f a sp (asy1 ++ t :: asy2) fin →
  AsyncSpan.uid t' = AsyncSpan.uid t →
  (carries par (AsyncSpan.uid t) (AsyncSpan.obj t) → carries par (AsyncSpan.uid t) (AsyncSpan.obj t')) →
  inv par c f a sp (asy1 ++ t' :: asy2) fin.
Proof.
  intros I Hu Hc. split; try apply I.
  - rewrite <-(i_asyncs _ _ _ _ _ _ _ I), !fmap_app. cbn. by rewrite Hu.
  - pose proof (i_asyncs_obj _ _ _ _ _ _ _ I) as H.
    apply Forall_app in H as [H1 [H H2]%Forall_cons]. apply Forall_app. split; [done|].
    constructor; [|done]. rewrite Hu. auto.
  - pose proof (i_count _ _ _ _ _ _ _ I) as H. rewrite length_app in *. cbn in *. lia.
Qed.

Lemma set_last_ref_uids r a :
  auids (set_last_ref r a) = auids a ∧
  (Forall (λ x, ActiveSpan.span_id x = ActiveSpan.uid x) a →
   Forall (λ x, ActiveSpan.span_id x = ActiveSpan.uid x) (set_last_ref r a)).
Proof.
  unfold set_last_ref. destruct a as [|x a _] using rev_ind; [done|].
  rewrite last_snoc, removelast_last, !fmap_app. split; [done|].
  rewrite !Forall_app, !Forall_singleton. done.
Qed.

Lemma inv_continued par c c' f a sp asy fin r :
  inv par c f a sp asy fin →
  next_span_id c' = next_span_id c → span_uid_generator c' = span_uid_generator c →
  inv par c' f (set_last_ref r a) sp asy fin.
Proof.
  intros I Hn Hg. destruct (set_last_ref_uids r a) as [Hu Ha].
  split; rewrite ?Hu, ?Hn, ?Hg; try apply I. apply Ha, I.
Qed.

(** *** The same steps on the abstract machine *)

Lemma abs_push par c c' f a sp asy fin :
  inv par c f a sp asy fin → next_span_id c' = next_span_id c + 1 →
  let u := span_uid_generator c in
  abs (λ v, if decide (v = u) then parent_on a else par v) c' f
    (a ++ [ActiveSpan.new u (next_span_id c)]) asy = spec_open (abs par c f a asy).
Proof.
  intros I Hn u. pose proof (i_next _ _ _ _ _ _ _ I) as Hnext.
  pose proof (i_gen _ _ _ _ _ _ _ I) as Hgen. fold u in Hgen.
  unfold abs, spec_open. cbn [parents opened detached finished].
  rewrite Hn, seqZ_app, (seqZ_cons (0 + _) 1), (seqZ_nil (Z.succ _)), !fmap_app by lia. f_equal.
  - cbn. rewrite Z.add_0_l, decide_True, (last_parent I) by done. f_equal.
    apply list_fmap_ext. intros i v Hv. apply lookup_seqZ in Hv as [-> ?]. by rewrite decide_False by lia.
  - cbn. rewrite length_fmap, length_seqZ, Z2Nat.id by lia. by rewrite Hgen.
Qed.

Lemma abs_close par c f a x asy e :
  FinalizeSpan.uid e = ActiveSpan.uid x → FinalizeSpan.obj e ≠ None →
  spec_close (abs par c f (a ++ [x]) asy) = Some (abs par c (f ++ [e]) a asy).
Proof.
  intros He Ho. unfold abs. rewrite fmap_app. cbn [fmap list_fmap]. rewrite spec_close_snoc. do 2 f_equal.
  rewrite completed_app, completed_cons, decide_True, He by done. set_solver.
Qed.

Lemma abs_detach par c f a x asy e t :
  FinalizeSpan.obj e = None → AsyncSpan.uid t = ActiveSpan.uid x →
  spec_detach (abs par c f (a ++ [x]) asy) = Some (abs par c (f ++ [e]) a (asy ++ [t])).
Proof.
  intros Ho Ht. unfold abs. rewrite fmap_app. cbn [fmap list_fmap]. rewrite spec_detach_snoc. do 2 f_equal.
  - rewrite fmap_app. cbn. rewrite Ht. set_solver.
  - rewrite completed_app, completed_cons, decide_False by tauto. set_solver.
Qed.

Lemma asyncs_NoDup par c f a sp asy fin :
  inv par c f a sp asy fin → NoDup (AsyncSpan.uid <$> asy).
Proof.
  intros I. rewrite (i_asyncs _ _ _ _ _ _ _ I). pose proof (uids_NoDup I) as (_ & _ & H)%NoDup_app.
  eapply sublist_NoDup; [exact H|]. apply fmap_sublist, sublist_filter.
Qed.

Lemma abs_finish par c f1 x x' f2 a sp asy1 t asy2 fin :
  inv par c (f1 ++ x :: f2) a sp (asy1 ++ t :: asy2) fin →
  AsyncSpan.uid t = FinalizeSpan.uid x → FinalizeSpan.obj x = None →
  FinalizeSpan.uid x' = FinalizeSpan.uid x → FinalizeSpan.obj x' ≠ None →
  spec_finish (AsyncSpan.uid t) (abs par c (f1 ++ x :: f2) a (asy1 ++ t :: asy2)) =
    Some (abs par c (f1 ++ x' :: f2) a (asy1 ++ asy2)).
Proof.
  intros I%asyncs_NoDup Ht Hx Hx' Ho. rewrite fmap_app in I. cbn in I.
  unfold spec_finish. rewrite option_guard_True by (cbn; rewrite fmap_app; set_solver).
  unfold abs. cbn. do 2 f_equal.
  - apply NoDup_app in I as (_ & H1 & [H2 _]%NoDup_cons). rewrite !fmap_app. cbn. set_solver.
  - rewrite !completed_app, !completed_cons, decide_False, decide_True, Ht, Hx' by tauto. set_solver.
Qed.

Lemma abs_continued par c c' f a asy r :
  next_span_id c' = next_span_id c → abs par c' f (set_last_ref r a) asy = abs par c f a asy.
Proof. intros Hn. destruct (set_last_ref_uids r a) as [Hu _]. unfold abs. by rewrite Hu, Hn. Qed.

Lemma inv_less_finishing par c f a sp asy n :
  inv par c f a sp asy (S n) → inv par c f a sp asy n.
Proof. intros I. split; try apply I. pose proof (i_count _ _ _ _ _ _ _ I). lia. Qed.
End Invariant.

(** ** Every reachable session satisfies the invariant *)
Section Reachable.
Context {BC : Build} {RW : RwLock} {PN : ProtoNums} {R : Type}.

(** The counter of asynchronous spans, and the state of a session whose locks
    are free and whose counters agree with the handles. *)
Definition healthy_wg (n : nat) : WaitGroup := {| count := Z.of_nat n; poisoned := false |}.
Definition settled c f a sp asy fin : session :=
  MkSession (uncontended c f a (S (length sp)) (healthy_wg (length asy + fin))) sp asy fin.

(** [s] satisfies the invariant, in the state [σ] of the abstract machine. *)
Definition session_at (σ : spec) (s : session) : Prop :=
  ∃ par c f a sp asy fin,
    s = settled c f a sp asy fin ∧ inv par c f a sp asy fin ∧ σ = abs par c f a asy.

Lemma session_at_new u1 u2 service instance t :
  session_at spec_new (session_new u1 u2 service instance t).
Proof.
  eexists _, _, [], [], [], [], 0%nat.
  split_and!; [|apply (inv_new u1 u2 service instance t)|]; done.
Qed.

Lemma settled_intro c f a sp asy fin n m :
  n = S (length sp) → m = (length asy + fin)%nat →
  MkSession (uncontended c f a n (healthy_wg m)) sp asy fin = settled c f a sp asy fin.
Proof. by intros -> ->. Qed.

Lemma session_at_intro par c f a sp asy fin n m σ :
  inv par c f a sp asy fin → n = S (length sp) → m = (length asy + fin)%nat → σ = abs par c f a asy →
  session_at σ (MkSession (uncontended c f a n (healthy_wg m)) sp asy fin).
Proof.
  intros I Hn Hm Hσ. eexists par, c, f, a, sp, asy, fin. split_and!; [by apply settled_intro|done..].
Qed.

(** A dropped or prepared span was the top of the stack. *)
Lemma drop_was_top now sp f a n g u sh' :
  uncontended_shared f a n g ⊢ span_drop now sp ⇓ u ⊣ sh' →
  ∃ a' x, a = a' ++ [x] ∧ ActiveSpan.uid x = Span.uid sp.
Proof.
  intros Hrun. destruct (last_is (Span.uid sp) a) eqn:E; [by apply last_is_Some|].
  by rewrite span_drop_not_top in Hrun.
Qed.

Lemma prepare_was_top now sp f a n g asp sh' :
  uncontended_shared f a n g ⊢ prepare_for_async now sp ⇓ asp ⊣ sh' →
  ∃ a' x, a = a' ++ [x] ∧ ActiveSpan.uid x = Span.uid sp.
Proof.
  intros Hrun. destruct (last_is (Span.uid sp) a) eqn:E; [by apply last_is_Some|].
  by rewrite prepare_for_async_not_top in Hrun.
Qed.

Lemma finalize_entry_left par now u o x asy :
  carries par u (Some o) →
  left_behind par u (finalize_entry now u (Some o) x) asy asy.
Proof.
  intros (o' & [= <-] & ? & ?). left. split; [|done].
  unfold finalize_entry. cbn. destruct (ActiveSpan.ref x); eexists; split_and!; done.
Qed.

(** The slot of a live asynchronous span is empty ... *)
Lemma live_slot_empty par c f1 x f2 a sp asy fin t :
  inv par c (f1 ++ x :: f2) a sp asy fin → t ∈ asy → FinalizeSpan.uid x = AsyncSpan.uid t →
  FinalizeSpan.obj x = None.
Proof.
  intros I Ht Hx. assert (Hp : AsyncSpan.uid t ∈ pending (f1 ++ x :: f2)).
  { rewrite <-(i_asyncs _ _ _ _ _ _ _ I). by apply list_elem_of_fmap_2. }
  pose proof (uids_NoDup I) as Hnd. rewrite NoDup_app in Hnd. destruct Hnd as (_ & _ & Hnd).
  rewrite fmap_app in Hnd. cbn in Hnd. apply NoDup_app in Hnd as (_ & H1 & [H2 _]%NoDup_cons).
  rewrite pending_app, pending_cons in Hp. case_decide; [done|].
  rewrite elem_of_app in Hp. destruct Hp as [Hp%pending_subset|Hp%pending_subset];
    rewrite <-Hx in Hp; set_solver.
Qed.

(** ... and the one that gets filled. *)
Lemma fill_live par c f a sp asy1 t asy2 fin now o f' :
  inv par c f a sp (asy1 ++ t :: asy2) fin → AsyncSpan.obj t = Some o →
  fill_first now (AsyncSpan.uid t) o f = Some f' →
  inv par c f' a sp (asy1 ++ asy2) (S fin) ∧
  spec_finish (AsyncSpan.uid t) (abs par c f a (asy1 ++ t :: asy2)) = Some (abs par c f' a (asy1 ++ asy2)).
Proof.
  intros I Ho Hfill. apply fill_first_Some in Hfill as (f1 & x & f2 & -> & -> & Hx).
  assert (FinalizeSpan.obj x = None) as Hnone by (eapply (live_slot_empty _ _ _ _ _ _ _ _ _ t I); [set_solver|done]).
  split; [|by eapply abs_finish].
  eapply inv_fill; [exact I|done|done|done|].
  pose proof (i_asyncs_obj _ _ _ _ _ _ _ I) as H. apply Forall_app in H as [_ [H _]%Forall_cons].
  rewrite Ho, <-Hx in H. destruct H as (o' & [= <-] & ? & ?).
  unfold fill_slot. cbn. destruct (FinalizeSpan.ref x); eexists; split_and!; done.
Qed.

(** One lemma per group of constructors of [step]: the step of the abstract
    machine it takes. *)
Section Cases.
Context {par c f a sp asy fin} (I : inv par c f a sp asy fin).
Let s := settled c f a sp asy fin.
Let σ := abs par c f a asy.

Lemma case_create (m : M CtxState Span.t) o c' spn cs' :
  room s → next_span_id c' = next_span_id c + 1 →
  span_uid_generator c' = wrap_unsigned usize_bits (span_uid_generator c + 1) →
  SpanObject.span_id o = next_span_id c → SpanObject.parent_span_id o = parent_on a →
  m (cs s) = (Ret (Span.Mk (span_uid_generator c) (Some o)),
              uncontended c' f (a ++ [ActiveSpan.new (span_uid_generator c) (next_span_id c)])
                (S (S (length sp))) (healthy_wg (length asy + fin))) →
  cs s ⊢ m ⇓ spn ⊣ cs' →
  session_at (spec_open σ) (MkSession cs' (sp ++ [spn]) asy fin).
Proof using I.
  intros Hroom Hn Hg Ho Hp Hm Hrun. rewrite Hm in Hrun. simplify_eq.
  eapply session_at_intro; [by eapply inv_push| |done|by erewrite abs_push].
  rewrite length_app. cbn. lia.
Qed.

Lemma case_continued (ts : gmap nat (ArcCell R)) snap cs' :
  cs s ⊢ continued ts snap ⇓ tt ⊣ cs' → session_at σ (MkSession cs' sp asy fin).
Proof using I.
  intros Hrun. destruct (ContextSnapshot.is_valid snap) eqn:Hv.
  - destruct (upgraded (tracer c) ts) as [t|] eqn:Ht.
    + cbn in Hrun. rewrite (continued_run _ _ t) in Hrun by done. simplify_eq.
      eapply session_at_intro; [by eapply inv_continued|done..|by rewrite (abs_continued _ c)].
    + unfold continued in Hrun. rewrite Hv in Hrun.
      unfold upgrade_tracer, bind, on_ctx, zoom, modify, gets in Hrun. cbn in Hrun.
      by rewrite Ht in Hrun.
  - unfold continued in Hrun. rewrite Hv in Hrun. unfold ret in Hrun. simplify_eq.
    by eapply session_at_intro.
Qed.

Lemma case_drop now l1 spn l2 sh' :
  sp = l1 ++ spn :: l2 → shared (cs s) ⊢ span_drop now spn ⇓ tt ⊣ sh' →
  ∃ σ', spec_close σ = Some σ' ∧ session_at σ' (MkSession (MkCtx c sh') (l1 ++ l2) asy fin).
Proof using I.
  intros Hsp Hrun. destruct (drop_was_top _ _ _ _ _ _ _ _ Hrun) as (a' & x & Ha & Hx).
  pose proof (i_spans_obj _ _ _ _ _ _ _ I) as Hso. rewrite Hsp in Hso.
  apply Forall_app in Hso as [_ [(o & Ho & Hids) _]%Forall_cons].
  destruct spn as [u obj]. cbn in *. subst obj. rewrite Ha in Hrun.
  rewrite (span_drop_top now u _ f a' x) in Hrun by done. simplify_eq.
  eexists. split; [apply (abs_close _ _ _ _ _ _ (finalize_entry now (ActiveSpan.uid x) (Some o) x)); by destruct (ActiveSpan.ref x)|].
  eapply session_at_intro; [|rewrite !length_app; cbn; lia|done..].
  eapply inv_pop; [exact I|done|done|]. apply finalize_entry_left. by exists o.
Qed.

Lemma case_prepare now l1 spn l2 asp sh' :
  sp = l1 ++ spn :: l2 → shared (cs s) ⊢ prepare_for_async now spn ⇓ asp ⊣ sh' →
  ∃ σ', spec_detach σ = Some σ' ∧
    session_at σ' (MkSession (MkCtx c sh') (l1 ++ l2) (asy ++ [asp]) fin).
Proof using I.
  intros Hsp Hrun. destruct (prepare_was_top _ _ _ _ _ _ _ _ Hrun) as (a' & x & Ha & Hx).
  pose proof (i_spans_obj _ _ _ _ _ _ _ I) as Hso. rewrite Hsp in Hso.
  apply Forall_app in Hso as [_ [Hc _]%Forall_cons].
  pose proof (fin_length I). pose proof (i_next _ _ _ _ _ _ _ I).
  pose proof (i_count _ _ _ _ _ _ _ I).
  destruct spn as [u obj]. cbn in *. rewrite Ha in Hrun. unfold healthy_wg in Hrun.
  rewrite (prepare_for_async_top now u _ f a' x) in Hrun;
    [|done|apply in_unsigned_spec; unfold usize_bits; lia]. simplify_eq.
  replace (Z.of_nat (length asy + fin) + 1) with (Z.of_nat (length (asy ++ [AsyncSpan.Mk (ActiveSpan.uid x) obj]) + fin))
    by (rewrite length_app; cbn; lia).
  eexists. split.
  { by apply (abs_detach _ _ _ _ _ _ (finalize_entry now (ActiveSpan.uid x) None x)
                (AsyncSpan.Mk (ActiveSpan.uid x) obj)). }
  eapply session_at_intro; [|rewrite !length_app; cbn; lia|done..].
  eapply inv_pop; [exact I|done|done|]. right. split; [done|]. by eexists.
Qed.

Lemma case_finish now l1 asp l2 sh' :
  asy = l1 ++ asp :: l2 → shared (cs s) ⊢ async_finish now asp ⇓ tt ⊣ sh' →
  ∃ σ', spec_finish (AsyncSpan.uid asp) σ = Some σ' ∧
    session_at σ' (MkSession (MkCtx c sh') sp (l1 ++ l2) (S fin)).
Proof using I.
  intros Hasp Hrun. pose proof (i_asyncs_obj _ _ _ _ _ _ _ I) as Hso. rewrite Hasp in Hso.
  apply Forall_app in Hso as [_ [(o & Ho & Hids) _]%Forall_cons].
  destruct asp as [u obj]. cbn in *. subst obj. rewrite async_finish_run in Hrun.
  destruct (fill_first now u o f) as [f'|] eqn:Hfill; [|done]. simplify_eq.
  destruct (fill_live par c f a sp l1 (AsyncSpan.Mk u (Some o)) l2 fin now o f') as [I' Hσ]; [done..|].
  eexists. split; [exact Hσ|].
  eapply session_at_intro; [exact I'|done|rewrite !length_app; cbn; lia|done].
Qed.

Lemma case_done n sh' :
  fin = S n → shared (cs s) ⊢ async_done ⇓ tt ⊣ sh' →
  session_at σ (MkSession (MkCtx c sh') sp asy n).
Proof using I.
  intros Hfin Hrun. pose proof (fin_length I). pose proof (i_next _ _ _ _ _ _ _ I).
  pose proof (i_count _ _ _ _ _ _ _ I). cbn in Hrun. subst fin. unfold healthy_wg in Hrun.
  rewrite async_done_run in Hrun by (unfold usize_bits; lia). simplify_eq.
  replace (Z.of_nat (length asy + S n) - 1) with (Z.of_nat (length asy + n)) by lia.
  eapply session_at_intro; [by eapply inv_less_finishing|done..].
Qed.

Lemma case_edit_span g l1 spn l2 spn' :
  keeps_ids g → sp = l1 ++ spn :: l2 → span_object_mut g spn = Ret spn' →
  session_at σ (MkSession (cs s) (l1 ++ spn' :: l2) asy fin).
Proof using I.
  intros Hg Hsp Hrun. subst s. rewrite Hsp in *. unfold span_object_mut in Hrun. cbn in Hrun.
  destruct (Span.obj spn) as [o|] eqn:Ho; [|done].
  simplify_eq. eapply session_at_intro; [|rewrite !length_app; cbn; lia|done..].
  eapply inv_edit_span; [exact I|done|]. rewrite Ho. by apply (carries_edit g).
Qed.

Lemma case_edit_async g l1 asp l2 asp' :
  keeps_ids g → asy = l1 ++ asp :: l2 → span_object_mut g asp = Ret asp' →
  session_at σ (MkSession (cs s) sp (l1 ++ asp' :: l2) fin).
Proof using I.
  intros Hg Hasp Hrun. subst s σ. rewrite Hasp in *. unfold span_object_mut in Hrun. cbn in Hrun.
  destruct (AsyncSpan.obj asp) as [o|] eqn:Ho; [|done].
  simplify_eq. eapply session_at_intro; [|done|rewrite !length_app; cbn; lia|unfold abs; by rewrite !fmap_app].
  eapply inv_edit_async; [exact I|done|]. rewrite Ho. by apply (carries_edit g).
Qed.
End Cases.

(** A step of the session is a step of the abstract machine, or none. *)
Lemma session_at_step σ s s' :
  session_at σ s → step (R := R) s s' → ∃ σ', spec_moves σ σ' ∧ session_at σ' s'.
Proof.
  intros (par & c & f & a & sp & asy & fin & -> & I & ->) Hstep.
  inversion Hstep as [now op ? spn cs' Hroom Hrun|now op p ? spn cs' Hroom Hp Hrun
    |now op peer ? spn cs' Hroom Hrun|now op ? spn cs' Hroom Hrun
    |ts snap ? cs' Hsn Hrun|g ? l1 spn l2 spn' [Hg Hty] Hsp Hrun|now ? l1 spn l2 sh' Hsp Hrun
    |now ? l1 spn l2 asp sh' Hsp Hrun|g ? l1 asp l2 asp' [Hg Hty] Hasp Hrun
    |now ? l1 asp l2 sh' Hasp Hrun|? n sh' Hfin Hrun]; subst; cbn [spans asyncs finishing settled] in *.
  - eexists. split; [right; apply spec_opens|].
    by eapply (case_create I); [done| | | | |apply create_entry_span_run|].
  - eexists. split; [right; apply spec_opens|].
    by eapply (case_create I); [done| | | | |apply create_entry_span_with_propagation_run|].
  - destruct (decide (next_span_id c = 0)) as [E|E].
    { cbn in Hrun. by rewrite create_exit_span_first in Hrun. }
    eexists. split; [right; apply spec_opens|].
    by eapply (case_create I); [done| | | | |apply create_exit_span_run|].
  - destruct (decide (next_span_id c = 0)) as [E|E].
    { cbn in Hrun. by rewrite create_local_span_first in Hrun. }
    eexists. split; [right; apply spec_opens|].
    by eapply (case_create I); [done| | | | |apply create_local_span_run|].
  - eexists. split; [by left|]. by eapply (case_continued I).
  - eexists. split; [by left|]. by eapply (case_edit_span I).
  - edestruct (case_drop I) as (σ' & ? & ?); [done..|]. exists σ'. split; [right; by apply spec_closes|done].
  - edestruct (case_prepare I) as (σ' & ? & ?); [done..|]. exists σ'.
    split; [right; by apply spec_detaches|done].
  - eexists. split; [by left|]. by eapply (case_edit_async I).
  - edestruct (case_finish I) as (σ' & ? & ?); [done..|]. exists σ'.
    split; [right; by eapply spec_finishes|done].
  - eexists. split; [by left|]. by eapply (case_done I).
Qed.

Lemma session_at_reachable s : reachable (R := R) s → ∃ σ, rtc spec_step spec_new σ ∧ session_at σ s.
Proof.
  intros (u1 & u2 & service & instance & t & H).
  remember (session_new u1 u2 service instance t) as s0 eqn:E.
  assert (∃ σ, rtc spec_step spec_new σ ∧ session_at σ s0) as Hinv.
  { subst. exists spec_new. split; [apply rtc_refl|apply session_at_new]. }
  clear E. induction H as [|s0 s1 s2 Hs _ IH]; [done|]. apply IH.
  destruct Hinv as (σ & Hσ & Hat). destruct (session_at_step _ _ _ Hat Hs) as (σ' & Hrc & Hat').
  exists σ'. split; [|done]. etrans; [exact Hσ|]. by apply spec_moves_rtc.
Qed.

Lemma session_inv_reachable s :
  reachable (R := R) s →
  ∃ par c f a sp asy fin, s = settled c f a sp asy fin ∧ inv par c f a sp asy fin.
Proof.
  intros (σ & _ & par & c & f & a & sp & asy & fin & -> & I & _)%session_at_reachable.
  by exists par, c, f, a, sp, asy, fin.
Qed.
End Reachable.

(** ** What the invariant gives a client *)
Section Client.
Context {BC : Build} {RW : RwLock} {PN : ProtoNums} {R : Type}.

Lemma chain_max par l u :
  chain par (-1) (l ++ [u]) →
  (∀ v, v ∈ l ++ [u] → 0 ≤ v ∧ (par v = -1 ∨ par v < v)) →
  ∀ v, v ∈ l → v < u.
Proof.
  revert u. induction l as [|w l IH] using rev_ind; intros u Hch Hr v Hv; [by apply elem_of_nil in Hv|].
  apply chain_snoc in Hch as [Hch Hu]. rewrite last_snoc in Hu. cbn in Hu.
  destruct (Hr u ltac:(set_solver)) as [_ Hup].
  destruct (Hr w ltac:(set_solver)) as [Hw _].
  assert (w < u) by lia.
  apply elem_of_app in Hv as [Hv|Hv]; [|apply list_elem_of_singleton in Hv; lia].
  enough (v < w) by lia. apply IH; [done| |done]. intros; apply Hr; set_solver.
Qed.

Lemma top_is_max par c f a x sp asy fin u :
  inv par c f (a ++ [x]) sp asy fin → u ∈ Span.uid <$> sp → u ≤ ActiveSpan.uid x.
Proof.
  intros I Hu. rewrite (i_spans _ _ _ _ _ _ _ I), fmap_app in Hu.
  apply elem_of_app in Hu as [Hu|Hu]; [|cbn in Hu; apply list_elem_of_singleton in Hu; lia].
  pose proof (i_chain _ _ _ _ _ _ _ I) as Hch. rewrite fmap_app in Hch.
  enough (u < ActiveSpan.uid x) by lia. eapply chain_max; [exact Hch| |exact Hu].
  intros v Hv. assert (0 ≤ v < next_span_id c) as Hr.
  { apply (uids_range I), elem_of_app. left. by rewrite fmap_app. }
  split; [lia|]. pose proof (i_par _ _ _ _ _ _ _ I v Hr). lia.
Qed.

(** A live span is the top of the stack exactly when it is the youngest. *)
Lemma youngest_is_top par c f a sp asy fin s :
  inv par c f a sp asy fin → s ∈ sp →
  last_is (Span.uid s) a = true ↔ (∀ s', s' ∈ sp → Span.uid s' ≤ Span.uid s).
Proof.
  intros I Hs. assert (Hsu : Span.uid s ∈ Span.uid <$> sp) by by apply list_elem_of_fmap_2.
  split.
  - intros (a' & x & -> & Hx)%last_is_Some s' Hs'. rewrite <-Hx.
    eapply top_is_max; [exact I|]. by apply list_elem_of_fmap_2.
  - intros Hmax. rewrite (i_spans _ _ _ _ _ _ _ I) in Hsu.
    destruct a as [|x a' _] using rev_ind; [by apply elem_of_nil in Hsu|].
    apply last_is_Some. exists a', x. split; [done|].
    assert (Hxu : ActiveSpan.uid x ∈ Span.uid <$> sp).
    { rewrite (i_spans _ _ _ _ _ _ _ I), fmap_app. set_solver. }
    apply list_elem_of_fmap in Hxu as (s' & Hs' & Hin). specialize (Hmax _ Hin).
    assert (Span.uid s ≤ ActiveSpan.uid x); [|lia].
    eapply top_is_max; [exact I|]. by apply list_elem_of_fmap_2.
Qed.

(** A slot waits for every live asynchronous span. *)
Lemma live_async_fills par c f a sp asy fin now t :
  inv par c f a sp asy fin → t ∈ asy →
  ∃ o f', AsyncSpan.obj t = Some o ∧ fill_first now (AsyncSpan.uid t) o f = Some f'.
Proof.
  intros I Ht. pose proof (i_asyncs_obj _ _ _ _ _ _ _ I) as Ho.
  rewrite Forall_forall in Ho. destruct (Ho t Ht) as (o & Hobj & _).
  destruct (fill_first now (AsyncSpan.uid t) o f) as [f'|] eqn:E; [by exists o, f'|].
  exfalso. apply fill_first_None in E. rewrite Forall_forall in E.
  assert (AsyncSpan.uid t ∈ FinalizeSpan.uid <$> f) as (x & Hx & Hin)%list_elem_of_fmap.
  { apply pending_subset. rewrite <-(i_asyncs _ _ _ _ _ _ _ I). by apply list_elem_of_fmap_2. }
  by apply (E x Hin).
Qed.

(** It is the only one with its uid, and empty. *)
Lemma live_async_slot par c f a sp asy fin now t :
  inv par c f a sp asy fin → t ∈ asy →
  ∃ o i slot, AsyncSpan.obj t = Some o ∧ f !! i = Some slot ∧ FinalizeSpan.uid slot = AsyncSpan.uid t ∧
    FinalizeSpan.obj slot = None ∧ fill_first now (AsyncSpan.uid t) o f = Some (<[i := fill_slot now o slot]> f).
Proof.
  intros I Ht. destruct (live_async_fills _ _ _ _ _ _ _ now _ I Ht) as (o & f' & Ho & Hf).
  pose proof Hf as (f1 & slot & f2 & -> & -> & Hu)%fill_first_Some.
  exists o, (length f1), slot. split_and!; [done|by apply list_lookup_middle|done|by eapply live_slot_empty|].
  by rewrite Hf, insert_app_r_alt, Nat.sub_diag.
Qed.

(** With no asynchronous span live, every slot is filled, with the right
    identifiers. *)
Lemma all_filled par c f a sp fin :
  inv par c f a sp [] fin →
  ∃ os, mapM FinalizeSpan.obj f = Some os ∧
    SpanObject.span_id <$> os = FinalizeSpan.uid <$> f ∧
    SpanObject.parent_span_id <$> os = par <$> (FinalizeSpan.uid <$> f).
Proof.
  intros I. assert (Hp : pending f = []).
  { apply Permutation_nil. symmetry. by rewrite <-(i_asyncs _ _ _ _ _ _ _ I). }
  pose proof (i_fin _ _ _ _ _ _ _ I) as Hf. revert Hp Hf. clear.
  induction f as [|x f IH]; intros Hp Hf; [by exists []|].
  rewrite pending_cons in Hp. case_decide as Hx; [done|].
  apply Forall_cons in Hf as [[?|(o & Ho & Hi & Hpa)] Hf]; [done|].
  destruct (IH Hp Hf) as (os & Hos & H1 & H2). exists (o :: os). cbn.
  rewrite Ho. cbn. rewrite Hos. cbn. split_and!; [done|by f_equal|by f_equal].
Qed.

(** While one is live, some slot is empty. *)
Lemma some_unfilled par c f a sp asy fin :
  inv par c f a sp asy fin → asy ≠ [] → mapM FinalizeSpan.obj f = None.
Proof.
  intros I Hne. destruct (mapM FinalizeSpan.obj f) as [os|] eqn:E; [|done]. exfalso.
  assert (pending f = []) as Hp.
  { apply mapM_Some in E. clear -E. induction E as [|x o f os Hx _ IH]; [done|].
    rewrite pending_cons, decide_False by congruence. done. }
  pose proof (i_asyncs _ _ _ _ _ _ _ I) as H. rewrite Hp in H.
  symmetry in H. apply Permutation_nil in H. by destruct asy.
Qed.
End Client.

(** ** Properties *)

(** The parent relation of a segment is a forest written children first: the
    parent of a span is [-1], or an older span that comes later in the list. *)
Definition forest (l : list SpanObject.t) : Prop :=
  ∀ i o, l !! i = Some o →
    SpanObject.parent_span_id o = -1 ∨
    (0 ≤ SpanObject.parent_span_id o < SpanObject.span_id o ∧
     ∃ j p, (i < j)%nat ∧ l !! j = Some p ∧ SpanObject.span_id p = SpanObject.parent_span_id o).

Section Properties.
Context {BC : Build} {RW : RwLock} {PN : ProtoNums} {R : Type}.

(** The spans of a context whose handles are all gone: every identifier once,
    in a forest. *)
Lemma closed_forest par c f a fin :
  inv par c f a [] [] fin →
  ∃ os, mapM FinalizeSpan.obj f = Some os ∧
    SpanObject.span_id <$> os ≡ₚ seqZ 0 (next_span_id c) ∧ forest os.
Proof.
  intros I. destruct (all_filled _ _ _ _ _ _ I) as (os & Hos & Hid & Hpa).
  exists os. split_and!; [done| |].
  - pose proof (Permutation_nil (i_spans _ _ _ _ _ _ _ I)) as Ha.
    rewrite Hid, <-(i_uids _ _ _ _ _ _ _ I). by rewrite Ha.
  - intros i o Hi.
    assert (Hu : (FinalizeSpan.uid <$> f) !! i = Some (SpanObject.span_id o)).
    { rewrite <-Hid. by rewrite list_lookup_fmap, Hi. }
    assert (Hpo : SpanObject.parent_span_id o = par (SpanObject.span_id o)).
    { pose proof (f_equal (lookup i) Hpa) as H.
      rewrite !list_lookup_fmap, Hi in H. rewrite list_lookup_fmap in Hu.
      destruct (f !! i); simplify_eq/=. congruence. }
    assert (Hrange : 0 ≤ SpanObject.span_id o < next_span_id c).
    { apply (uids_range I), elem_of_app. right. by eapply list_elem_of_lookup_2. }
    rewrite Hpo. destruct (i_par _ _ _ _ _ _ _ I _ Hrange) as [?|Hlt]; [by left|]. right.
    split; [done|]. apply lookup_split in Hu as (f1 & f2 & Hf & Hl).
    destruct (i_order _ _ _ _ _ _ _ I _ _ _ Hf) as [?|[H|H]]; [lia| |].
    + rewrite <-(i_spans _ _ _ _ _ _ _ I) in H. by apply elem_of_nil in H.
    + apply list_elem_of_lookup in H as [k Hk].
      assert (Hj : (FinalizeSpan.uid <$> f) !! (length f1 + S k)%nat = Some (par (SpanObject.span_id o))).
      { rewrite Hf, lookup_app_r by lia. by replace (length f1 + S k - length f1)%nat with (S k) by lia. }
      rewrite <-Hid, list_lookup_fmap in Hj.
      destruct (os !! (length f1 + S k)%nat) as [p|] eqn:Ep; [|done]. simplify_eq/=.
      exists (length f1 + S k)%nat, p. split_and!; [lia|done|congruence].
Qed.

(** C1: the segment of a context whose spans have all been closed (in any
    order the API admits, synchronous and asynchronous, in any interleaving
    of threads) holds every span ever created exactly once, numbered
    [0 .. n-1], and its parent links form a forest, children before
    parents. *)
Theorem segment_is_forest (s : session) :
  reachable (R := R) s → spans s = [] → asyncs s = [] →
  ∃ seg st', (cs s ⊢ convert_to_segment_object ⇓ seg ⊣ st') ∧
    SegmentObject.trace_id seg = trace_id (ctx (cs s)) ∧
    SegmentObject.trace_segment_id seg = trace_segment_id (ctx (cs s)) ∧
    SpanObject.span_id <$> SegmentObject.spans seg ≡ₚ seqZ 0 (next_span_id (ctx (cs s))) ∧
    forest (SegmentObject.spans seg).
Proof.
  intros (par & c & f & a & sp & asy & fin & -> & I)%session_inv_reachable Hsp Hasy.
  cbn in *. subst sp asy. destruct (closed_forest _ _ _ _ _ I) as (os & Hos & Hid & Hf).
  rewrite convert_run, Hos. eexists _, _. by split_and!.
Qed.

(** C15: closing spans. Between two calls of a session, when no thread is inside
    a lock, the youngest live span can be dropped or turned into an asynchronous
    one; dropping any other live span panics, and preparing it aborts the
    process (its destructor panics during the unwinding), in both cases without
    touching the stack. *)
Theorem close_only_youngest (s : session) sp now :
  reachable (R := R) s → sp ∈ spans s →
  let sh := shared (cs s) in
  let released := MkShared (stack sh) (pred (strong sh)) (wg sh) in
  ((∀ sp', sp' ∈ spans s → Span.uid sp' ≤ Span.uid sp) →
     (∃ sh', sh ⊢ span_drop now sp ⇓ tt ⊣ sh') ∧
     (∃ asp sh', sh ⊢ prepare_for_async now sp ⇓ asp ⊣ sh')) ∧
  (∀ sp', sp' ∈ spans s → Span.uid sp < Span.uid sp' →
     span_drop now sp sh = (Panic NOT_ACTIVE_MSG, released) ∧
     prepare_for_async now sp sh = (Abort, released)).
Proof.
  intros (par & c & f & a & sps & asy & fin & -> & I)%session_inv_reachable Hsp. cbn in *.
  pose proof (youngest_is_top _ _ _ _ _ _ _ _ I Hsp) as Htop. split.
  - intros Hy. apply Htop, last_is_Some in Hy as (a' & x & -> & Hx). destruct sp as [u o].
    pose proof (fin_length I). pose proof (i_next _ _ _ _ _ _ _ I).
    pose proof (i_count _ _ _ _ _ _ _ I). split.
    + rewrite (span_drop_top now u o f a' x) by done. eauto.
    + unfold healthy_wg. rewrite (prepare_for_async_top now u o f a' x);
        [eauto|done|apply in_unsigned_spec; unfold usize_bits; lia].
  - intros sp' Hsp' Hlt. assert (last_is (Span.uid sp) a = false) as E.
    { apply not_true_iff_false. intros H. pose proof (proj1 Htop H _ Hsp'). lia. }
    by rewrite span_drop_not_top, prepare_for_async_not_top by done.
Qed.

(** C16: the destructor of a live asynchronous span, while its context lives,
    whichever thread runs it, in whatever order and whatever the state of the
    lock of the finalized spans. If the lock can be taken the destructor
    returns: it has put its object, with the end time and the reference that
    waited, into the one empty slot with its uid, and taken one from the wait
    group. If another thread holds a guard it panics, and nothing changes: the
    slot stays empty. *)
Theorem async_drop_total (s : session) asp l now :
  reachable (R := R) s → asp ∈ asyncs s →
  let sh := shared (cs s) in
  let st := set_finalized_lock l (stack sh) in
  match try_write l with
  | Some g => ∃ o i slot, AsyncSpan.obj asp = Some o ∧ finalized st !! i = Some slot ∧
      FinalizeSpan.uid slot = AsyncSpan.uid asp ∧ FinalizeSpan.obj slot = None ∧
      (MkShared st (strong sh) (wg sh) ⊢ async_drop now asp ⇓ tt
        ⊣ MkShared (set_finalized (<[i := fill_slot now o slot]> (finalized st))
                      (set_finalized_lock (drop_write g) st))
            (strong sh) (set_count (count (wg sh) - 1) (wg sh)))
  | None => async_drop now asp (MkShared st (strong sh) (wg sh)) =
      (Panic LOCK_MSG, MkShared st (strong sh) (wg sh))
  end.
Proof.
  intros (par & c & f & a & sps & asy & fin & -> & I)%session_inv_reachable Hasp sh st.
  cbn [settled asyncs] in Hasp. subst st sh. cbn [settled cs shared uncontended_shared stack strong wg].
  destruct (live_async_slot _ _ _ _ _ _ _ now _ I Hasp) as (o & i & slot & Ho & Hi & Hu & He & Hf).
  set (st := set_finalized_lock l (free_stack f a)).
  assert (Hfin : ∀ n g, async_finish now asp (MkShared st (S n) g) =
    on_stack (finalize_async_span now (AsyncSpan.uid asp) o) (MkShared st (S n) g))
    by (intros n g; unfold async_finish; by rewrite Ho).
  unfold async_drop. destruct (try_write l) as [g|] eqn:Hg.
  - exists o, i, slot. split_and!; [done..|].
    erewrite bind_Ret by (rewrite Hfin; unfold on_stack;
      erewrite zoom_run by (by apply (finalize_async_span_locked now _ _ st g)); done).
    unfold async_done, on_wg. erewrite zoom_run; [reflexivity|]. cbn [wg].
    erewrite bind_Ret; [reflexivity|]. apply wg_done_ok.
    pose proof (fin_length I). pose proof (i_next _ _ _ _ _ _ _ I). pose proof (i_count _ _ _ _ _ _ _ I).
    assert (0 < length asy)%nat by (destruct asy; [by apply elem_of_nil in Hasp|cbn; lia]).
    unfold usize_bits. lia.
  - apply bind_Panic. rewrite Hfin. unfold on_stack. by erewrite zoom_run by (by apply finalize_async_span_busy).
Qed.

(** C17: [wait] is the right guard for reporting. When its check lets the
    thread through, no asynchronous span is live or still in its destructor
    and the conversion to a segment returns; while one is live the check does
    not let the thread through, and converting anyway panics and loses every
    finalized span. *)
Theorem wait_guards_conversion (s : session) :
  reachable (R := R) s →
  (∃ go, shared (cs s) ⊢ on_wg wait_check ⇓ go ⊣ shared (cs s) ∧
     (go = true ↔ asyncs s = [] ∧ finishing s = 0%nat)) ∧
  (asyncs s = [] → ∃ seg st', cs s ⊢ convert_to_segment_object ⇓ seg ⊣ st') ∧
  (asyncs s ≠ [] → ∃ st', (cs s ⊢ convert_to_segment_object ⇑ UNFINISHED_MSG ⊣ st') ∧
     finalized (stack (shared st')) = []).
Proof.
  intros (par & c & f & a & sps & asy & fin & -> & I)%session_inv_reachable. cbn in *.
  split_and!.
  - eexists. split; [by apply on_wg_run, wait_check_ok|].
    rewrite negb_true_iff, Z.ltb_ge, <-length_zero_iff_nil. lia.
  - intros ->. destruct (all_filled _ _ _ _ _ _ I) as (os & Hos & _).
    rewrite convert_run, Hos. eauto.
  - intros Hne. rewrite convert_run, (some_unfilled _ _ _ _ _ _ _ I Hne). eauto.
Qed.

(** C24: creating spans. While the counter has room an entry span is always
    created; an exit or local span is created unless it would be the first
    span of the context, which panics and changes nothing. The new span takes
    the next identifier, and its parent is the youngest live span, [-1] if
    there is none. *)
Theorem create_span_spec (s : session) now op peer :
  reachable (R := R) s → room s →
  let created sp (st' : CtxState) ty := ∃ o,
    Span.obj sp = Some o ∧
    SpanObject.span_id o = next_span_id (ctx (cs s)) ∧
    SpanObject.operation_name o = op ∧
    SpanObject.span_type o = SpanType_as_i32 ty ∧
    next_span_id (ctx st') = next_span_id (ctx (cs s)) + 1 ∧
    primary_endpoint_name (ctx st') = op ∧
    (spans s = [] → SpanObject.parent_span_id o = -1) ∧
    (∀ sp', sp' ∈ spans s → (∀ sp'', sp'' ∈ spans s → Span.uid sp'' ≤ Span.uid sp') →
       handle_span_id sp' = Ret (SpanObject.parent_span_id o)) in
  (∃ sp st', (cs s ⊢ create_entry_span now op ⇓ sp ⊣ st') ∧ created sp st' Entry) ∧
  (next_span_id (ctx (cs s)) ≠ 0 →
     (∃ sp st', (cs s ⊢ create_exit_span now op peer ⇓ sp ⊣ st') ∧ created sp st' Exit) ∧
     (∃ sp st', (cs s ⊢ create_local_span now op ⇓ sp ⊣ st') ∧ created sp st' Local)) ∧
  (next_span_id (ctx (cs s)) = 0 →
     create_exit_span now op peer (cs s) = (Panic ENTRY_MSG, cs s) ∧
     create_local_span now op (cs s) = (Panic ENTRY_MSG, cs s)).
Proof.
  intros (par & c & f & a & sps & asy & fin & -> & I)%session_inv_reachable Hroom created.
  unfold room in Hroom. cbn in *.
  assert (Hnone : sps = [] → parent_on a = -1).
  { intros ->. pose proof (Permutation_nil (i_spans _ _ _ _ _ _ _ I)) as Ha.
    by rewrite (last_parent I), Ha. }
  assert (Hyoung : ∀ sp', sp' ∈ sps → (∀ sp'', sp'' ∈ sps → Span.uid sp'' ≤ Span.uid sp') →
            handle_span_id sp' = Ret (parent_on a)).
  { intros sp' Hin Hmax. pose proof (i_spans_obj _ _ _ _ _ _ _ I) as Ho.
    rewrite Forall_forall in Ho. destruct (Ho _ Hin) as (o & Hobj & Hid & _).
    apply (youngest_is_top _ _ _ _ _ _ _ _ I Hin), last_is_Some in Hmax as (a' & x & -> & Hx).
    rewrite (last_parent I), fmap_app. cbn. rewrite last_snoc. cbn.
    unfold handle_span_id, span_object. cbn. rewrite Hobj. congruence. }
  split_and!.
  - rewrite create_entry_span_run by done. eexists _, _. split; [done|].
    eexists. split; [done|]. cbn. by split_and!.
  - intros H0. split.
    + rewrite create_exit_span_run by done. eexists _, _. split; [done|].
      eexists. split; [done|]. cbn. by split_and!.
    + rewrite create_local_span_run by done. eexists _, _. split; [done|].
      eexists. split; [done|]. cbn. by split_and!.
  - intros H0. by rewrite create_exit_span_first, create_local_span_first by done.
Qed.

(** [continued]. With a valid snapshot and a live tracer the context joins
    the snapshot's trace, and the cross-thread reference is delivered exactly
    once, when the span that was active then is closed: by its destructor, or,
    if it was prepared for async, by the asynchronous span's. *)
Lemma continued_delivers_reference (s : session) sp o (ts : gmap nat (ArcCell R)) snap t now now' :
  reachable (R := R) s → sp ∈ spans s → Span.obj sp = Some o →
  (∀ sp', sp' ∈ spans s → Span.uid sp' ≤ Span.uid sp) →
  ContextSnapshot.is_valid snap = true → upgraded (tracer (ctx (cs s))) ts = Some t →
  let r := continued_ref snap t in
  let closed e := FinalizeSpan.ref e = None ∧ ∃ o', FinalizeSpan.obj e = Some o' ∧
    SpanObject.refs o' = SpanObject.refs o ++ [r] ∧
    SpanObject.span_id o' = SpanObject.span_id o in
  ∃ st1, (cs s ⊢ continued ts snap ⇓ tt ⊣ st1) ∧
    trace_id (ctx st1) = ContextSnapshot.trace_id snap ∧
    (∃ sh e, (shared st1 ⊢ span_drop now sp ⇓ tt ⊣ sh) ∧
       finalized (stack sh) = finalized (stack (shared (cs s))) ++ [e] ∧ closed e) ∧
    (∃ asp sh sh' e, (shared st1 ⊢ prepare_for_async now sp ⇓ asp ⊣ sh) ∧
       (sh ⊢ async_finish now' asp ⇓ tt ⊣ sh') ∧
       finalized (stack sh') = finalized (stack (shared (cs s))) ++ [e] ∧ closed e).
Proof.
  intros (par & c & f & a & sps & asy & fin & -> & I)%session_inv_reachable Hsp Ho Hy Hv Ht.
  cbn in *. apply (youngest_is_top _ _ _ _ _ _ _ _ I Hsp), last_is_Some in Hy as (a' & x & -> & Hx).
  destruct sp as [u obj]. cbn in *. subst obj.
  rewrite (continued_run _ _ t) by done. eexists. split_and!; [done|done| |]; cbn.
  all: unfold set_last_ref; rewrite last_snoc, removelast_last.
  - rewrite (span_drop_top now u (Some o) f a' (ActiveSpan.set_ref _ x)) by done.
    eexists _, _. split; [done|]. split; [done|]. split; [done|]. by eexists.
  - pose proof (fin_length I). pose proof (i_next _ _ _ _ _ _ _ I).
    pose proof (i_count _ _ _ _ _ _ _ I). unfold healthy_wg.
    rewrite (prepare_for_async_top now u (Some o) f a' (ActiveSpan.set_ref _ x));
      [|done|apply in_unsigned_spec; unfold usize_bits; lia].
    destruct sps as [|sp0 sps]; [by apply elem_of_nil in Hsp|]. cbn [length pred].
    eexists _, _, _, _. split; [done|].
    rewrite async_finish_run, fill_first_app; [split_and!; [done..|by eexists]|done|].
    apply Forall_forall. intros y Hy Heq. pose proof (uids_NoDup I) as Hnd.
    rewrite NoDup_app in Hnd. destruct Hnd as (_ & Hnd & _).
    apply (Hnd u); [rewrite <-Hx, fmap_app; set_solver|].
    rewrite <-Heq. by apply list_elem_of_fmap_2.
Qed.

(** C39: contention. While another thread holds the write guard of the
    finalized spans (it is inside the destructor of an asynchronous span), the
    destructor of a live asynchronous span panics instead of waiting, leaving
    its slot empty for ever; and closing the youngest span panics after the span
    was popped, so that the span is lost. *)
Theorem contended_finalized_panics (s : session) now g :
  reachable (R := R) s → try_write (finalized_lock (stack (shared (cs s)))) = Some g →
  let sh := shared (cs s) in
  let busy := MkShared (set_finalized_lock g (stack sh)) (strong sh) (wg sh) in
  (∀ asp, asp ∈ asyncs s → async_drop now asp busy = (Panic LOCK_MSG, busy)) ∧
  (∀ sp, sp ∈ spans s → (∀ sp', sp' ∈ spans s → Span.uid sp' ≤ Span.uid sp) →
     span_drop now sp busy =
       (Panic LOCK_MSG, MkShared (set_active (removelast (active (stack sh))) (stack busy))
                          (pred (strong sh)) (wg sh))).
Proof.
  intros (par & c & f & a & sps & asy & fin & -> & I)%session_inv_reachable Hg sh busy. cbn in Hg.
  pose proof (try_write_excl _ _ Hg) as Hbusy. subst sh busy. cbn [settled cs shared asyncs spans]. split.
  - intros asp Hasp. destruct (live_async_fills _ _ _ _ _ _ _ now _ I Hasp) as (o & f' & Ho & _).
    apply bind_Panic. unfold async_finish. rewrite Ho.
    rewrite (bind_Ret (gets strong) _ _ _ _ eq_refl). cbn [expect negb Nat.eqb strong uncontended_shared panic_unless].
    rewrite !bind_ret_l. unfold on_stack. erewrite zoom_run by (by apply finalize_async_span_busy). done.
  - intros [u o] Hsp Hy. apply (youngest_is_top _ _ _ _ _ _ _ _ I Hsp), last_is_Some in Hy as (a' & x & -> & Hx).
    unfold span_drop, scoped, leave, on_stack.
    erewrite zoom_run by (by apply finalize_span_busy). cbn. by rewrite removelast_last.
Qed.
End Properties.

(** ** A concrete session

    An entry span, a local span in it, an exit span prepared for async: then
    the asynchronous span finishes in another thread and everything closes. *)
Module Demo.
#[local] Existing Instance test_build.
#[local] Existing Instance CountingLock.lock.
#[local] Existing Instance example_nums.

Definition start : session := session_new 1 2 "service" "instance" (MkWeak 0).

(** The tracer the context belongs to, and a snapshot of another context. *)
Definition tracers : gmap nat (ArcCell unit) :=
  {[ 0%nat := {| Tracer.strong := 1;
                 inner := {| service_name := "service"; instance_name := "instance";
                             reporter := tt |} |} ]}.
Definition snapshot : ContextSnapshot.t := ContextSnapshot.Mk "77" "78" 3 "op".

Definition middle : session :=
  settled (MkContext "1" "2" "service" "instance" 3 "exit" 3 (MkWeak 0))
    [FinalizeSpan.Mk 2 None None] [ActiveSpan.new 0 0; ActiveSpan.new 1 1]
    [Span.Mk 0 (Some (new_obj 0 0 (-1) "entry" "" Entry Http false));
     Span.Mk 1 (Some (new_obj 0 1 0 "local" "" Local Unknown false))]
    [AsyncSpan.Mk 2 (Some (new_obj 0 2 1 "exit" "peer" Exit Unknown false))] 0.

Definition closed : session :=
  settled (MkContext "1" "2" "service" "instance" 3 "exit" 3 (MkWeak 0))
    [FinalizeSpan.Mk 2 (Some (SpanObject.set_end_time 100
       (new_obj 0 2 1 "exit" "peer" Exit Unknown false))) None;
     FinalizeSpan.Mk 1 (Some (SpanObject.set_end_time 100
       (new_obj 0 1 0 "local" "" Local Unknown false))) None;
     FinalizeSpan.Mk 0 (Some (SpanObject.set_end_time 100
       (new_obj 0 0 (-1) "entry" "" Entry Http false))) None] [] [] [] 0.

Lemma start_reachable : reachable (R := unit) start.
Proof. exists 1, 2, "service", "instance", (MkWeak 0). apply rtc_refl. Qed.

Lemma middle_reachable : reachable (R := unit) middle.
Proof.
  exists 1, 2, "service", "instance", (MkWeak 0).
  eapply rtc_l; [apply (step_create_entry 0 "entry"); [done|vm_compute; reflexivity]|].
  eapply rtc_l; [apply (step_create_local 0 "local"); [done|vm_compute; reflexivity]|].
  eapply rtc_l; [apply (step_create_exit 0 "exit" "peer"); [done|vm_compute; reflexivity]|].
  eapply rtc_l.
  { eapply (step_prepare_for_async 0 _ [_; _] _ []); [reflexivity|vm_compute; reflexivity]. }
  apply rtc_refl.
Qed.

Lemma closed_reachable : reachable (R := unit) closed.
Proof.
  destruct middle_reachable as (u1 & u2 & sv & i & t & H).
  exists u1, u2, sv, i, t. etrans; [exact H|].
  eapply rtc_l; [eapply (step_drop_span 0 _ [_] _ []); [reflexivity|vm_compute; reflexivity]|].
  eapply rtc_l; [eapply (step_async_finish 0 _ [] _ []); [reflexivity|vm_compute; reflexivity]|].
  eapply rtc_l; [eapply (step_drop_span 0 _ [] _ []); [reflexivity|vm_compute; reflexivity]|].
  eapply rtc_l; [eapply step_async_done; [reflexivity|vm_compute; reflexivity]|].
  apply rtc_refl.
Qed.

Lemma segment_is_forest_witness :
  ∃ seg st', cs closed ⊢ convert_to_segment_object ⇓ seg ⊣ st' ∧
    SpanObject.span_id <$> SegmentObject.spans seg ≡ₚ seqZ 0 3 ∧ forest (SegmentObject.spans seg).
Proof.
  destruct (segment_is_forest closed closed_reachable eq_refl eq_refl)
    as (seg & st' & ? & _ & _ & ? & ?). by exists seg, st'.
Defined.

(** The youngest live span of [middle] is the local one. *)
Lemma close_only_youngest_witness :
  (∃ sh', shared (cs middle) ⊢ span_drop 0 (Span.Mk 1 (Some
     (new_obj 0 1 0 "local" "" Local Unknown false))) ⇓ tt ⊣ sh') ∧
  ∃ sh', prepare_for_async 0 (Span.Mk 0 (Some
     (new_obj 0 0 (-1) "entry" "" Entry Http false))) (shared (cs middle)) = (Abort, sh').
Proof.
  split.
  - eapply (close_only_youngest middle); [exact middle_reachable|cbn; set_solver|].
    intros sp' Hsp'. cbn in Hsp'.
    repeat (apply elem_of_cons in Hsp' as [->|Hsp']; [cbn; lia|]). by apply elem_of_nil in Hsp'.
  - eexists. eapply (close_only_youngest middle); [exact middle_reachable|cbn; set_solver| |].
    + cbn. right. left.
    + cbn. lia.
Defined.

Lemma async_drop_total_witness :
  let asp := AsyncSpan.Mk 2 (Some (new_obj 0 2 1 "exit" "peer" Exit Unknown false)) in
  let sh := shared (cs middle) in
  (∃ sh', sh ⊢ async_drop 0 asp ⇓ tt ⊣ sh') ∧
  ∃ busy, async_drop 0 asp busy = (Panic LOCK_MSG, busy).
Proof.
  cbn zeta. split.
  - destruct (async_drop_total middle (AsyncSpan.Mk 2 (Some (new_obj 0 2 1 "exit" "peer" Exit Unknown false)))
      (CountingLock.Readers 0) 0 middle_reachable ltac:(cbn; left)) as (o & i & slot & _ & _ & _ & _ & H).
    eexists. exact H.
  - eexists. exact (async_drop_total middle (AsyncSpan.Mk 2 (Some (new_obj 0 2 1 "exit" "peer" Exit Unknown false)))
      CountingLock.Writer 0 middle_reachable ltac:(cbn; left)).
Defined.

Lemma wait_guards_conversion_witness :
  ∃ st', (cs middle ⊢ convert_to_segment_object ⇑ UNFINISHED_MSG ⊣ st') ∧
    finalized (stack (shared st')) = [].
Proof. by apply (wait_guards_conversion middle middle_reachable). Defined.

Lemma create_span_spec_witness :
  ∃ sp st', cs middle ⊢ create_entry_span 0 "again" ⇓ sp ⊣ st' ∧ next_span_id (ctx st') = 4.
Proof.
  destruct (create_span_spec middle 0 "again" "" middle_reachable eq_refl)
    as [(sp & st' & ? & o & _ & _ & _ & _ & ? & _) _]. by exists sp, st'.
Defined.

Lemma continued_delivers_reference_witness :
  ∃ st1, cs middle ⊢ continued tracers snapshot ⇓ tt ⊣ st1 ∧ trace_id (ctx st1) = "77".
Proof.
  set (o := new_obj 0 1 0 "local" "" Local Unknown false).
  destruct (continued_delivers_reference middle (Span.Mk 1 (Some o)) o tracers snapshot
    {| service_name := "service"; instance_name := "instance"; reporter := tt |} 0 0)
    as (st1 & ? & ? & _); [exact middle_reachable|cbn; right; left|done| |done|done|by exists st1].
  intros sp' Hsp'. cbn in Hsp'.
  repeat (apply elem_of_cons in Hsp' as [->|Hsp']; [cbn; lia|]). by apply elem_of_nil in Hsp'.
Defined.

(** An asynchronous span dropped while another thread is in a destructor. *)
Lemma contended_finalized_panics_witness :
  ∃ sh, async_drop 0 (AsyncSpan.Mk 2 (Some (new_obj 0 2 1 "exit" "peer" Exit Unknown false))) sh
          = (Panic LOCK_MSG, sh).
Proof.
  eexists. apply (contended_finalized_panics middle 0 CountingLock.Writer middle_reachable eq_refl).
  cbn. left.
Defined.
End Demo.
