(* ===== verification/ContextRefinement.v ===== *)
(** * Tracing contexts implement their specification

    The sessions of Session.v and the abstract machine of ContextSpec.v simulate
    each other, through a relation on what a client and the reporter can see. *)

From stdpp Require Import sorting.
From S2P Require Import Prelude Common WaitGroup Proto Tracer SpanStack TraceContext ContextSpec Session.

Local Open Scope Z_scope.
Local Open Scope sky_scope.

Section Refinement.
Context {BC : Build} {RW : RwLock} {PN : ProtoNums} {R : Type}.

(** The objects of a session, with the uid under which it keeps them. *)
Definition holds (s : session) (u : Z) (o : SpanObject.t) : Prop :=
  Span.Mk u (Some o) ∈ spans s ∨ AsyncSpan.Mk u (Some o) ∈ asyncs s ∨
  ∃ e, e ∈ finalized (stack (shared (cs s))) ∧ FinalizeSpan.uid e = u ∧ FinalizeSpan.obj e = Some o.

Record implements (s : session) (σ : spec) : Prop := {
  im_count : next_span_id (ctx (cs s)) = Z.of_nat (length (parents σ));
  im_stack : ActiveSpan.uid <$> active (stack (shared (cs s))) = opened σ;
  im_spans : Span.uid <$> spans s ≡ₚ opened σ;
  im_asyncs : list_to_set (AsyncSpan.uid <$> asyncs s) = detached σ;
  im_slots : list_to_set (completed (finalized (stack (shared (cs s))))) = finished σ;
  im_holds : ∀ u o, holds s u o →
    SpanObject.span_id o = u ∧ parents σ !! Z.to_nat u = Some (SpanObject.parent_span_id o)
}.

(** Every object a session holds carries the identifiers of its uid. *)
Lemma holds_carries par c f a sp asy fin u o :
  inv par c f a sp asy fin → holds (settled c f a sp asy fin) u o →
  carries par u (Some o) ∧ 0 ≤ u < next_span_id c.
Proof.
  intros I H. rewrite <-(uids_range I), elem_of_app.
  destruct H as [H|[H|(e & H & <- & Ho)]]; cbn in H.
  - pose proof (i_spans_obj _ _ _ _ _ _ _ I) as Hc. rewrite Forall_forall in Hc. split; [by apply (Hc _ H)|].
    left. rewrite <-(i_spans _ _ _ _ _ _ _ I). by apply (list_elem_of_fmap_2 Span.uid _ _ H).
  - pose proof (i_asyncs_obj _ _ _ _ _ _ _ I) as Hc. rewrite Forall_forall in Hc. split; [by apply (Hc _ H)|].
    right. apply pending_subset. rewrite <-(i_asyncs _ _ _ _ _ _ _ I).
    by apply (list_elem_of_fmap_2 AsyncSpan.uid _ _ H).
  - pose proof (i_fin _ _ _ _ _ _ _ I) as Hc. rewrite Forall_forall in Hc. specialize (Hc _ H).
    rewrite Ho in Hc. split; [by destruct Hc|]. right. by apply list_elem_of_fmap_2.
Qed.

Lemma session_at_implements σ s : session_at σ s → implements s σ.
Proof.
  intros (par & c & f & a & sp & asy & fin & -> & I & ->). pose proof (i_next _ _ _ _ _ _ _ I).
  split; cbn.
  - rewrite length_fmap, length_seqZ. lia.
  - done.
  - apply I.
  - done.
  - done.
  - intros u o Ho. destruct (holds_carries _ _ _ _ _ _ _ _ _ I Ho) as [(o' & [= <-] & ? & Hp) Hu].
    split; [done|]. rewrite list_lookup_fmap, (proj2 (lookup_seqZ 0 _ _ u)) by lia. cbn. by rewrite Hp.
Qed.

(** The handle of an open span. *)
Lemma open_handle par c f a x sp asy fin :
  inv par c f (a ++ [x]) sp asy fin →
  ∃ l1 o l2, sp = l1 ++ Span.Mk (ActiveSpan.uid x) (Some o) :: l2.
Proof.
  intros I. assert (ActiveSpan.uid x ∈ Span.uid <$> sp) as (s & Hs & Hin)%list_elem_of_fmap.
  { rewrite (i_spans _ _ _ _ _ _ _ I), fmap_app. set_solver. }
  pose proof (i_spans_obj _ _ _ _ _ _ _ I) as Hc. rewrite Forall_forall in Hc.
  destruct (Hc _ Hin) as (o & Ho & _). destruct s as [u ob]. cbn in *. subst.
  apply list_elem_of_split in Hin as (l1 & l2 & ->). by exists l1, o, l2.
Qed.

(** Every step of the abstract machine is a call that the client can make. *)
Lemma spec_step_possible σ σ' s :
  session_at σ s → spec_step σ σ' → room s → ∃ s', step (R := R) s s' ∧ session_at σ' s'.
Proof.
  intros (par & c & f & a & sp & asy & fin & -> & I & ->) Hstep Hroom.
  pose proof (fin_length I). pose proof (i_next _ _ _ _ _ _ _ I). pose proof (i_count _ _ _ _ _ _ _ I).
  assert (Htop : opened (abs par c f a asy) ≠ [] → ∃ a' x, a = a' ++ [x]).
  { destruct a as [|x a' _] using rev_ind; [done|eauto]. }
  destruct Hstep as [|σ' Hσ|σ' Hσ|n σ' Hσ].
  - eexists. split; [eapply (step_create_entry 0 ""); [done|by apply create_entry_span_run]|].
    cbn [spans asyncs finishing settled]. eapply (case_create I (create_entry_span 0 ""));
      [done| | | | |by apply create_entry_span_run|by apply create_entry_span_run]; done.
  - destruct Htop as (a' & x & ->); [by intros E; unfold spec_close in Hσ; rewrite E in Hσ|].
    destruct (open_handle _ _ _ _ _ _ _ _ I) as (l1 & o & l2 & Hsp).
    assert (Hrun := span_drop_top 0 (ActiveSpan.uid x) (Some o) f a' x (S (length sp))
      (healthy_wg (length asy + fin)) eq_refl).
    edestruct (case_drop I) as (σ1 & Hσ1 & Hat); [exact Hsp|exact Hrun|]. simplify_eq.
    eexists. split; [|exact Hat]. by eapply (step_drop_span 0).
  - destruct Htop as (a' & x & ->); [by intros E; unfold spec_detach in Hσ; rewrite E in Hσ|].
    destruct (open_handle _ _ _ _ _ _ _ _ I) as (l1 & o & l2 & Hsp).
    edestruct (case_prepare I) as (σ1 & Hσ1 & Hat); [exact Hsp| |].
    { cbn. unfold healthy_wg. apply (prepare_for_async_top 0 (ActiveSpan.uid x) (Some o)); [done|].
      apply in_unsigned_spec. unfold usize_bits. lia. }
    simplify_eq. eexists. split; [|exact Hat]. eapply (step_prepare_for_async 0); [done|].
    cbn. unfold healthy_wg. apply prepare_for_async_top; [done|].
    apply in_unsigned_spec. unfold usize_bits. lia.
  - unfold spec_finish in Hσ. case_guard as Hn; [|done]. cbn in Hn.
    assert (n ∈ AsyncSpan.uid <$> asy) as (asp & -> & Hin)%list_elem_of_fmap by set_solver.
    destruct (live_async_fills _ _ _ _ _ _ _ 0 _ I Hin) as (o & f' & Ho & Hf).
    apply list_elem_of_split in Hin as (l1 & l2 & Hasy). destruct asp as [u ob]. cbn in *. subst ob.
    edestruct (case_finish I) as (σ1 & Hσ1 & Hat); [exact Hasy|cbn; rewrite async_finish_run, Hf; done|].
    unfold spec_finish in Hσ1. case_guard; [|done]. cbn in *. simplify_eq.
    eexists. split; [|exact Hat]. eapply (step_async_finish 0); [done|]. cbn. by rewrite async_finish_run, Hf.
Qed.

(** The segment of a finished machine. *)
Definition ids (o : SpanObject.t) : Z * Z := (SpanObject.span_id o, SpanObject.parent_span_id o).

Lemma finished_report σ s :
  session_at σ s → opened σ = [] → detached σ = ∅ →
  ∃ seg st', (cs s ⊢ convert_to_segment_object ⇓ seg ⊣ st') ∧
    ids <$> SegmentObject.spans seg ≡ₚ spec_report σ.
Proof.
  intros (par & c & f & a & sp & asy & fin & -> & I & ->) Ha Hasy. cbn in Ha, Hasy.
  apply fmap_nil_inv in Ha as ->.
  assert (asy = []) as -> by (destruct asy; [done|]; set_solver).
  destruct (all_filled _ _ _ _ _ _ I) as (os & Hos & Hid & Hpa). cbn [cs settled].
  rewrite convert_run, Hos. eexists _, _. split; [done|]. cbn [SegmentObject.spans].
  unfold abs. rewrite spec_report_seqZ, <-(i_uids _ _ _ _ _ _ _ I), fmap_nil, app_nil_l.
  enough (ids <$> os = (λ u, (u, par u)) <$> (FinalizeSpan.uid <$> f)) as -> by done.
  apply list_eq. intros i. rewrite !list_lookup_fmap.
  pose proof (f_equal (lookup i) Hid) as H1. pose proof (f_equal (lookup i) Hpa) as H2.
  rewrite !list_lookup_fmap in H1. rewrite !list_lookup_fmap in H2.
  destruct (os !! i), (f !! i); cbn in *; try done. unfold ids. congruence.
Qed.

(** C2: refinement. Every state of a context that a client can reach
    corresponds to a state that the abstract machine can reach: a stack of open
    spans, a set of spans in other threads, a set of finished ones, and the
    parent of each. Every call that returns is a step of the machine or leaves
    it as it is; every step of the machine is a call that returns, as long as
    the span counter has room; and when nothing is open or in another thread
    any more, the segment is the machine's report. *)
Theorem context_refines_spec (s : session) :
  reachable (R := R) s →
  ∃ σ, rtc spec_step spec_new σ ∧ implements s σ ∧
    (∀ s', step (R := R) s s' → ∃ σ', spec_moves σ σ' ∧ implements s' σ') ∧
    (∀ σ', spec_step σ σ' → room s → ∃ s', step (R := R) s s' ∧ implements s' σ') ∧
    (opened σ = [] → detached σ = ∅ →
       ∃ seg st', (cs s ⊢ convert_to_segment_object ⇓ seg ⊣ st') ∧
         ids <$> SegmentObject.spans seg ≡ₚ spec_report σ).
Proof.
  intros (σ & Hσ & Hat)%session_at_reachable. exists σ.
  split_and!; [done|by apply session_at_implements| | |by apply finished_report].
  - intros s' Hs. destruct (session_at_step _ _ _ Hat Hs) as (σ' & ? & ?%session_at_implements). eauto.
  - intros σ' Hs Hr. destruct (spec_step_possible _ _ _ Hat Hs Hr) as (s' & ? & ?%session_at_implements).
    eauto.
Qed.
End Refinement.

Module RefinementDemo.
#[local] Existing Instance test_build.
#[local] Existing Instance CountingLock.lock.
#[local] Existing Instance example_nums.

(** In the middle of the session of Session.v the entry and the local span are
    open and the exit span is in another thread. *)
Lemma context_refines_spec_witness :
  ∃ σ, rtc spec_step spec_new σ ∧ implements (RW := CountingLock.lock) Demo.middle σ ∧
    opened σ = [0; 1] ∧ detached σ = {[2]} ∧ finished σ = ∅.
Proof.
  destruct (context_refines_spec Demo.middle Demo.middle_reachable) as (σ & Hσ & Him & _).
  exists σ. split_and!; [done|done|by rewrite <-(im_stack _ _ Him)| |by rewrite <-(im_slots _ _ Him)].
  rewrite <-(im_asyncs _ _ Him). cbn. set_solver.
Defined.
End RefinementDemo.
