(* ===== verification/Segment.v ===== *)
(** * Reporting a segment: tracer.rs and the end of a context's life

    [Tracer::create_trace_context], [Tracer::finalize_context], [Drop for
    TracingContext] and [TracingContext::wait]. They run on a context together
    with the tracers' memory and the world of the reporter; the reporter is used
    through the [Report] interface only. *)

From stdpp Require Import sorting.
From S2P Require Import Prelude RustStr Common WaitGroup Proto Reporter Tracer SpanStack TraceContext Session.

Local Open Scope Z_scope.
Local Open Scope sky_scope.

Section Segment.
Context {BC : Build} {RW : RwLock} {PN : ProtoNums} `{HR : Report R W}.

Record World := MkWorld {
  context : CtxState;
  tracers : gmap nat (ArcCell R);
  reporting : W
}.

Definition on_context {A} : M CtxState A → M World A :=
  zoom context (λ v w, MkWorld v (tracers w) (reporting w)).
Definition on_reporting {A} : M W A → M World A :=
  zoom reporting (λ v w, MkWorld (context w) (tracers w) v).

(** [Tracer::create_trace_context]; [None] would be a dangling tracer, which
    the counted pointer rules out. *)
Definition create_trace_context (t : Tracer) (ts : gmap nat (ArcCell R)) (uuid1 uuid2 : Z)
    : option CtxState :=
  i ← deref t ts;
  Some (context_new uuid1 uuid2 (service_name i) (instance_name i) (downgrade t)).

(** The free function [create_trace_context], through the global tracer. *)
Definition create_global_trace_context (ts : gmap nat (ArcCell R)) (uuid1 uuid2 : Z)
    : M (option Tracer) (option CtxState) :=
  t <- global_tracer ;; ret (create_trace_context t ts uuid1 uuid2).

(** [Tracer::finalize_context]. *)
Definition finalize_context (t : Tracer) : M World unit :=
  segment_object <- on_context convert_to_segment_object ;;
  ts <- gets tracers ;;
  i <- expect TRACER_DROPPED_MSG (deref t ts) ;;
  on_reporting (report (reporter i) (Trace segment_object)).

(** [Drop for TracingContext]; the stack pointer is dropped with the
    fields. *)
Definition context_drop : M World unit :=
  scoped (c <- on_context (on_ctx (gets id)) ;;
          ts <- gets tracers ;;
          t <- expect TRACER_DROPPED_MSG (upgrade (tracer c) ts) ;;
          finalize_context t)
         (on_context (on_shared drop_stack)).

(** [TracingContext::wait], evaluated when the thread holds the mutex: either
    it sleeps ([false]), or it goes on and the context is dropped. *)
Definition context_wait : M World bool :=
  go <- on_context (on_shared (on_wg wait_check)) ;;
  if go : bool then context_drop ;; ret true else ret false.

(** A client that closes its spans one after the other, each at its time. *)
Fixpoint drop_spans (l : list (Z * Span.t)) : M Shared unit :=
  match l with [] => ret tt | (now, sp) :: l => span_drop now sp ;; drop_spans l end.

(** ** Runs *)

Lemma on_context_run {A} (m : M CtxState A) st ts w r st' :
  m st = (r, st') → on_context m (MkWorld st ts w) = (r, MkWorld st' ts w).
Proof. intros H. unfold on_context, zoom. cbn. by rewrite H. Qed.

Lemma on_reporting_run {A} (m : M W A) st ts w r w' :
  m w = (r, w') → on_reporting m (MkWorld st ts w) = (r, MkWorld st ts w').
Proof. intros H. unfold on_reporting, zoom. cbn. by rewrite H. Qed.

Lemma read_context_run st ts w :
  on_context (on_ctx (gets id)) (MkWorld st ts w) = (Ret (ctx st), MkWorld st ts w).
Proof. destruct st. reflexivity. Qed.

Definition release (st : CtxState) : CtxState :=
  MkCtx (ctx st) (MkShared (stack (shared st)) (pred (strong (shared st))) (wg (shared st))).

Lemma context_drop_run st ts w t i seg st' w' :
  upgrade (tracer (ctx st)) ts = Some t → deref t ts = Some i →
  st ⊢ convert_to_segment_object ⇓ seg ⊣ st' →
  w ⊢ report (reporter i) (Trace seg) ⇓ tt ⊣ w' →
  MkWorld st ts w ⊢ context_drop ⇓ tt ⊣ MkWorld (release st') ts w'.
Proof.
  intros Ht Hi Hconv Hrep. unfold context_drop. apply (scoped_Ret _ _ _ _ (MkWorld st' ts w')); [|done].
  rewrite (bind_Ret _ _ _ _ _ (read_context_run st ts w)).
  rewrite (bind_Ret (gets tracers) _ _ ts (MkWorld st ts w)) by done.
  rewrite Ht. cbv [expect]. rewrite bind_ret_l. unfold finalize_context.
  erewrite bind_Ret by by apply on_context_run.
  erewrite bind_Ret by done. cbn [tracers]. rewrite Hi. cbv [expect]. rewrite bind_ret_l.
  by apply on_reporting_run.
Qed.

(** Without a tracer the destructor panics before it touches the spans. *)
Lemma context_drop_no_tracer st ts w :
  upgrade (tracer (ctx st)) ts = None →
  MkWorld st ts w ⊢ context_drop ⇑ TRACER_DROPPED_MSG ⊣ MkWorld (release st) ts w.
Proof.
  intros Ht. unfold context_drop, scoped, leave.
  rewrite (bind_Ret _ _ _ _ _ (read_context_run st ts w)).
  rewrite (bind_Ret (gets tracers) _ _ ts (MkWorld st ts w)) by done.
  rewrite Ht. done.
Qed.

(** With an unfinished asynchronous span nothing reaches the reporter. *)
Lemma context_drop_unfinished st ts w t e st' :
  upgrade (tracer (ctx st)) ts = Some t →
  st ⊢ convert_to_segment_object ⇑ e ⊣ st' →
  MkWorld st ts w ⊢ context_drop ⇑ e ⊣ MkWorld (release st') ts w.
Proof.
  intros Ht Hconv. unfold context_drop, scoped, leave.
  rewrite (bind_Ret _ _ _ _ _ (read_context_run st ts w)).
  rewrite (bind_Ret (gets tracers) _ _ ts (MkWorld st ts w)) by done.
  rewrite Ht. cbv [expect]. rewrite bind_ret_l. unfold finalize_context.
  erewrite bind_Panic by by apply on_context_run. done.
Qed.

(** Closing the live spans of a context, the youngest first, on a stack from
    which the finalized spans may have been taken. *)
Lemma drop_spans_run par c l F f a sp fin n g :
  Session.inv par c F a sp [] fin → l.*2 ≡ₚ sp → StronglySorted (λ s1 s2, Span.uid s2 < Span.uid s1) l.*2 →
  ∃ f', (uncontended_shared f a n g ⊢ drop_spans l ⇓ tt ⊣ uncontended_shared f' [] (n - length l) g) ∧
    FinalizeSpan.uid <$> f' = (FinalizeSpan.uid <$> f) ++ (Span.uid <$> l.*2).
Proof.
  revert F f a sp n. induction l as [|[now [u o]] l IH]; intros F f a sp n I Hp Hs; cbn in Hp, Hs.
  - apply Permutation_nil_l in Hp as <-. pose proof (i_spans _ _ _ _ _ _ _ I) as Ha. cbn in Ha.
    apply Permutation_nil_l in Ha. symmetry in Ha. apply fmap_nil_inv in Ha as ->.
    exists f. by rewrite Nat.sub_0_r, app_nil_r.
  - apply StronglySorted_cons in Hs as [Hlt Hs]. rewrite Forall_forall in Hlt.
    assert (Hin : Span.Mk u o ∈ sp) by (rewrite <-Hp; left).
    assert (Hy : ∀ s', s' ∈ sp → Span.uid s' ≤ u).
    { intros s' Hs'. rewrite <-Hp in Hs'. apply elem_of_cons in Hs' as [->|Hs']; [done|].
      specialize (Hlt _ Hs'). cbn in Hlt. lia. }
    apply (youngest_is_top _ _ _ _ _ _ _ _ I Hin), last_is_Some in Hy as (a' & x & -> & Hx). cbn in Hx.
    apply list_elem_of_split in Hin as (sp1 & sp2 & ->).
    pose proof (i_spans_obj _ _ _ _ _ _ _ I) as Ho. apply Forall_app in Ho as [_ [Ho _]%Forall_cons].
    assert (I' : Session.inv par c (F ++ [finalize_entry now u o x]) a' (sp1 ++ sp2) [] fin).
    { destruct Ho as (o' & Ho' & Hid). cbn in Ho'. subst o. eapply inv_pop; [exact I|done|done|].
      rewrite Hx. apply finalize_entry_left. by exists o'. }
    destruct (IH _ (f ++ [finalize_entry now u o x]) _ _ (pred n) I') as (f' & Hrun & Hu); [|done|].
    { rewrite <-Permutation_middle in Hp. by apply Permutation_cons_inv in Hp. }
    exists f'. split.
    + cbn [drop_spans]. rewrite (bind_Ret _ _ _ _ _ (span_drop_top now u o f a' x n g Hx)).
      rewrite Hrun. by replace (pred n - length l)%nat with (n - length ((now, Span.Mk u o) :: l))%nat by (cbn; lia).
    + rewrite Hu, fmap_app, <-app_assoc. cbn. by destruct o.
Qed.

(** Upgrading gives a tracer that can be dereferenced. *)
Lemma upgraded_split (w : WeakTracer) (ts : gmap nat (ArcCell R)) (i : Inner R) :
  upgraded w ts = Some i → ∃ t, upgrade w ts = Some t ∧ deref t ts = Some i.
Proof. unfold upgraded. destruct (upgrade w ts) as [t|]; [by exists t|done]. Qed.

Lemma not_upgraded (w : WeakTracer) (ts : gmap nat (ArcCell R)) : upgraded w ts = None → upgrade w ts = None.
Proof.
  unfold upgraded. destruct (upgrade w ts) as [t|] eqn:E; [|done].
  destruct (upgrade_deref _ _ _ E) as [i Hi]. cbn. by rewrite Hi.
Qed.
End Segment.

Arguments World {RW} R W.

(** ** Properties *)
Section Properties.
Context {BC : Build} {RW : RwLock} {PN : ProtoNums} `{HR : Report R W}.
Context (healthy : R → W → Prop) (delivered : W → list CollectItem).
Context {HL : ReportLaws R W healthy delivered} {R' : Type}.

(** C5: the end of a context. Let a client close every span of a context in
    any order the API admits and drop the context while its tracer is alive:
    the drop returns, and the reporter has received exactly one more item,
    the trace segment, with the context's identity, every span once, and a
    well-formed parent forest. *)
Theorem closed_context_is_reported (s : session) ts w i :
  reachable (R := R') s → spans s = [] → asyncs s = [] →
  upgraded (tracer (ctx (cs s))) ts = Some i → healthy (reporter i) w →
  ∃ w' seg, (MkWorld (cs s) ts w ⊢ context_drop ⇓ tt ⊣ w') ∧
    delivered (reporting w') = delivered w ++ [Trace seg] ∧
    SegmentObject.trace_id seg = trace_id (ctx (cs s)) ∧
    SegmentObject.trace_segment_id seg = trace_segment_id (ctx (cs s)) ∧
    SegmentObject.service seg = service (ctx (cs s)) ∧
    SegmentObject.service_instance seg = service_instance (ctx (cs s)) ∧
    SpanObject.span_id <$> SegmentObject.spans seg ≡ₚ seqZ 0 (next_span_id (ctx (cs s))) ∧
    forest (SegmentObject.spans seg).
Proof.
  intros (par & c & f & a & sp & asy & fin & -> & I)%session_inv_reachable Hsp Hasy Ht Hh.
  cbn in *. subst sp asy. destruct (closed_forest _ _ _ _ _ I) as (os & Hos & Hid & Hf).
  apply upgraded_split in Ht as (t & Ht & Hi).
  set (seg := SegmentObject.Mk (trace_id c) (trace_segment_id c) os (service c)
                (service_instance c) false).
  destruct (report_delivers (reporter i) w (Trace seg) Hh) as (w' & Hrun & _ & Hdel).
  eexists (MkWorld _ ts w'), seg. split_and!; [|done..].
  eapply context_drop_run; [exact Ht|exact Hi|by rewrite convert_run, Hos|done].
Qed.

(** C18: [wait] on any reachable context, in whatever state its tracer is. While
    an asynchronous span is live or still in its destructor the thread goes to
    sleep and nothing changes. Otherwise the context is dropped: if its tracer
    is gone that panics, and nothing reaches a reporter; if the tracer is alive,
    and its reporter works, exactly one segment is reported, the context's, with
    every span but those still open. *)
Theorem wait_reports_or_sleeps (s : session) ts w :
  reachable (R := R') s →
  let st := MkWorld (cs s) ts w in
  if decide (asyncs s = [] ∧ finishing s = 0%nat) then
    match upgraded (tracer (ctx (cs s))) ts with
    | None => st ⊢ context_wait ⇑ TRACER_DROPPED_MSG ⊣ MkWorld (release (cs s)) ts w
    | Some i => healthy (reporter i) w →
        ∃ st' seg, (st ⊢ context_wait ⇓ true ⊣ st') ∧
          delivered (reporting st') = delivered w ++ [Trace seg] ∧
          SegmentObject.trace_segment_id seg = trace_segment_id (ctx (cs s)) ∧
          (SpanObject.span_id <$> SegmentObject.spans seg) ++ (Span.uid <$> spans s)
            ≡ₚ seqZ 0 (next_span_id (ctx (cs s)))
    end
  else st ⊢ context_wait ⇓ false ⊣ st.
Proof.
  intros (par & c & f & a & sp & asy & fin & -> & I)%session_inv_reachable st.
  assert (Hgo : on_context (on_shared (on_wg wait_check)) st =
            (Ret (negb (0 <? Z.of_nat (length asy + fin))), st)).
  { apply on_context_run, on_shared_run, on_wg_run, wait_check_ok. }
  unfold context_wait. rewrite (bind_Ret _ _ _ _ _ Hgo). cbn [asyncs finishing settled] in *.
  case_decide as Hd.
  - destruct Hd as [-> ->]. change (negb _) with true. cbv beta iota.
    destruct (all_filled _ _ _ _ _ _ I) as (os & Hos & Hid & _).
    destruct (upgraded _ ts) as [i|] eqn:Ht.
    + intros Hh. apply upgraded_split in Ht as (t & Ht & Hi).
      set (seg := SegmentObject.Mk (trace_id c) (trace_segment_id c) os (service c) (service_instance c) false).
      destruct (report_delivers (reporter i) w (Trace seg) Hh) as (w' & Hrun & _ & Hdel).
      eexists (MkWorld _ ts w'), seg. split_and!; [|exact Hdel|done|].
      * erewrite bind_Ret; [reflexivity|].
        eapply context_drop_run; [exact Ht|exact Hi|cbn [cs settled]; by rewrite convert_run, Hos|exact Hrun].
      * cbn. rewrite Hid, (i_spans _ _ _ _ _ _ _ I), <-(i_uids _ _ _ _ _ _ _ I). apply Permutation_app_comm.
    + by apply bind_Panic, context_drop_no_tracer, not_upgraded.
  - assert ((0 <? Z.of_nat (length asy + fin)) = true) as ->; [|done].
    apply Z.ltb_lt. destruct asy; [|cbn; lia]. destruct fin; [|cbn; lia]. by destruct Hd.
Qed.

(** C37: dropping a context before its spans. Nothing ties the life of a span to
    its context's. A context that is dropped, its tracer alive and no
    asynchronous span unfinished, while synchronous spans are live, still
    reports one segment, with the spans closed so far and no other: those still
    live are missing from it, although they may be the parents of spans in it.
    They can all be closed afterwards, one after the other, the youngest first:
    no destructor panics, the stack is empty in the end, and nothing more is
    reported; the spans closed late stay in the stack's list. *)
Theorem early_drop_loses_open_spans (s : session) ts w i :
  reachable (R := R') s → asyncs s = [] →
  upgraded (tracer (ctx (cs s))) ts = Some i → healthy (reporter i) w →
  ∃ w' seg, (MkWorld (cs s) ts w ⊢ context_drop ⇓ tt ⊣ w') ∧
    delivered (reporting w') = delivered w ++ [Trace seg] ∧
    (SpanObject.span_id <$> SegmentObject.spans seg) ++ (Span.uid <$> spans s)
      ≡ₚ seqZ 0 (next_span_id (ctx (cs s))) ∧
    Forall (λ p, p = -1 ∨ p ∈ SpanObject.span_id <$> SegmentObject.spans seg ∨ p ∈ Span.uid <$> spans s)
      (SpanObject.parent_span_id <$> SegmentObject.spans seg) ∧
    ∀ l, l.*2 ≡ₚ spans s → StronglySorted (λ s1 s2, Span.uid s2 < Span.uid s1) l.*2 →
      ∃ w'', (w' ⊢ on_context (on_shared (drop_spans l)) ⇓ tt ⊣ w'') ∧
        reporting w'' = reporting w' ∧ active (stack (shared (context w''))) = [] ∧
        FinalizeSpan.uid <$> finalized (stack (shared (context w''))) = Span.uid <$> l.*2.
Proof.
  intros (par & c & f & a & sp & asy & fin & -> & I)%session_inv_reachable Hasy Ht Hh.
  cbn [settled asyncs spans cs ctx] in *. subst asy. destruct (all_filled _ _ _ _ _ _ I) as (os & Hos & Hid & Hpa).
  apply upgraded_split in Ht as (t & Ht & Hi).
  set (seg := SegmentObject.Mk (trace_id c) (trace_segment_id c) os (service c)
                (service_instance c) false).
  destruct (report_delivers (reporter i) w (Trace seg) Hh) as (w' & Hrun & _ & Hdel).
  eexists (MkWorld _ ts w'), seg. split_and!; [|done|..].
  - eapply context_drop_run; [exact Ht|exact Hi|by rewrite convert_run, Hos|done].
  - cbn. rewrite Hid, (i_spans _ _ _ _ _ _ _ I), <-(i_uids _ _ _ _ _ _ _ I). apply Permutation_app_comm.
  - cbn. rewrite Hpa, Forall_fmap. apply Forall_forall. intros u Hu. cbn.
    apply list_elem_of_lookup in Hu as [k Hk]. apply lookup_split in Hk as (f1 & f2 & Hf & _).
    rewrite Hid, (i_spans _ _ _ _ _ _ _ I), Hf.
    destruct (i_order _ _ _ _ _ _ _ I _ _ _ Hf) as [?|[?|?]]; [by left|by right; right|]. set_solver.
  - intros l Hl Hs.
    destruct (drop_spans_run par c l f [] a sp fin (length sp) (healthy_wg fin) I Hl Hs) as (f' & Hrun' & Hu).
    eexists (MkWorld (uncontended c f' [] _ _) ts w'). split_and!; [|done|done|exact Hu].
    apply on_context_run, on_shared_run. exact Hrun'.
Qed.
End Properties.

(** The demonstration session, reported to the mock reporter. *)
Module SegmentDemo.
#[local] Existing Instance test_build.
#[local] Existing Instance CountingLock.lock.
#[local] Existing Instance example_nums.

Definition the_tracers : gmap nat (ArcCell MockReporter) :=
  {[ 0%nat := {| Tracer.strong := 1;
                 inner := {| service_name := "service"; instance_name := "instance";
                             reporter := Mock |} |} ]}.
Definition the_inner : Inner MockReporter :=
  {| service_name := "service"; instance_name := "instance"; reporter := Mock |}.

Lemma closed_context_is_reported_witness :
  ∃ w' seg, (MkWorld (cs Demo.closed) the_tracers [] ⊢ context_drop ⇓ tt ⊣ w') ∧
    reporting w' = [Trace seg] ∧
    SpanObject.span_id <$> SegmentObject.spans seg ≡ₚ seqZ 0 3 ∧ forest (SegmentObject.spans seg).
Proof.
  destruct (closed_context_is_reported (λ _ _, True) id Demo.closed the_tracers [] the_inner
    Demo.closed_reachable eq_refl eq_refl eq_refl Logic.I)
    as (w' & seg & ? & ? & _ & _ & _ & _ & ? & ?). by exists w', seg.
Defined.

Lemma wait_reports_or_sleeps_witness :
  (∃ w', MkWorld (cs Demo.closed) the_tracers [] ⊢ context_wait ⇓ true ⊣ w') ∧
  (∃ w', MkWorld (cs Demo.closed) ∅ ([] : list CollectItem) ⊢ context_wait ⇑ TRACER_DROPPED_MSG ⊣ w') ∧
  (let st := MkWorld (cs Demo.middle) the_tracers [] in st ⊢ context_wait ⇓ false ⊣ st).
Proof.
  split_and!.
  - destruct (wait_reports_or_sleeps (λ _ _, True) id Demo.closed the_tracers [] Demo.closed_reachable Logic.I)
      as (w' & seg & ? & _). by exists w'.
  - eexists. exact (wait_reports_or_sleeps (λ _ _, True) id Demo.closed ∅ [] Demo.closed_reachable).
  - exact (wait_reports_or_sleeps (λ _ _, True) id Demo.middle the_tracers [] Demo.middle_reachable).
Defined.

(** An entry span is open when the context is dropped. *)
Definition opened : session :=
  settled (MkContext "1" "2" "service" "instance" 1 "entry" 1 (MkWeak 0)) [] [ActiveSpan.new 0 0]
    [Span.Mk 0 (Some (new_obj 0 0 (-1) "entry" "" Entry Http false))] [] 0.

Lemma opened_reachable : reachable (R := unit) opened.
Proof.
  exists 1, 2, "service", "instance", (MkWeak 0).
  eapply rtc_l; [apply (step_create_entry 0 "entry"); [done|vm_compute; reflexivity]|]. apply rtc_refl.
Qed.

Lemma early_drop_loses_open_spans_witness :
  ∃ w' seg w'', (MkWorld (cs opened) the_tracers [] ⊢ context_drop ⇓ tt ⊣ w') ∧ reporting w' = [Trace seg] ∧
    length (SegmentObject.spans seg) = 0%nat ∧
    (w' ⊢ on_context (on_shared (drop_spans (map (pair 9) (spans opened)))) ⇓ tt ⊣ w'') ∧ reporting w'' = [Trace seg].
Proof.
  destruct (early_drop_loses_open_spans (λ _ _, True) id opened the_tracers [] the_inner
    opened_reachable eq_refl eq_refl Logic.I) as (w' & seg & Hrun & Hd & Hp & _ & Hl).
  destruct (Hl (map (pair 9) (spans opened)) (reflexivity _)) as (w'' & Hrun' & Hr & _); [by repeat constructor|].
  exists w', seg, w''. split_and!; [done|done| |done|by rewrite Hr]. apply Permutation_length in Hp.
  rewrite length_app, !length_fmap, length_seqZ in Hp. cbn in Hp. lia.
Defined.
End SegmentDemo.

