(* ===== verification/Typing.v ===== *)
(** * The types of a context's numbers

    The model keeps machine integers as [Z]. Here: whatever a client does with a
    context, every number in the spans it holds, in the slots of the stack and
    in the segment that is reported is of the type its field has in the
    program. The operations compute the numbers themselves (identifiers, times,
    component, enumerations) or take them from values of those types. *)

From S2P Require Import Prelude Common WaitGroup Proto Tracer SpanStack TraceContext ContextSpec Session.

Local Open Scope Z_scope.
Local Open Scope sky_scope.

Section Typing.
Context {BC : Build} {RW : RwLock} {PN : ProtoNums} {PL : ProtoNumsLaws}.

Definition typed_obj (o : option SpanObject.t) : Prop :=
  match o with Some o => SpanObject.well_typed o = true | None => True end.
Definition typed_ref (r : option SegmentReference.t) : Prop :=
  match r with Some r => SegmentReference.well_typed r = true | None => True end.
Definition typed_slot (x : FinalizeSpan.t) : Prop :=
  typed_obj (FinalizeSpan.obj x) ∧ typed_ref (FinalizeSpan.ref x).

Record typed (f : list FinalizeSpan.t) (a : list ActiveSpan.t) (sp : list Span.t)
    (asy : list AsyncSpan.t) : Prop := {
  t_slots : Forall typed_slot f;
  t_active : Forall (λ x, typed_ref (ActiveSpan.ref x)) a;
  t_spans : Forall (λ s, typed_obj (Span.obj s)) sp;
  t_asyncs : Forall (λ s, typed_obj (AsyncSpan.obj s)) asy
}.

(** *** What the operations make *)

Lemma new_obj_typed now id parent op peer ty ly sk :
  in_signed 32 id = true → in_signed 32 parent = true →
  SpanObject.well_typed (new_obj now id parent op peer ty ly sk) = true.
Proof.
  intros Hi Hp. unfold SpanObject.well_typed. cbn.
  by rewrite Hi, Hp, SystemTime.fetch_time_range, SpanType_i32, SpanLayer_i32.
Qed.

Lemma finished_typed now o r :
  SpanObject.well_typed o = true → typed_ref r →
  let o' := SpanObject.set_end_time (SystemTime.fetch_time now SystemTime.End) o in
  SpanObject.well_typed (match r with Some r => SpanObject.push_ref r o' | None => o' end) = true.
Proof.
  intros Ho Hr o'. assert (SpanObject.well_typed o' = true) as Ho'.
  { apply SpanObject.well_typed_end_time; [apply SystemTime.fetch_time_range|done]. }
  destruct r as [r|]; [by apply SpanObject.well_typed_push_ref|done].
Qed.

Lemma finalize_entry_typed now u o x :
  typed_obj o → typed_ref (ActiveSpan.ref x) → typed_slot (finalize_entry now u o x).
Proof. intros Ho Hr. destruct o as [o|]; split; cbn; try done. by apply finished_typed. Qed.

Lemma fill_first_typed now u o f f' :
  SpanObject.well_typed o = true → Forall typed_slot f → fill_first now u o f = Some f' →
  Forall typed_slot f'.
Proof.
  intros Ho Hf (f1 & x & f2 & -> & -> & _)%fill_first_Some.
  apply Forall_app in Hf as [H1 [[_ Hx] H2]%Forall_cons]. apply Forall_app. split; [done|].
  constructor; [|done]. split; cbn; [|done]. by apply finished_typed.
Qed.

Lemma propagation_ref_typed tid p :
  in_signed 32 (PropagationContext.parent_span_id p) = true →
  SegmentReference.well_typed (propagation_ref tid p) = true.
Proof. intros Hp. unfold SegmentReference.well_typed. cbn. by rewrite RefType_i32, Hp. Qed.

Lemma continued_ref_typed {R} snap (t : Inner R) :
  in_signed 32 (ContextSnapshot.span_id snap) = true →
  SegmentReference.well_typed (continued_ref snap t) = true.
Proof. intros Hp. unfold SegmentReference.well_typed. cbn. by rewrite RefType_i32, Hp. Qed.

Lemma set_last_ref_typed r a :
  SegmentReference.well_typed r = true → Forall (λ x, typed_ref (ActiveSpan.ref x)) a →
  Forall (λ x, typed_ref (ActiveSpan.ref x)) (set_last_ref r a).
Proof.
  intros Hr Ha. unfold set_last_ref. destruct a as [|x a _] using rev_ind; [done|].
  rewrite last_snoc, removelast_last. apply Forall_app in Ha as [Ha _].
  apply Forall_app. split; [done|]. by constructor.
Qed.

(** An edit through [span_object_mut]. *)
Lemma span_edit_typed `{H : HandleSpanObject T} g (h h' : T) :
  (∀ o, SpanObject.well_typed o = true → SpanObject.well_typed (g o) = true) →
  (∀ o h, handle_obj (handle_set_obj o h) = Some o) →
  span_object_mut g h = Ret h' → typed_obj (handle_obj h) → typed_obj (handle_obj h').
Proof.
  intros Hg Hset. unfold span_object_mut. destruct (handle_obj h) as [o|]; [|done].
  intros [= <-] Ho. rewrite Hset. by apply Hg.
Qed.

(** *** The calls of a client *)
Section Cases.
Context {par : Z → Z} {c : TracingContext} {f : list FinalizeSpan.t} {a : list ActiveSpan.t}.
Context {sp : list Span.t} {asy : list AsyncSpan.t} {fin : nat}.
Context (I : inv par c f a sp asy fin) (T : typed f a sp asy).
Let s := settled c f a sp asy fin.

(** The lists of the stack, in any state of the block. *)
Definition typed_in (sh : Shared) (sp : list Span.t) (asy : list AsyncSpan.t) : Prop :=
  typed (finalized (stack sh)) (active (stack sh)) sp asy.

Lemma ids_typed : in_signed 32 (next_span_id c) = true ∧ in_signed 32 (parent_on a) = true.
Proof using I.
  pose proof (i_next _ _ _ _ _ _ _ I). pose proof (parent_range I).
  rewrite !in_signed_spec. change (32 - 1) with 31. lia.
Qed.

Lemma typed_create (m : M CtxState Span.t) o c' u i n g spn cs' :
  SpanObject.well_typed o = true →
  m (cs s) = (Ret (Span.Mk u (Some o)), uncontended c' f (a ++ [ActiveSpan.new u i]) n g) →
  cs s ⊢ m ⇓ spn ⊣ cs' → typed_in (shared cs') (sp ++ [spn]) asy.
Proof using I T PL.
  intros Ho Hm Hrun. rewrite Hm in Hrun. simplify_eq. destruct T as [Hf Ha Hsp Hasy].
  split; cbn; try done; (apply Forall_app; split; [done|by constructor]).
Qed.

Lemma typed_continued {R} (ts : gmap nat (ArcCell R)) snap cs' :
  in_signed 32 (ContextSnapshot.span_id snap) = true →
  cs s ⊢ continued ts snap ⇓ tt ⊣ cs' → typed_in (shared cs') sp asy.
Proof using I T PL.
  intros Hsn Hrun. destruct (ContextSnapshot.is_valid snap) eqn:Hv.
  - destruct (upgraded (tracer c) ts) as [t|] eqn:Ht.
    + cbn in Hrun. rewrite (continued_run _ _ t) in Hrun by done. simplify_eq.
      destruct T as [Hf Ha Hsp Hasy]. split; cbn; try done.
      by apply set_last_ref_typed; [apply continued_ref_typed|].
    + unfold continued in Hrun. rewrite Hv in Hrun.
      unfold upgrade_tracer, bind, on_ctx, zoom, modify, gets in Hrun. cbn in Hrun.
      by rewrite Ht in Hrun.
  - unfold continued in Hrun. rewrite Hv in Hrun. unfold ret in Hrun. by simplify_eq.
Qed.

Lemma typed_drop now l1 spn l2 sh' :
  sp = l1 ++ spn :: l2 → shared (cs s) ⊢ span_drop now spn ⇓ tt ⊣ sh' → typed_in sh' (l1 ++ l2) asy.
Proof using I T PL.
  intros Hsp Hrun. destruct (drop_was_top _ _ _ _ _ _ _ _ Hrun) as (a' & x & Ha & Hx).
  destruct T as [Hf Hact Hspn Hasy]. rewrite Hsp in Hspn. apply Forall_app in Hspn as [H1 [Ho H2]%Forall_cons].
  rewrite Ha in Hact. apply Forall_app in Hact as [Hact Hr]. rewrite Forall_singleton in Hr.
  destruct spn as [u obj]. cbn in *. rewrite Ha in Hrun.
  rewrite (span_drop_top now u _ f a' x) in Hrun by done. simplify_eq.
  split; cbn; try done; [|by apply Forall_app].
  apply Forall_app. split; [done|]. constructor; [by apply finalize_entry_typed|constructor].
Qed.

Lemma typed_prepare now l1 spn l2 asp sh' :
  sp = l1 ++ spn :: l2 → shared (cs s) ⊢ prepare_for_async now spn ⇓ asp ⊣ sh' →
  typed_in sh' (l1 ++ l2) (asy ++ [asp]).
Proof using I T PL.
  intros Hsp Hrun. destruct (prepare_was_top _ _ _ _ _ _ _ _ Hrun) as (a' & x & Ha & Hx).
  destruct T as [Hf Hact Hspn Hasy]. rewrite Hsp in Hspn. apply Forall_app in Hspn as [H1 [Ho H2]%Forall_cons].
  rewrite Ha in Hact. apply Forall_app in Hact as [Hact Hr]. rewrite Forall_singleton in Hr.
  pose proof (fin_length I). pose proof (i_next _ _ _ _ _ _ _ I). pose proof (i_count _ _ _ _ _ _ _ I).
  destruct spn as [u obj]. cbn in *. rewrite Ha in Hrun. unfold healthy_wg in Hrun.
  rewrite (prepare_for_async_top now u _ f a' x) in Hrun;
    [|done|apply in_unsigned_spec; unfold usize_bits; lia]. simplify_eq.
  split; cbn; try done; (apply Forall_app; split; [done|]); [|done|by constructor].
  constructor; [|constructor]. by apply (finalize_entry_typed now (ActiveSpan.uid x) None x).
Qed.

Lemma typed_finish now l1 asp l2 sh' :
  asy = l1 ++ asp :: l2 → shared (cs s) ⊢ async_finish now asp ⇓ tt ⊣ sh' → typed_in sh' sp (l1 ++ l2).
Proof using I T PL.
  intros Hasp Hrun. pose proof (i_asyncs_obj _ _ _ _ _ _ _ I) as Hso. rewrite Hasp in Hso.
  apply Forall_app in Hso as [_ [(o & Ho & _) _]%Forall_cons].
  destruct T as [Hf Hact Hspn Hasy]. rewrite Hasp in Hasy. apply Forall_app in Hasy as [H1 [Hty H2]%Forall_cons].
  destruct asp as [u obj]. cbn in *. subst obj. rewrite async_finish_run in Hrun.
  destruct (fill_first now u o f) as [f'|] eqn:Hfill; [|done]. simplify_eq.
  split; cbn; try done; [by eapply fill_first_typed|by apply Forall_app].
Qed.

Lemma typed_done n sh' :
  fin = S n → shared (cs s) ⊢ async_done ⇓ tt ⊣ sh' → typed_in sh' sp asy.
Proof using I T PL.
  intros Hfin Hrun. pose proof (fin_length I). pose proof (i_next _ _ _ _ _ _ _ I).
  pose proof (i_count _ _ _ _ _ _ _ I). cbn in Hrun. subst fin. unfold healthy_wg in Hrun.
  rewrite async_done_run in Hrun by (unfold usize_bits; lia). by simplify_eq.
Qed.
End Cases.

Definition typed_session (s : session) : Prop := typed_in (shared (cs s)) (spans s) (asyncs s).

Lemma typed_step {R} (s s' : session) :
  (∃ σ, session_at σ s) → typed_session s → step (R := R) s s' → typed_session s'.
Proof.
  intros (σ & par & c & f & a & sp & asy & fin & -> & I & _) T Hstep.
  destruct (ids_typed I) as [Hid Hpa].
  inversion Hstep as [now op ? spn cs' Hroom Hrun|now op p ? spn cs' Hroom Hp Hrun
    |now op peer ? spn cs' Hroom Hrun|now op ? spn cs' Hroom Hrun
    |ts snap ? cs' Hsn Hrun|g ? l1 spn l2 spn' [_ Hg] Hsp Hrun|now ? l1 spn l2 sh' Hsp Hrun
    |now ? l1 spn l2 asp sh' Hsp Hrun|g ? l1 asp l2 asp' [_ Hg] Hasp Hrun
    |now ? l1 asp l2 sh' Hasp Hrun|? n sh' Hfin Hrun]; subst; cbn [spans asyncs finishing settled] in *.
  - eapply (typed_create I T); [|by apply create_entry_span_run|exact Hrun]. by apply new_obj_typed.
  - eapply (typed_create I T); [|by apply create_entry_span_with_propagation_run|exact Hrun].
    apply SpanObject.well_typed_push_ref; [by apply propagation_ref_typed|by apply new_obj_typed].
  - destruct (decide (next_span_id c = 0)) as [E|E].
    { cbn in Hrun. by rewrite create_exit_span_first in Hrun. }
    eapply (typed_create I T); [|by apply create_exit_span_run|exact Hrun]. by apply new_obj_typed.
  - destruct (decide (next_span_id c = 0)) as [E|E].
    { cbn in Hrun. by rewrite create_local_span_first in Hrun. }
    eapply (typed_create I T); [|by apply create_local_span_run|exact Hrun]. by apply new_obj_typed.
  - by eapply (typed_continued I T).
  - destruct T as [Hf Ha Hspn Hasy]. split; cbn; try done. cbn in Hspn. rewrite Hsp in Hspn.
    apply Forall_app in Hspn as [H1 [Ho H2]%Forall_cons]. apply Forall_app. split; [done|].
    constructor; [|done]. by apply (span_edit_typed (H := Handle_Span) g spn spn' Hg).
  - by eapply (typed_drop I T).
  - by eapply (typed_prepare I T).
  - destruct T as [Hf Ha Hspn Hasy]. split; cbn; try done. cbn in Hasy. rewrite Hasp in Hasy.
    apply Forall_app in Hasy as [H1 [Ho H2]%Forall_cons]. apply Forall_app. split; [done|].
    constructor; [|done]. by apply (span_edit_typed (H := Handle_AsyncSpan) g asp asp' Hg).
  - by eapply (typed_finish I T).
  - by eapply (typed_done I T).
Qed.

Lemma typed_reachable {R} (s : session) : reachable (R := R) s → typed_session s.
Proof.
  intros (u1 & u2 & service & instance & t & H).
  assert (typed_session (session_new u1 u2 service instance t)) as T0 by by split.
  pose proof (session_at_new u1 u2 service instance t) as A0. revert A0 T0.
  generalize (session_new u1 u2 service instance t) H spec_new. clear H.
  induction 1 as [|s0 s1 s2 Hs _ IH]; [done|]. intros σ A T.
  destruct (session_at_step _ _ _ A Hs) as (σ' & _ & A'). apply (IH σ' A'). eapply (typed_step s0); eauto.
Qed.
End Typing.

(** ** Properties *)
Section Properties.
Context {BC : Build} {RW : RwLock} {PN : ProtoNums} {PL : ProtoNumsLaws} {R : Type}.

(** The numbers stay in their types. In every session a client can reach,
    every number in a live span is of the type of its field ([i32] identifiers,
    layer, type and component, [i64] times, and those of its references and
    logs), the span counter is an [i32], and so is every number of the segment
    that the context converts to. *)
Lemma numbers_stay_typed (s : session) :
  reachable (R := R) s →
  Forall (λ sp, typed_obj (Span.obj sp)) (spans s) ∧
  Forall (λ sp, typed_obj (AsyncSpan.obj sp)) (asyncs s) ∧
  in_signed 32 (next_span_id (ctx (cs s))) = true ∧
  ∀ seg st', (cs s ⊢ convert_to_segment_object ⇓ seg ⊣ st') → SegmentObject.well_typed seg = true.
Proof.
  intros Hs. pose proof (typed_reachable s Hs) as T.
  apply session_inv_reachable in Hs as (par & c & f & a & sp & asy & fin & -> & I).
  destruct T as [Hf _ Hsp Hasy]. split_and!; [done|done|apply (ids_typed I)|].
  intros seg st' Hrun. cbn in Hrun, Hf. rewrite convert_run in Hrun.
  destruct (mapM FinalizeSpan.obj f) as [os|] eqn:E; [|done]. simplify_eq.
  unfold SegmentObject.well_typed. cbn. apply forallb_forall. intros o Ho.
  apply mapM_Some in E. apply list_elem_of_In, list_elem_of_lookup in Ho as [i Hi].
  destruct (Forall2_lookup_r _ _ _ _ _ E Hi) as (x & Hx & Hxo).
  rewrite Forall_lookup in Hf. destruct (Hf i x Hx) as [Hty _]. by rewrite Hxo in Hty.
Qed.
End Properties.

Module TypingDemo.
#[local] Existing Instance test_build.
#[local] Existing Instance CountingLock.lock.
#[local] Existing Instances example_nums example_nums_laws.

Lemma numbers_stay_typed_witness :
  ∃ seg st', (cs Demo.closed ⊢ convert_to_segment_object ⇓ seg ⊣ st') ∧
    SegmentObject.well_typed seg = true ∧ length (SegmentObject.spans seg) = 3%nat.
Proof.
  destruct (numbers_stay_typed Demo.closed Demo.closed_reachable) as (_ & _ & _ & H).
  eexists _, _. split; [vm_compute; reflexivity|]. split; [|reflexivity].
  eapply H. vm_compute. reflexivity.
Defined.
End TypingDemo.
