(* ===== verification/Agent.v ===== *)
(** * Several contexts, one reporter

    An application has many tracing contexts at once, in many threads, made by
    tracers that share a reporter with each other and with the other front ends.
    [step] interleaves the calls on all of them. Each context lives as in
    Session.v, whatever the others do, and what reaches the reporter is one
    segment per context that was dropped properly, in the order of the drops. *)

From S2P Require Import Prelude RustStr Common WaitGroup Proto Reporter Tracer SpanStack TraceContext Session Segment.

Local Open Scope Z_scope.
Local Open Scope sky_scope.

Section Agent.
Context {BC : Build} {RW : RwLock} {PN : ProtoNums} `{HR : Report R W}.

(** A context that was dropped, with the segment it was converted to. *)
Record ended := MkEnded { last : session; segment : SegmentObject.t }.

(** The tracers' memory, the contexts with their clients' handles, the world of
    the reporter. Ghosts: the UUIDs drawn for segments, the contexts whose drop
    returned. *)
Record agent := MkAgent {
  tracers : gmap nat (ArcCell R);
  contexts : gmap nat session;
  world : W;
  drawn : list Z;
  reported : list ended
}.

Inductive step (a : agent) : agent → Prop :=
(* [Tracer::new], and clones and drops of tracers *)
| step_tracer_new service instance r t ts :
    tracer_new service instance r (tracers a) = (t, ts) →
    step a (MkAgent ts (contexts a) (world a) (drawn a) (reported a))
| step_tracer_clone t t' ts :
    is_Some (upgrade (downgrade t) (tracers a)) → tracer_clone t (tracers a) = (t', ts) →
    step a (MkAgent ts (contexts a) (world a) (drawn a) (reported a))
| step_tracer_drop t :
    is_Some (upgrade (downgrade t) (tracers a)) →
    step a (MkAgent (tracer_drop t (tracers a)) (contexts a) (world a) (drawn a) (reported a))
(* [Tracer::create_trace_context]: the second UUID names the segment *)
| step_create t uuid1 uuid2 st k :
    is_Some (upgrade (downgrade t) (tracers a)) →
    create_trace_context t (tracers a) uuid1 uuid2 = Some st →
    in_unsigned 128 uuid2 = true → uuid2 ∉ drawn a → contexts a !! k = None →
    step a (MkAgent (tracers a) (<[k := MkSession st [] [] 0]> (contexts a)) (world a)
              (drawn a ++ [uuid2]) (reported a))
(* a call on one of the contexts or of their spans *)
| step_call k s s' :
    contexts a !! k = Some s → Session.step (R := R) s s' →
    step a (MkAgent (tracers a) (<[k := s']> (contexts a)) (world a) (drawn a) (reported a))
(* [Drop for TracingContext] *)
| step_drop k s seg st w :
    contexts a !! k = Some s → cs s ⊢ convert_to_segment_object ⇓ seg ⊣ st →
    MkWorld (cs s) (tracers a) (world a) ⊢ context_drop ⇓ tt ⊣ w →
    step a (MkAgent (tracers a) (delete k (contexts a)) (reporting w) (drawn a)
              (reported a ++ [MkEnded s seg]))
| step_drop_panic k s e w :
    contexts a !! k = Some s →
    MkWorld (cs s) (tracers a) (world a) ⊢ context_drop ⇑ e ⊣ w →
    step a (MkAgent (tracers a) (delete k (contexts a)) (reporting w) (drawn a) (reported a))
(* the other front ends *)
| step_other r item w :
    (∀ seg, item ≠ Trace seg) → world a ⊢ report r item ⇓ tt ⊣ w →
    step a (MkAgent (tracers a) (contexts a) w (drawn a) (reported a)).

Definition agent_new (w : W) : agent := MkAgent ∅ ∅ w [] [].

(** ** A session keeps the segment it was given *)

Lemma step_keeps_segment (s s' : session) :
  (∃ σ, session_at σ s) → Session.step (R := R) s s' →
  trace_segment_id (ctx (cs s')) = trace_segment_id (ctx (cs s)).
Proof.
  intros (σ & par & c & f & a & sp & asy & fin & -> & I & _) Hstep.
  inversion Hstep as [now op ? spn cs' Hroom Hrun|now op p ? spn cs' Hroom Hp Hrun
    |now op peer ? spn cs' Hroom Hrun|now op ? spn cs' Hroom Hrun
    |ts snap ? cs' Hsn Hrun| | | | | |]; subst; try done; cbn [cs settled ctx] in *; unfold room in *; cbn in Hrun.
  - rewrite create_entry_span_run in Hrun by done. by simplify_eq.
  - rewrite create_entry_span_with_propagation_run in Hrun by done. by simplify_eq.
  - destruct (decide (next_span_id c = 0)); [by rewrite create_exit_span_first in Hrun|].
    rewrite create_exit_span_run in Hrun by done. by simplify_eq.
  - destruct (decide (next_span_id c = 0)); [by rewrite create_local_span_first in Hrun|].
    rewrite create_local_span_run in Hrun by done. by simplify_eq.
  - destruct (ContextSnapshot.is_valid snap) eqn:Hv.
    + destruct (upgraded (tracer c) ts) as [t|] eqn:Ht.
      * rewrite (continued_run _ _ t) in Hrun by done. by simplify_eq.
      * unfold continued in Hrun. rewrite Hv in Hrun.
        unfold upgrade_tracer, bind, on_ctx, zoom, modify, gets in Hrun. cbn in Hrun.
        by rewrite Ht in Hrun.
    + unfold continued in Hrun. rewrite Hv in Hrun. unfold ret in Hrun. by simplify_eq.
Qed.
End Agent.
Arguments agent {RW} R W. Arguments ended {RW}.

(** ** The invariant *)
Section Invariant.
Context {BC : Build} {RW : RwLock} {PN : ProtoNums} `{HR : Report R W}.
Context (ok : W → Prop) (delivered : W → list CollectItem) {HL : ReportLaws R W (λ _, ok) delivered}.
Implicit Types (a : agent R W) (s : session).

Definition segment_id s : string := trace_segment_id (ctx (cs s)).
Definition reported_ids a : list string := SegmentObject.trace_segment_id ∘ segment <$> reported a.

(** The segment is what the context was converted to. *)
Definition genuine (e : ended) : Prop :=
  reachable (R := R) (last e) ∧
  ∃ st, cs (last e) ⊢ convert_to_segment_object ⇓ segment e ⊣ st.

Record inv (before : list CollectItem) a : Prop := {
  v_ok : ok (world a);
  v_live k s : contexts a !! k = Some s → reachable (R := R) s;
  v_genuine : Forall genuine (reported a);
  v_delivered : omap segment_of (delivered (world a)) =
    omap segment_of before ++ (segment <$> reported a);
  v_drawn : Forall (λ u, in_unsigned 128 u = true) (drawn a);
  v_named i : (∃ k s, contexts a !! k = Some s ∧ segment_id s = i) ∨ i ∈ reported_ids a →
    ∃ u, u ∈ drawn a ∧ i = RandomGenerator.generate u;
  v_distinct k1 k2 s1 s2 : contexts a !! k1 = Some s1 → contexts a !! k2 = Some s2 →
    segment_id s1 = segment_id s2 → k1 = k2;
  v_fresh k s : contexts a !! k = Some s → segment_id s ∉ reported_ids a;
  v_once : NoDup (reported_ids a)
}.

Lemma agent_inv_new w : ok w → inv (delivered w) (agent_new w).
Proof.
  intros Hw. split; try done.
  - by rewrite app_nil_r.
  - intros i [(k & s & Hs & _)|Hi]; [done|by apply elem_of_nil in Hi].
  - constructor.
Qed.

(** The drop of a context that returns reports its segment. *)
Lemma context_drop_reports s seg st ts v w :
  reachable (R := R) s → ok v → cs s ⊢ convert_to_segment_object ⇓ seg ⊣ st →
  MkWorld (cs s) ts v ⊢ context_drop ⇓ tt ⊣ w →
  ok (reporting w) ∧ delivered (reporting w) = delivered v ++ [Trace seg].
Proof.
  intros Hs Hv Hc Hd. destruct (upgraded (tracer (ctx (cs s))) ts) as [i|] eqn:Hu.
  - apply upgraded_split in Hu as (t & Ht & Hi).
    destruct (report_delivers (reporter i) v (Trace seg) Hv) as (v' & Hr & Hok & Hdel).
    rewrite (context_drop_run _ _ _ _ _ _ _ _ Ht Hi Hc Hr) in Hd. by injection Hd as <-.
  - assert (upgrade (tracer (ctx (cs s))) ts = None) as Hn.
    { unfold upgraded in Hu. destruct (upgrade _ ts) as [t|] eqn:E; [|done].
      apply upgrade_deref in E as [i Hi]. cbn in Hu. by rewrite Hi in Hu. }
    by rewrite (context_drop_no_tracer _ _ _ Hn) in Hd.
Qed.

(** One that panics reports nothing. *)
Lemma context_drop_panics s ts v e w :
  reachable (R := R) s → ok v → MkWorld (cs s) ts v ⊢ context_drop ⇑ e ⊣ w → reporting w = v.
Proof.
  intros (par & c & f & a & sp & asy & fin & -> & I)%session_inv_reachable Hv Hd. cbn in Hd.
  destruct (upgrade (tracer c) ts) as [t|] eqn:Ht.
  - destruct (mapM FinalizeSpan.obj f) as [os|] eqn:Hos.
    + destruct (upgrade_deref _ _ _ Ht) as [i Hi].
      edestruct (report_delivers (reporter i) v (Trace (SegmentObject.Mk (trace_id c) (trace_segment_id c)
        os (service c) (service_instance c) false)) Hv) as (v' & Hr & _).
      erewrite context_drop_run in Hd; [|exact Ht|exact Hi|by rewrite convert_run, Hos|exact Hr]. done.
    + erewrite context_drop_unfinished in Hd; [|exact Ht|by rewrite convert_run, Hos]. by injection Hd as _ <-.
  - rewrite context_drop_no_tracer in Hd by done. by injection Hd as _ <-.
Qed.

Lemma converted_id s seg st :
  reachable (R := R) s → cs s ⊢ convert_to_segment_object ⇓ seg ⊣ st →
  SegmentObject.trace_segment_id seg = segment_id s.
Proof.
  intros (par & c & f & a & sp & asy & fin & -> & I)%session_inv_reachable Hc.
  cbn in Hc. rewrite convert_run in Hc. destruct (mapM FinalizeSpan.obj f); [|done]. by simplify_eq.
Qed.

Lemma reachable_call s s' : reachable (R := R) s → Session.step (R := R) s s' →
  reachable (R := R) s' ∧ segment_id s' = segment_id s.
Proof.
  intros Hs Hstep. split.
  - destruct Hs as (u1 & u2 & sv & i & t & H). exists u1, u2, sv, i, t. by eapply rtc_r.
  - apply (step_keeps_segment (R := R)); [|done]. by apply session_at_reachable in Hs as (σ & _ & ?); exists σ.
Qed.

(** What the invariant depends on. *)
Lemma inv_tracers before a ts :
  inv before a → inv before (MkAgent ts (contexts a) (world a) (drawn a) (reported a)).
Proof. intros []. by split. Qed.

Lemma inv_create before a t u1 u2 st k :
  inv before a → create_trace_context t (tracers a) u1 u2 = Some st →
  in_unsigned 128 u2 = true → u2 ∉ drawn a → contexts a !! k = None →
  inv before (MkAgent (tracers a) (<[k := MkSession st [] [] 0]> (contexts a)) (world a)
                (drawn a ++ [u2]) (reported a)).
Proof.
  intros [Hok Hl Hg Hd Hdr Hn Hdi Hf Ho] Hst Hu Hfresh Hk.
  unfold create_trace_context in Hst. destruct (deref t (tracers a)) as [i|]; [|done]. injection Hst as <-.
  assert (Hnew : ∀ j, (∃ k s, contexts a !! k = Some s ∧ segment_id s = j) ∨ j ∈ reported_ids a →
    j ≠ RandomGenerator.generate u2).
  { intros j (u & Hu' & ->)%Hn Heq. apply RandomGenerator.generate_inj in Heq; [|by apply (proj1 (Forall_forall _ _) Hdr)|done].
    congruence. }
  split; cbn; try done.
  - intros k' s [[<- <-]|[_ Hs]]%lookup_insert_Some; [|by apply (Hl k')].
    eexists u1, u2, _, _, _. apply rtc_refl.
  - apply Forall_app. split; [done|]. by constructor.
  - intros j [(k' & s & [[<- <-]|[_ Hs]]%lookup_insert_Some & <-)|Hj].
    + exists u2. split; [set_solver|done].
    + destruct (Hn (segment_id s)) as (u & ? & ?); [by left; exists k', s|]. exists u. split; [set_solver|done].
    + destruct (Hn j) as (u & ? & ?); [by right|]. exists u. split; [set_solver|done].
  - intros k1 k2 s1 s2 [[<- <-]|[Hk1 H1]]%lookup_insert_Some [[<- <-]|[Hk2 H2]]%lookup_insert_Some Heq; try done.
    + destruct (Hnew (segment_id s2)); [by left; exists k2, s2|by rewrite <-Heq].
    + destruct (Hnew (segment_id s1)); [by left; exists k1, s1|by rewrite Heq].
    + by apply (Hdi k1 k2 s1 s2).
  - intros k' s [[<- <-]|[_ Hs]]%lookup_insert_Some; [|by apply (Hf k')].
    intros Hin. by apply (Hnew (RandomGenerator.generate u2)); [right|].
Qed.

Lemma inv_call before a k s s' :
  inv before a → contexts a !! k = Some s → Session.step (R := R) s s' →
  inv before (MkAgent (tracers a) (<[k := s']> (contexts a)) (world a) (drawn a) (reported a)).
Proof.
  intros [Hok Hl Hg Hd Hdr Hn Hdi Hf Ho] Hk Hstep.
  destruct (reachable_call s s' (Hl k s Hk) Hstep) as [Hr Hid].
  assert (Hback : ∀ k1 s1, <[k := s']> (contexts a) !! k1 = Some s1 →
    ∃ s0, contexts a !! k1 = Some s0 ∧ segment_id s0 = segment_id s1).
  { intros k1 s1 [[<- <-]|[_ ?]]%lookup_insert_Some; eauto. }
  split; cbn; try done.
  - intros k' s1 [[<- <-]|[_ Hs]]%lookup_insert_Some; [done|by apply (Hl k')].
  - intros i [(k1 & s1 & (s0 & H0 & He)%Hback & <-)|Hi]; apply Hn; [|by right].
    left. exists k1, s0. done.
  - intros k1 k2 s1 s2 (s1' & H1 & E1)%Hback (s2' & H2 & E2)%Hback Heq.
    apply (Hdi k1 k2 s1' s2' H1 H2). congruence.
  - intros k1 s1 (s0 & H0 & <-)%Hback. by apply (Hf k1).
Qed.

Lemma inv_forget before a k w :
  inv before a → ok w → delivered w = delivered (world a) →
  inv before (MkAgent (tracers a) (delete k (contexts a)) w (drawn a) (reported a)).
Proof.
  intros [Hok Hl Hg Hd Hdr Hn Hdi Hf Ho] Hw He. split; cbn; rewrite ?He; try done.
  - intros k' s [_ Hs]%lookup_delete_Some. by apply (Hl k').
  - intros i [(k' & s & [_ Hs]%lookup_delete_Some & <-)|Hi]; apply Hn; [left; by exists k', s|by right].
  - intros k1 k2 s1 s2 [_ H1]%lookup_delete_Some [_ H2]%lookup_delete_Some. by apply Hdi.
  - intros k' s [_ Hs]%lookup_delete_Some. by apply (Hf k').
Qed.

Lemma inv_drop before a k s seg st w :
  inv before a → contexts a !! k = Some s → cs s ⊢ convert_to_segment_object ⇓ seg ⊣ st →
  ok w → delivered w = delivered (world a) ++ [Trace seg] →
  inv before (MkAgent (tracers a) (delete k (contexts a)) w (drawn a) (reported a ++ [MkEnded s seg])).
Proof.
  intros [Hok Hl Hg Hd Hdr Hn Hdi Hf Ho] Hk Hc Hw He.
  pose proof (converted_id _ _ _ (Hl k s Hk) Hc) as Hid.
  split; cbn; unfold reported_ids; cbn; rewrite ?fmap_app; cbn; rewrite ?Hid.
  - done.
  - intros k' s' [_ Hs]%lookup_delete_Some. by apply (Hl k').
  - apply Forall_app. split; [done|]. constructor; [|constructor]. split; [by apply (Hl k)|by exists st].
  - rewrite He, omap_app, Hd, <-app_assoc. by cbn.
  - done.
  - intros i [(k' & s' & [_ Hs]%lookup_delete_Some & <-)|[Hi|Hi]%elem_of_app]; apply Hn.
    + left. by exists k', s'.
    + by right.
    + apply list_elem_of_singleton in Hi as ->. left. by exists k, s.
  - intros k1 k2 s1 s2 [_ H1]%lookup_delete_Some [_ H2]%lookup_delete_Some. by apply Hdi.
  - intros k' s' [Hne Hs]%lookup_delete_Some [Hi|Hi]%elem_of_app; [by apply (Hf k' s')|].
    apply list_elem_of_singleton in Hi. apply Hne. symmetry. by apply (Hdi k' k s' s).
  - apply NoDup_app. split_and!; [done| |apply NoDup_singleton].
    intros i Hi Hi'. apply list_elem_of_singleton in Hi' as ->. by apply (Hf k s).
Qed.

Lemma agent_inv_step before a a' : inv before a → step a a' → inv before a'.
Proof.
  intros I Hs. destruct Hs as [sv i r t ts _|t t' ts _ _|t _|t u1 u2 st k _ Hst Hu Hf Hk|k s s' Hk Hstep
    |k s seg st w Hk Hc Hd|k s e w Hk Hd|r item w Hne Hr].
  - by apply inv_tracers.
  - by apply inv_tracers.
  - by apply inv_tracers.
  - by eapply inv_create.
  - by eapply inv_call.
  - destruct (context_drop_reports _ _ _ _ _ _ (v_live _ _ I k s Hk) (v_ok _ _ I) Hc Hd).
    by eapply inv_drop.
  - pose proof (context_drop_panics _ _ _ _ _ (v_live _ _ I k s Hk) (v_ok _ _ I) Hd) as ->.
    by apply inv_forget; [|apply I|].
  - destruct (report_delivers r (world a) item (v_ok _ _ I)) as (w' & Hr' & Hok & Hd).
    rewrite Hr in Hr'. injection Hr' as <-. destruct I as [? ? ? Hdel ? ? ? ? ?]. split; cbn; try done.
    rewrite Hd, omap_app, Hdel. destruct item as [seg| | | |]; cbn; rewrite ?app_nil_r; try done.
    by destruct (Hne seg).
Qed.

Lemma agent_inv_reachable w a : ok w → rtc step (agent_new w) a → inv (delivered w) a.
Proof.
  intros Hw%agent_inv_new Hs. revert Hw. generalize (agent_new (R := R) w) Hs.
  clear Hs. induction 1; eauto using agent_inv_step.
Qed.
End Invariant.

(** ** Properties *)
Section Properties.
Context {BC : Build} {RW : RwLock} {PN : ProtoNums} `{HR : Report R W}.
Context (ok : W → Prop) (delivered : W → list CollectItem) {HL : ReportLaws R W (λ _, ok) delivered}.

(** C3: many contexts share one reporter. However the calls on all contexts,
    their spans, the tracers and the other front ends interleave: the segments
    delivered are, in order, those of the contexts whose drop returned, one
    each, with pairwise different identifiers; each is what a life of that
    context alone converts to; a drop that panics delivers nothing; and the
    contexts still alive are each in a state that its own calls lead to, their
    identifiers not among those delivered. *)
Theorem one_segment_per_context w (a : agent R W) :
  ok w → rtc step (agent_new w) a →
  omap segment_of (delivered (world a)) = omap segment_of (delivered w) ++ (segment <$> reported a) ∧
  NoDup (SegmentObject.trace_segment_id ∘ segment <$> reported a) ∧
  (∀ e, e ∈ reported a → reachable (R := R) (last e) ∧
     ∃ st, cs (last e) ⊢ convert_to_segment_object ⇓ segment e ⊣ st) ∧
  (∀ k s, contexts a !! k = Some s → reachable (R := R) s ∧
     trace_segment_id (ctx (cs s)) ∉ SegmentObject.trace_segment_id ∘ segment <$> reported a).
Proof.
  intros Hw Hs. pose proof (agent_inv_reachable ok delivered w a Hw Hs) as I. split_and!.
  - apply I.
  - apply I.
  - intros e He. pose proof (v_genuine _ _ _ _ I) as Hg. rewrite Forall_forall in Hg. by apply Hg.
  - intros k s Hk. split; [by eapply (v_live _ _ _ _ I)|by eapply (v_fresh _ _ _ _ I)].
Qed.
End Properties.

(** ** Two contexts of one tracer *)
Module AgentDemo.
#[local] Existing Instance test_build.
#[local] Existing Instance CountingLock.lock.
#[local] Existing Instance example_nums.

Abbreviation Ag := (agent MockReporter (list CollectItem)).
Definition the_tracer : Tracer := MkTracer (fresh (dom (∅ : gmap nat (ArcCell MockReporter)))).
Definition the_tracers : gmap nat (ArcCell MockReporter) := (tracer_new "service" "instance" Mock ∅).2.

(** Both were created, one has an entry span, the other is dropped empty. *)
Definition first : CtxState := context_new 1 2 "service" "instance" (downgrade the_tracer).
Definition second : CtxState := context_new 3 4 "service" "instance" (downgrade the_tracer).
Definition empty_segment : SegmentObject.t := SegmentObject.Mk "3" "4" [] "service" "instance" false.

Lemma agent_reachable : ∃ a : Ag, rtc step (agent_new []) a ∧ segment <$> reported a = [empty_segment] ∧
  ∃ s, contexts a !! 0%nat = Some s ∧ length (spans s) = 1%nat.
Proof.
  eexists. split.
  - eapply rtc_l; [apply (step_tracer_new _ "service" "instance" Mock the_tracer the_tracers); reflexivity|].
    eapply rtc_l; [apply (step_create _ the_tracer 1 2 first 0%nat); cbn; try reflexivity; [by eexists|set_solver]|].
    eapply rtc_l; [apply (step_create _ the_tracer 3 4 second 1%nat); cbn; try reflexivity; [by eexists|set_solver]|].
    eapply rtc_l; [eapply (step_call _ 0%nat); [reflexivity|apply (step_create_entry 0 "op"); [done|vm_compute; reflexivity]]|].
    eapply rtc_l; [eapply (step_drop _ 1%nat); [reflexivity|vm_compute; reflexivity|vm_compute; reflexivity]|].
    apply rtc_refl.
  - split; [reflexivity|]. eexists. split; [reflexivity|reflexivity].
Qed.

Lemma one_segment_per_context_witness :
  ∃ a : Ag, omap segment_of (world a) = [empty_segment] ∧
    NoDup (SegmentObject.trace_segment_id ∘ segment <$> reported a).
Proof.
  destruct agent_reachable as (a & Ha & He & _). exists a.
  destruct (one_segment_per_context (λ _, True) id [] a Logic.I Ha) as (H1 & H2 & _).
  split; [|exact H2]. rewrite <-He. exact H1.
Defined.
End AgentDemo.
