(* ===== verification/AgentSpec.v ===== *)
(** * What the agent promises to an application with many contexts

    The abstract machine that the tracers, the contexts of all threads and the
    reporter implement together: a context is a machine of ContextSpec.v under a
    name that was never used before; when it ends, one report with its finished
    spans appears under its name, unless it vanishes. AgentRefinement.v proves
    that Agent.v and this machine simulate each other. *)
From S2P Require Import Prelude ContextSpec.

Local Open Scope Z_scope.

(** The names used so far, the live contexts, the reports in the order of their
    appearance. *)
Record agent_spec := MkAgentSpec {
  used : list string;
  machines : gmap nat (string * spec);
  reports : list (string * list (Z * Z))
}.

Definition agent_spec_new : agent_spec := MkAgentSpec [] ∅ [].

(** What a context that ends hands over: its finished spans with their parents.
    When everything is finished this is [spec_report]. *)
Definition spec_emit (σ : spec) : list (Z * Z) := filter (λ up, up.1 ∈ finished σ) (spec_report σ).

Inductive label := Birth (k : nat) (i : string) | Move (k : nat) | End (k : nat) | Vanish (k : nat).

Inductive agent_step (α : agent_spec) : label → agent_spec → Prop :=
| spec_birth k i :
    machines α !! k = None → i ∉ used α →
    agent_step α (Birth k i) (MkAgentSpec (used α ++ [i]) (<[k := (i, spec_new)]> (machines α)) (reports α))
| spec_move k i σ σ' :
    machines α !! k = Some (i, σ) → spec_step σ σ' →
    agent_step α (Move k) (MkAgentSpec (used α) (<[k := (i, σ')]> (machines α)) (reports α))
(* no span is in another thread *)
| spec_end k i σ :
    machines α !! k = Some (i, σ) → detached σ = ∅ →
    agent_step α (End k) (MkAgentSpec (used α) (delete k (machines α)) (reports α ++ [(i, spec_emit σ)]))
| spec_vanish k i σ :
    machines α !! k = Some (i, σ) →
    agent_step α (Vanish k) (MkAgentSpec (used α) (delete k (machines α)) (reports α)).

Definition agent_moves (α α' : agent_spec) : Prop := α' = α ∨ ∃ l, agent_step α l α'.
Definition agent_reachable (α : agent_spec) : Prop := rtc agent_moves agent_spec_new α.

(** Names are never shared: not by two contexts, two reports, or both. *)
Record distinct_names (α : agent_spec) : Prop := {
  dn_machines k1 k2 i σ1 σ2 : machines α !! k1 = Some (i, σ1) → machines α !! k2 = Some (i, σ2) → k1 = k2;
  dn_reports : NoDup (reports α).*1;
  dn_apart k i σ : machines α !! k = Some (i, σ) → i ∉ (reports α).*1;
  dn_used i : (∃ k σ, machines α !! k = Some (i, σ)) ∨ i ∈ (reports α).*1 → i ∈ used α
}.

Lemma distinct_step α l α' : distinct_names α → agent_step α l α' → distinct_names α'.
Proof.
  intros [Hm Hr Ha Hu] Hs. destruct Hs as [k i Hk Hi|k i σ σ' Hk Hs|k i σ Hk Hd|k i σ Hk].
  - assert (Hnew : ∀ k' σ', machines α !! k' ≠ Some (i, σ')) by (intros k' σ' Hk'; apply Hi, Hu; eauto).
    split; cbn; [|done| |].
    + intros k1 k2 j σ1 σ2 [[<- [= <- <-]]|[_ H1]]%lookup_insert_Some [[<- [= <-]]|[_ H2]]%lookup_insert_Some; try done;
        [by destruct (Hnew k2 σ2)|by destruct (Hnew k1 σ1)|by eapply Hm].
    + intros k' j σ' [[<- [= <- <-]]|[_ H]]%lookup_insert_Some; [|by eapply Ha]. intros Hin. apply Hi, Hu. by right.
    + intros j [(k' & σ' & [[<- [= <- <-]]|[_ H]]%lookup_insert_Some)|Hj]; apply elem_of_app;
        [right; by left|left; apply Hu; left; eauto|left; apply Hu; by right].
  - assert (Hb : ∀ k' j τ, <[k := (i, σ')]> (machines α) !! k' = Some (j, τ) → ∃ τ', machines α !! k' = Some (j, τ')).
    { intros k' j τ [[<- [= <- <-]]|[_ ?]]%lookup_insert_Some; eauto. }
    split; cbn; [|done| |].
    + intros k1 k2 j σ1 σ2 [τ1 H1]%Hb [τ2 H2]%Hb. by eapply Hm.
    + intros k' j τ [τ' H]%Hb. by eapply Ha.
    + intros j [(k' & τ & [τ' H]%Hb)|Hj]; apply Hu; eauto.
  - split; cbn; rewrite ?fmap_app.
    + intros k1 k2 j σ1 σ2 [_ H1]%lookup_delete_Some [_ H2]%lookup_delete_Some. by eapply Hm.
    + apply NoDup_app. split_and!; [done| |apply NoDup_singleton].
      intros j Hj Hj'%list_elem_of_singleton. subst j. by eapply Ha.
    + intros k' j τ [Hne H]%lookup_delete_Some [Hj|Hj%list_elem_of_singleton]%elem_of_app; [by eapply Ha|].
      subst j. apply Hne. by eapply Hm.
    + intros j [(k' & τ & [_ H]%lookup_delete_Some)|[Hj|Hj%list_elem_of_singleton]%elem_of_app]; apply Hu;
        [eauto|by right|subst j; eauto].
  - split; cbn.
    + intros k1 k2 j σ1 σ2 [_ H1]%lookup_delete_Some [_ H2]%lookup_delete_Some. by eapply Hm.
    + done.
    + intros k' j τ [_ H]%lookup_delete_Some. by eapply Ha.
    + intros j [(k' & τ & [_ H]%lookup_delete_Some)|Hj]; apply Hu; eauto.
Qed.

Lemma distinct_reachable α : agent_reachable α → distinct_names α.
Proof.
  assert (H0 : distinct_names agent_spec_new).
  { split; [done|constructor|done|]. intros i [(k & σ & ?)|Hi]; [done|by apply elem_of_nil in Hi]. }
  intros Hα. unfold agent_reachable in Hα. remember agent_spec_new as α0 eqn:E. clear E.
  induction Hα as [α|α α1 α2 [->|[l Hs]] _ IH]; eauto using distinct_step.
Qed.

(** The report of a context in which nothing is left open. *)
Lemma emit_all σ : Forall (λ up, up.1 ∈ finished σ) (spec_report σ) → spec_emit σ = spec_report σ.
Proof. apply filter_all. Qed.
