(* ===== verification/AgentRefinement.v ===== *)
(** * The agent implements its specification

    The many contexts of Agent.v and the abstract machine of AgentSpec.v simulate
    each other: the simulation of ContextRefinement.v, one context at a time. *)

From S2P Require Import Prelude RustStr Common WaitGroup Proto Reporter Tracer SpanStack TraceContext ContextSpec Session ContextRefinement Segment Agent AgentSpec.

Local Open Scope Z_scope.
Local Open Scope sky_scope.

Section Refinement.
Context {BC : Build} {RW : RwLock} {PN : ProtoNums} `{HR : Report R W}.
Context (ok : W → Prop) (delivered : W → list CollectItem) {HL : ReportLaws R W (λ _, ok) delivered}.
Implicit Types (a : agent R W) (s : session) (α : agent_spec).

(** A report of the machine, as a segment. *)
Definition tells (seg : SegmentObject.t) (r : string * list (Z * Z)) : Prop :=
  SegmentObject.trace_segment_id seg = r.1 ∧ ids <$> SegmentObject.spans seg ≡ₚ r.2.

(** The live contexts, under their names, correspond by [Q]. *)
Definition live (Q : session → spec → Prop) : gmap nat session → gmap nat (string * spec) → Prop :=
  map_Forall2 (λ _ s p, segment_id s = p.1 ∧ Q s p.2).

(** The contexts correspond by [Q], the names to the UUIDs drawn, the reports to
    the segments delivered since [before]. *)
Record represents (Q : session → spec → Prop) (before : list CollectItem) a α : Prop := {
  rp_live : live Q (contexts a) (machines α);
  rp_names : used α = RandomGenerator.generate <$> drawn a;
  rp_reports : ∃ segs, omap segment_of (delivered (world a)) = omap segment_of before ++ segs ∧
    Forall2 tells segs (reports α)
}.

(** The segment of a context whose asynchronous spans are finished. *)
Lemma converted_emits σ s seg st :
  session_at σ s → cs s ⊢ convert_to_segment_object ⇓ seg ⊣ st →
  detached σ = ∅ ∧ ids <$> SegmentObject.spans seg ≡ₚ spec_emit σ.
Proof.
  intros (par & c & f & a & sp & asy & fin & -> & I & ->) Hc. cbn [cs settled] in Hc. rewrite convert_run in Hc.
  assert (asy = []) as ->.
  { destruct asy as [|x l]; [done|]. by rewrite (some_unfilled _ _ _ _ _ _ _ I) in Hc. }
  split; [done|]. destruct (all_filled _ _ _ _ _ _ I) as (os & Hos & Hid & Hpa).
  rewrite Hos in Hc. injection Hc as <- _. cbn [SegmentObject.spans].
  assert (Hids : ids <$> os = (λ u, (u, par u)) <$> (FinalizeSpan.uid <$> f)).
  { apply list_eq. intros i. rewrite !list_lookup_fmap.
    pose proof (f_equal (lookup i) Hid) as H1. pose proof (f_equal (lookup i) Hpa) as H2.
    rewrite !list_lookup_fmap in H1. rewrite !list_lookup_fmap in H2.
    destruct (os !! i), (f !! i); cbn in *; try done. unfold ids. congruence. }
  assert (Hfin : completed f = FinalizeSpan.uid <$> f).
  { unfold completed. f_equal. apply filter_all. apply mapM_Some in Hos. clear -Hos. induction Hos; constructor; congruence. }
  unfold spec_emit, abs. rewrite spec_report_seqZ, <-(i_uids _ _ _ _ _ _ _ I). cbn [finished].
  rewrite filter_map, filter_app, Hfin, Hids. cbn [fst].
  rewrite (filter_none _ (ActiveSpan.uid <$> a)), (filter_all _ (FinalizeSpan.uid <$> f)); [done|..].
  - apply Forall_forall. set_solver.
  - apply Forall_forall. intros u Hu Hf%elem_of_list_to_set.
    pose proof (uids_NoDup I) as Hnd. apply NoDup_app in Hnd as (_ & Hnd & _). by apply (Hnd u).
Qed.

(** A birth, a move, an end of one context. *)
Lemma live_insert k s p (m : gmap nat session) (q : gmap nat (string * spec)) (Q : session → spec → Prop) :
  segment_id s = p.1 → Q s p.2 → live Q m q → live Q (<[k := s]> m) (<[k := p]> q).
Proof. intros. by apply map_Forall2_insert_2. Qed.

Lemma live_lookup k s (m : gmap nat session) (q : gmap nat (string * spec)) (Q : session → spec → Prop) :
  live Q m q → m !! k = Some s →
  ∃ σ, q !! k = Some (segment_id s, σ) ∧ Q s σ.
Proof.
  intros Hm Hk. specialize (Hm k). rewrite Hk in Hm.
  destruct (q !! k) as [[i σ]|]; inversion Hm as [? ? [Hi Hs]|]; simplify_eq/=. by exists σ.
Qed.

Lemma live_lookup_r k i σ (m : gmap nat session) (q : gmap nat (string * spec)) (Q : session → spec → Prop) :
  live Q m q → q !! k = Some (i, σ) →
  ∃ s, m !! k = Some s ∧ segment_id s = i ∧ Q s σ.
Proof.
  intros Hm Hk. specialize (Hm k). rewrite Hk in Hm.
  destruct (m !! k) as [s|]; inversion Hm as [? ? [Hi Hs]|]; simplify_eq/=. by exists s.
Qed.

(** ** Every step of the agent is at most one of the machine *)
Abbreviation tracks := (represents (λ s σ, session_at σ s)).

Lemma tracks_new w : ok w → tracks (delivered w) (agent_new w) agent_spec_new.
Proof.
  split; [apply map_Forall2_empty|done|]. exists []. by rewrite app_nil_r.
Qed.

Lemma tracks_same before a a' α :
  tracks before a α → contexts a' = contexts a → drawn a' = drawn a →
  omap segment_of (delivered (world a')) = omap segment_of (delivered (world a)) → tracks before a' α.
Proof. intros [Hl Hn Hr] Hc Hd Hw. by split; rewrite ?Hc, ?Hd, ?Hw. Qed.

Lemma tracks_step before a a' α :
  inv ok delivered before a → tracks before a α → step a a' → ∃ α', agent_moves α α' ∧ tracks before a' α'.
Proof.
  intros I T Hs. pose proof T as [Hl Hn (segs & Hd & Hr)].
  destruct Hs as [sv i r t ts _|t t' ts _ _|t _|t u1 u2 st k _ Hst Hu Hf Hk|k s s' Hk Hstep
    |k s seg st w Hk Hc Hdr|k s e w Hk Hdr|r item w Hne Hrun].
  - exists α. split; [by left|by eapply tracks_same].
  - exists α. split; [by left|by eapply tracks_same].
  - exists α. split; [by left|by eapply tracks_same].
  - unfold create_trace_context in Hst. destruct (deref t (tracers a)) as [i|]; [|done]. injection Hst as <-.
    eexists. split; [right; exists (Birth k (RandomGenerator.generate u2)); apply (spec_birth α k (RandomGenerator.generate u2))|].
    + specialize (Hl k). rewrite Hk in Hl. by inversion Hl.
    + rewrite Hn. intros (u & Hu' & Hin)%list_elem_of_fmap.
      apply RandomGenerator.generate_inj in Hu'; [congruence|done|].
      pose proof (v_drawn _ _ _ _ I) as Hdw. rewrite Forall_forall in Hdw. by apply Hdw.
    + split; cbn; [apply live_insert; [done|apply session_at_new|done]|by rewrite Hn, fmap_app|by exists segs].
  - destruct (live_lookup _ _ _ _ _ Hl Hk) as (σ & Hσ & Hat).
    destruct (session_at_step _ _ _ Hat Hstep) as (σ' & Hmv & Hat').
    destruct (reachable_call s s' (v_live _ _ _ _ I k s Hk) Hstep) as [_ Hid].
    destruct Hmv as [->|Hmv].
    + exists α. split; [by left|]. split; cbn; [|done|by exists segs].
      rewrite <-(insert_id (machines α) k _ Hσ). by apply live_insert.
    + eexists. split; [right; exists (Move k); by eapply spec_move|].
      split; cbn; [by apply live_insert|done|by exists segs].
  - destruct (live_lookup _ _ _ _ _ Hl Hk) as (σ & Hσ & Hat).
    destruct (converted_emits _ _ _ _ Hat Hc) as [Hdet Hem].
    pose proof (v_live _ _ _ _ I k s Hk) as Hreach.
    destruct (context_drop_reports ok delivered _ _ _ _ _ _ Hreach (v_ok _ _ _ _ I) Hc Hdr) as [_ Hdel].
    eexists. split; [right; exists (End k); by eapply spec_end|].
    split; cbn; [by apply map_Forall2_delete|done|]. exists (segs ++ [seg]).
    rewrite Hdel, omap_app, Hd, <-app_assoc. split; [done|]. apply Forall2_app; [done|]. constructor; [|constructor].
    split; [by eapply converted_id|done].
  - destruct (live_lookup _ _ _ _ _ Hl Hk) as (σ & Hσ & Hat).
    rewrite (context_drop_panics ok delivered _ _ _ _ _ (v_live _ _ _ _ I k s Hk) (v_ok _ _ _ _ I) Hdr).
    eexists. split; [right; exists (Vanish k); by eapply spec_vanish|].
    split; cbn; [by apply map_Forall2_delete|done|by exists segs].
  - exists α. split; [by left|]. eapply tracks_same; [exact T|done..|]. cbn.
    destruct (report_delivers r (world a) item (v_ok _ _ _ _ I)) as (w' & Hr' & _ & Hdel).
    rewrite Hrun in Hr'. injection Hr' as <-. rewrite Hdel, omap_app.
    destruct item as [seg| | | |]; cbn; rewrite ?app_nil_r; try done. by destruct (Hne seg).
Qed.

(** ** Every step of the machine is one of the agent, where it is possible *)

(** A birth needs a tracer and names the context after a UUID; a span needs room
    in the counter; an end needs the context's tracer; and a context vanishes
    when its tracer is gone or a span is in another thread. *)
Definition enabled a (l : label) : Prop :=
  match l with
  | Birth k i => (∃ t, is_Some (upgraded (downgrade t) (tracers a))) ∧
      ∃ u, in_unsigned 128 u = true ∧ i = RandomGenerator.generate u
  | Move k => ∀ s, contexts a !! k = Some s → room s
  | End k => ∀ s, contexts a !! k = Some s → is_Some (upgraded (tracer (ctx (cs s))) (tracers a))
  | Vanish k => ∀ s, contexts a !! k = Some s → upgrade (tracer (ctx (cs s))) (tracers a) = None ∨ asyncs s ≠ []
  end.

Lemma detached_none σ s : session_at σ s → detached σ = ∅ → ∃ seg st, cs s ⊢ convert_to_segment_object ⇓ seg ⊣ st.
Proof.
  intros (par & c & f & a & sp & asy & fin & -> & I & ->) Hd. cbn in Hd.
  assert (asy = []) as -> by (destruct asy; [done|]; set_solver).
  destruct (all_filled _ _ _ _ _ _ I) as (os & Hos & _). cbn [cs settled]. rewrite convert_run, Hos. by eexists _, _.
Qed.

Lemma vanishes ts v σ s :
  session_at σ s → upgrade (tracer (ctx (cs s))) ts = None ∨ asyncs s ≠ [] →
  ∃ e w, MkWorld (cs s) ts v ⊢ context_drop (R := R) ⇑ e ⊣ w.
Proof.
  intros (par & c & f & a & sp & asy & fin & -> & I & ->) Hv.
  destruct (upgrade (tracer c) ts) as [t|] eqn:Ht; [|by eexists _, _; apply context_drop_no_tracer].
  destruct Hv as [Hv|Hv]; [by cbn in Hv; rewrite Ht in Hv|]. cbn in Hv.
  eexists _, _. eapply context_drop_unfinished; [exact Ht|]. cbn [cs settled].
  by rewrite convert_run, (some_unfilled _ _ _ _ _ _ _ I Hv).
Qed.

Lemma agent_step_possible before a α l α' :
  inv ok delivered before a → tracks before a α → agent_step α l α' → enabled a l →
  ∃ a', step a a' ∧ tracks before a' α'.
Proof.
  intros I [Hl Hn (segs & Hd & Hr)] Hs He.
  destruct Hs as [k i Hk Hi|k i σ σ' Hk Hs|k i σ Hk Hdet|k i σ Hk]; cbn [enabled] in He.
  - destruct He as ((t & inner & Ht) & u & Hu & ->). apply upgraded_split in Ht as (t' & Hup & Hde).
    assert (t' = t) as -> by (unfold upgrade in Hup; cbn in Hup; destruct (tracers a !! tracer_ptr t);
      cbn in Hup; [case_decide; [done|]; destruct t; by injection Hup|done]).
    eexists. split.
    + eapply (step_create a t 0 u _ k); [by eexists|by unfold create_trace_context; rewrite Hde|done| |].
      * intros Hin. apply Hi. rewrite Hn. by apply list_elem_of_fmap_2.
      * specialize (Hl k). rewrite Hk in Hl. by inversion Hl.
    + split; cbn; [apply live_insert; [done|apply session_at_new|done]|by rewrite Hn, fmap_app|by exists segs].
  - destruct (live_lookup_r _ _ _ _ _ _ Hl Hk) as (s & Hks & Hid & Hat).
    destruct (spec_step_possible (R := R) _ _ _ Hat Hs (He s Hks)) as (s' & Hstep & Hat').
    destruct (reachable_call s s' (v_live _ _ _ _ I k s Hks) Hstep) as [_ Hid'].
    eexists. split; [by eapply step_call|]. split; cbn; [apply live_insert; cbn; [congruence|done..]|done|by exists segs].
  - destruct (live_lookup_r _ _ _ _ _ _ Hl Hk) as (s & Hks & Hid & Hat).
    destruct (detached_none _ _ Hat Hdet) as (seg & st & Hc). destruct (converted_emits _ _ _ _ Hat Hc) as [_ Hem].
    destruct (He s Hks) as [inner Hin]. apply upgraded_split in Hin as (t & Ht & Hde).
    destruct (report_delivers (reporter inner) (world a) (Trace seg) (v_ok _ _ _ _ I)) as (v & Hrep & _ & Hdel).
    eexists. split; [eapply (step_drop a k s seg st); [done|done|]; by eapply context_drop_run|].
    split; cbn; [by apply map_Forall2_delete|done|]. exists (segs ++ [seg]).
    rewrite Hdel, omap_app, Hd, <-app_assoc. split; [done|]. apply Forall2_app; [done|]. constructor; [|constructor].
    split; [|done]. cbn. rewrite <-Hid. eapply converted_id; [by eapply (v_live _ _ _ _ I)|done].
  - destruct (live_lookup_r _ _ _ _ _ _ Hl Hk) as (s & Hks & Hid & Hat).
    destruct (vanishes (tracers a) (world a) σ s Hat (He s Hks)) as (e & w & Hdr).
    eexists. split; [by eapply step_drop_panic|].
    rewrite (context_drop_panics ok delivered _ _ _ _ _ (v_live _ _ _ _ I k s Hks) (v_ok _ _ _ _ I) Hdr).
    split; cbn; [by apply map_Forall2_delete|done|by exists segs].
Qed.

Lemma tracks_represents before a α : tracks before a α → represents implements before a α.
Proof.
  intros [Hl Hn Hr]. split; [|done..]. eapply map_Forall2_impl; [exact Hl|].
  intros k s [i σ] [Hid Hat]. split; [done|by apply session_at_implements].
Qed.

Lemma tracked w a :
  ok w → rtc step (agent_new w) a → ∃ α, agent_reachable α ∧ tracks (delivered w) a α.
Proof.
  intros Hw Hs. pose proof (tracks_new w Hw) as T0. pose proof (agent_inv_new (R := R) ok delivered w Hw) as I0.
  assert (Hα : agent_reachable agent_spec_new) by apply rtc_refl.
  revert T0 I0 Hα. generalize agent_spec_new. remember (agent_new w) as a0 eqn:E. clear E.
  induction Hs as [a|a a1 a2 Hstep _ IH]; intros α T I Hα; [by exists α|].
  destruct (tracks_step _ _ _ _ I T Hstep) as (α' & Hmv & T').
  apply (IH α' T'); [by eapply agent_inv_step|]. by eapply rtc_r.
Qed.

(** C4: refinement, for the whole agent. However the calls on all contexts, the
    tracers and the other front ends interleave, the agent is in a state that
    the abstract machine can reach: the live contexts are machines of their own
    under pairwise different names, and the segments delivered are the reports
    of the contexts that ended, one each, with the finished spans and their
    parents. Every step of the agent is at most one of the machine; every
    step of the machine, in particular of each context, is a step of the agent
    wherever it is enabled: a tracer is alive and the span counter has room. *)
Theorem agent_refines_spec w a :
  ok w → rtc step (agent_new w) a →
  ∃ α, agent_reachable α ∧ distinct_names α ∧ represents implements (delivered w) a α ∧
    (∀ a', step a a' → ∃ α', agent_moves α α' ∧ represents implements (delivered w) a' α') ∧
    (∀ l α', agent_step α l α' → enabled a l → ∃ a', step a a' ∧ represents implements (delivered w) a' α').
Proof.
  intros Hw Hs. destruct (tracked w a Hw Hs) as (α & Hα & T).
  pose proof (agent_inv_reachable ok delivered w a Hw Hs) as I.
  exists α. split_and!; [done|by apply distinct_reachable|by apply tracks_represents|..].
  - intros a' Ha. destruct (tracks_step _ _ _ _ I T Ha) as (α' & ? & ?%tracks_represents). eauto.
  - intros l α' Hα' He. destruct (agent_step_possible _ _ _ _ _ I T Hα' He) as (a' & ? & ?%tracks_represents). eauto.
Qed.
End Refinement.

(** ** Two contexts of one tracer: one ended, one with an open span *)
Module AgentRefinementDemo.
#[local] Existing Instances test_build CountingLock.lock example_nums.

Lemma agent_refines_spec_witness :
  ∃ (a : AgentDemo.Ag) α, agent_reachable α ∧ represents id implements [] a α ∧ (reports α).*1 = ["4"] ∧
    ∃ i σ, machines α !! 0%nat = Some (i, σ) ∧ length (opened σ) = 1%nat.
Proof.
  destruct AgentDemo.agent_reachable as (a & Ha & He & s & Hs & Hspans).
  pose proof (agent_inv_reachable (λ _, True) id [] a Logic.I Ha) as I.
  destruct (agent_refines_spec (λ _, True) id [] a Logic.I Ha) as (α & Hα & _ & Hr & _).
  exists a, α. split_and!; [done|done|..]; destruct Hr as [Hl _ (segs & Hd & Hf)].
  - rewrite (v_delivered _ _ _ _ I), He in Hd. cbn in Hd. subst segs.
    apply Forall2_cons_inv_l in Hf as ([i r] & rs & [Hi _] & Hrs & ->). apply Forall2_nil_inv_l in Hrs as ->.
    cbn in *. by subst i.
  - destruct (live_lookup _ _ _ _ _ Hl Hs) as (σ & Hσ & Him). exists (segment_id s), σ. split; [done|].
    by rewrite <-(im_spans _ _ Him), length_fmap.
Defined.
End AgentRefinementDemo.
