(* ===== verification/Base64.v ===== *)
(** * The base64 crate, as the propagation header uses it

    [Base64] is the engine [BASE64_STANDARD] of the third-party crate, seen
    through the two calls the agent makes; [Base64Laws] is what the agent relies
    on: decoding inverts encoding, and encoded text holds no dash, so it can be
    a field of the header. Module [Rfc4648] implements the interface (the
    standard alphabet, canonical padding) to show that the laws can hold. *)

From S2P Require Import Prelude RustStr.

Local Open Scope Z_scope.

Class Base64 := {
  b64_encode : string → string;
  b64_decode : string → option string
}.

Class Base64Laws (B : Base64) : Prop := {
  b64_decode_encode s : b64_decode (b64_encode s) = Some s;
  b64_encode_no_dash s : contains_char dash (b64_encode s) = false
}.
#[export] Hint Resolve b64_encode_no_dash : sky.

(** ** A reference implementation *)
Module Rfc4648.
Definition byte (c : ascii) : Z := Z.of_N (N_of_ascii c).
Definition of_byte (z : Z) : ascii := ascii_of_N (Z.to_N z).
Definition pad : ascii := "="%char.

(** The symbol of a 6-bit value, and its inverse. *)
Definition symbol (v : Z) : ascii :=
  if v <? 26 then of_byte (65 + v)
  else if v <? 52 then of_byte (71 + v)
  else if v <? 62 then of_byte (v - 4)
  else if v =? 62 then "+"%char else "/"%char.

Definition value (c : ascii) : option Z :=
  let x := byte c in
  if (65 <=? x) && (x <=? 90) then Some (x - 65)
  else if (97 <=? x) && (x <=? 122) then Some (x - 71)
  else if (48 <=? x) && (x <=? 57) then Some (x + 4)
  else if Ascii.eqb c "+" then Some 62
  else if Ascii.eqb c "/" then Some 63
  else None.

Fixpoint encode (s : string) : string :=
  match s with
  | EmptyString => EmptyString
  | String a EmptyString =>
      let n := byte a * 16 in
      String (symbol (n / 64)) (String (symbol (n mod 64)) (String pad (String pad EmptyString)))
  | String a (String b EmptyString) =>
      let n := (byte a * 256 + byte b) * 4 in
      String (symbol (n / 4096)) (String (symbol (n / 64 mod 64))
        (String (symbol (n mod 64)) (String pad EmptyString)))
  | String a (String b (String c s')) =>
      let n := (byte a * 256 + byte b) * 256 + byte c in
      String (symbol (n / 262144)) (String (symbol (n / 4096 mod 64))
        (String (symbol (n / 64 mod 64)) (String (symbol (n mod 64)) (encode s'))))
  end.

(** Padding is required, and the bits it leaves over must be zero. *)
Definition decode_last (a b c : ascii) : option string :=
  x ← value a; y ← value b;
  if Ascii.eqb c pad then
    let n := x * 64 + y in
    if n mod 16 =? 0 then Some (String (of_byte (n / 16)) EmptyString) else None
  else
    z ← value c;
    let n := (x * 64 + y) * 64 + z in
    if n mod 4 =? 0
    then Some (String (of_byte (n / 1024)) (String (of_byte (n / 4 mod 256)) EmptyString))
    else None.

Fixpoint decode (s : string) : option string :=
  match s with
  | EmptyString => Some EmptyString
  | String a (String b (String c (String d s'))) =>
      if Ascii.eqb d pad then if is_empty s' then decode_last a b c else None
      else
        w ← value a; x ← value b; y ← value c; z ← value d;
        rest ← decode s';
        let n := ((w * 64 + x) * 64 + y) * 64 + z in
        Some (String (of_byte (n / 65536)) (String (of_byte (n / 256 mod 256))
                (String (of_byte (n mod 256)) rest)))
  | _ => None
  end.

#[export] Instance rfc4648 : Base64 := {| b64_encode := encode; b64_decode := decode |}.

(** *** Its laws *)
Lemma byte_range c : 0 ≤ byte c < 256.
Proof. unfold byte. pose proof (Ascii.N_ascii_bounded c). lia. Qed.

Lemma of_byte_byte c z : z = byte c → of_byte z = c.
Proof. intros ->. unfold of_byte, byte. by rewrite N2Z.id, Ascii.ascii_N_embedding. Qed.

(** Checked value by value. *)
Definition symbol_ok (v : Z) : bool :=
  bool_decide (value (symbol v) = Some v) && negb (Ascii.eqb (symbol v) pad)
  && negb (Ascii.eqb (symbol v) dash).

Lemma symbol_all : Forall (λ v, symbol_ok v = true) (seqZ 0 64).
Proof. apply Forall_forall. intros v Hv. repeat (apply elem_of_cons in Hv as [->|Hv]; [reflexivity|]).
  by apply elem_of_nil in Hv. Qed.

Lemma symbol_spec v : 0 ≤ v < 64 →
  value (symbol v) = Some v ∧ Ascii.eqb (symbol v) pad = false ∧ Ascii.eqb (symbol v) dash = false.
Proof.
  intros Hv. pose proof symbol_all as H. rewrite Forall_forall in H.
  specialize (H v). rewrite elem_of_seqZ in H. specialize (H ltac:(lia)).
  unfold symbol_ok in H. rewrite !andb_true_iff, bool_decide_eq_true, !negb_true_iff in H. naive_solver.
Qed.

(** Strings by groups of three. *)
Lemma string_ind3 (P : string → Prop) :
  P EmptyString → (∀ a, P (String a EmptyString)) → (∀ a b, P (String a (String b EmptyString))) →
  (∀ a b c s, P s → P (String a (String b (String c s)))) → ∀ s, P s.
Proof.
  intros H0 H1 H2 H3. fix IH 1. intros [|a [|b [|c s]]]; [done..|]. by apply H3.
Qed.

Ltac range := Z.div_mod_to_equations; lia.
Ltac reduce := cbn -[symbol value Z.div Z.modulo Z.mul Z.add].
Ltac use_symbols :=
  repeat match goal with
  | |- context [value (symbol ?v)] =>
      let Hv := fresh in let Hp := fresh in
      destruct (symbol_spec v) as (Hv & Hp & _); [range|]; rewrite ?Hp, ?Hv; clear Hv Hp; reduce
  | |- context [Ascii.eqb (symbol ?v) pad] =>
      let Hp := fresh in
      destruct (symbol_spec v) as (_ & Hp & _); [range|]; rewrite ?Hp; clear Hp; reduce
  end.

Lemma decode_encode s : decode (encode s) = Some s.
Proof.
  induction s as [|a|a b|a b c s IH] using string_ind3; [done|..].
  - pose proof (byte_range a). reduce. unfold decode_last. use_symbols.
    rewrite (proj2 (Z.eqb_eq _ _)) by range. do 2 f_equal. apply of_byte_byte. range.
  - pose proof (byte_range a). pose proof (byte_range b). reduce. unfold decode_last. use_symbols.
    rewrite (proj2 (Z.eqb_eq _ _)) by range.
    do 2 f_equal; [|f_equal]; apply of_byte_byte; range.
  - pose proof (byte_range a). pose proof (byte_range b). pose proof (byte_range c).
    reduce. use_symbols. rewrite IH. reduce.
    do 2 f_equal; [|f_equal; [|f_equal]]; apply of_byte_byte; range.
Qed.

Lemma encode_no_dash s : contains_char dash (encode s) = false.
Proof.
  assert (Hd : ∀ v, 0 ≤ v < 64 → Ascii.eqb (symbol v) dash = false).
  { intros v Hv. apply (symbol_spec v Hv). }
  induction s as [|a|a b|a b c s IH] using string_ind3; [done|..]; reduce;
    pose proof (byte_range a); try pose proof (byte_range b); try pose proof (byte_range c);
    rewrite !Hd by range; done.
Qed.

#[export] Instance laws : Base64Laws rfc4648.
Proof. split; [exact decode_encode|exact encode_no_dash]. Qed.
End Rfc4648.
