(* ===== verification/Propagation.v ===== *)
(** * src/trace/propagation: the [sw8] header

    [encode_propagation] writes the identity of a context into a header value,
    [decode_propagation] reads it back in the process that receives the
    request. The Base64 engine is used through its interface. *)

From S2P Require Import Prelude RustStr Common Error WaitGroup Proto Tracer SpanStack TraceContext Session Base64.

Local Open Scope Z_scope.
Local Open Scope sky_scope.

Definition SKYWALKING_HTTP_CONTEXT_HEADER_KEY : string := "sw8".

Section Propagation.
Context {FE : ForeignErrors} {B : Base64}.

(** ** decoder.rs *)

(** [try_parse_parent_span_id]. *)
Definition try_parse_parent_span_id (id : string) : result Z Error :=
  match parse_i32 id with
  | Some result => Ok result
  | None => Err (DecodePropagation "failed to parse span id from parent.")
  end.

(** [try_parse_sample_status]. *)
Definition try_parse_sample_status (status : string) : result bool Error :=
  if String.eqb status "0" then Ok false
  else if String.eqb status "1" then Ok true
  else Err (DecodePropagation "failed to parse sample status.").

(** [b64_encoded_into_string]. *)
Definition b64_encoded_into_string (enc : string) : result string Error :=
  match b64_decode enc with
  | Some result =>
      match from_utf8 result with
      | Some decoded_str => Ok decoded_str
      | None => Err (DecodePropagation "failed to decode value.")
      end
  | None => Err (DecodePropagation "failed to decode value.")
  end.

Definition PIECES_MSG : string :=
  "failed to parse propagation context: it must have 8 properties.".

(** [decode_propagation]: the vector is indexed after its length was
    checked, which the pattern does at once. *)
Definition decode_propagation (header_value : string) : result PropagationContext.t Error :=
  match split_on dash header_value with
  | [p0; p1; p2; p3; p4; p5; p6; p7] =>
      do_sample <-? try_parse_sample_status p0;;
      parent_trace_id <-? b64_encoded_into_string p1;;
      parent_trace_segment_id <-? b64_encoded_into_string p2;;
      parent_span_id <-? try_parse_parent_span_id p3;;
      parent_service <-? b64_encoded_into_string p4;;
      parent_service_instance <-? b64_encoded_into_string p5;;
      destination_endpoint <-? b64_encoded_into_string p6;;
      destination_address <-? b64_encoded_into_string p7;;
      Ok (PropagationContext.new do_sample parent_trace_id parent_trace_segment_id
            parent_span_id parent_service parent_service_instance destination_endpoint
            destination_address)
  | _ => Err (DecodePropagation PIECES_MSG)
  end.

(** ** encoder.rs *)

(** [encode_propagation]. *)
Definition encode_propagation {RW : RwLock} (endpoint address : string) : M CtxState string :=
  c <- on_ctx (gets id) ;;
  span_id <- peek_active_span_id ;;
  ret (join_with dash
    ["1"; b64_encode (trace_id c); b64_encode (trace_segment_id c);
     int_string (default 0 span_id); b64_encode (service c);
     b64_encode (service_instance c); b64_encode endpoint; b64_encode address]).
End Propagation.

#[global] Arguments encode_propagation : simpl never.
#[global] Arguments decode_propagation : simpl never.

(** ** Lemmas *)
Section Lemmas.
Context {FE : ForeignErrors} {B : Base64}.

Lemma b64_encoded_into_string_Ok enc s :
  b64_encoded_into_string enc = Ok s ↔ b64_decode enc = Some s ∧ utf8_valid s = true.
Proof.
  unfold b64_encoded_into_string, from_utf8. destruct (b64_decode enc) as [r|]; [|naive_solver].
  destruct (utf8_valid r) eqn:E; split.
  all: (by intros [= <-]) || (by intros [[= <-] ?]; congruence) || done.
Qed.

Lemma b64_round_trip `{!Base64Laws B} s :
  utf8_valid s = true → b64_encoded_into_string (b64_encode s) = Ok s.
Proof. intros Hs. apply b64_encoded_into_string_Ok. by rewrite b64_decode_encode. Qed.

Lemma try_parse_sample_status_Ok p b :
  try_parse_sample_status p = Ok b ↔ p = if b then "1" else "0".
Proof.
  unfold try_parse_sample_status. destruct (String.eqb_spec p "0") as [->|H0]; [by destruct b|].
  destruct (String.eqb_spec p "1") as [->|H1]; destruct b; naive_solver.
Qed.

Lemma try_parse_parent_span_id_Ok p z :
  try_parse_parent_span_id p = Ok z ↔ parse_i32 p = Some z.
Proof. unfold try_parse_parent_span_id. destruct (parse_i32 p); naive_solver. Qed.

(** The header of a free context. *)
Definition header_of {RW : RwLock} (c : TracingContext) (a : list ActiveSpan.t)
    (endpoint address : string) : string :=
  join_with dash
    ["1"; b64_encode (trace_id c); b64_encode (trace_segment_id c);
     int_string (default 0 (ActiveSpan.span_id <$> last a)); b64_encode (service c);
     b64_encode (service_instance c); b64_encode endpoint; b64_encode address].

Lemma encode_propagation_run {RW : RwLock} e addr c f a n g :
  encode_propagation e addr (uncontended c f a n g) =
    (Ret (header_of c a e addr), uncontended c f a n g).
Proof.
  unfold encode_propagation.
  rewrite (bind_Ret (on_ctx (gets id)) _ _ c (uncontended c f a n g)) by done.
  run_step peek_run. done.
Qed.

(** The strings of a context, of the language's [String] type. *)
Definition utf8_context (c : TracingContext) : Prop :=
  utf8_valid (trace_id c) = true ∧ utf8_valid (trace_segment_id c) = true ∧
  utf8_valid (service c) = true ∧ utf8_valid (service_instance c) = true.

Lemma decode_header_of `{!Base64Laws B} {RW : RwLock} c a e addr :
  utf8_context c → utf8_valid e = true → utf8_valid addr = true →
  let id := default 0 (ActiveSpan.span_id <$> last a) in
  0 ≤ id < 2 ^ 31 →
  decode_propagation (header_of c a e addr) =
    Ok (PropagationContext.new true (trace_id c) (trace_segment_id c) id (service c)
          (service_instance c) e addr).
Proof.
  intros (? & ? & ? & ?) ? ? id Hid. unfold decode_propagation, header_of.
  rewrite split_on_join; [|done|].
  - rewrite !b64_round_trip by done. unfold try_parse_parent_span_id. fold id.
    rewrite parse_int_string by (apply in_signed_spec; lia). done.
  - repeat constructor; auto with sky. apply int_string_no_dash. apply Hid.
Qed.

(** The identifier a context's header carries. *)
Lemma active_id_range par c f a sp asy fin :
  inv par c f a sp asy fin → 0 ≤ default 0 (ActiveSpan.span_id <$> last a) < 2 ^ 31.
Proof.
  intros I. destruct a as [|x a' _] using rev_ind; [cbn; lia|]. rewrite last_snoc. cbn.
  pose proof (i_act _ _ _ _ _ _ _ I) as Ha. apply Forall_app in Ha as [_ [-> _]%Forall_cons].
  assert (0 ≤ ActiveSpan.uid x < next_span_id c).
  { apply (uids_range I), elem_of_app. left. rewrite fmap_app. set_solver. }
  pose proof (i_next _ _ _ _ _ _ _ I). lia.
Qed.

(** The decoder, branch by branch. *)
Lemma decode_propagation_Ok header p :
  decode_propagation header = Ok p ↔
  ∃ p0 p1 p2 p3 p4 p5 p6 p7,
    split_on dash header = [p0; p1; p2; p3; p4; p5; p6; p7] ∧
    try_parse_sample_status p0 = Ok (PropagationContext.do_sample p) ∧
    b64_encoded_into_string p1 = Ok (PropagationContext.parent_trace_id p) ∧
    b64_encoded_into_string p2 = Ok (PropagationContext.parent_trace_segment_id p) ∧
    try_parse_parent_span_id p3 = Ok (PropagationContext.parent_span_id p) ∧
    b64_encoded_into_string p4 = Ok (PropagationContext.parent_service p) ∧
    b64_encoded_into_string p5 = Ok (PropagationContext.parent_service_instance p) ∧
    b64_encoded_into_string p6 = Ok (PropagationContext.destination_endpoint p) ∧
    b64_encoded_into_string p7 = Ok (PropagationContext.destination_address p).
Proof.
  unfold decode_propagation. split.
  - destruct (split_on dash header) as [|p0 [|p1 [|p2 [|p3 [|p4 [|p5 [|p6 [|p7 [|p8 l]]]]]]]]];
      try discriminate.
    intros H. inv_ok. injection H as <-. exists p0, p1, p2, p3, p4, p5, p6, p7. cbn. by split_and!.
  - intros (p0 & p1 & p2 & p3 & p4 & p5 & p6 & p7 & -> & -> & -> & -> & -> & -> & -> & -> & ->).
    by destruct p.
Qed.

(** Every error of the decoder is of the same kind. *)
Definition decode_errors {T} (r : result T Error) : Prop :=
  ∀ e, r = Err e → ∃ msg, e = DecodePropagation msg.

Lemma decode_errors_then {T U} (r : result T Error) (k : T → result U Error) :
  decode_errors r → (∀ t, decode_errors (k t)) → decode_errors (and_then r k).
Proof. intros Hr Hk. destruct r as [t|e]; [apply Hk|]. intros e' [= <-]. by apply Hr. Qed.

Lemma decode_errors_parsers :
  (∀ p, decode_errors (try_parse_sample_status p)) ∧
  (∀ p, decode_errors (b64_encoded_into_string p)) ∧
  (∀ p, decode_errors (try_parse_parent_span_id p)).
Proof.
  split_and!; intros p e; unfold try_parse_sample_status, b64_encoded_into_string,
    try_parse_parent_span_id; repeat case_match; intros [= <-]; eauto.
Qed.

Lemma decode_propagation_Err header : decode_errors (decode_propagation header).
Proof.
  destruct decode_errors_parsers as (H0 & H1 & H2). unfold decode_propagation.
  assert (decode_errors (Err (T := PropagationContext.t) (DecodePropagation PIECES_MSG))) as Hp
    by (intros e [= <-]; eauto).
  destruct (split_on dash header) as [|p0 [|p1 [|p2 [|p3 [|p4 [|p5 [|p6 [|p7 [|p8 l]]]]]]]]]; try exact Hp.
  repeat (apply decode_errors_then; [apply H0 || apply H1 || apply H2|intros ?]). done.
Qed.

(** The youngest live span is the one whose identifier is carried. *)
Lemma youngest_id par c f a sps asy fin sp :
  inv par c f a sps asy fin → sp ∈ sps → (∀ sp', sp' ∈ sps → Span.uid sp' ≤ Span.uid sp) →
  handle_span_id sp = Ret (default 0 (ActiveSpan.span_id <$> last a)).
Proof.
  intros I Hin Hmax. pose proof (i_spans_obj _ _ _ _ _ _ _ I) as Ho.
  rewrite Forall_forall in Ho. destruct (Ho _ Hin) as (o & Hobj & Hid & _).
  apply (youngest_is_top _ _ _ _ _ _ _ _ I Hin), last_is_Some in Hmax as (a' & x & -> & Hx).
  pose proof (i_act _ _ _ _ _ _ _ I) as Hact. apply Forall_app in Hact as [_ [Hxi _]%Forall_cons].
  rewrite last_snoc. cbn. unfold handle_span_id, span_object. cbn. rewrite Hobj. congruence.
Qed.
End Lemmas.

(** ** Properties *)
Section Properties.
Context {FE : ForeignErrors} {B : Base64}.

(** C13: the header round trip. At any point of a context's life the header
    value it encodes is decoded, in another process, to exactly its trace id,
    segment id, service and instance, the endpoint and address it was given,
    the sample flag set, and the identifier of the youngest live span ([0] if
    none is live). *)
Theorem propagation_round_trip {BC : Build} {RW : RwLock} {PN : ProtoNums} {R : Type}
    `{!Base64Laws B} (s : session) endpoint address :
  reachable (R := R) s →
  let c := ctx (cs s) in
  utf8_context c → utf8_valid endpoint = true → utf8_valid address = true →
  ∃ header id, (cs s ⊢ encode_propagation endpoint address ⇓ header ⊣ cs s) ∧
    decode_propagation header =
      Ok (PropagationContext.new true (trace_id c) (trace_segment_id c) id (service c)
            (service_instance c) endpoint address) ∧
    (spans s = [] → id = 0) ∧
    (∀ sp, sp ∈ spans s → (∀ sp', sp' ∈ spans s → Span.uid sp' ≤ Span.uid sp) →
       handle_span_id sp = Ret id).
Proof.
  intros (par & c & f & a & sps & asy & fin & -> & I)%session_inv_reachable.
  cbn. intros Hc He Ha. rewrite encode_propagation_run.
  eexists _, (default 0 (ActiveSpan.span_id <$> last a)). split_and!; [done| | |].
  - apply decode_header_of; [done..|]. by eapply active_id_range.
  - intros ->. pose proof (Permutation_nil (i_spans _ _ _ _ _ _ _ I)) as Hnil. by destruct a.
  - intros sp. by eapply youngest_id.
Qed.

(** C21: what the decoder accepts. A header value is decoded to [p] exactly
    when it consists of eight dash-separated pieces: ["0"] or ["1"], six
    Base64 texts of valid UTF-8, and a decimal [i32]; every other value is an
    error. The span id it yields is never negative, since the sign would be a
    ninth piece. *)
Theorem decode_propagation_spec (header : string) (p : PropagationContext.t) :
  (decode_propagation header = Ok p ↔
   ∃ p1 p2 p3 p4 p5 p6 p7,
     header = join_with dash
       [(if PropagationContext.do_sample p then "1" else "0"); p1; p2; p3; p4; p5; p6; p7] ∧
     Forall (λ q, contains_char dash q = false) [p1; p2; p3; p4; p5; p6; p7] ∧
     (b64_decode p1 = Some (PropagationContext.parent_trace_id p) ∧
      b64_decode p2 = Some (PropagationContext.parent_trace_segment_id p) ∧
      parse_i32 p3 = Some (PropagationContext.parent_span_id p) ∧
      b64_decode p4 = Some (PropagationContext.parent_service p) ∧
      b64_decode p5 = Some (PropagationContext.parent_service_instance p) ∧
      b64_decode p6 = Some (PropagationContext.destination_endpoint p) ∧
      b64_decode p7 = Some (PropagationContext.destination_address p)) ∧
     Forall (λ s, utf8_valid s = true)
       [PropagationContext.parent_trace_id p; PropagationContext.parent_trace_segment_id p;
        PropagationContext.parent_service p; PropagationContext.parent_service_instance p;
        PropagationContext.destination_endpoint p; PropagationContext.destination_address p]) ∧
  (decode_propagation header = Ok p → 0 ≤ PropagationContext.parent_span_id p < 2 ^ 31) ∧
  (∀ e, decode_propagation header = Err e → ∃ msg, e = DecodePropagation msg).
Proof.
  assert (Hiff : decode_propagation header = Ok p ↔ _) by apply decode_propagation_Ok.
  assert (Hpos : decode_propagation header = Ok p → 0 ≤ PropagationContext.parent_span_id p < 2 ^ 31).
  { intros (p0 & p1 & p2 & p3 & p4 & p5 & p6 & p7 & Hs & _ & _ & _ & Hid & _)%Hiff.
    pose proof (split_on_pieces dash header) as Hd. rewrite Hs, !Forall_cons in Hd.
    apply try_parse_parent_span_id_Ok in Hid. eapply parse_i32_no_dash; [|exact Hid]. apply Hd. }
  split_and!; [|done|apply decode_propagation_Err]. rewrite Hiff. clear Hiff Hpos. split.
  - intros (p0 & p1 & p2 & p3 & p4 & p5 & p6 & p7 & Hs & H0 & H). exists p1, p2, p3, p4, p5, p6, p7.
    rewrite !b64_encoded_into_string_Ok, try_parse_parent_span_id_Ok in H.
    apply try_parse_sample_status_Ok in H0 as <-. rewrite <-Hs, join_split_on.
    pose proof (split_on_pieces dash header) as Hd. rewrite Hs, !Forall_cons in Hd.
    rewrite !Forall_cons, Forall_nil. destruct Hd as [_ Hd]. destruct H as ([??]&[??]&?&[??]&[??]&[??]&[??]). split_and!; done || apply Hd.
  - intros (p1 & p2 & p3 & p4 & p5 & p6 & p7 & -> & Hd & H & Hu).
    rewrite !Forall_cons in Hu.
    exists (if PropagationContext.do_sample p then "1" else "0"), p1, p2, p3, p4, p5, p6, p7.
    rewrite split_on_join; [|done|constructor; [by case_match|done]].
    rewrite !b64_encoded_into_string_Ok, try_parse_parent_span_id_Ok, try_parse_sample_status_Ok.
    destruct H as (?&?&?&?&?&?&?). destruct Hu as (?&?&?&?&?&?&_). by split_and!.
Qed.

(** C22: the two sides of a request. The downstream context that creates an
    entry span from the upstream's header joins the upstream's trace, and the
    span carries exactly one reference, to the upstream's segment, youngest
    live span, service and instance, with the endpoint and address of the
    request. *)
Theorem propagation_joins_traces {BC : Build} {RW : RwLock} {PN : ProtoNums} {R R' : Type}
    `{!Base64Laws B} (up down : session) now op endpoint address :
  reachable (R := R) up → reachable (R := R') down → room down →
  let c := ctx (cs up) in
  utf8_context c → utf8_valid endpoint = true → utf8_valid address = true →
  ∃ header p sp o st' id,
    (cs up ⊢ encode_propagation endpoint address ⇓ header ⊣ cs up) ∧
    decode_propagation header = Ok p ∧
    (cs down ⊢ create_entry_span_with_propagation now op p ⇓ sp ⊣ st') ∧
    trace_id (ctx st') = trace_id c ∧
    trace_segment_id (ctx st') = trace_segment_id (ctx (cs down)) ∧
    Span.obj sp = Some o ∧
    SpanObject.refs o =
      [SegmentReference.Mk (RefType_as_i32 CrossProcess) (trace_id c) (trace_segment_id c) id
         (service c) (service_instance c) endpoint address] ∧
    (∀ u, u ∈ spans up → (∀ u', u' ∈ spans up → Span.uid u' ≤ Span.uid u) →
       handle_span_id u = Ret id).
Proof.
  intros (par & c & f & a & sps & asy & fin & -> & I)%session_inv_reachable.
  intros (par' & c' & f' & a' & sps' & asy' & fin' & -> & I')%session_inv_reachable Hroom.
  unfold room in Hroom. cbn in *. intros Hc He Ha. rewrite encode_propagation_run.
  eexists _, _, _, _, _, (default 0 (ActiveSpan.span_id <$> last a)).
  split_and!; [done|by apply decode_header_of; [..|eapply active_id_range]
              |by apply create_entry_span_with_propagation_run|done..|].
  intros u. by eapply youngest_id.
Qed.
End Properties.

(** The demonstration session sends a request to a new context. *)
Module PropagationDemo.
#[local] Existing Instance test_build.
#[local] Existing Instance CountingLock.lock.
#[local] Existing Instance example_nums.
#[local] Existing Instance text_errors.
#[local] Existing Instances Rfc4648.rfc4648 Rfc4648.laws.

(** The header of the repository's own test. *)
Definition basic : string :=
  "1-MQ==-NQ==-3-bWVzaA==-aW5zdGFuY2U=-L2FwaS92MS9oZWFsdGg=-ZXhhbXBsZS5jb206ODA4MA==".

Example basic_decodes :
  decode_propagation basic =
    Ok (PropagationContext.new true "1" "5" 3 "mesh" "instance" "/api/v1/health" "example.com:8080").
Proof. vm_compute. reflexivity. Qed.

Example sample_status_is_checked :
  decode_propagation (String "3" (String.substring 1 100 basic)) =
    Err (DecodePropagation "failed to parse sample status.").
Proof. vm_compute. reflexivity. Qed.

Lemma propagation_round_trip_witness :
  ∃ header, cs Demo.middle ⊢ encode_propagation "/api" "host:80" ⇓ header ⊣ cs Demo.middle ∧
    decode_propagation header =
      Ok (PropagationContext.new true "1" "2" 1 "service" "instance" "/api" "host:80").
Proof.
  destruct (propagation_round_trip Demo.middle "/api" "host:80" Demo.middle_reachable)
    as (header & id & ? & ? & _ & Hy); [split_and!; reflexivity|done..|].
  exists header. split; [done|].
  assert (Ret 1 = Ret id) as [= ->]; [|done].
  apply (Hy (Span.Mk 1 (Some (new_obj 0 1 0 "local" "" Local Unknown false)))).
  - cbn. right. left.
  - intros sp' Hsp'. cbn in Hsp'.
    repeat (apply elem_of_cons in Hsp' as [->|Hsp']; [cbn; lia|]). by apply elem_of_nil in Hsp'.
Defined.

Lemma decode_propagation_spec_witness :
  0 ≤ 3 < 2 ^ 31 ∧ ∃ e, decode_propagation "1-2" = Err e ∧ ∃ msg, e = DecodePropagation msg.
Proof.
  split.
  - destruct (decode_propagation_spec basic (PropagationContext.new true "1" "5" 3 "mesh"
      "instance" "/api/v1/health" "example.com:8080")) as (_ & H & _). exact (H basic_decodes).
  - eexists. split; [vm_compute; reflexivity|].
    destruct (decode_propagation_spec "1-2" (PropagationContext.new true "" "" 0 "" "" "" ""))
      as (_ & _ & H). apply H. vm_compute. reflexivity.
Defined.

Lemma propagation_joins_traces_witness :
  ∃ header p, cs Demo.middle ⊢ encode_propagation "/api" "host:80" ⇓ header ⊣ cs Demo.middle ∧
    decode_propagation header = Ok p ∧
    ∃ sp st', cs Demo.start ⊢ create_entry_span_with_propagation 0 "/api" p ⇓ sp ⊣ st' ∧
      trace_id (ctx st') = "1".
Proof.
  destruct (propagation_joins_traces Demo.middle Demo.start 0 "/api" "/api" "host:80"
    Demo.middle_reachable Demo.start_reachable eq_refl)
    as (header & p & sp & o & st' & id & ? & ? & ? & ? & _); [split_and!; reflexivity|done..|].
  exists header, p. split_and!; [done..|]. by exists sp, st'.
Defined.
End PropagationDemo.
