(* ===== verification/Debug.v ===== *)
(** * The Debug output of contexts and spans

    [fmt::Debug] of [TracingContext] (trace/trace_context.rs), of [Span] and
    [AsyncSpan] (trace/span.rs), and the derived ones of snapshots and propagation
    contexts, with what they use of the standard library: the
    builder [debug_struct], in the form of [{:?}] and of [{:#?}], and the [Debug]
    output of integers and of [str], whose characters are escaped. Which of the
    characters beyond ASCII are printable is a table of the standard library, the
    class [Printable]; the text of a [SpanObject] is generated with the message
    and is an argument. *)

From S2P Require Import Prelude RustStr Common Error Proto SpanStack Tracer TraceContext Session Base64 Propagation.

Local Open Scope Z_scope.
Local Open Scope sky_scope.

(** ** Characters *)

(** A string as its characters, each with the bytes of its encoding. *)
Fixpoint chars (s : string) : list string :=
  match s with
  | EmptyString => []
  | String a s1 =>
      if byte_in 0 127 a then String a "" :: chars s1
      else match s1 with
      | EmptyString => [String a ""]
      | String b s2 =>
          if utf8_2 a b then String a (String b "") :: chars s2
          else match s2 with
          | EmptyString => [s]
          | String c s3 =>
              if utf8_3 a b c then String a (String b (String c "")) :: chars s3
              else match s3 with
              | EmptyString => [s]
              | String d s4 => String a (String b (String c (String d ""))) :: chars s4
              end
          end
      end
  end.

Definition concat_str (l : list string) : string := foldr String.append "" l.

Lemma concat_chars s : concat_str (chars s) = s.
Proof.
  assert (H : ∀ n s, (String.length s <= n)%nat → concat_str (chars s) = s); [|by eapply H].
  induction n as [|n IH]; intros t Hn; destruct t as [|a t]; cbn [String.length] in Hn; try done; [lia|].
  cbn -[byte_in utf8_2 utf8_3].
  destruct (byte_in 0 127 a); [cbn; by rewrite IH by lia|].
  destruct t as [|b t]; [done|]. cbn [String.length] in Hn.
  destruct (utf8_2 a b); [cbn; by rewrite IH by lia|].
  destruct t as [|c t]; [done|]. cbn [String.length] in Hn.
  destruct (utf8_3 a b c); [cbn; by rewrite IH by lia|].
  destruct t as [|d t]; [done|]. cbn [String.length] in Hn. cbn. by rewrite IH by lia.
Qed.

Definition byte (n : N) : ascii := ascii_of_N n.
Definition LF : ascii := byte 10.
Definition QUOTE : ascii := byte 34.
Definition BACKSLASH : ascii := byte 92.

Definition continuation (n : Z) (c : ascii) : Z := n * 64 + Z.land (Z.of_N (N_of_ascii c)) 63.

(** The scalar value that the bytes encode. *)
Definition scalar (c : string) : Z :=
  match c with
  | String a EmptyString => Z.of_N (N_of_ascii a)
  | String a (String b EmptyString) => continuation (Z.land (Z.of_N (N_of_ascii a)) 31) b
  | String a (String b (String c EmptyString)) =>
      continuation (continuation (Z.land (Z.of_N (N_of_ascii a)) 15) b) c
  | String a (String b (String c (String d _))) =>
      continuation (continuation (continuation (Z.land (Z.of_N (N_of_ascii a)) 7) b) c) d
  | EmptyString => 0
  end.

(** Lower-case hexadecimal digits, without leading zeros; 2^32 has eight. *)
Definition hex_char (d : Z) : ascii := byte (Z.to_N (if d <? 10 then 48 + d else 87 + d)).
Fixpoint hex_go (fuel : nat) (n : Z) (acc : string) : string :=
  match fuel with
  | O => acc
  | S f =>
      let acc' := String (hex_char (n mod 16)) acc in
      if n / 16 =? 0 then acc' else hex_go f (n / 16) acc'
  end.
Definition hex_string (n : Z) : string := hex_go 8 n "".

(** The characters beyond ASCII that [str]'s [Debug] leaves as they are. *)
Class Printable := printable : string → bool.

Section Text.
Context {UP : Printable}.

Definition escaped (c : ascii) : string := String BACKSLASH (String c "").
Definition escape_unicode (c : string) : string :=
  escaped "u"%char +:+ "{" +:+ hex_string (scalar c) +:+ "}".

(** [char::escape_debug], as [str] uses it: single quotes are left alone. *)
Definition escape_debug (c : string) : string :=
  match c with
  | String a EmptyString =>
      if Ascii.eqb a (byte 0) then escaped "0"%char
      else if Ascii.eqb a (byte 9) then escaped "t"%char
      else if Ascii.eqb a (byte 13) then escaped "r"%char
      else if Ascii.eqb a LF then escaped "n"%char
      else if Ascii.eqb a BACKSLASH || Ascii.eqb a QUOTE then escaped a
      else if byte_in 32 126 a then c
      else escape_unicode c
  | _ => if printable c then c else escape_unicode c
  end.

(** [Debug for str] and [Debug for i32]. *)
Definition debug_str (s : string) : string :=
  String QUOTE (concat_str (map escape_debug (chars s)) +:+ String QUOTE "").
Definition debug_i32 (n : Z) : string := int_string n.
End Text.

(** ** The builder [debug_struct] *)

(** Every line is indented, the first at its first character. *)
Fixpoint indent (at_start : bool) (s : string) : string :=
  match s with
  | EmptyString => ""
  | String c s => (if at_start then "    " else "") +:+ String c (indent (Ascii.eqb c LF) s)
  end.

(** [field], [has_fields] being false for the first; [alternate] is [{:#?}]. *)
Definition debug_field (alternate has_fields : bool) (name value : string) : string :=
  if alternate
  then (if has_fields then "" else " {" +:+ String LF "") +:+ indent true (name +:+ ": " +:+ value +:+ "," +:+ String LF "")
  else (if has_fields then ", " else " { ") +:+ name +:+ ": " +:+ value.
Fixpoint debug_fields (alternate has_fields : bool) (fields : list (string * string)) : string :=
  match fields with
  | [] => ""
  | (name, value) :: fields => debug_field alternate has_fields name value +:+ debug_fields alternate true fields
  end.
Definition debug_finish (alternate : bool) (fields : list (string * string)) : string :=
  match fields with [] => "" | _ => if alternate then "}" else " }" end.
Definition debug_struct (alternate : bool) (name : string) (fields : list (string * string)) : string :=
  name +:+ debug_fields alternate false fields +:+ debug_finish alternate fields.

(** ** The implementations *)
Section Debug.
Context {UP : Printable} (debug_object : bool → SpanObject.t → string).

Definition debug_context (alternate : bool) (c : TracingContext) : string :=
  debug_struct alternate "TracingContext"
    [("trace_id", debug_str (trace_id c)); ("trace_segment_id", debug_str (trace_segment_id c));
     ("service", debug_str (service c)); ("service_instance", debug_str (service_instance c));
     ("next_span_id", debug_i32 (next_span_id c))].

(** The derived implementations. *)
Definition debug_bool (b : bool) : string := if b then "true" else "false".
Definition debug_snapshot (alternate : bool) (s : ContextSnapshot.t) : string :=
  debug_struct alternate "ContextSnapshot"
    [("trace_id", debug_str (ContextSnapshot.trace_id s));
     ("trace_segment_id", debug_str (ContextSnapshot.trace_segment_id s));
     ("span_id", debug_i32 (ContextSnapshot.span_id s));
     ("parent_endpoint", debug_str (ContextSnapshot.parent_endpoint s))].
Definition debug_propagation (alternate : bool) (p : PropagationContext.t) : string :=
  debug_struct alternate "PropagationContext"
    [("do_sample", debug_bool (PropagationContext.do_sample p));
     ("parent_trace_id", debug_str (PropagationContext.parent_trace_id p));
     ("parent_trace_segment_id", debug_str (PropagationContext.parent_trace_segment_id p));
     ("parent_span_id", debug_i32 (PropagationContext.parent_span_id p));
     ("parent_service", debug_str (PropagationContext.parent_service p));
     ("parent_service_instance", debug_str (PropagationContext.parent_service_instance p));
     ("destination_endpoint", debug_str (PropagationContext.destination_endpoint p));
     ("destination_address", debug_str (PropagationContext.destination_address p))].

Definition debug_data (alternate : bool) (obj : option SpanObject.t) : string :=
  match obj with Some obj => debug_object alternate obj | None => debug_str "<none>" end.
Definition debug_span (alternate : bool) (s : Span.t) : string :=
  debug_struct alternate "Span" [("data", debug_data alternate (Span.obj s))].
Definition debug_async_span (alternate : bool) (s : AsyncSpan.t) : string :=
  debug_struct alternate "AsyncSpan" [("data", debug_data alternate (AsyncSpan.obj s))].
End Debug.

(** ** The text of [{:?}] is one line, whatever the strings hold *)
Fixpoint no_control (s : string) : bool :=
  match s with EmptyString => true | String a s => (32 <=? N_of_ascii a)%N && no_control s end.

Lemma no_control_app s t : no_control (s +:+ t) = no_control s && no_control t.
Proof. induction s as [|a s IH]; [done|]. rewrite app_cons_str. cbn. by rewrite IH, andb_assoc. Qed.

Lemma no_control_concat l : Forall (λ s, no_control s = true) l → no_control (concat_str l) = true.
Proof. induction 1; [done|]. cbn. rewrite no_control_app. by apply andb_true_iff. Qed.

Lemma no_control_line s : no_control s = true → contains_char LF s = false.
Proof.
  induction s as [|a s IH]; [done|]. cbn -[LF]. intros [Ha Hs]%andb_true_iff. rewrite IH by done.
  rewrite orb_false_r. apply Ascii.eqb_neq. by intros ->.
Qed.

(** A character of a string is one ASCII byte, or bytes that are not ASCII. *)
Lemma byte_in_ge lo hi a : byte_in lo hi a = true → (32 <=? lo)%N = true → (32 <=? N_of_ascii a)%N = true.
Proof. unfold byte_in. rewrite andb_true_iff, !N.leb_le. lia. Qed.

Lemma is_cont_ge a : is_cont a = true → (32 <=? N_of_ascii a)%N = true.
Proof. intros H. by eapply byte_in_ge. Qed.

Ltac wide_bytes :=
  repeat match goal with
  | H : _ && _ = true |- _ => apply andb_true_iff in H as [? ?]
  | H : _ || _ = true |- _ => apply orb_true_iff in H as [?|?]
  end;
  repeat first [apply andb_true_iff; split | reflexivity | by apply is_cont_ge | by eapply byte_in_ge].

Definition char_ok (c : string) : Prop := (∃ a, c = String a "") ∨ no_control c = true.

Lemma chars_ok s : utf8_valid s = true → Forall char_ok (chars s).
Proof.
  assert (H : ∀ n s, (String.length s <= n)%nat → utf8_valid s = true → Forall char_ok (chars s)); [|by eapply H].
  induction n as [|n IH]; intros t Hn; destruct t as [|a t]; cbn [String.length] in Hn; try (by constructor); [lia|].
  cbn -[byte_in utf8_2 utf8_3 utf8_4].
  destruct (byte_in 0 127 a); [intros Hv; constructor; [left; by eexists|apply IH; [lia|done]]|].
  destruct t as [|b t]; [done|]. cbn [String.length] in Hn.
  destruct (utf8_2 a b) eqn:H2.
  { intros Hv. constructor; [right; unfold utf8_2 in H2; cbn; wide_bytes|apply IH; [lia|done]]. }
  destruct t as [|c t]; [done|]. cbn [String.length] in Hn.
  destruct (utf8_3 a b c) eqn:H3.
  { intros Hv. constructor; [right; unfold utf8_3 in H3; cbn; wide_bytes|apply IH; [lia|done]]. }
  destruct t as [|d t]; [done|]. cbn [String.length] in Hn. intros [H4 Hv]%andb_true_iff.
  constructor; [right; unfold utf8_4 in H4; cbn; wide_bytes|apply IH; [lia|done]].
Qed.

Definition hex_digit (a : ascii) : Z :=
  let n := Z.of_N (N_of_ascii a) in if n <=? 57 then n - 48 else n - 87.

Lemma hex_char_spec n :
  (32 <=? N_of_ascii (hex_char (n mod 16)))%N = true ∧ hex_digit (hex_char (n mod 16)) = n mod 16.
Proof.
  pose proof (Z.mod_pos_bound n 16 ltac:(lia)) as Hd. revert Hd. generalize (n mod 16). intros d Hd.
  assert (∃ k : nat, (k < 16)%nat ∧ d = Z.of_nat k) as (k & Hk & ->) by (exists (Z.to_nat d); lia).
  do 16 (destruct k as [|k]; [by split|]). lia.
Qed.

Lemma hex_string_ok n : no_control (hex_string n) = true.
Proof.
  unfold hex_string. assert (H : no_control "" = true) by done. revert H. generalize 8%nat, "".
  intros f. revert n. induction f as [|f IH]; intros n acc Hacc; [done|].
  cbn [hex_go]. assert (no_control (String (hex_char (n mod 16)) acc) = true)
    by (cbn [no_control]; by rewrite (proj1 (hex_char_spec n))). case_match; [done|]. by apply IH.
Qed.

(** Eight digits are enough for every 32-bit value, and they denote it. *)
Fixpoint hex_val (acc : Z) (s : string) : Z :=
  match s with EmptyString => acc | String a s => hex_val (acc * 16 + hex_digit a) s end.

Lemma hex_go_val fuel n acc :
  0 <= n < 16 ^ Z.of_nat (S fuel) → hex_val 0 (hex_go (S fuel) n acc) = hex_val n acc.
Proof.
  revert n acc. induction fuel as [|f IH]; intros n acc Hn; pose proof (Z.div_mod n 16 ltac:(lia)) as Hdm.
  - cbn [hex_go]. rewrite Z.div_small, Z.mod_small by (cbn in Hn; lia). cbn [Z.eqb hex_val].
    rewrite <-(Z.mod_small n 16) at 1 by (cbn in Hn; lia). rewrite (proj2 (hex_char_spec _)), Z.mod_small by (cbn in Hn; lia).
    by rewrite Z.mul_0_l, Z.add_0_l.
  - remember (S f) as g. cbn [hex_go]. destruct (n / 16 =? 0) eqn:E.
    + apply Z.eqb_eq in E. cbn [hex_val]. rewrite (proj2 (hex_char_spec _)). f_equal. lia.
    + subst g. rewrite IH.
      * cbn [hex_val]. rewrite (proj2 (hex_char_spec _)). f_equal. lia.
      * rewrite (Nat2Z.inj_succ (S f)), Z.pow_succ_r in Hn by lia.
        split; [apply Z.div_pos; lia|apply Z.div_lt_upper_bound; lia].
Qed.

Lemma hex_string_val n : 0 <= n < 2 ^ 32 → hex_val 0 (hex_string n) = n.
Proof. intros Hn. unfold hex_string. rewrite hex_go_val; [done|exact Hn]. Qed.

Lemma all_digits_ok s : all_digits s = true → no_control s = true.
Proof.
  induction s as [|c s IH]; [done|]. cbn. intros [[d Hd]%bool_decide_eq_true Hs]%andb_true_iff.
  rewrite IH by done. unfold digit_val in Hd. case_match eqn:E; [|done].
  apply andb_true_iff in E as [E%Z.leb_le _]. rewrite andb_true_r. apply N.leb_le. lia.
Qed.

Section Line.
Context {UP : Printable}.

Lemma escape_ok c : char_ok c → no_control (escape_debug c) = true.
Proof.
  assert (Hu : ∀ c, no_control (escape_unicode c) = true).
  { intros c'. unfold escape_unicode. rewrite !no_control_app, hex_string_ok. done. }
  intros [[a ->]|Hc].
  - unfold escape_debug, escaped. repeat case_match; try done; try apply Hu.
    + cbn. match goal with H : _ || _ = true |- _ => apply orb_true_iff in H as [->%Ascii.eqb_eq| ->%Ascii.eqb_eq] end; done.
    + cbn. rewrite andb_true_r. by eapply byte_in_ge.
  - destruct c as [|a [|b c]]; cbn [escape_debug]; [by case_match; [|apply Hu]| |by case_match; [|apply Hu]].
    cbn in Hc. rewrite andb_true_r in Hc. unfold escaped. repeat case_match; try done; try apply Hu; cbn; by rewrite Hc.
Qed.

Lemma debug_str_ok s : utf8_valid s = true → no_control (debug_str s) = true.
Proof.
  intros Hs. unfold debug_str. cbn [no_control]. rewrite no_control_app. cbn. rewrite andb_true_r.
  apply no_control_concat, Forall_map. eapply Forall_impl; [by apply chars_ok|]. apply escape_ok.
Qed.

Lemma debug_i32_ok n : no_control (debug_i32 n) = true.
Proof.
  unfold debug_i32, int_string. destruct (n <? 0) eqn:E; [apply Z.ltb_lt in E; cbn|apply Z.ltb_ge in E];
    apply all_digits_ok, dec_string_digits; lia.
Qed.

Lemma debug_fields_ok first fields :
  Forall (λ kv, no_control kv.1 = true ∧ no_control kv.2 = true) fields →
  no_control (debug_fields false first fields) = true.
Proof.
  intros H. revert first. induction H as [|[k v] fields [Hk Hv] _ IH]; intros first; [done|].
  cbn [debug_fields]. unfold debug_field. rewrite !no_control_app, IH. cbn in Hk, Hv. rewrite Hk, Hv. by destruct first.
Qed.

Lemma debug_context_line c : utf8_context c → contains_char LF (debug_context false c) = false.
Proof.
  intros (H1 & H2 & H3 & H4). apply no_control_line.
  unfold debug_context, debug_struct. rewrite !no_control_app, debug_fields_ok; [done|].
  repeat constructor; cbn [fst snd]; auto using debug_str_ok, debug_i32_ok.
Qed.

Lemma debug_propagation_line {FE : ForeignErrors} {B : Base64} header p :
  decode_propagation header = Ok p → contains_char LF (debug_propagation false p) = false.
Proof.
  intros (p0 & p1 & p2 & p3 & p4 & p5 & p6 & p7 & _ & _ & H)%decode_propagation_Ok.
  rewrite !b64_encoded_into_string_Ok in H. destruct H as ([_ ?] & [_ ?] & _ & [_ ?] & [_ ?] & [_ ?] & [_ ?]).
  apply no_control_line. unfold debug_propagation, debug_struct. rewrite !no_control_app, debug_fields_ok; [done|].
  repeat constructor; cbn [fst snd]; auto using debug_str_ok, debug_i32_ok. by destruct (PropagationContext.do_sample p).
Qed.

(** Text without anything to escape is printed as it is, in quotes. *)
Definition plain (a : ascii) : bool :=
  byte_in 32 126 a && negb (Ascii.eqb a BACKSLASH) && negb (Ascii.eqb a QUOTE).

Lemma escape_plain a : plain a = true → escape_debug (String a "") = String a "".
Proof. destruct a as [[] [] [] [] [] [] [] []]; reflexivity || discriminate. Qed.

Lemma debug_str_plain s :
  Forall (λ a, plain a = true) (String.list_ascii_of_string s) → debug_str s = String QUOTE (s +:+ String QUOTE "").
Proof.
  intros Hs. unfold debug_str. do 2 f_equal. induction s as [|a s IH]; [done|].
  apply Forall_cons in Hs as [Ha Hs]. cbn [chars].
  assert (Hb : byte_in 0 127 a = true).
  { unfold plain in Ha. rewrite !andb_true_iff in Ha. destruct Ha as [[Ha _] _].
    unfold byte_in in *. rewrite andb_true_iff, !N.leb_le in *. lia. }
  rewrite Hb. cbn [map concat_str foldr]. rewrite escape_plain by done. cbn.
  change (foldr String.append "" (map escape_debug (chars s))) with (concat_str (map escape_debug (chars s))).
  by rewrite IH.
Qed.

(** A span whose object has been taken says so. *)
Lemma debug_taken_span debug_object alternate uid :
  debug_span debug_object alternate (Span.Mk uid None) =
    debug_struct alternate "Span" [("data", String QUOTE ("<none>" +:+ String QUOTE ""))].
Proof. unfold debug_span, debug_data. cbn [Span.obj]. by rewrite (debug_str_plain "<none>") by (repeat constructor). Qed.
End Line.

(** C35: what comes in from outside cannot break the lines of a log. Whatever
    header the decoder accepts, the Debug output of the propagation context, and
    of the context that joins the trace of the header, is one line: no line feed
    is left in it, although the identifiers are arbitrary text of the peer. *)
Theorem debug_is_one_line {FE : ForeignErrors} {B : Base64} {BC : Build} {RW : RwLock} {PN : ProtoNums} {UP : Printable}
    {R : Type} (s : session) header p now op :
  reachable (R := R) s → room s → utf8_context (ctx (cs s)) → decode_propagation header = Ok p →
  contains_char LF (debug_propagation false p) = false ∧
  ∃ sp st', (cs s ⊢ create_entry_span_with_propagation now op p ⇓ sp ⊣ st') ∧
    trace_id (ctx st') = PropagationContext.parent_trace_id p ∧
    contains_char LF (debug_context false (ctx st')) = false.
Proof.
  intros (par & c & f & a & sps & asy & fin & -> & I)%session_inv_reachable Hroom (_ & H2 & H3 & H4) Hd.
  unfold room in Hroom. cbn in Hroom, H2, H3, H4. split; [by eapply debug_propagation_line|].
  eexists _, _. split_and!; [by apply create_entry_span_with_propagation_run|done|].
  apply debug_context_line. split_and!; [|done..]. cbn.
  apply decode_propagation_Ok in Hd as (p0 & p1 & p2 & p3 & p4 & p5 & p6 & p7 & _ & _ & [_ Hu]%b64_encoded_into_string_Ok & _).
  exact Hu.
Qed.

(** ** Text of a context *)
Module DebugDemo.
#[local] Existing Instances text_errors Rfc4648.rfc4648 test_build CountingLock.lock example_nums.
#[local] Instance printable_ : Printable := λ _, true.

(** The trace identifier of this header is a line feed. *)
Definition HEADER : string := "1-Cg==-NQ==-3-bWVzaA==-aW5zdGFuY2U=-L2FwaS92MS9oZWFsdGg=-ZXhhbXBsZS5jb206ODA4MA==".

Lemma debug_is_one_line_witness :
  ∃ p sp st', decode_propagation HEADER = Ok p ∧
    (cs Demo.start ⊢ create_entry_span_with_propagation 0 "op" p ⇓ sp ⊣ st') ∧
    trace_id (ctx st') = String LF "" ∧ contains_char LF (debug_context false (ctx st')) = false.
Proof.
  destruct (decode_propagation HEADER) as [p|e] eqn:Hd; [|vm_compute in Hd; discriminate Hd].
  destruct (debug_is_one_line (R := unit) Demo.start HEADER p 0 "op" Demo.start_reachable eq_refl
    (conj eq_refl (conj eq_refl (conj eq_refl eq_refl))) Hd) as (_ & sp & st' & Hrun & Ht & Hl).
  exists p, sp, st'. split_and!; [done|exact Hrun| |exact Hl]. rewrite Ht. vm_compute in Hd. by injection Hd as <-.
Defined.

Example pretty_context :
  debug_context true (MkContext "1" "2" "service" "instance" 3 "" 3 (MkWeak 0)) =
    foldr (λ line text, line +:+ String LF text) "}"
      ["TracingContext {"; "    trace_id: " +:+ debug_str "1" +:+ ","; "    trace_segment_id: " +:+ debug_str "2" +:+ ",";
       "    service: " +:+ debug_str "service" +:+ ","; "    service_instance: " +:+ debug_str "instance" +:+ ",";
       "    next_span_id: 3,"].
Proof. reflexivity. Qed.
End DebugDemo.
