(* ===== verification/Overflow.v ===== *)
(** * The span counter at its limit

    A context numbers its spans with an [i32] that [inc_next_span_id] increments
    with a plain [+= 1]. As long as it has room, builds with and without overflow
    checks behave the same; here is also what happens without room, in both. *)

From S2P Require Import Prelude RustStr Common Error WaitGroup Proto Tracer SpanStack TraceContext ContextSpec Session Base64 Propagation.

Local Open Scope Z_scope.
Local Open Scope sky_scope.

Definition I32_MAX : Z := 2 ^ 31 - 1.
Definition I32_MIN : Z := - 2 ^ 31.

Section Runs.
Context {BC : Build} {RW : RwLock} {PN : ProtoNums}.

(** With overflow checks the increment panics and nothing changes ... *)
Lemma inc_checked c f a n g :
  overflow_checks = true → next_span_id c = I32_MAX →
  uncontended c f a n g ⊢ on_ctx inc_next_span_id ⇑ ADD_OVERFLOW ⊣ uncontended c f a n g.
Proof.
  intros Ho Hc. unfold on_ctx, zoom, inc_next_span_id, bind, gets, i32_add, arith. cbn. rewrite Hc, Ho. done.
Qed.

(** ... and so does the creation of a span of any kind. *)
Lemma create_common_checked now op peer ty parent c f a n g :
  overflow_checks = true → next_span_id c = I32_MAX →
  uncontended c f a n g ⊢ create_common_span now op peer ty parent ⇑ ADD_OVERFLOW ⊣ uncontended c f a n g.
Proof.
  intros Ho Hc. unfold create_common_span.
  rewrite (bind_Ret (on_ctx (gets next_span_id)) _ _ (next_span_id c) (uncontended c f a n g)) by done.
  rewrite Hc. change (I32_MAX =? 0) with false. cbv [negb panic_unless]. rewrite bind_ret_l.
  by apply bind_Panic, inc_checked.
Qed.

Lemma create_checked now op peer c f a n g :
  overflow_checks = true → next_span_id c = I32_MAX →
  let panics m := uncontended c f a n g ⊢ m ⇑ ADD_OVERFLOW ⊣ uncontended c f a n g in
  panics (create_entry_span now op) ∧ panics (create_exit_span now op peer) ∧ panics (create_local_span now op).
Proof.
  intros Ho Hc panics. split_and!.
  - unfold panics, create_entry_span. by apply bind_Panic, inc_checked.
  - unfold panics, create_exit_span. run_step peek_run. by apply create_common_checked.
  - unfold panics, create_local_span. run_step peek_run. by apply create_common_checked.
Qed.

(** Without them the counter wraps around. *)
Definition wrapped (op : string) (c : TracingContext) : TracingContext :=
  set_primary_endpoint_name op
    (set_span_uid_generator (wrap_unsigned usize_bits (span_uid_generator c + 1))
       (set_next_span_id (wrap_signed 32 (next_span_id c + 1)) c)).

Lemma inc_unchecked c f a n g :
  overflow_checks = false →
  on_ctx inc_next_span_id (uncontended c f a n g) =
    (Ret (next_span_id c), uncontended (set_next_span_id (wrap_signed 32 (next_span_id c + 1)) c) f a n g).
Proof.
  intros Ho. unfold on_ctx, zoom, inc_next_span_id, bind, gets, i32_add, arith. cbn. rewrite Ho.
  destruct (in_signed 32 (next_span_id c + 1)) eqn:E; [|done]. by rewrite wrap_signed_id.
Qed.

Lemma create_entry_unchecked now op c f a n g :
  overflow_checks = false →
  create_entry_span now op (uncontended c f a n g) =
    (Ret (Span.Mk (span_uid_generator c)
            (Some (new_obj now (next_span_id c) (parent_on a) op "" Entry Http false))),
     uncontended (wrapped op c) f (a ++ [ActiveSpan.new (span_uid_generator c) (next_span_id c)]) (S n) g).
Proof.
  intros Ho. unfold create_entry_span.
  erewrite bind_Ret by by apply inc_unchecked. run_step peek_run. run_step push_run. done.
Qed.
End Runs.

(** ** Two builds that differ in the overflow checks *)
Definition build (mock checks : bool) : Build := {| feature_mock := mock; overflow_checks := checks |}.

(** A computation of the two builds comes to the same. *)
Definition agree {S A} (mock checks1 checks2 : bool) (m : Build → M S A) (st : S) : Prop :=
  m (build mock checks1) st = m (build mock checks2) st.

Section Agreement.
Context {RW : RwLock} {PN : ProtoNums} {R : Type} (mock checks1 checks2 : bool).

Abbreviation B1 := (build mock checks1).
Abbreviation B2 := (build mock checks2).
Abbreviation agree := (agree mock checks1 checks2).

Section Cases.
Context {par : Z → Z} {c : TracingContext} {f : list FinalizeSpan.t} {a : list ActiveSpan.t}.
Context {sp : list Span.t} {asy : list AsyncSpan.t} {fin : nat} (I : inv par c f a sp asy fin).
Let s := settled c f a sp asy fin.

Lemma agree_entry now op : room s → agree (λ B, create_entry_span (BC := B) now op) (cs s).
Proof.
  intros Hroom. unfold agree. cbn [s settled cs].
  by rewrite (create_entry_span_run (BC := B1)), (create_entry_span_run (BC := B2)).
Qed.

Lemma agree_entry_with now op p :
  room s → agree (λ B, create_entry_span_with_propagation (BC := B) now op p) (cs s).
Proof.
  intros Hroom. unfold agree. cbn [s settled cs].
  by rewrite (create_entry_span_with_propagation_run (BC := B1)), (create_entry_span_with_propagation_run (BC := B2)).
Qed.

Lemma agree_exit now op peer : room s → agree (λ B, create_exit_span (BC := B) now op peer) (cs s).
Proof.
  intros Hroom. unfold agree. cbn [s settled cs]. destruct (decide (next_span_id c = 0)) as [E|E].
  - by rewrite (create_exit_span_first (BC := B1)), (create_exit_span_first (BC := B2)).
  - by rewrite (create_exit_span_run (BC := B1)), (create_exit_span_run (BC := B2)).
Qed.

Lemma agree_local now op : room s → agree (λ B, create_local_span (BC := B) now op) (cs s).
Proof.
  intros Hroom. unfold agree. cbn [s settled cs]. destruct (decide (next_span_id c = 0)) as [E|E].
  - by rewrite (create_local_span_first (BC := B1)), (create_local_span_first (BC := B2)).
  - by rewrite (create_local_span_run (BC := B1)), (create_local_span_run (BC := B2)).
Qed.

Lemma agree_prepare now spn : agree (λ B, prepare_for_async (BC := B) now spn) (shared (cs s)).
Proof using I.
  unfold agree. pose proof (fin_length I). pose proof (i_next _ _ _ _ _ _ _ I). pose proof (i_count _ _ _ _ _ _ _ I).
  cbn [s settled cs shared]. destruct (last_is (Span.uid spn) a) eqn:E.
  - destruct spn as [u o]. apply last_is_Some in E as (a' & x & -> & Hx). unfold healthy_wg.
    rewrite (prepare_for_async_top (BC := B1) now u o f a' x), (prepare_for_async_top (BC := B2) now u o f a' x);
      [done|done|apply in_unsigned_spec; unfold usize_bits; lia..|done|apply in_unsigned_spec; unfold usize_bits; lia].
  - by rewrite (prepare_for_async_not_top (BC := B1)), (prepare_for_async_not_top (BC := B2)).
Qed.

Lemma agree_done : 0 < Z.of_nat (length asy + fin) → agree (λ B, async_done (BC := B)) (shared (cs s)).
Proof using I.
  intros Hpos. unfold agree. pose proof (fin_length I). pose proof (i_next _ _ _ _ _ _ _ I).
  pose proof (i_count _ _ _ _ _ _ _ I). cbn [s settled cs shared]. unfold healthy_wg.
  rewrite (async_done_run (BC := B1)), (async_done_run (BC := B2)) by (unfold usize_bits; lia). done.
Qed.

Lemma agree_async now asp : asp ∈ asy → agree (λ B, async_drop (BC := B) now asp) (shared (cs s)).
Proof using I.
  intros Hasp. destruct (live_async_fills (BC := B1) _ _ _ _ _ _ _ now _ I Hasp) as (o & f' & Ho & Hf).
  destruct asp as [u obj]. cbn in Ho, Hf. subst obj. unfold agree, async_drop.
  pose proof (fin_length I). pose proof (i_next _ _ _ _ _ _ _ I). pose proof (i_count _ _ _ _ _ _ _ I).
  assert (0 < length asy)%nat by (destruct asy; [by apply elem_of_nil in Hasp|cbn; lia]).
  cbn [s settled cs shared]. 
  assert (Hdone : uncontended_shared f a (S (length sp)) (healthy_wg (length asy + fin))
    ⊢ async_finish (BC := B1) now (AsyncSpan.Mk u (Some o)) ⇓ tt
    ⊣ uncontended_shared f' a (S (length sp)) (healthy_wg (length asy + fin)))
    by by rewrite (async_finish_run (BC := B1)), Hf.
  rewrite (bind_Ret _ _ _ _ _ Hdone), (bind_Ret (async_finish (BC := B2) now _) _ _ _ _ Hdone).
  unfold healthy_wg. rewrite (async_done_run (BC := B1)), (async_done_run (BC := B2)) by (unfold usize_bits; lia). done.
Qed.
End Cases.

Lemma agree_step (s s' : session) :
  (∃ σ, session_at σ s) → step (BC := B1) (R := R) s s' → step (BC := B2) (R := R) s s'.
Proof.
  intros (σ & par & c & f & a & sp & asy & fin & -> & I & _) Hstep.
  inversion Hstep as [now op ? spn cs' Hroom Hrun|now op p ? spn cs' Hroom Hp Hrun
    |now op peer ? spn cs' Hroom Hrun|now op ? spn cs' Hroom Hrun
    |ts snap ? cs' Hsn Hrun|g ? l1 spn l2 spn' Hg Hsp Hrun|now ? l1 spn l2 sh' Hsp Hrun
    |now ? l1 spn l2 asp sh' Hsp Hrun|g ? l1 asp l2 asp' Hg Hasp Hrun
    |now ? l1 asp l2 sh' Hasp Hrun|? n sh' Hfin Hrun]; subst.
  - pose proof (agree_entry now op Hroom) as E. unfold agree in E. rewrite E in Hrun.
    by eapply (step_create_entry (BC := B2)).
  - pose proof (agree_entry_with now op p Hroom) as E. unfold agree in E. rewrite E in Hrun.
    by eapply (step_create_entry_with_propagation (BC := B2)).
  - pose proof (agree_exit now op peer Hroom) as E. unfold agree in E. rewrite E in Hrun.
    by eapply (step_create_exit (BC := B2)).
  - pose proof (agree_local now op Hroom) as E. unfold agree in E. rewrite E in Hrun.
    by eapply (step_create_local (BC := B2)).
  - by eapply (step_continued (BC := B2)).
  - by eapply (step_edit_span (BC := B2)).
  - by eapply (step_drop_span (BC := B2)).
  - pose proof (agree_prepare I now spn) as E. unfold agree in E. rewrite E in Hrun.
    by eapply (step_prepare_for_async (BC := B2)).
  - by eapply (step_edit_async (BC := B2)).
  - by eapply (step_async_finish (BC := B2)).
  - cbn [finishing settled] in Hfin. pose proof (agree_done I ltac:(lia)) as E. unfold agree in E. rewrite E in Hrun.
    by eapply (step_async_done (BC := B2)).
Qed.

Lemma agree_reachable (s : session) : reachable (BC := B1) (R := R) s → reachable (BC := B2) (R := R) s.
Proof.
  intros (u1 & u2 & service & instance & t & H). exists u1, u2, service, instance, t.
  pose proof (session_at_new u1 u2 service instance t) as A. revert A.
  generalize spec_new. induction H as [|s0 s1 s2 Hs _ IH]; intros σ A; [apply rtc_refl|].
  destruct (session_at_step (BC := B1) _ _ _ A Hs) as (σ' & _ & A').
  eapply rtc_l; [|by eapply IH]. apply agree_step; [by exists σ|done].
Qed.
End Agreement.

Section Header.
Context {FE : ForeignErrors} {B : Base64} {BL : Base64Laws B} {RW : RwLock}.

(** The sign of a negative identifier is a dash: the header has a ninth piece. *)
Lemma negative_id_not_decoded c a x endpoint address :
  ActiveSpan.span_id x < 0 →
  decode_propagation (header_of c (a ++ [x]) endpoint address) = Err (DecodePropagation PIECES_MSG).
Proof.
  intros Hx. unfold header_of. rewrite last_snoc. cbn [fmap option_fmap option_map default].
  unfold int_string. rewrite (proj2 (Z.ltb_lt _ _)) by done.
  set (d := dec_string (- ActiveSpan.span_id x)).
  change (join_with dash _) with (join_with dash
    ["1"; b64_encode (trace_id c); b64_encode (trace_segment_id c); ""; d; b64_encode (service c);
     b64_encode (service_instance c); b64_encode endpoint; b64_encode address]).
  unfold decode_propagation. rewrite split_on_join; [done|done|].
  repeat constructor; auto with sky. unfold d. apply all_digits_no_dash, dec_string_digits. lia.
Qed.
End Header.

(** ** Properties *)

(** C20: overflow checks make no difference. Take two builds that differ in the
    overflow checks only. Whatever a client does with a context, as long as the
    span counter has room the two behave the same: they reach the same sessions
    and allow the same next calls, and every call, also one that panics, has the
    same outcome and leaves the same state. So no addition or subtraction of a
    context (of span identifiers, or of the wait group) overflows. *)
Theorem builds_agree {RW : RwLock} {PN : ProtoNums} {R : Type} (mock checks1 checks2 : bool) (s : session) :
  reachable (BC := build mock checks1) (R := R) s →
  let same {S A} (m : Build → M S A) st := agree mock checks1 checks2 m st in
  reachable (BC := build mock checks2) (R := R) s ∧
  (∀ s', step (BC := build mock checks1) (R := R) s s' ↔ step (BC := build mock checks2) (R := R) s s') ∧
  (room s → ∀ now op peer p,
     same (λ B, create_entry_span (BC := B) now op) (cs s) ∧
     same (λ B, create_entry_span_with_propagation (BC := B) now op p) (cs s) ∧
     same (λ B, create_exit_span (BC := B) now op peer) (cs s) ∧
     same (λ B, create_local_span (BC := B) now op) (cs s)) ∧
  (∀ now sp, same (λ B, span_drop (BC := B) now sp) (shared (cs s)) ∧
     same (λ B, prepare_for_async (BC := B) now sp) (shared (cs s))) ∧
  (∀ now asp, asp ∈ asyncs s → same (λ B, async_drop (BC := B) now asp) (shared (cs s))).
Proof.
  intros Hs same. assert (A : ∃ σ, session_at σ s)
    by (apply session_at_reachable in Hs as (σ & _ & A); by exists σ).
  split; [by eapply agree_reachable|]. split; [by split; apply agree_step|].
  destruct A as (σ & par & c & f & a & sp & asy & fin & -> & I & _).
  split_and!.
  - intros Hroom now op peer p. split_and!; [by apply agree_entry|by apply agree_entry_with|by apply agree_exit
      |by apply agree_local].
  - intros now spn. split; [done|by eapply agree_prepare].
  - intros now asp Hasp. by eapply agree_async.
Qed.

Section Properties.
Context {FE : ForeignErrors} {B : Base64} {BL : Base64Laws B}.
Context {BC : Build} {RW : RwLock} {PN : ProtoNums}.

(** C34: after 2^31 - 1 spans. In a build with overflow checks no span of any kind
    can be created any more: the call panics and nothing changes. In a release
    build the counter wraps around: the next span still gets the last number,
    the one after it a negative one, and under that span the context can neither
    be continued in another thread (the snapshot is not valid and [continued]
    ignores it) nor in another process (the header does not decode). *)
Theorem span_counter_limit c f a n g now op peer endpoint address :
  next_span_id c = I32_MAX →
  let st := uncontended c f a n g in
  (overflow_checks = true → Forall (λ m, st ⊢ m ⇑ ADD_OVERFLOW ⊣ st)
     [create_entry_span now op; create_exit_span now op peer; create_local_span now op]) ∧
  (overflow_checks = false → ∃ sp1 st1 sp2 st2 snap header,
     (st ⊢ create_entry_span now op ⇓ sp1 ⊣ st1) ∧ handle_span_id sp1 = Ret I32_MAX ∧
     next_span_id (ctx st1) = I32_MIN ∧
     (st1 ⊢ create_entry_span now op ⇓ sp2 ⊣ st2) ∧ handle_span_id sp2 = Ret I32_MIN ∧
     (st2 ⊢ capture ⇓ snap ⊣ st2) ∧
     (∀ R (ts : gmap nat (ArcCell R)) st', st' ⊢ continued ts snap ⇓ tt ⊣ st') ∧
     (st2 ⊢ encode_propagation endpoint address ⇓ header ⊣ st2) ∧
     decode_propagation header = Err (DecodePropagation PIECES_MSG)).
Proof.
  intros Hc st. split.
  - intros Ho. destruct (create_checked now op peer c f a n g Ho Hc) as (? & ? & ?). by repeat constructor.
  - intros Ho. set (c1 := wrapped op c). assert (H1 : next_span_id c1 = I32_MIN) by (cbn; by rewrite Hc).
    set (a1 := a ++ [ActiveSpan.new (span_uid_generator c) (next_span_id c)]).
    set (x2 := ActiveSpan.new (span_uid_generator c1) (next_span_id c1)).
    exists (Span.Mk (span_uid_generator c) (Some (new_obj now (next_span_id c) (parent_on a) op "" Entry Http false))),
      (uncontended c1 f a1 (S n) g),
      (Span.Mk (span_uid_generator c1) (Some (new_obj now (next_span_id c1) (parent_on a1) op "" Entry Http false))),
      (uncontended (wrapped op c1) f (a1 ++ [x2]) (S (S n)) g),
      (ContextSnapshot.Mk (trace_id c) (trace_segment_id c) I32_MIN op),
      (header_of (wrapped op c1) (a1 ++ [x2]) endpoint address).
    split_and!.
    + by apply create_entry_unchecked.
    + cbn. by rewrite Hc.
    + exact H1.
    + by apply create_entry_unchecked.
    + unfold handle_span_id, span_object. cbn [Span.obj]. by rewrite H1.
    + unfold capture. run_step peek_run. rewrite last_snoc. unfold x2. rewrite H1. reflexivity.
    + intros R ts st'. unfold continued, ContextSnapshot.is_valid. cbn [ContextSnapshot.span_id].
      by rewrite andb_false_r.
    + apply encode_propagation_run.
    + apply negative_id_not_decoded. unfold x2. cbn [ActiveSpan.span_id ActiveSpan.new]. by rewrite H1.
Qed.
End Properties.

(** ** A context that has created as many spans as it can *)
Module OverflowDemo.
#[local] Existing Instance text_errors.
#[local] Existing Instances Rfc4648.rfc4648 Rfc4648.laws.
#[local] Existing Instance CountingLock.lock.
#[local] Existing Instance example_nums.

Definition full : TracingContext := MkContext "1" "2" "service" "instance" I32_MAX "op" I32_MAX (MkWeak 0).

Lemma span_counter_limit_witness :
  (∃ st, create_local_span (BC := test_build) 0 "op" (uncontended full [] [] 1 wg_default) = (Panic ADD_OVERFLOW, st)) ∧
  ∃ sp st, create_entry_span (BC := release_build) 0 "op" (uncontended full [] [] 1 wg_default) = (Ret sp, st) ∧
    next_span_id (ctx st) = I32_MIN.
Proof.
  split.
  - destruct (span_counter_limit (BC := test_build) full [] [] 1 wg_default 0 "op" "peer" "/api" "host" eq_refl)
      as [H _]. specialize (H eq_refl). rewrite !Forall_cons in H. eexists. apply H.
  - destruct (span_counter_limit (BC := release_build) full [] [] 1 wg_default 0 "op" "peer" "/api" "host" eq_refl)
      as [_ H]. destruct (H eq_refl) as (sp & st & _ & _ & _ & _ & ? & _ & ? & _). by exists sp, st.
Defined.

(** The demonstration session of a test build is one of a release build with the
    mock clock. *)
Lemma builds_agree_witness :
  reachable (BC := build true false) (R := unit) Demo.middle ∧
  create_exit_span (BC := build true true) 5 "exit2" "peer" (cs Demo.middle) =
    create_exit_span (BC := build true false) 5 "exit2" "peer" (cs Demo.middle).
Proof.
  destruct (builds_agree (R := unit) true true false Demo.middle Demo.middle_reachable) as (Hr & _ & Hc & _).
  split; [exact Hr|].
  destruct (Hc eq_refl 5 "exit2" "peer" (PropagationContext.new true "" "" 0 "" "" "" "")) as (_ & _ & He & _).
  exact He.
Defined.
End OverflowDemo.
