(* ===== verification/Logging.v ===== *)
(** * src/logging: log records and the logger

    [LogRecord] is a builder; [convert_to_log_data] turns it into the message,
    which [Logger::log] hands to the reporter. *)

From S2P Require Import Prelude RustStr Common WaitGroup Proto Reporter Tracer SpanStack TraceContext Session.

Local Open Scope Z_scope.
Local Open Scope sky_scope.

(** The accessors of the context, under names that the record's fields leave
    free. *)
#[local] Abbreviation context_trace_id := trace_id.
#[local] Abbreviation context_segment_id := trace_segment_id.

(** ** record.rs *)
Module LogRecord.
Inductive RecordType := Text | Json | Yaml.
Definition RecordType_default : RecordType := Text.

(** The time is in nanoseconds since the epoch. *)
Record t := Mk {
  time : option Z;
  is_ignore_time : bool;
  endpoint : string;
  tags : list (string * string);
  trace_id : option string;
  trace_segment_id : option string;
  span_id : option Z;
  record_type : RecordType;
  content : string
}.

(** [LogRecord::new], and the methods of the builder. *)
Definition new : t := Mk None false "" [] None None None RecordType_default "".

Definition custom_time (v : Z) (r : t) : t :=
  Mk (Some v) (is_ignore_time r) (endpoint r) (tags r) (trace_id r) (trace_segment_id r)
     (span_id r) (record_type r) (content r).
Definition ignore_time (r : t) : t :=
  Mk (time r) true (endpoint r) (tags r) (trace_id r) (trace_segment_id r)
     (span_id r) (record_type r) (content r).
Definition set_endpoint (v : string) (r : t) : t :=
  Mk (time r) (is_ignore_time r) v (tags r) (trace_id r) (trace_segment_id r)
     (span_id r) (record_type r) (content r).
Definition add_tags (v : list (string * string)) (r : t) : t :=
  Mk (time r) (is_ignore_time r) (endpoint r) (tags r ++ v) (trace_id r) (trace_segment_id r)
     (span_id r) (record_type r) (content r).
Definition add_tag (key value : string) (r : t) : t :=
  Mk (time r) (is_ignore_time r) (endpoint r) (tags r ++ [(key, value)]) (trace_id r)
     (trace_segment_id r) (span_id r) (record_type r) (content r).
Definition with_tracing_context (c : TracingContext) (r : t) : t :=
  Mk (time r) (is_ignore_time r) (endpoint r) (tags r) (Some (context_trace_id c))
     (Some (context_segment_id c)) (span_id r) (record_type r) (content r).
Definition set_record_type (v : RecordType) (r : t) : t :=
  Mk (time r) (is_ignore_time r) (endpoint r) (tags r) (trace_id r) (trace_segment_id r)
     (span_id r) v (content r).
Definition set_content (v : string) (r : t) : t :=
  Mk (time r) (is_ignore_time r) (endpoint r) (tags r) (trace_id r) (trace_segment_id r)
     (span_id r) (record_type r) v.

(** [with_span] reads the span's object, which [span_object] unwraps. *)
Definition with_span (span : Span.t) (r : t) : outcome t :=
  match handle_span_id span with
  | Ret id => Ret (Mk (time r) (is_ignore_time r) (endpoint r) (tags r) (trace_id r)
                      (trace_segment_id r) (Some id) (record_type r) (content r))
  | Panic e => Panic e
  | Abort => Abort
  end.

Section Convert.
Context {BC : Build}.

Definition timestamp_of (now : Z) (r : t) : Z :=
  if is_ignore_time r then 0
  else match time r with
       | Some time => SystemTime.millis_since_epoch time
       | None => SystemTime.fetch_time now SystemTime.Log
       end.

Definition trace_context_of (r : t) : option TraceContext.t :=
  match trace_id r, trace_segment_id r, span_id r with
  | Some trace_id, Some trace_segment_id, Some span_id =>
      Some (TraceContext.Mk trace_id trace_segment_id span_id)
  | _, _, _ => None
  end.

Definition tags_of (r : t) : option LogTags.t :=
  match tags r with
  | [] => None
  | tags => Some (LogTags.Mk (map (λ '(key, value), KeyStringValuePair.Mk key value) tags))
  end.

(** [convert_to_log_data]. *)
Definition convert_to_log_data (now : Z) (service_name instance_name : string) (r : t)
    : LogData.t := {|
  LogData.timestamp := timestamp_of now r;
  LogData.service := service_name;
  LogData.service_instance := instance_name;
  LogData.endpoint := endpoint r;
  LogData.body := Some (LogDataBody.Mk ""
    match record_type r with
    | Text => Some (LogDataBody.Text (content r))
    | Json => Some (LogDataBody.Json (content r))
    | Yaml => Some (LogDataBody.Yaml (content r))
    end);
  LogData.trace_context := trace_context_of r;
  LogData.tags := tags_of r;
  LogData.layer := ""
|}.
End Convert.
End LogRecord.

(** ** logger.rs *)
Module Logger.
Section Logger.
Context {BC : Build} `{HR : Report R W}.

Record Inner := { service_name : string; instance_name : string; reporter : R }.
(** A shared pointer to an [Inner] that is never mutated. *)
Record t := Mk { inner : Inner }.

(** [Logger::new]. *)
Definition new (service_name instance_name : string) (reporter : R) : t :=
  Mk {| service_name := service_name; instance_name := instance_name; reporter := reporter |}.

(** [Logger::log]. *)
Definition log (now : Z) (record : LogRecord.t) (l : t) : M W unit :=
  let data := LogRecord.convert_to_log_data now (service_name (inner l))
                (instance_name (inner l)) record in
  report (reporter (inner l)) (Log data).

Definition GLOBAL_SET_MSG : string := "global logger has set".
Definition GLOBAL_UNSET_MSG : string := "global logger haven't set".

(** The global logger: a cell that is set at most once, next to the world of
    the reporter. *)
Definition set_global_logger (l : t) : M (option t * W) unit :=
  cell <- gets fst ;;
  match cell with
  | Some _ => panic GLOBAL_SET_MSG
  | None => modify (λ s, (Some l, s.2))
  end.
Definition global_logger : M (option t * W) t :=
  cell <- gets fst ;; expect GLOBAL_UNSET_MSG cell.

(** The free function [log]. *)
Definition global_log (now : Z) (record : LogRecord.t) : M (option t * W) unit :=
  l <- global_logger ;; zoom snd (λ w s, (s.1, w)) (log now record l).
End Logger.
Arguments Inner : clear implicits.
Arguments t : clear implicits.
End Logger.

(** ** Lemmas *)
Lemma tags_of_add_tag k v r :
  ∃ d, LogRecord.tags_of (LogRecord.add_tag k v r) = Some d ∧
    LogTags.data d = from_option LogTags.data [] (LogRecord.tags_of r) ++ [KeyStringValuePair.Mk k v].
Proof.
  unfold LogRecord.tags_of. cbn. destruct (LogRecord.tags r) as [|x l]; cbn; eexists; [done|].
  split; [done|]. cbn. by rewrite map_app.
Qed.

Section Properties.
Context {BC : Build} {RW : RwLock} {PN : ProtoNums} `{HR : Report R W}.
Context (healthy : R → W → Prop) (delivered : W → list CollectItem).
Context {HL : ReportLaws R W healthy delivered} {R' : Type}.

(** C32: logging inside a span. A record built with a context and one of its
    live spans is delivered as exactly one log item, under the logger's
    service and instance, and its trace context names the context's trace,
    its segment and a span number that the segment has handed out. *)
Theorem log_correlates_with_span (s : session) sp now l r w :
  reachable (R := R') s → sp ∈ spans s → healthy (Logger.reporter (Logger.inner l)) w →
  ∃ id r' w' d,
    LogRecord.with_span sp (LogRecord.with_tracing_context (ctx (cs s)) r) = Ret r' ∧
    (w ⊢ Logger.log now r' l ⇓ tt ⊣ w') ∧
    delivered w' = delivered w ++ [Log d] ∧
    LogData.trace_context d =
      Some (TraceContext.Mk (trace_id (ctx (cs s))) (trace_segment_id (ctx (cs s))) id) ∧
    0 ≤ id < next_span_id (ctx (cs s)) ∧ handle_span_id sp = Ret id ∧
    LogData.service d = Logger.service_name (Logger.inner l) ∧
    LogData.service_instance d = Logger.instance_name (Logger.inner l).
Proof.
  intros (par & c & f & a & sps & asy & fin & -> & I)%session_inv_reachable Hsp Hh. cbn in *.
  pose proof (i_spans_obj _ _ _ _ _ _ _ I) as Ho.
  rewrite Forall_forall in Ho. destruct (Ho _ Hsp) as (o & Hobj & Hid & _).
  assert (Hs : handle_span_id sp = Ret (Span.uid sp)).
  { unfold handle_span_id, span_object. cbn. rewrite Hobj. congruence. }
  destruct (report_delivers _ w (Log (LogRecord.convert_to_log_data now
    (Logger.service_name (Logger.inner l)) (Logger.instance_name (Logger.inner l))
    (LogRecord.Mk (LogRecord.time r) (LogRecord.is_ignore_time r) (LogRecord.endpoint r)
       (LogRecord.tags r) (Some (trace_id c)) (Some (trace_segment_id c)) (Some (Span.uid sp))
       (LogRecord.record_type r) (LogRecord.content r)))) Hh) as (w' & Hrun & _ & Hdel).
  eexists (Span.uid sp), _, w', _. unfold LogRecord.with_span. rewrite Hs.
  assert (0 ≤ Span.uid sp < next_span_id c).
  { apply (uids_range I), elem_of_app. left.
    rewrite <-(i_spans _ _ _ _ _ _ _ I). by apply list_elem_of_fmap_2. }
  split_and!; done || exact Hrun || exact Hdel || lia.
Qed.

(** The message of a record. The tags keep their insertion order however
    they were added, and are absent when there are none; the trace context is
    present only when all three identifiers are; the timestamp is 0 when it
    is ignored (whatever custom time was set) and an [i64] otherwise; the
    content has the kind that was chosen last. *)
Lemma log_data_spec (r : LogRecord.t) now service instance kvs k v (ty : LogRecord.RecordType) text :
  let data r := LogRecord.convert_to_log_data now service instance r in
  let pairs r := from_option LogTags.data [] (LogData.tags (data r)) in
  pairs (LogRecord.add_tags kvs r) = pairs r ++ map (λ '(key, value), KeyStringValuePair.Mk key value) kvs ∧
  pairs (LogRecord.add_tag k v r) = pairs (LogRecord.add_tags [(k, v)] r) ∧
  (LogData.tags (data r) = None ↔ LogRecord.tags r = []) ∧
  (is_Some (LogData.trace_context (data r)) ↔
     is_Some (LogRecord.trace_id r) ∧ is_Some (LogRecord.trace_segment_id r) ∧
     is_Some (LogRecord.span_id r)) ∧
  (∀ t, LogData.timestamp (data (LogRecord.custom_time t (LogRecord.ignore_time r))) = 0) ∧
  in_signed 64 (LogData.timestamp (data r)) = true ∧
  LogData.body (data (LogRecord.set_content text (LogRecord.set_record_type ty r))) =
    Some (LogDataBody.Mk "" (Some (match ty with
      | LogRecord.Text => LogDataBody.Text text
      | LogRecord.Json => LogDataBody.Json text
      | LogRecord.Yaml => LogDataBody.Yaml text
      end))).
Proof.
  cbn. unfold LogRecord.tags_of. cbn. split_and!.
  - destruct (LogRecord.tags r), kvs; cbn; rewrite ?app_nil_r, ?map_app; done.
  - done.
  - by destruct (LogRecord.tags r).
  - unfold LogRecord.trace_context_of.
    destruct (LogRecord.trace_id r), (LogRecord.trace_segment_id r), (LogRecord.span_id r);
      split; intros; rewrite ?is_Some_alt in *; naive_solver.
  - done.
  - unfold LogRecord.timestamp_of. destruct (LogRecord.is_ignore_time r); [done|].
    destruct (LogRecord.time r); [apply SystemTime.millis_range|apply SystemTime.fetch_time_range].
  - by destruct ty.
Qed.
End Properties.

(** ** The global logger *)
Section Global.
Context {BC : Build} `{HR : Report R W}.
Context (healthy : R → W → Prop) (delivered : W → list CollectItem).
Context {HL : ReportLaws R W healthy delivered}.

(** The global logger. Logging before one is set panics and delivers
    nothing; once set it delivers; a second one is refused with a panic and
    the first one stays. *)
Lemma global_logger_once now r l l' w :
  healthy (Logger.reporter (Logger.inner l)) w →
  Logger.global_log now r (None, w) = (Panic Logger.GLOBAL_UNSET_MSG, (None, w)) ∧
  ((None, w) ⊢ Logger.set_global_logger l ⇓ tt ⊣ (Some l, w)) ∧
  Logger.set_global_logger l' (Some l, w) = (Panic Logger.GLOBAL_SET_MSG, (Some l, w)) ∧
  ∃ w' d, ((Some l, w) ⊢ Logger.global_log now r ⇓ tt ⊣ (Some l, w')) ∧
    delivered w' = delivered w ++ [Log d] ∧
    LogData.service d = Logger.service_name (Logger.inner l).
Proof.
  intros Hh. split_and!; [done..|].
  destruct (report_delivers _ w (Log (LogRecord.convert_to_log_data now
    (Logger.service_name (Logger.inner l)) (Logger.instance_name (Logger.inner l)) r)) Hh)
    as (w' & Hrun & _ & Hdel).
  eexists w', _. split_and!; [|exact Hdel|done].
  unfold Logger.global_log, Logger.global_logger.
  rewrite (bind_Ret _ _ _ l (Some l, w)) by done.
  by erewrite (zoom_run snd) by exact Hrun.
Qed.
End Global.

(** The demonstration session logs to the mock reporter. *)
Module LoggingDemo.
#[local] Existing Instance test_build.
#[local] Existing Instance CountingLock.lock.
#[local] Existing Instance example_nums.

Definition logger : Logger.t MockReporter := Logger.new "service" "instance" Mock.
Definition record : LogRecord.t := LogRecord.set_content "hello" (LogRecord.add_tag "k" "v" LogRecord.new).

Lemma log_correlates_with_span_witness :
  ∃ id r' w', LogRecord.with_span (Span.Mk 1 (Some (new_obj 0 1 0 "local" "" Local Unknown false)))
      (LogRecord.with_tracing_context (ctx (cs Demo.middle)) record) = Ret r' ∧
    [] ⊢ Logger.log 0 r' logger ⇓ tt ⊣ w' ∧ length w' = 1%nat ∧ 0 ≤ id < 3.
Proof.
  destruct (log_correlates_with_span (λ _ _, True) id Demo.middle
    (Span.Mk 1 (Some (new_obj 0 1 0 "local" "" Local Unknown false))) 0 logger record []
    Demo.middle_reachable) as (i & r' & w' & d & ? & ? & Hd & _ & Hi & _);
    [cbn; right; left|done|]. exists i, r', w'. split_and!; [done|done|cbn in Hd; by subst w'|apply Hi|apply Hi].
Defined.

Lemma global_logger_once_witness :
  ∃ w' d, ((Some logger, []) ⊢ Logger.global_log 0 record ⇓ tt ⊣ (Some logger, w')) ∧
    w' = [Log d] ∧ LogData.service d = "service".
Proof.
  apply (global_logger_once (λ _ _, True) id 0 record logger logger []). done.
Defined.
End LoggingDemo.
