(* ===== verification/E2e.v ===== *)
(** * e2e/src/main.rs and examples/simple_trace_report.rs: the agent in use

    The end-to-end program has two processes. A request to the producer opens a
    context, sends a request with the propagation header to the consumer, which
    opens its own context under it, and runs a job in another task, which opens a
    third context continued from a snapshot. Here are the routing and the
    handlers, over the library as the other files model it, and what the two processes report:
    the file e2e/data/expected_context.yaml. The HTTP client is an argument. *)

From S2P Require Import Prelude RustStr Common Error WaitGroup Proto Reporter Tracer SpanStack TraceContext Session Segment Base64 Propagation Logging.

Local Open Scope Z_scope.
Local Open Scope sky_scope.

(** ** Requests and responses, of a method and a path *)
Module Request.
Record t := Mk { method : string; path : string; headers : gmap string string }.
End Request.
Module Response.
Record t := Mk { status : Z; body : string }.
End Response.

Definition ok_response : Response.t := Response.Mk 200 "ok".
Definition NOT_FOUND_MSG : string := "not found".
Definition SUCCESS_MSG : string := "Success".

(** The [match] of [producer_response] and of [consumer_response]. *)
Definition route {S} (served : string) (handle : M S unit) (req : Request.t) : M S Response.t :=
  if String.eqb (Request.method req) "GET" && String.eqb (Request.path req) served then handle ;; ret ok_response
  else if String.eqb (Request.method req) "GET" && String.eqb (Request.path req) "/healthCheck"
  then ret (Response.Mk 200 SUCCESS_MSG)
  else ret (Response.Mk 404 NOT_FOUND_MSG).

(** ** A process: its global cells, its tracers, its reporter's world *)
Section Process.
Context {FE : ForeignErrors} {B : Base64} {BC : Build} {RW : RwLock} {PN : ProtoNums} `{HR : Report R W}.
(** What else a handler acts on: the network. *)
Context {N : Type}.

Record Process := MkProcess {
  tracer_cell : option Tracer;
  logger_cell : option (Logger.t R);
  memory : gmap nat (ArcCell R);
  out : W
}.

(** Inside the scope of a context. *)
Record Frame := MkFrame { cx : CtxState; outer : Process * N }.

Definition on_cx {A} : M CtxState A → M Frame A := zoom cx (λ v l, MkFrame v (outer l)).
Definition on_outer {A} : M (Process * N) A → M Frame A := zoom outer (λ v l, MkFrame (cx l) v).
Definition on_net {A} : M N A → M (Process * N) A := zoom snd (λ v o, (o.1, v)).

(** [logger::log]. *)
Definition logger_log (now : Z) (record : LogRecord.t) : M (Process * N) unit :=
  zoom (λ o, (logger_cell o.1, out o.1))
    (λ v o, (MkProcess (tracer_cell o.1) v.1 (memory o.1) v.2, o.2))
    (Logger.global_log now record).

(** [tracer::create_trace_context]. *)
Definition DANGLING_MSG : string := "dangling tracer".
Definition create_context (uuid1 uuid2 : Z) : M (Process * N) CtxState :=
  o <- gets id ;;
  c <- zoom (λ o, tracer_cell o.1)
         (λ v o, (MkProcess v (logger_cell o.1) (memory o.1) (out o.1), o.2))
         (create_global_trace_context (memory o.1) uuid1 uuid2) ;;
  expect DANGLING_MSG c.

Definition drop_context : M Frame unit :=
  zoom (λ l, MkWorld (cx l) (memory (outer l).1) (out (outer l).1))
    (λ w l, MkFrame (context w)
      (MkProcess (tracer_cell (outer l).1) (logger_cell (outer l).1) (tracers w) (reporting w), (outer l).2))
    context_drop.

(** A block in which a context or a span is a local variable. *)
Definition with_context {A} (c : CtxState) (body : M Frame A) : M (Process * N) A := λ o,
  let '(r, l) := scoped body drop_context (MkFrame c o) in (r, outer l).
Definition with_span {A} (create : M CtxState Span.t) (now_end : Z) (body : Span.t → M Frame A) : M Frame A :=
  span <- on_cx create ;; scoped (body span) (on_cx (on_shared (span_drop now_end span))).

(** [tokio::spawn(..).await.unwrap()]: a panic of the task is a join error. *)
Definition JOIN_MSG : string := "called `Result::unwrap()` on an `Err` value: JoinError::Panic".
Definition spawn_await {S A} (m : M S A) : M S A := λ s,
  match m s with (Panic _, s') => (Panic JOIN_MSG, s') | r => r end.

(** A JSON object with one string member. *)
Definition quoted (s : string) : string :=
  String (ascii_of_N 34) (s +:+ String (ascii_of_N 34) EmptyString).
Definition json_message (text : string) : string :=
  "{" +:+ quoted "message" +:+ ": " +:+ quoted text +:+ "}".

(** ** The handlers; [clock n] is the [n]-th reading of the clock *)

(** The job of [handle_ping]. *)
Definition async_callback (clock : nat → Z) (uuid1 uuid2 : Z) (snapshot : ContextSnapshot.t)
    : M (Process * N) unit :=
  context2 <- create_context uuid1 uuid2 ;;
  with_context context2
    (with_span (create_entry_span (clock 0%nat) "async-callback") (clock 1%nat) (λ _,
       o <- gets outer ;;
       on_cx (continued (memory o.1) snapshot))).

Definition PEER : string := "127.0.0.1:8082".

Definition ping_record : LogRecord.t :=
  LogRecord.set_content (json_message "handle ping")
    (LogRecord.set_record_type LogRecord.Json
      (LogRecord.set_endpoint "/ping" (LogRecord.add_tag "level" "DEBUG" LogRecord.new))).

(** The record inside the exit span; [with_span] can panic. *)
Definition request_record (c : TracingContext) (span2 : Span.t) : outcome LogRecord.t :=
  match LogRecord.with_span span2 (LogRecord.with_tracing_context c
          (LogRecord.set_endpoint "/ping" (LogRecord.add_tag "level" "INFO" LogRecord.new))) with
  | Ret r => Ret (LogRecord.set_content "do http request" (LogRecord.set_record_type LogRecord.Text r))
  | Panic e => Panic e
  | Abort => Abort
  end.

(** The request to the consumer. *)
Definition pong_request (header : string) : Request.t :=
  Request.Mk "GET" "/pong" {[SKYWALKING_HTTP_CONTEXT_HEADER_KEY := header]}.

(** The two blocks of [handle_ping], and the handler. *)
Definition do_request (send_request : Request.t → M N unit) (clock : nat → Z) : M Frame unit :=
  with_span (create_exit_span (clock 2%nat) "/pong" PEER) (clock 4%nat) (λ span2,
    header <- on_cx (encode_propagation "/pong" PEER) ;;
    c <- on_cx (on_ctx (gets id)) ;;
    record <- of_outcome (request_record c span2) ;;
    on_outer (logger_log (clock 3%nat) record) ;;
    on_outer (on_net (send_request (pong_request header)))).

Definition do_job (clock clock2 : nat → Z) (u3 u4 : Z) : M Frame unit :=
  with_span (create_local_span (clock 5%nat) "async-job") (clock 6%nat) (λ _,
    snapshot <- on_cx capture ;;
    on_outer (spawn_await (async_callback clock2 u3 u4 snapshot))).

Definition handle_ping (send_request : Request.t → M N unit) (clock clock2 : nat → Z) (u1 u2 u3 u4 : Z)
    : M (Process * N) unit :=
  logger_log (clock 0%nat) ping_record ;;
  context <- create_context u1 u2 ;;
  with_context context
    (with_span (create_entry_span (clock 1%nat) "/ping") (clock 7%nat) (λ _,
       do_request send_request clock ;;
       do_job clock clock2 u3 u4)).

Definition pong_record : LogRecord.t :=
  LogRecord.set_content (json_message "handle pong")
    (LogRecord.set_record_type LogRecord.Json
      (LogRecord.set_endpoint "/pong" (LogRecord.add_tag "level" "DEBUG" LogRecord.new))).

Definition DECODE_MSG : string := "called `Result::unwrap()` on an `Err` value".

(** Indexing the headers panics if the header is not there. *)
Definition NO_HEADER_MSG : string := "no entry found for key".

(** The header is the string the encoder made, digits, dashes and Base64, of
    which [HeaderValue::to_str] is the identity. *)
Definition handle_pong (clock : nat → Z) (u1 u2 : Z) (req : Request.t) : M (Process * N) unit :=
  logger_log (clock 0%nat) pong_record ;;
  header <- expect NO_HEADER_MSG (Request.headers req !! SKYWALKING_HTTP_CONTEXT_HEADER_KEY) ;;
  ctx <- match decode_propagation header with Ok p => ret p | Err _ => panic DECODE_MSG end ;;
  context <- create_context u1 u2 ;;
  with_context context (
    with_span (create_entry_span_with_propagation (clock 1%nat) "/pong" ctx) (clock 2%nat) (λ _, ret tt)).

Definition producer_response (send_request : Request.t → M N unit) (clock clock2 : nat → Z) (u1 u2 u3 u4 : Z)
    (req : Request.t) : M (Process * N) Response.t :=
  route "/ping" (handle_ping send_request clock clock2 u1 u2 u3 u4) req.
Definition consumer_response (clock : nat → Z) (u1 u2 : Z) (req : Request.t) : M (Process * N) Response.t :=
  route "/pong" (handle_pong clock u1 u2 req) req.

(** [handle_request] of the example: the tracer it was given is dropped
    last. *)
Definition handle_request (clock : nat → Z) (u1 u2 : Z) (tracer : Tracer) : M (Process * N) unit :=
  scoped
    (o <- gets id ;;
     ctx <- expect DANGLING_MSG (create_trace_context tracer (memory o.1) u1 u2) ;;
     with_context ctx (
       with_span (create_entry_span (clock 0%nat) "op1") (clock 3%nat) (λ _,
         with_span (create_exit_span (clock 1%nat) "op2" "remote_peer") (clock 2%nat) (λ _, ret tt))))
    (modify (λ o, (MkProcess (tracer_cell o.1) (logger_cell o.1) (tracer_drop tracer (memory o.1)) (out o.1), o.2))).

(** [main], for one service: the global cells are set from fresh ones. *)
Definition install (service instance : string) (r : R) : M Process unit :=
  t <- (λ p, let '(t, ts) := tracer_new service instance r (memory p) in
             (Ret t, MkProcess (tracer_cell p) (logger_cell p) ts (out p))) ;;
  zoom tracer_cell (λ v p, MkProcess v (logger_cell p) (memory p) (out p)) (set_global_tracer t) ;;
  zoom (λ p, (logger_cell p, out p)) (λ v p, MkProcess (tracer_cell p) v.1 (memory p) v.2)
    (Logger.set_global_logger (Logger.new service instance r)).
End Process.
Arguments Process : clear implicits.

(** ** [CombineReporter]: both backends, and a line on the standard output *)
Section Combine.
Context `{HR1 : Report R1 W1} `{HR2 : Report R2 W2}.

Record CombineReporter := MkCombine { grpc_reporter : R1; kafka_reporter : R2 }.
Record CombineWorld := MkCombineWorld { lines : list string; grpc_world : W1; kafka_world : W2 }.

Definition type_line (item : CollectItem) : string :=
  "report item type: " +:+
  quoted (match item with Trace _ => "trace" | Log _ => "log" | Meter _ => "meter" | _ => "unknown" end).

#[export] Instance Report_Combine : Report CombineReporter CombineWorld := λ r item,
  modify (λ w, MkCombineWorld (lines w ++ [type_line item]) (grpc_world w) (kafka_world w)) ;;
  zoom grpc_world (λ v w, MkCombineWorld (lines w) v (kafka_world w)) (report (grpc_reporter r) item) ;;
  zoom kafka_world (λ v w, MkCombineWorld (lines w) (grpc_world w) v) (report (kafka_reporter r) item).

Context (ok1 : R1 → W1 → Prop) (delivered1 : W1 → list CollectItem) {HL1 : ReportLaws R1 W1 ok1 delivered1}.
Context (ok2 : R2 → W2 → Prop) (delivered2 : W2 → list CollectItem) {HL2 : ReportLaws R2 W2 ok2 delivered2}.

Definition both_ok (r : CombineReporter) (w : CombineWorld) : Prop :=
  ok1 (grpc_reporter r) (grpc_world w) ∧ ok2 (kafka_reporter r) (kafka_world w).

Lemma combine_delivers r w item :
  both_ok r w →
  ∃ w', (w ⊢ report r item ⇓ tt ⊣ w') ∧ both_ok r w' ∧
    delivered1 (grpc_world w') = delivered1 (grpc_world w) ++ [item] ∧
    delivered2 (kafka_world w') = delivered2 (kafka_world w) ++ [item] ∧
    lines w' = lines w ++ [type_line item].
Proof.
  intros [H1 H2]. destruct (report_delivers (grpc_reporter r) (grpc_world w) item H1) as (v1 & Hr1 & Ho1 & Hd1).
  destruct (report_delivers (kafka_reporter r) (kafka_world w) item H2) as (v2 & Hr2 & Ho2 & Hd2).
  exists (MkCombineWorld (lines w ++ [type_line item]) v1 v2).
  split_and!; [|by split|exact Hd1|exact Hd2|done].
  unfold report in *. unfold Report_Combine, bind, zoom, modify. cbn. unfold report. rewrite Hr1. cbn. by rewrite Hr2.
Qed.

(** Seen from either backend, it is a reporter like any other. *)
#[export] Instance combine_laws_grpc :
  ReportLaws CombineReporter CombineWorld both_ok (λ w, delivered1 (grpc_world w)).
Proof. split. intros r w item H. destruct (combine_delivers r w item H) as (w' & ? & ? & ? & _). eauto. Qed.

#[export] Instance combine_laws_kafka :
  ReportLaws CombineReporter CombineWorld both_ok (λ w, delivered2 (kafka_world w)).
Proof. split. intros r w item H. destruct (combine_delivers r w item H) as (w' & ? & ? & _ & ? & _). eauto. Qed.
(** The two backends are given the same. *)
Definition in_step (r : CombineReporter) (w : CombineWorld) : Prop :=
  both_ok r w ∧ delivered2 (kafka_world w) = delivered1 (grpc_world w).

#[export] Instance combine_laws_both :
  ReportLaws CombineReporter CombineWorld in_step (λ w, delivered1 (grpc_world w)).
Proof.
  split. intros r w item [H E]. destruct (combine_delivers r w item H) as (w' & Hr & Ho & Hd1 & Hd2 & _).
  exists w'. split_and!; [done|split; [done|congruence]|done].
Qed.
End Combine.
Arguments CombineReporter : clear implicits.
Arguments CombineWorld : clear implicits.

(** ** Runs *)
Section Runs.
Context {FE : ForeignErrors} {B : Base64} {BC : Build} {RW : RwLock} {PN : ProtoNums} `{HR : Report R W}.
Context (ok : R → W → Prop) (delivered : W → list CollectItem) {HL : ReportLaws R W ok delivered}.
Context {N : Type}.
Implicit Types (o : Process R W * N) (n : N).

(** A process that reports through [r], under a service and an instance name. *)
Record serves (service instance : string) (r : R) (p : Process R W) : Prop := {
  s_tracer : ∃ t, tracer_cell p = Some t ∧
    upgraded (downgrade t) (memory p) = Some {| Tracer.service_name := service;
      Tracer.instance_name := instance; Tracer.reporter := r |};
  s_logger : logger_cell p = Some (Logger.new service instance r);
  s_ok : ok r (out p)
}.

Lemma install_serves service instance r ts w :
  ok r w →
  ∃ p, (MkProcess None None ts w ⊢ install service instance r ⇓ tt ⊣ p) ∧ out p = w ∧
    serves service instance r p.
Proof.
  intros Hok. pose proof (tracer_new_upgrade service instance r ts) as Hu.
  eexists. split_and!; [reflexivity|done|]. split; [|done|done]. eexists. split; [reflexivity|exact Hu].
Qed.

(** [p'] is [p] after it reported [items]. *)
Record after (p : Process R W) (items : list CollectItem) (p' : Process R W) : Prop := {
  a_tracer : tracer_cell p' = tracer_cell p;
  a_logger : logger_cell p' = logger_cell p;
  a_memory : memory p' = memory p;
  a_items : delivered (out p') = delivered (out p) ++ items
}.

Lemma after_trans p1 l1 p2 l2 p3 : after p1 l1 p2 → after p2 l2 p3 → after p1 (l1 ++ l2) p3.
Proof. intros [? ? ? H1] [? ? ? H2]. split; try congruence. by rewrite H2, H1, app_assoc. Qed.

Definition log_item (service instance : string) (now : Z) (record : LogRecord.t) : CollectItem :=
  Log (LogRecord.convert_to_log_data now service instance record).

Lemma logger_log_run service instance r p n now record :
  serves service instance r p →
  ∃ p', ((p, n) ⊢ logger_log now record ⇓ tt ⊣ (p', n)) ∧ serves service instance r p' ∧
    after p [log_item service instance now record] p'.
Proof.
  intros [Ht Hl Hok]. destruct (report_delivers r (out p) (log_item service instance now record) Hok)
    as (w' & Hr & Hok' & Hd).
  exists (MkProcess (tracer_cell p) (logger_cell p) (memory p) w'). split_and!; [|by split|by split].
  unfold logger_log, Logger.global_log, Logger.global_logger, bind, zoom, gets. cbn. rewrite Hl. cbn.
  unfold Logger.log, Logger.new. cbn. unfold log_item in Hr. by rewrite Hr.
Qed.

Lemma deref_of_upgraded t (ts : gmap nat (ArcCell R)) i :
  upgraded (downgrade t) ts = Some i → deref t ts = Some i.
Proof.
  intros (t' & Hup & Hd)%upgraded_split. unfold upgrade in Hup. cbn in Hup.
  destruct (ts !! tracer_ptr t); [|done]. cbn in Hup. case_decide; [done|]. by injection Hup as <-.
Qed.

Lemma create_context_run service instance r p n u1 u2 :
  serves service instance r p →
  ∃ t, ((p, n) ⊢ create_context u1 u2 ⇓ context_new u1 u2 service instance t ⊣ (p, n)) ∧
    upgraded t (memory p) = Some {| Tracer.service_name := service;
      Tracer.instance_name := instance; Tracer.reporter := r |}.
Proof.
  intros [(t & Ht & Hu) _ _]. exists (downgrade t). split; [|exact Hu].
  apply deref_of_upgraded in Hu.
  unfold create_context, create_global_trace_context, global_tracer, create_trace_context.
  unfold bind, zoom, gets. cbn. rewrite Ht. cbn. rewrite Hu. destruct p. cbn in *. by rewrite Ht.
Qed.

(** A span's block on a free context. *)
Lemma with_span_run {A} create now_end (body : Span.t → M Frame A) c f a k g ou u ob c1 x r c2 f2 x2 o2 :
  create (uncontended c f a k g) = (Ret (Span.Mk u (Some ob)), uncontended c1 f (a ++ [x]) (S k) g) →
  body (Span.Mk u (Some ob)) (MkFrame (uncontended c1 f (a ++ [x]) (S k) g) ou) =
    (Ret r, MkFrame (uncontended c2 f2 (a ++ [x2]) (S k) g) o2) →
  ActiveSpan.uid x2 = u →
  with_span create now_end body (MkFrame (uncontended c f a k g) ou) =
    (Ret r, MkFrame (uncontended c2 (f2 ++ [finalize_entry now_end u (Some ob) x2]) a k g) (o2 : Process R W * N)).
Proof.
  intros Hc Hb Hx. unfold with_span.
  erewrite bind_Ret; [|unfold on_cx, zoom; cbn; rewrite Hc; reflexivity]. cbn.
  eapply scoped_Ret; [exact Hb|].
  unfold on_cx, zoom. cbn. erewrite on_shared_run; [|by apply span_drop_top]. done.
Qed.

(** A context's block: at its end the segment is reported. *)
Lemma with_context_reports {A} (c0 : CtxState) (body : M Frame A) (o o2 : Process R W * N) r c2 f2 a2 k2 g2 os i w' :
  body (MkFrame c0 o) = (Ret r, MkFrame (uncontended c2 f2 a2 k2 g2) o2) →
  mapM FinalizeSpan.obj f2 = Some os →
  upgraded (tracer c2) (memory o2.1) = Some i →
  let seg := SegmentObject.Mk (trace_id c2) (trace_segment_id c2) os (service c2) (service_instance c2) false in
  out o2.1 ⊢ report (Tracer.reporter i) (Trace seg) ⇓ tt ⊣ w' →
  with_context c0 body o = (Ret r, (MkProcess (tracer_cell o2.1) (logger_cell o2.1) (memory o2.1) w', o2.2)).
Proof.
  intros Hb Hos (t & Ht & Hi)%upgraded_split seg Hr.
  assert (Hdrop : MkFrame (uncontended c2 f2 a2 k2 g2) o2 ⊢ drop_context ⇓ tt ⊣
    MkFrame (release (uncontended c2 [] a2 k2 g2))
      (MkProcess (tracer_cell o2.1) (logger_cell o2.1) (memory o2.1) w', o2.2)).
  { unfold drop_context, zoom. cbn [cx outer].
    erewrite context_drop_run; [|exact Ht|exact Hi|by rewrite convert_run, Hos|exact Hr]. reflexivity. }
  unfold with_context. by rewrite (scoped_Ret _ _ _ _ _ _ Hb Hdrop).
Qed.

Lemma with_context_run {A} (c0 : CtxState) (body : M Frame A) (o o2 : Process R W * N) r c2 f2 a2 k2 g2 os i :
  body (MkFrame c0 o) = (Ret r, MkFrame (uncontended c2 f2 a2 k2 g2) o2) →
  mapM FinalizeSpan.obj f2 = Some os →
  upgraded (tracer c2) (memory o2.1) = Some i → ok (Tracer.reporter i) (out o2.1) →
  let seg := SegmentObject.Mk (trace_id c2) (trace_segment_id c2) os (service c2) (service_instance c2) false in
  ∃ p', with_context c0 body o = (Ret r, (p', o2.2)) ∧ ok (Tracer.reporter i) (out p') ∧
    after o2.1 [Trace seg] p'.
Proof.
  intros Hb Hos Hi Hok seg.
  destruct (report_delivers (Tracer.reporter i) (out o2.1) (Trace seg) Hok) as (w' & Hr & Hok' & Hd).
  eexists. split; [by eapply with_context_reports|]. by split; [|split].
Qed.

Lemma on_cx_run {A} (m : M CtxState A) c c' o r :
  m c = (r, c') → on_cx m (MkFrame c o) = (r, MkFrame c' o).
Proof. intros H. unfold on_cx, zoom. cbn. by rewrite H. Qed.

Lemma on_outer_run {A} (m : M (Process R W * N) A) c o o' r :
  m o = (r, o') → on_outer m (MkFrame c o) = (r, MkFrame c o').
Proof. intros H. unfold on_outer, zoom. cbn. by rewrite H. Qed.

Lemma on_net_run {A} (m : M N A) (p : Process R W) n n' r :
  m n = (r, n') → on_net m (p, n) = (r, (p, n')).
Proof. intros H. unfold on_net, zoom. cbn. by rewrite H. Qed.

Lemma spawn_await_run {S A} (m : M S A) s a s' : s ⊢ m ⇓ a ⊣ s' → s ⊢ spawn_await m ⇓ a ⊣ s'.
Proof. intros H. unfold spawn_await. by rewrite H. Qed.

Lemma serves_after service instance r p items p' :
  serves service instance r p → after p items p' → ok r (out p') → serves service instance r p'.
Proof. intros [Ht Hl _] [Et El Em _] Hok. split; [by rewrite Et, Em|by rewrite El|done]. Qed.

(** A finished span, field by field. *)
Definition span_spec (start finish id parent : Z) (op peer : string) (ty : SpanType) (ly : SpanLayer)
    (refs : list SegmentReference.t) : SpanObject.t :=
  SpanObject.Mk id parent (SystemTime.fetch_time start SystemTime.Start)
    (SystemTime.fetch_time finish SystemTime.End) refs op peer (SpanType_as_i32 ty)
    (SpanLayer_as_i32 ly) SKYWALKING_RUST_COMPONENT_ID false [] [] false.

Definition thread_ref (service instance : string) (snap : ContextSnapshot.t) : SegmentReference.t :=
  SegmentReference.Mk (RefType_as_i32 CrossThread) (ContextSnapshot.trace_id snap)
    (ContextSnapshot.trace_segment_id snap) (ContextSnapshot.span_id snap) service instance
    (ContextSnapshot.parent_endpoint snap) "".

Lemma async_callback_run service instance r p n clock u1 u2 snap :
  serves service instance r p → ContextSnapshot.is_valid snap = true →
  ∃ p', ((p, n) ⊢ async_callback clock u1 u2 snap ⇓ tt ⊣ (p', n)) ∧ serves service instance r p' ∧
    after p [Trace (SegmentObject.Mk (ContextSnapshot.trace_id snap) (RandomGenerator.generate u2)
      [span_spec (clock 0%nat) (clock 1%nat) 0 (-1) "async-callback" "" Entry Http
         [thread_ref service instance snap]] service instance false)] p'.
Proof.
  intros Hs Hv. destruct (create_context_run _ _ _ _ n u1 u2 Hs) as (t & Hc & Ht).
  set (c := ctx (context_new u1 u2 service instance t)).
  set (e := create_entry_span_run (clock 0%nat) "async-callback" c [] [] 1 wg_default eq_refl).
  edestruct (with_context_run (context_new u1 u2 service instance t)
    (with_span (create_entry_span (clock 0%nat) "async-callback") (clock 1%nat) (λ _ : Span.t,
       o <- gets outer ;; on_cx (continued (memory o.1) snap))) (p, n)) as (p' & Hrun & Hok & Ha).
  - eapply (with_span_run _ _ _ c [] [] 1 wg_default); [exact e| |].
    + unfold bind, gets. cbn [outer]. apply on_cx_run.
      rewrite (continued_run (memory p) snap _ (pushed "async-callback" c) _ _ _ _ Hv Ht). reflexivity.
    + done.
  - done.
  - exact Ht.
  - apply Hs.
  - exists p'. split_and!.
    + unfold async_callback. by rewrite (bind_Ret _ _ _ _ _ Hc).
    + by eapply serves_after.
    + exact Ha.
Qed.

Lemma handle_pong_run service instance r p n clock u1 u2 header pc :
  serves service instance r p → decode_propagation header = Ok pc →
  let tid := PropagationContext.parent_trace_id pc in
  ∃ p', ((p, n) ⊢ handle_pong clock u1 u2 (pong_request header) ⇓ tt ⊣ (p', n)) ∧ serves service instance r p' ∧
    after p [log_item service instance (clock 0%nat) pong_record;
             Trace (SegmentObject.Mk tid (RandomGenerator.generate u2)
               [span_spec (clock 1%nat) (clock 2%nat) 0 (-1) "/pong" "" Entry Http
                  [propagation_ref tid pc]] service instance false)] p'.
Proof.
  intros Hs Hd tid.
  destruct (logger_log_run _ _ _ _ n (clock 0%nat) pong_record Hs) as (p1 & Hlog & Hs1 & Ha1).
  destruct (create_context_run _ _ _ _ n u1 u2 Hs1) as (t & Hc & Ht).
  set (c := ctx (context_new u1 u2 service instance t)).
  pose proof (create_entry_span_with_propagation_run (clock 1%nat) "/pong" pc c [] [] 1 wg_default
    eq_refl) as e. cbv zeta in e.
  edestruct (with_context_run (context_new u1 u2 service instance t)
    (with_span (create_entry_span_with_propagation (clock 1%nat) "/pong" pc) (clock 2%nat)
      (λ _ : Span.t, ret tt)) (p1, n)) as (p' & Hrun & Hok & Ha2).
  - eapply (with_span_run _ _ _ c [] [] 1 wg_default); [exact e|reflexivity|reflexivity].
  - reflexivity.
  - exact Ht.
  - apply Hs1.
  - exists p'. split_and!.
    + unfold handle_pong. rewrite (bind_Ret _ _ _ _ _ Hlog). unfold pong_request. cbn [Request.headers].
      rewrite lookup_singleton_eq. cbn [expect]. rewrite bind_ret_l, Hd, bind_ret_l.
      by rewrite (bind_Ret _ _ _ _ _ Hc).
    + by eapply serves_after.
    + exact (after_trans _ _ _ _ _ Ha1 Ha2).
Qed.

(** The two blocks of [handle_ping], inside any context with an entry span. *)
Definition finished (uid : Z) (o : SpanObject.t) : FinalizeSpan.t := FinalizeSpan.Mk uid (Some o) None.

Lemma finished_entry start finish u id parent op peer ty ly :
  finished u (span_spec start finish id parent op peer ty ly []) =
    finalize_entry finish u (Some (new_obj start id parent op peer ty ly false)) (ActiveSpan.new u id).
Proof. reflexivity. Qed.

Definition do_request_record (c : TracingContext) : LogRecord.t :=
  LogRecord.Mk None false "/ping" [("level", "INFO")] (Some (trace_id c)) (Some (trace_segment_id c))
    (Some (next_span_id c)) LogRecord.Text "do http request".

Lemma request_block_run service instance r p n n' (send_request : Request.t → M N unit) clock c f a k g :
  serves service instance r p → in_signed 32 (next_span_id c + 1) = true → next_span_id c ≠ 0 →
  let active := ActiveSpan.new (span_uid_generator c) (next_span_id c) in
  n ⊢ send_request (pong_request (header_of (pushed "/pong" c) (a ++ [active]) "/pong" PEER)) ⇓ tt ⊣ n' →
  ∃ p', do_request send_request clock (MkFrame (uncontended c f a k g) (p, n)) =
      (Ret tt, MkFrame (uncontended (pushed "/pong" c)
        (f ++ [finished (span_uid_generator c)
           (span_spec (clock 2%nat) (clock 4%nat) (next_span_id c) (parent_on a) "/pong" PEER Exit Unknown [])])
        a k g) (p', n')) ∧
    serves service instance r p' ∧
    after p [log_item service instance (clock 3%nat) (do_request_record c)] p'.
Proof.
  intros Hs H1 H0 active Hsend.
  destruct (logger_log_run _ _ _ _ n (clock 3%nat) (do_request_record c) Hs) as (p' & Hlog & Hs' & Ha).
  exists p'. split; [|by split].
  pose proof (create_exit_span_run (clock 2%nat) "/pong" PEER c f a k g H1 H0) as e. cbv zeta in e.
  rewrite finished_entry. eapply (with_span_run _ _ _ c f a k g); [exact e| |reflexivity].
  erewrite bind_Ret; [|by apply on_cx_run, encode_propagation_run].
  erewrite bind_Ret; [|by apply (on_cx_run _ _ (uncontended (pushed "/pong" c) f (a ++ [active]) (S k) g))].
  erewrite bind_Ret; [|reflexivity].
  erewrite bind_Ret; [|by apply on_outer_run, Hlog].
  apply on_outer_run, on_net_run. exact Hsend.
Qed.

Lemma job_block_run service instance r p n clock clock2 u3 u4 c f a k g :
  serves service instance r p → in_signed 32 (next_span_id c + 1) = true → 0 < next_span_id c →
  is_empty (trace_id c) = false → is_empty (trace_segment_id c) = false →
  let snap := ContextSnapshot.Mk (trace_id c) (trace_segment_id c) (next_span_id c) "async-job" in
  ∃ p', do_job clock clock2 u3 u4 (MkFrame (uncontended c f a k g) (p, n)) =
      (Ret tt, MkFrame (uncontended (pushed "async-job" c)
        (f ++ [finished (span_uid_generator c)
           (span_spec (clock 5%nat) (clock 6%nat) (next_span_id c) (parent_on a) "async-job" "" Local Unknown [])])
        a k g) (p', n)) ∧
    serves service instance r p' ∧
    after p [Trace (SegmentObject.Mk (trace_id c) (RandomGenerator.generate u4)
      [span_spec (clock2 0%nat) (clock2 1%nat) 0 (-1) "async-callback" "" Entry Http
         [thread_ref service instance snap]] service instance false)] p'.
Proof.
  intros Hs H1 H0 Ht Hi snap.
  assert (Hv : ContextSnapshot.is_valid snap = true).
  { unfold ContextSnapshot.is_valid. cbn. rewrite Ht, Hi. cbn. apply andb_true_iff. split; [|done].
    apply Z.ltb_lt. lia. }
  destruct (async_callback_run _ _ _ _ n clock2 u3 u4 snap Hs Hv) as (p' & Hjob & Hs' & Ha).
  exists p'. split; [|by split].
  pose proof (create_local_span_run (clock 5%nat) "async-job" c f a k g H1 ltac:(lia)) as e.
  cbv zeta in e. rewrite finished_entry. eapply (with_span_run _ _ _ c f a k g); [exact e| |reflexivity].
  erewrite bind_Ret.
  2: { apply on_cx_run. unfold capture. run_step peek_run. rewrite last_snoc. reflexivity. }
  apply on_outer_run, spawn_await_run. exact Hjob.
Qed.

(** The header that [handle_ping] sends. *)
Definition ping_header (service instance : string) (u1 u2 : Z) : string :=
  join_with dash
    ["1"; b64_encode (RandomGenerator.generate u1); b64_encode (RandomGenerator.generate u2); "1";
     b64_encode service; b64_encode instance; b64_encode "/pong"; b64_encode PEER].

Definition ping_segment (clock : nat → Z) (service instance : string) (u1 u2 : Z) : SegmentObject.t :=
  SegmentObject.Mk (RandomGenerator.generate u1) (RandomGenerator.generate u2)
    [span_spec (clock 2%nat) (clock 4%nat) 1 0 "/pong" PEER Exit Unknown [];
     span_spec (clock 5%nat) (clock 6%nat) 2 0 "async-job" "" Local Unknown [];
     span_spec (clock 1%nat) (clock 7%nat) 0 (-1) "/ping" "" Entry Http []]
    service instance false.

Definition callback_segment (clock2 : nat → Z) (service instance : string) (u1 u2 u4 : Z) : SegmentObject.t :=
  SegmentObject.Mk (RandomGenerator.generate u1) (RandomGenerator.generate u4)
    [span_spec (clock2 0%nat) (clock2 1%nat) 0 (-1) "async-callback" "" Entry Http
       [thread_ref service instance
          (ContextSnapshot.Mk (RandomGenerator.generate u1) (RandomGenerator.generate u2) 2 "async-job")]]
    service instance false.

Definition request_log (u1 u2 : Z) : LogRecord.t :=
  LogRecord.Mk None false "/ping" [("level", "INFO")] (Some (RandomGenerator.generate u1))
    (Some (RandomGenerator.generate u2)) (Some 1) LogRecord.Text "do http request".

Lemma handle_ping_run service instance r p n n' (send_request : Request.t → M N unit)
    clock clock2 u1 u2 u3 u4 :
  serves service instance r p → n ⊢ send_request (pong_request (ping_header service instance u1 u2)) ⇓ tt ⊣ n' →
  ∃ p', ((p, n) ⊢ handle_ping send_request clock clock2 u1 u2 u3 u4 ⇓ tt ⊣ (p', n')) ∧
    serves service instance r p' ∧
    after p [log_item service instance (clock 0%nat) ping_record;
             log_item service instance (clock 3%nat) (request_log u1 u2);
             Trace (callback_segment clock2 service instance u1 u2 u4);
             Trace (ping_segment clock service instance u1 u2)] p'.
Proof.
  intros Hs Hsend.
  destruct (logger_log_run _ _ _ _ n (clock 0%nat) ping_record Hs) as (p1 & Hlog & Hs1 & Ha1).
  destruct (create_context_run _ _ _ _ n u1 u2 Hs1) as (t & Hc & Ht).
  set (c := ctx (context_new u1 u2 service instance t)).
  set (top := ActiveSpan.new 0 0).
  edestruct (request_block_run service instance r p1 n n' send_request clock (pushed "/ping" c) [] [top] 2
    wg_default Hs1 eq_refl ltac:(done) Hsend) as (p2 & Hreq & Hs2 & Ha2).
  edestruct (job_block_run service instance r p2 n' clock clock2 u3 u4 (pushed "/pong" (pushed "/ping" c))
    ([] ++ [finished 1 (span_spec (clock 2%nat) (clock 4%nat) 1 0 "/pong" PEER Exit Unknown [])]) [top] 2
    wg_default Hs2 eq_refl eq_refl) as (p3 & Hjob & Hs3 & Ha3);
    [apply RandomGenerator.generate_nonempty..|].
  pose proof (create_entry_span_run (clock 1%nat) "/ping" c [] [] 1 wg_default eq_refl) as e. cbv zeta in e.
  edestruct (with_context_run (context_new u1 u2 service instance t)
    (with_span (create_entry_span (clock 1%nat) "/ping") (clock 7%nat) (λ _,
       do_request send_request clock ;; do_job clock clock2 u3 u4)) (p1, n)) as (p' & Hrun & Hok & Ha4).
  - eapply (with_span_run _ (clock 7%nat) _ c [] [] 1 wg_default (p1, n));
      [exact e|rewrite (bind_Ret _ _ _ _ _ Hreq); exact Hjob|reflexivity].
  - reflexivity.
  - cbn [fst]. rewrite (a_memory _ _ _ Ha3), (a_memory _ _ _ Ha2). exact Ht.
  - apply Hs3.
  - exists p'. split_and!.
    + unfold handle_ping. rewrite (bind_Ret _ _ _ _ _ Hlog), (bind_Ret _ _ _ _ _ Hc). exact Hrun.
    + by eapply serves_after.
    + exact (after_trans _ _ _ _ _ Ha1 (after_trans _ _ _ _ _ Ha2 (after_trans _ _ _ _ _ Ha3 Ha4))).
Qed.

(** What the header says. *)
Definition ping_context (service instance : string) (u1 u2 : Z) : PropagationContext.t :=
  PropagationContext.new true (RandomGenerator.generate u1) (RandomGenerator.generate u2) 1
    service instance "/pong" PEER.

Lemma ping_header_decoded `{!Base64Laws B} service instance u1 u2 :
  utf8_valid service = true → utf8_valid instance = true →
  in_unsigned 128 u1 = true → in_unsigned 128 u2 = true →
  decode_propagation (ping_header service instance u1 u2) = Ok (ping_context service instance u1 u2).
Proof.
  intros Hs Hi H1 H2.
  apply (decode_header_of (MkContext (RandomGenerator.generate u1) (RandomGenerator.generate u2) service
    instance 2 "" 2 (MkWeak 0)) [ActiveSpan.new 1 1] "/pong" PEER); [|done..].
  split_and!; [by apply RandomGenerator.generate_utf8..|done|done].
Qed.

Definition pong_segment (clock : nat → Z) (service instance service' instance' : string) (u1 u2 u6 : Z)
    : SegmentObject.t :=
  SegmentObject.Mk (RandomGenerator.generate u1) (RandomGenerator.generate u6)
    [span_spec (clock 1%nat) (clock 2%nat) 0 (-1) "/pong" "" Entry Http
       [propagation_ref (RandomGenerator.generate u1) (ping_context service instance u1 u2)]]
    service' instance' false.
End Runs.

(** ** Routing *)
Lemma route_served {S} served (handle : M S unit) req s s' :
  Request.method req = "GET" → Request.path req = served → s ⊢ handle ⇓ tt ⊣ s' → s ⊢ route served handle req ⇓ ok_response ⊣ s'.
Proof. intros Hm Hp H. unfold route. rewrite Hm, Hp, !String.eqb_refl. cbn [andb]. by erewrite bind_Ret by exact H. Qed.

(** Any other request, as the health checks are, leaves the process and the
    network alone: nothing of it is traced or logged. *)
Lemma route_others {S} served (handle : M S unit) req s :
  Request.method req ≠ "GET" ∨ Request.path req ≠ served →
  ∃ r, (s ⊢ route served handle req ⇓ r ⊣ s) ∧ (Response.status r = 404 ∨ Request.path req = "/healthCheck").
Proof.
  intros H. unfold route.
  destruct (String.eqb_spec (Request.method req) "GET") as [Hm|Hm]; cbn [andb]; [|eexists; split; [done|by left]].
  destruct (String.eqb_spec (Request.path req) served) as [Hp|Hp]; [by destruct H|].
  destruct (String.eqb_spec (Request.path req) "/healthCheck"); eexists; (split; [done|auto]).
Qed.

(** ** The two processes together *)
Section EndToEnd.
Context {FE : ForeignErrors} {B : Base64} {BL : Base64Laws B} {BC : Build} {RW : RwLock} {PN : ProtoNums}.
Context `{HR : Report R W} (ok : R → W → Prop) (delivered : W → list CollectItem)
        {HL : ReportLaws R W ok delivered}.

(** A network that brings the request to the consumer; a panic of the handler
    fails the request, which the client unwraps; the response is not looked at. *)
Definition consumer (clock : nat → Z) (u5 u6 : Z) (req : Request.t) : M (Process R W) unit :=
  _ <- zoom (λ q, (q, tt)) (λ o _, o.1) (spawn_await (consumer_response clock u5 u6 req)) ;;
  ret tt.

(** The request that the test sends to the producer. *)
Definition ping_request : Request.t := Request.Mk "GET" "/ping" ∅.

(** The three segments and the three logs of a ping. *)
Definition producer_items (service instance : string) (clock clock2 : nat → Z) (u1 u2 u4 : Z) : list CollectItem :=
  [log_item service instance (clock 0%nat) ping_record;
   log_item service instance (clock 3%nat) (request_log u1 u2);
   Trace (callback_segment clock2 service instance u1 u2 u4);
   Trace (ping_segment clock service instance u1 u2)].
Definition consumer_items (service instance service' instance' : string) (clock : nat → Z) (u1 u2 u6 : Z)
    : list CollectItem :=
  [log_item service' instance' (clock 0%nat) pong_record;
   Trace (pong_segment clock service instance service' instance' u1 u2 u6)].

Lemma ping_pong_run (service instance service' instance' : string) r r' p q
    clock clock2 clock3 u1 u2 u3 u4 u5 u6 :
  serves ok service instance r p → serves ok service' instance' r' q →
  utf8_valid service = true → utf8_valid instance = true →
  in_unsigned 128 u1 = true → in_unsigned 128 u2 = true →
  ∃ p' q',
    ((p, q) ⊢ producer_response (consumer clock3 u5 u6) clock clock2 u1 u2 u3 u4 ping_request
       ⇓ ok_response ⊣ (p', q')) ∧
    after delivered p (producer_items service instance clock clock2 u1 u2 u4) p' ∧
    after delivered q (consumer_items service instance service' instance' clock3 u1 u2 u6) q' ∧
    serves ok service instance r p' ∧ serves ok service' instance' r' q'.
Proof.
  intros Hp Hq Hs Hi H1 H2.
  destruct (handle_pong_run ok delivered service' instance' r' q tt clock3 u5 u6 _ _ Hq
    (ping_header_decoded service instance u1 u2 Hs Hi H1 H2)) as (q' & Hpong & Hq' & Haq).
  assert (Hsend : q ⊢ consumer clock3 u5 u6 (pong_request (ping_header service instance u1 u2)) ⇓ tt ⊣ q').
  { assert (Hresp : (q, tt) ⊢ consumer_response clock3 u5 u6 (pong_request (ping_header service instance u1 u2))
      ⇓ ok_response ⊣ (q', tt)) by by apply route_served.
    unfold consumer. erewrite bind_Ret; [|by erewrite zoom_run by (apply spawn_await_run; exact Hresp)]. done. }
  destruct (handle_ping_run ok delivered service instance r p q q' _ clock clock2 u1 u2 u3 u4 Hp Hsend)
    as (p' & Hping & Hp' & Hap).
  exists p', q'. split_and!; [by apply route_served|done..].
Qed.

(** C9: the end-to-end scenario, whatever reporter the processes use. Serving
    [/ping] the producer reports two logs, the segment of the job and its own;
    serving [/pong] the consumer reports a log and a segment. The three segments
    belong to one trace: the request log names the exit span, the consumer's
    entry span refers to that exit span across processes, and the job's entry
    span to the local span across threads. *)
Theorem ping_pong_is_one_trace (service instance service' instance' : string) r r' p q
    clock clock2 clock3 u1 u2 u3 u4 u5 u6 :
  serves ok service instance r p → serves ok service' instance' r' q →
  utf8_valid service = true → utf8_valid instance = true →
  in_unsigned 128 u1 = true → in_unsigned 128 u2 = true →
  ∃ p' q',
    ((p, q) ⊢ producer_response (consumer clock3 u5 u6) clock clock2 u1 u2 u3 u4 ping_request
       ⇓ ok_response ⊣ (p', q')) ∧
    delivered (out p') = delivered (out p) ++
      [log_item service instance (clock 0%nat) ping_record;
       log_item service instance (clock 3%nat) (request_log u1 u2);
       Trace (callback_segment clock2 service instance u1 u2 u4);
       Trace (ping_segment clock service instance u1 u2)] ∧
    delivered (out q') = delivered (out q) ++
      [log_item service' instance' (clock3 0%nat) pong_record;
       Trace (pong_segment clock3 service instance service' instance' u1 u2 u6)] ∧
    serves ok service instance r p' ∧ serves ok service' instance' r' q'.
Proof.
  intros Hp Hq Hs Hi H1 H2.
  destruct (ping_pong_run _ _ _ _ _ _ _ _ clock clock2 clock3 u1 u2 u3 u4 u5 u6 Hp Hq Hs Hi H1 H2)
    as (p' & q' & Hr & Ap & Aq & Sp & Sq).
  exists p', q'. split_and!; [exact Hr|apply Ap|apply Aq|done|done].
Qed.

(** The request of the example: its context reports one segment, with the exit
    span as a child of the entry span. *)
Definition example_segment (clock : nat → Z) (u1 u2 : Z) (service instance : string) : SegmentObject.t :=
  SegmentObject.Mk (RandomGenerator.generate u1) (RandomGenerator.generate u2)
    [span_spec (clock 1%nat) (clock 2%nat) 1 0 "op2" "remote_peer" Exit Unknown [];
     span_spec (clock 0%nat) (clock 3%nat) 0 (-1) "op1" "" Entry Http []] service instance false.

(** It does so before the tracer goes: the tracer the handler was given is
    dropped after the context it was used for. *)
Lemma example_runs {N} (p : Process R W) (n : N) clock u1 u2 t service instance r w :
  upgraded (downgrade t) (memory p) = Some {| Tracer.service_name := service;
    Tracer.instance_name := instance; Tracer.reporter := r |} →
  (out p ⊢ report r (Trace (example_segment clock u1 u2 service instance)) ⇓ tt ⊣ w) →
  (p, n) ⊢ handle_request clock u1 u2 t ⇓ tt
    ⊣ (MkProcess (tracer_cell p) (logger_cell p) (tracer_drop t (memory p)) w, n).
Proof.
  intros Ht Hrep. pose proof (deref_of_upgraded _ _ _ Ht) as Hd.
  set (cx := context_new u1 u2 service instance (downgrade t)). set (c := ctx cx).
  pose proof (create_entry_span_run (clock 0%nat) "op1" c [] [] 1 wg_default eq_refl) as e.
  pose proof (create_exit_span_run (clock 1%nat) "op2" "remote_peer" (pushed "op1" c) []
    [ActiveSpan.new 0 0] 2 wg_default eq_refl ltac:(done)) as x. cbv zeta in e, x.
  unfold handle_request. apply (scoped_Ret _ _ _ _ (MkProcess (tracer_cell p) (logger_cell p) (memory p) w, n));
    [|reflexivity].
  erewrite bind_Ret; [|reflexivity]. cbn [id fst]. unfold create_trace_context. rewrite Hd.
  erewrite bind_Ret; [|reflexivity].
  eapply (with_context_reports cx _ (p, n) (p, n)).
  - eapply (with_span_run _ _ _ c [] [] 1 wg_default); [exact e|eapply with_span_run|]; [exact x|reflexivity..].
  - reflexivity.
  - exact Ht.
  - exact Hrep.
Qed.

Lemma example_reports_one_segment {N} (p : Process R W) (n : N) clock u1 u2 t service instance r :
  upgraded (downgrade t) (memory p) = Some {| Tracer.service_name := service;
    Tracer.instance_name := instance; Tracer.reporter := r |} →
  ok r (out p) →
  ∃ p', ((p, n) ⊢ handle_request clock u1 u2 t ⇓ tt ⊣ (p', n)) ∧
    delivered (out p') = delivered (out p) ++ [Trace (example_segment clock u1 u2 service instance)] ∧
    memory p' = tracer_drop t (memory p) ∧ ok r (out p').
Proof.
  intros Ht Hok.
  destruct (report_delivers r (out p) (Trace (example_segment clock u1 u2 service instance)) Hok)
    as (w & Hrep & Hok' & Hd).
  eexists. split; [by eapply example_runs|by split_and!].
Qed.
End EndToEnd.

(** ** The program of the repository, over two mock backends *)
Module E2eDemo.
#[local] Existing Instance text_errors.
#[local] Existing Instance Rfc4648.rfc4648.
#[local] Existing Instance Rfc4648.laws.
#[local] Existing Instance test_build.
#[local] Existing Instance CountingLock.lock.
#[local] Existing Instance example_nums.

Definition both : CombineReporter MockReporter MockReporter := MkCombine Mock Mock.
Abbreviation Backends := (CombineWorld (list CollectItem) (list CollectItem)).
Definition silent : Backends := MkCombineWorld [] [] [].
Abbreviation Proc := (Process (CombineReporter MockReporter MockReporter) Backends).
Abbreviation ok := (both_ok (R1 := MockReporter) (W1 := list CollectItem)
  (R2 := MockReporter) (W2 := list CollectItem) (λ _ _, True) (λ _ _, True)).
Abbreviation to_kafka := (λ w : Backends, id (kafka_world w)).

Lemma ping_pong_is_one_trace_witness :
  ∃ p q p' q' : Proc,
    (p, q) ⊢ producer_response (consumer Z.of_nat 5 6) Z.of_nat Z.of_nat 1 2 3 4 ping_request ⇓ ok_response ⊣ (p', q') ∧
    SegmentObject.trace_id <$>
      omap segment_of (kafka_world (out p') ++ kafka_world (out q')) = ["1"; "1"; "1"].
Proof.
  destruct (install_serves ok "producer" "node_0" both ∅ silent) as (p & _ & Hp & Sp); [done|].
  destruct (install_serves ok "consumer" "node_0" both ∅ silent) as (q & _ & Hq & Sq); [done|].
  destruct (ping_pong_is_one_trace ok to_kafka "producer" "node_0" "consumer" "node_0" both both p q
    Z.of_nat Z.of_nat Z.of_nat 1 2 3 4 5 6 Sp Sq eq_refl eq_refl eq_refl eq_refl)
    as (p' & q' & Hrun & Dp & Dq & _).
  exists p, q, p', q'. split; [exact Hrun|].
  cbn beta in Dp, Dq. unfold id in Dp, Dq. rewrite Dp, Dq, Hp, Hq. reflexivity.
Defined.

Lemma example_reports_one_segment_witness :
  let '(t, ts) := tracer_new "service" "instance" both ∅ in
  ∃ p' : Proc, (MkProcess None None ts silent, tt) ⊢ handle_request Z.of_nat 1 2 t ⇓ tt ⊣ (p', tt) ∧
    length (kafka_world (out p')) = 1%nat ∧ upgrade (downgrade t) (memory p') = None.
Proof.
  cbn. destruct (example_reports_one_segment ok to_kafka
    (MkProcess None None (tracer_new "service" "instance" both ∅).2 silent) tt Z.of_nat 1 2
    (tracer_new "service" "instance" both ∅).1 "service" "instance" both) as (p' & Hrun & Hd & Hm & _);
    [apply tracer_new_upgrade|done|].
  exists p'. split_and!; [exact Hrun| |].
  - cbn beta in Hd. unfold id in Hd. rewrite Hd. reflexivity.
  - rewrite Hm. apply (drop_last_upgrade "service" "instance" both ∅).
Defined.
End E2eDemo.
