(* ===== verification/Meter.v ===== *)
(** * src/metrics/meter.rs: counters, gauges and histograms

    Modules [Counter], [Gauge] and [Histogram] hold the three meters; the trait
    [Transform] is a class over the meter's own state and the environment its
    getter may read. The atomics of a meter are single steps; [Counter.Rate]
    interleaves them. [sort_by], [dedup] and [binary_search_by] are the
    operations of the standard library on vectors and slices. *)

From Stdlib Require Import Sorting.Sorted.
From S2P Require Import Prelude RustStr Common F64 Proto.

Local Open Scope Z_scope.
Local Open Scope sky_scope.

(** ** Slices of the standard library *)
Section Slices.
Context {A : Type}.

(** [sort_by]: stable. *)
Fixpoint insert_stable (cmp : A → A → comparison) (x : A) (l : list A) : list A :=
  match l with
  | [] => [x]
  | y :: l' => match cmp x y with Gt => y :: insert_stable cmp x l' | _ => x :: l end
  end.
Fixpoint sort_by (cmp : A → A → comparison) (l : list A) : list A :=
  match l with [] => [] | x :: l' => insert_stable cmp x (sort_by cmp l') end.

(** [dedup]: drops an element equal to the last one kept. *)
Fixpoint dedup_after (eqb : A → A → bool) (x : A) (l : list A) : list A :=
  match l with
  | [] => []
  | y :: l' => if eqb y x then dedup_after eqb x l' else y :: dedup_after eqb y l'
  end.
Definition dedup (eqb : A → A → bool) (l : list A) : list A :=
  match l with [] => [] | x :: l' => x :: dedup_after eqb x l' end.

(** [binary_search_by]: halve while more than one candidate is left, then
    compare with it. [Ok] is a match, [Err] the insertion point. *)
Fixpoint search_loop (fuel : nat) (cmp : A → comparison) (l : list A) (size base : nat) : nat :=
  match fuel with
  | O => base
  | S fuel =>
      if (size <=? 1)%nat then base
      else
        let half := (size / 2)%nat in
        let mid := (base + half)%nat in
        let base := match cmp <$> l !! mid with Some Gt => base | _ => mid end in
        search_loop fuel cmp l (size - half) base
  end.
Definition binary_search_by (cmp : A → comparison) (l : list A) : result nat nat :=
  match l with
  | [] => Err 0%nat
  | _ =>
      let base := search_loop (length l) cmp l (length l) 0 in
      match cmp <$> l !! base with
      | Some Eq => Ok base
      | Some Lt => Err (S base)
      | _ => Err base
      end
  end.

(** *** Facts *)
Lemma insert_stable_perm cmp x l : insert_stable cmp x l ≡ₚ x :: l.
Proof.
  induction l as [|y l IH]; cbn; [done|]. destruct (cmp x y); [done..|].
  rewrite IH. apply Permutation_swap.
Qed.

Lemma sort_by_perm cmp l : sort_by cmp l ≡ₚ l.
Proof. induction l as [|x l IH]; cbn; [done|]. by rewrite insert_stable_perm, IH. Qed.

(** The halving ends within the fuel; [P] marks the candidates that compare
    as [Gt], an upper part of the list. *)
Lemma search_loop_spec cmp l fuel size base :
  (∀ i j x y, (i ≤ j)%nat → l !! i = Some x → l !! j = Some y → cmp x = Gt → cmp y = Gt) →
  (1 ≤ size ≤ S fuel)%nat → (base + size ≤ length l)%nat →
  (∀ j y, (base + size ≤ j)%nat → l !! j = Some y → cmp y = Gt) →
  (base ≠ 0%nat → ∀ y, l !! base = Some y → cmp y ≠ Gt) →
  let b := search_loop fuel cmp l size base in
  (b < length l)%nat ∧ (∀ j y, (b < j)%nat → l !! j = Some y → cmp y = Gt) ∧
  (b ≠ 0%nat → ∀ y, l !! b = Some y → cmp y ≠ Gt).
Proof.
  intros Hmono. revert size base. induction fuel as [|fuel IH]; intros size base Hs Hb Hgt Hle; cbn [search_loop]; cbv zeta.
  - assert (size = 1%nat) as -> by lia. split_and!; [lia| |done]. intros j y Hj. apply Hgt. lia.
  - destruct (Nat.leb_spec size 1).
    { assert (size = 1%nat) as -> by lia. split_and!; [lia| |done]. intros j y Hj. apply Hgt. lia. }
    assert (1 ≤ size / 2 < size ∧ 2 * (size / 2) ≤ size)%nat.
    { pose proof (Nat.div_mod_eq size 2). pose proof (Nat.mod_upper_bound size 2). lia. }
    generalize dependent (size / 2)%nat; intros h Hh.
    destruct (lookup_lt_is_Some_2 l (base + h)) as [x Hx]; [lia|]. rewrite Hx. cbn.
    destruct (cmp x) eqn:Hc; apply IH; try lia.
    + intros j y Hj. apply Hgt. lia.
    + intros _ y Hy. congruence.
    + intros j y Hj. apply Hgt. lia.
    + intros _ y Hy. congruence.
    + intros j y Hj Hy. destruct (Nat.le_gt_cases (base + size) j); [by eapply Hgt|].
      apply (Hmono (base + h)%nat j x y); [lia|done..].
    + done.
Qed.

Lemma search_loop_bound cmp (l : list A) fuel size base :
  (1 ≤ size)%nat → (base + size ≤ length l)%nat → (search_loop fuel cmp l size base < length l)%nat.
Proof.
  revert size base. induction fuel as [|fuel IH]; intros size base Hs Hb; cbn [search_loop]; [lia|]; cbv zeta.
  destruct (Nat.leb_spec size 1); [lia|].
  assert (1 ≤ size / 2 < size ∧ 2 * (size / 2) ≤ size)%nat.
  { pose proof (Nat.div_mod_eq size 2). pose proof (Nat.mod_upper_bound size 2). lia. }
  generalize dependent (size / 2)%nat; intros h Hh.
  destruct (lookup_lt_is_Some_2 l (base + h)) as [x Hx]; [lia|]. rewrite Hx. cbn.
  destruct (cmp x); apply IH; lia.
Qed.
End Slices.

(** ** Identity of a meter *)
Inductive MeterType := TypeCounter | TypeGauge | TypeHistogram.
#[export] Instance MeterType_eq_dec : EqDecision MeterType.
Proof. solve_decision. Defined.

Module MeterId.
Record t := Mk { name : string; typ : MeterType; labels : list (string * string) }.
#[export] Instance eq_dec : EqDecision t.
Proof. solve_decision. Defined.
#[export] Instance countable : Countable t.
Proof.
  refine (inj_countable'
    (λ i, (name i, match typ i with TypeCounter => 0%nat | TypeGauge => 1%nat | _ => 2%nat end, labels i))
    (λ x, Mk x.1.1 (match x.1.2 with O => TypeCounter | 1%nat => TypeGauge | _ => TypeHistogram end) x.2) _).
  by intros [n [] l].
Defined.

Definition new (name : string) (typ : MeterType) : t := Mk name typ [].
Definition add_label (key value : string) (i : t) : t := Mk (name i) (typ i) (labels i ++ [(key, value)]).
Definition add_labels (tags : list (string * string)) (i : t) : t := Mk (name i) (typ i) (labels i ++ tags).

(** The labels of the message. *)
Definition to_labels (i : t) : list Label.t :=
  map (λ '(name, value), Label.Mk name value) (labels i).
End MeterId.
Export (hints) MeterId.

(** ** [Transform]: [T] is the meter, [E] what its getter reads; the metricer
    gives its service and instance. *)
Class Transform (T E : Type) := {
  meter_id : T → MeterId.t;
  transform : Z → string → string → M (T * E) MeterData.t
}.

(** The message around a metric. *)
Definition meter_data `{!Build} (now : Z) (service instance : string) (m : MeterData.Metric) : MeterData.t :=
  MeterData.Mk service instance (SystemTime.fetch_time now SystemTime.Metric) (Some m).

Definition single_value (i : MeterId.t) (v : f64) : MeterData.Metric :=
  MeterData.SingleValue (MeterSingleValue.Mk (MeterId.name i) (MeterId.to_labels i) v).

(** ** [Counter] *)
Module Counter.
Inductive CounterMode := INCREMENT | RATE.

Record t := Mk { id : MeterId.t; mode_ : CounterMode; count : f64; previous_count : f64 }.

Definition new (name : string) : t := Mk (MeterId.new name TypeCounter) INCREMENT f64_zero f64_zero.
Definition add_label (key value : string) (c : t) : t :=
  Mk (MeterId.add_label key value (id c)) (mode_ c) (count c) (previous_count c).
Definition add_labels (tags : list (string * string)) (c : t) : t :=
  Mk (MeterId.add_labels tags (id c)) (mode_ c) (count c) (previous_count c).
Definition mode (m : CounterMode) (c : t) : t := Mk (id c) m (count c) (previous_count c).

(** [increment] and [get]: one atomic access each. *)
Definition increment (n : f64) : M t unit :=
  modify (λ c, Mk (id c) (mode_ c) (f64_add (count c) n) (previous_count c)).
Definition get : M t f64 := gets count.

(** [self.previous_count.swap(current_count, ..)]. *)
Definition swap_previous (current_count : f64) : M t f64 :=
  previous <- gets previous_count ;;
  modify (λ c, Mk (id c) (mode_ c) (count c) current_count) ;;
  ret previous.

(** The value that [transform] sends. *)
Definition value : M t f64 :=
  m <- gets mode_ ;;
  match m with
  | INCREMENT => get
  | RATE =>
      current_count <- get ;;
      previous_count <- swap_previous current_count ;;
      ret (f64_sub current_count previous_count)
  end.

Definition transform_counter `{!Build} (now : Z) (service instance : string) : M t MeterData.t :=
  v <- value ;; i <- gets id ;; ret (meter_data now service instance (single_value i v)).

#[export] Instance Transform_Counter `{!Build} E : Transform t E := {|
  meter_id := id;
  transform now service instance :=
    zoom fst (λ c s, (c, s.2)) (transform_counter now service instance)
|}.
End Counter.
Export (hints) Counter.

(** ** [Gauge] *)
Module Gauge.
(** The getter is a closure: it reads (and may change) the environment. *)
Record t (E : Type) := Mk { id : MeterId.t; getter : M E f64 }.
Arguments Mk {E}. Arguments id {E}. Arguments getter {E}.

Definition new {E} (name : string) (getter : M E f64) : t E := Mk (MeterId.new name TypeGauge) getter.
Definition add_label {E} (key value : string) (g : t E) : t E :=
  Mk (MeterId.add_label key value (id g)) (getter g).
Definition add_labels {E} (tags : list (string * string)) (g : t E) : t E :=
  Mk (MeterId.add_labels tags (id g)) (getter g).

Definition get {E} (g : t E) : M E f64 := getter g.

Definition transform_gauge `{!Build} {E} (now : Z) (service instance : string) (g : t E) : M E MeterData.t :=
  v <- get g ;; ret (meter_data now service instance (single_value (id g) v)).

#[export] Instance Transform_Gauge `{!Build} E : Transform (t E) E := {|
  meter_id := id;
  transform now service instance := λ s,
    zoom snd (λ e s, (s.1, e)) (transform_gauge now service instance s.1) s
|}.
End Gauge.
Export (hints) Gauge.

(** ** [Histogram] *)
Module Histogram.
Record Bucket := MkBucket { bucket : f64; count : Z }.
Record t := Mk { id : MeterId.t; buckets : list Bucket }.

(** [a.partial_cmp(b).unwrap_or(Equal)]. *)
Definition cmp_or_equal (a b : f64) : comparison := default Eq (f64_cmp a b).

Definition Bucket_new (bucket : f64) : Bucket := MkBucket bucket 0.
Definition new (name : string) (steps : list f64) : t :=
  Mk (MeterId.new name TypeHistogram)
     (map Bucket_new (dedup f64_eqb (sort_by cmp_or_equal steps))).
Definition add_label (key value : string) (h : t) : t :=
  Mk (MeterId.add_label key value (id h)) (buckets h).
Definition add_labels (tags : list (string * string)) (h : t) : t :=
  Mk (MeterId.add_labels tags (id h)) (buckets h).

(** [find_bucket]. *)
Definition find_bucket (value : f64) (bs : list Bucket) : option nat :=
  match binary_search_by (λ b, cmp_or_equal (bucket b) value) bs with
  | Ok i => Some i
  | Err i => if (1 <=? i)%nat then Some (i - 1)%nat else None
  end.

Definition INDEX_MSG : string := "index out of bounds".

(** [fetch_add] on the [i64] of one bucket. *)
Definition bump (b : Bucket) : Bucket := MkBucket (bucket b) (wrap_signed 64 (count b + 1)).

(** [add_value]. *)
Definition add_value (value : f64) : M t unit :=
  bs <- gets buckets ;;
  match find_bucket value bs with
  | Some index =>
      _ <- expect INDEX_MSG (bs !! index) ;;
      modify (λ h, Mk (id h) (alter bump index (buckets h)))
  | None => ret tt
  end.

Definition transform_histogram `{!Build} (now : Z) (service instance : string) : M t MeterData.t :=
  h <- gets (λ h, h) ;;
  ret (meter_data now service instance (MeterData.Histogram
    (MeterHistogram.Mk (MeterId.name (id h)) (MeterId.to_labels (id h))
       (map (λ b, MeterBucketValue.Mk (bucket b) (count b) false) (buckets h))))).

#[export] Instance Transform_Histogram `{!Build} E : Transform t E := {|
  meter_id := id;
  transform now service instance :=
    zoom fst (λ h s, (h, s.2)) (transform_histogram now service instance)
|}.
End Histogram.
Export (hints) Histogram.

#[global] Arguments Histogram.add_value : simpl never.

(** ** Sorted vectors of [f64] *)
Section Sorted.
Implicit Types (l : list f64) (x y v : f64).

Definition numbers l : Prop := Forall (λ x, is_nan x = false) l.

Lemma cmp_or_equal_number x y c :
  is_nan x = false → is_nan y = false →
  Histogram.cmp_or_equal x y = c ↔ f64_cmp x y = Some c.
Proof. intros. unfold Histogram.cmp_or_equal. rewrite f64_cmp_key by done. cbn. naive_solver. Qed.

Lemma cmp_or_equal_nan x y : is_nan y = true → Histogram.cmp_or_equal x y = Eq.
Proof. intros H. unfold Histogram.cmp_or_equal. rewrite f64_cmp_nan; [done|]. by rewrite H, orb_true_r. Qed.

Lemma insert_sorted x l :
  is_nan x = false → numbers l → StronglySorted f64_le l →
  StronglySorted f64_le (insert_stable Histogram.cmp_or_equal x l).
Proof.
  intros Hx Hl Hs. induction Hs as [|y l Hs IH Hy]; cbn; [by repeat constructor|].
  apply Forall_cons in Hl as [Hny Hl].
  destruct (Histogram.cmp_or_equal x y) eqn:E; apply cmp_or_equal_number in E; try done.
  1, 2: constructor; [by constructor|]; assert (f64_le x y) by (unfold f64_le; auto);
    constructor; [done|]; eapply Forall_impl; [exact Hy|]; intros z; by apply f64_le_trans.
  constructor; [by apply IH|]. rewrite insert_stable_perm. constructor; [|done].
  left. rewrite f64_cmp_antisym, E. done.
Qed.

Lemma sort_sorted l : numbers l → StronglySorted f64_le (sort_by Histogram.cmp_or_equal l).
Proof.
  induction l as [|x l IH]; intros Hl; cbn; [constructor|].
  apply Forall_cons in Hl as [Hx Hl]. apply insert_sorted; [done| |by apply IH].
  unfold numbers. by rewrite sort_by_perm.
Qed.

(** Equal neighbours go, so that the rest is strictly ascending. *)
Lemma dedup_after_sorted x l :
  StronglySorted f64_le (x :: l) → StronglySorted f64_lt (x :: dedup_after f64_eqb x l).
Proof.
  revert x. induction l as [|y l IH]; intros x Hs; cbn; [by repeat constructor|].
  apply StronglySorted_inv in Hs as [Hs Hx]. apply Forall_cons in Hx as [Hxy Hx].
  destruct (f64_eqb y x) eqn:E.
  - apply IH. apply StronglySorted_inv in Hs as [Hs _]. by constructor.
  - assert (f64_lt x y) as Hlt.
    { destruct Hxy as [?|H]; [done|]. exfalso. apply not_true_iff_false in E. apply E.
      apply f64_eqb_spec. by rewrite f64_cmp_antisym, H. }
    specialize (IH y Hs). constructor; [done|]. constructor; [done|].
    apply StronglySorted_inv in IH as [_ IH]. eapply Forall_impl; [exact IH|].
    intros z. by apply f64_lt_trans.
Qed.

Lemma dedup_sorted l : StronglySorted f64_le l → StronglySorted f64_lt (dedup f64_eqb l).
Proof. destruct l as [|x l]; intros H; cbn; [constructor|by apply dedup_after_sorted]. Qed.

Lemma dedup_after_elem x l y :
  is_nan x = false → numbers l →
  (y ∈ dedup_after f64_eqb x l → y ∈ l) ∧
  (y ∈ l → ∃ z, z ∈ x :: dedup_after f64_eqb x l ∧ f64_eqb y z = true).
Proof.
  revert x. induction l as [|w l IH]; intros x Hx Hl; cbn; [split; intros H; by apply elem_of_nil in H|].
  apply Forall_cons in Hl as [Hw Hl]. destruct (f64_eqb w x) eqn:E.
  - destruct (IH x Hx Hl) as [H1 H2]. split; [set_solver|].
    intros [->|H]%elem_of_cons; [exists x; set_solver|by apply H2].
  - destruct (IH w Hw Hl) as [H1 H2]. split; [set_solver|].
    intros [->|H]%elem_of_cons.
    + exists w. split; [set_solver|]. apply f64_eqb_spec. rewrite f64_cmp_key by done.
      f_equal. by apply key_cmp_eq.
    + destruct (H2 H) as (z & ? & ?). exists z. set_solver.
Qed.

Lemma sorted_lookup (R : f64 → f64 → Prop) l i j x y :
  StronglySorted R l → (i < j)%nat → l !! i = Some x → l !! j = Some y → R x y.
Proof.
  intros Hs. revert i j. induction Hs as [|z l Hs IH Hz]; intros i j Hij Hi Hj; [done|].
  destruct j as [|j]; [lia|]. destruct i as [|i]; cbn in *; simplify_eq.
  - rewrite Forall_forall in Hz. apply Hz. by eapply list_elem_of_lookup_2.
  - by apply (IH i j); [lia|..].
Qed.
End Sorted.

(** ** Finding and counting *)
Section Histograms.
Implicit Types (bs : list Histogram.Bucket) (v : f64).

(** The reference: bucket [i] owns the values from its bound up to the next
    bound, which is left out. *)
Definition owns (bounds : list f64) (i : nat) (v : f64) : bool :=
  match bounds !! i with
  | Some b => f64_leb b v && match bounds !! S i with Some b' => f64_ltb v b' | None => true end
  | None => false
  end.

Definition ascending (bounds : list f64) : Prop := numbers bounds ∧ StronglySorted f64_lt bounds.

Definition bounds_of (bs : list Histogram.Bucket) : list f64 := Histogram.bucket <$> bs.

Lemma bounds_lookup bs i : bounds_of bs !! i = Histogram.bucket <$> bs !! i.
Proof. apply list_lookup_fmap. Qed.

Lemma search_mono v bs i j x y :
  ascending (bounds_of bs) → is_nan v = false → (i ≤ j)%nat → bs !! i = Some x → bs !! j = Some y →
  Histogram.cmp_or_equal (Histogram.bucket x) v = Gt → Histogram.cmp_or_equal (Histogram.bucket y) v = Gt.
Proof.
  intros [Hn Hs] Hv Hij Hx Hy. destruct (decide (i = j)) as [->|Hne]; [congruence|].
  assert (Hbx : bounds_of bs !! i = Some (Histogram.bucket x)) by (by rewrite bounds_lookup, Hx).
  assert (Hby : bounds_of bs !! j = Some (Histogram.bucket y)) by (by rewrite bounds_lookup, Hy).
  assert (f64_lt (Histogram.bucket x) (Histogram.bucket y)) as Hlt by (eapply sorted_lookup; [exact Hs| |done..]; lia).
  destruct (f64_cmp_not_nan _ _ _ Hlt) as [Hnx Hny]. rewrite !cmp_or_equal_number by done. intros H.
  assert (f64_lt v (Histogram.bucket y)) as H'.
  { eapply f64_lt_trans; [|exact Hlt]. unfold f64_lt. by rewrite f64_cmp_antisym, H. }
  by rewrite f64_cmp_antisym, H'.
Qed.

Definition against (v : f64) (b : Histogram.Bucket) : comparison :=
  Histogram.cmp_or_equal (Histogram.bucket b) v.

(** The candidate the halving ends with decides the answer. *)
Lemma find_bucket_base v bs :
  bs ≠ [] →
  ∃ base b, bs !! base = Some b ∧
    Histogram.find_bucket v bs =
      match against v b with
      | Gt => if (1 <=? base)%nat then Some (base - 1)%nat else None
      | _ => Some base
      end ∧
    (ascending (bounds_of bs) → is_nan v = false →
      (∀ j b', (base < j)%nat → bs !! j = Some b' → against v b' = Gt) ∧
      (base ≠ 0%nat → against v b ≠ Gt)).
Proof.
  intros Hbs. set (base := search_loop (length bs) (against v) bs (length bs) 0).
  assert (Hlen : (1 ≤ length bs)%nat) by (destruct bs; [done|cbn; lia]).
  assert (Hbase : (base < length bs)%nat) by (apply search_loop_bound; lia).
  apply lookup_lt_is_Some_2 in Hbase as [b Hb]. exists base, b. split; [done|]. split.
  - unfold Histogram.find_bucket, binary_search_by. fold (against v).
    destruct bs as [|b0 bs0]; [done|]. fold base. cbv zeta. rewrite Hb. cbn [fmap option_fmap option_map].
    destruct (against v b); [done| |done]. cbn. by rewrite Nat.sub_0_r.
  - intros Hasc Hv. destruct (search_loop_spec (against v) bs (length bs) (length bs) 0) as (_ & Hgt & Hle).
    + intros i j x y. by apply search_mono.
    + lia.
    + lia.
    + intros j y Hj Hy%lookup_lt_Some. lia.
    + done.
    + split; [exact Hgt|]. intros H0. by apply Hle.
Qed.

Lemma find_bucket_bound v bs i : Histogram.find_bucket v bs = Some i → (i < length bs)%nat.
Proof.
  destruct (decide (bs = [])) as [->|Hbs]; [done|].
  destruct (find_bucket_base v bs Hbs) as (base & b & Hb%lookup_lt_Some & -> & _).
  destruct (against v b); [|..]; try (by intros [= <-]).
  destruct (1 <=? base)%nat; intros; simplify_eq. lia.
Qed.

(** A NaN compares as equal to every bound, so it is always given a bucket. *)
Lemma find_bucket_nan v bs :
  is_nan v = true → bs ≠ [] → is_Some (Histogram.find_bucket v bs).
Proof.
  intros Hv Hbs. destruct (find_bucket_base v bs Hbs) as (base & b & _ & -> & _).
  unfold against. rewrite cmp_or_equal_nan by done. eauto.
Qed.

Lemma against_spec v b :
  is_nan (Histogram.bucket b) = false → is_nan v = false →
  (f64_leb (Histogram.bucket b) v = true ↔ against v b ≠ Gt) ∧
  (f64_ltb v (Histogram.bucket b) = true ↔ against v b = Gt).
Proof.
  intros Hb Hv. unfold against, f64_leb, f64_ltb, Histogram.cmp_or_equal.
  rewrite (f64_cmp_antisym (Histogram.bucket b) v), f64_cmp_key by done. cbn.
  by destruct (key_cmp _ _).
Qed.

(** What the binary search means: the owner, if there is one. *)
Lemma find_bucket_owns v bs i :
  ascending (bounds_of bs) → is_nan v = false →
  Histogram.find_bucket v bs = Some i ↔ owns (bounds_of bs) i v = true.
Proof.
  intros Hasc Hv. assert (Hnum : ∀ j b, bs !! j = Some b → is_nan (Histogram.bucket b) = false).
  { intros j b Hb. destruct Hasc as [Hn _]. unfold numbers in Hn. rewrite Forall_forall in Hn.
    apply Hn. apply (list_elem_of_lookup_2 _ j). by rewrite bounds_lookup, Hb. }
  destruct (decide (bs = [])) as [->|Hbs]; [done|].
  destruct (find_bucket_base v bs Hbs) as (base & b & Hb & -> & Hspec).
  destruct (Hspec Hasc Hv) as [Hgt Hle]. unfold owns. rewrite !bounds_lookup.
  assert (Hno : against v b = Gt → base = 0%nat) by (intros; destruct (decide (base = 0%nat)); naive_solver).
  destruct (against_spec v b (Hnum _ _ Hb) Hv) as [Hleb _].
  transitivity (against v b ≠ Gt ∧ i = base).
  { destruct (against v b) eqn:E; naive_solver. }
  split.
  - intros [HGt ->]. rewrite Hb. cbn. rewrite (proj2 Hleb HGt). cbn.
    destruct (bs !! S base) as [b'|] eqn:Hb'; [|done]. cbn.
    apply (against_spec v b' (Hnum _ _ Hb') Hv). apply (Hgt (S base)); [lia|done].
  - destruct (bs !! i) as [bi|] eqn:Hbi; [cbn|done]. intros [Hi Hnext]%andb_true_iff.
    apply (against_spec v bi (Hnum _ _ Hbi) Hv) in Hi.
    assert (i ≤ base)%nat by (apply Nat.le_ngt; intros Hlt; apply Hi; by apply (Hgt i)).
    enough (i = base) as -> by naive_solver. destruct (decide (i = base)) as [?|Hne]; [done|].
    exfalso. destruct (lookup_lt_is_Some_2 bs (S i)) as [b' Hb'].
    { apply lookup_lt_Some in Hb. lia. }
    rewrite Hb' in Hnext. cbn in Hnext. apply (against_spec v b' (Hnum _ _ Hb') Hv) in Hnext.
    apply (Hle ltac:(lia)). eapply (search_mono v bs (S i) base b' b); try done. lia.
Qed.

(** A second reference, on the steps as they were given: the greatest step that
    is not above the value, found by looking at every step. *)
Definition better v (best : option f64) (s : f64) : option f64 :=
  if f64_leb s v
  then match best with Some b => if f64_ltb b s then Some s else best | None => Some s end
  else best.
Definition reference_bound v (steps : list f64) : option f64 := foldl (better v) None steps.

Definition is_greatest v (steps : list f64) (r : option f64) : Prop :=
  match r with
  | Some b => b ∈ steps ∧ f64_le b v ∧ ∀ s, s ∈ steps → f64_le s v → f64_le s b
  | None => ∀ s, s ∈ steps → ¬ f64_le s v
  end.

Lemma reference_greatest v steps : numbers steps → is_greatest v steps (reference_bound v steps).
Proof.
  unfold reference_bound. induction steps as [|s steps IH] using rev_ind; [intros _ x Hx; by apply elem_of_nil in Hx|].
  intros [Hn Hs]%Forall_app. rewrite Forall_singleton in Hs. rewrite foldl_app. cbn. specialize (IH Hn).
  unfold better at 1. destruct (f64_leb s v) eqn:Esv.
  - apply f64_leb_spec in Esv. destruct (foldl (better v) None steps) as [b|]; cbn in *.
    + destruct IH as (Hb & Hbv & Hall). pose proof (f64_le_number _ _ Hbv) as [Hbn _].
      destruct (f64_ltb b s) eqn:Ebs.
      * apply f64_ltb_spec in Ebs. split_and!; [set_solver|done|].
        intros x [Hx|Hx]%elem_of_app Hxv; [left; apply (f64_le_lt_trans x b s); [by apply Hall|exact Ebs]|].
        apply list_elem_of_singleton in Hx as ->. by apply f64_le_refl.
      * split_and!; [set_solver|done|]. intros x [Hx|Hx]%elem_of_app Hxv; [by apply Hall|].
        apply list_elem_of_singleton in Hx as ->. apply not_true_iff_false in Ebs. rewrite f64_ltb_spec in Ebs.
        destruct (f64_total b s Hbn Hs) as [?|[E|?]]; [done| |by left]. right. by rewrite f64_cmp_antisym, E.
    + split_and!; [set_solver|done|]. intros x [Hx|Hx]%elem_of_app Hxv; [by destruct (IH x Hx)|].
      apply list_elem_of_singleton in Hx as ->. by apply f64_le_refl.
  - apply not_true_iff_false in Esv. rewrite f64_leb_spec in Esv.
    destruct (foldl (better v) None steps) as [b|]; cbn in *.
    + destruct IH as (Hb & Hbv & Hall). split_and!; [set_solver|done|].
      intros x [Hx|Hx]%elem_of_app Hxv; [by apply Hall|]. by apply list_elem_of_singleton in Hx as ->.
    + intros x [Hx|Hx]%elem_of_app; [by apply IH|]. by apply list_elem_of_singleton in Hx as ->.
Qed.

(** There is one answer, up to the sign of zero. *)
Lemma greatest_unique v steps r r' :
  is_greatest v steps r → is_greatest v steps r' → option_Forall2 (λ x y, f64_eqb x y = true) r r'.
Proof.
  destruct r as [b|], r' as [b'|]; cbn.
  - intros (Hb & Hbv & Hall) (Hb' & Hbv' & Hall'). constructor. apply f64_eqb_spec, f64_le_antisym; auto.
  - intros (Hb & Hbv & _) Hno. by destruct (Hno b Hb).
  - intros Hno (Hb & Hbv & _). by destruct (Hno b' Hb).
  - constructor.
Qed.

(** Steps that are equal to one of the bounds do not matter. *)
Lemma greatest_transfer v bounds steps r :
  (∀ s, (s ∈ bounds → s ∈ steps) ∧ (s ∈ steps → ∃ z, z ∈ bounds ∧ f64_eqb s z = true)) →
  is_greatest v bounds r → is_greatest v steps r.
Proof.
  intros Hset. assert (Heq : ∀ s z, f64_eqb s z = true → f64_le s z ∧ f64_le z s).
  { intros s z H%f64_eqb_spec. split; right; [done|by rewrite f64_cmp_antisym, H]. }
  destruct r as [b|]; cbn.
  - intros (Hb & Hbv & Hall). split_and!; [by apply Hset|done|].
    intros s (z & Hz & [Hsz Hzs]%Heq)%Hset Hsv. eapply f64_le_trans; [exact Hsz|].
    apply Hall; [done|]. by eapply f64_le_trans.
  - intros Hno s (z & Hz & [Hsz Hzs]%Heq)%Hset Hsv. apply (Hno z Hz). by eapply f64_le_trans.
Qed.

(** The bound of the bucket that the code chooses. *)
Definition chosen v bs : option f64 := i ← Histogram.find_bucket v bs; Histogram.bucket <$> bs !! i.

Lemma chosen_greatest v bs :
  ascending (bounds_of bs) → is_nan v = false → is_greatest v (bounds_of bs) (chosen v bs).
Proof.
  intros Hasc Hv. unfold chosen. destruct (decide (bs = [])) as [->|Hbs]; [intros x Hx; by apply elem_of_nil in Hx|].
  destruct (find_bucket_base v bs Hbs) as (base & b & Hb & -> & Hspec).
  destruct (Hspec Hasc Hv) as [Hgt Hle]. destruct Hasc as [Hn Hs].
  assert (Hnum : ∀ j x, bounds_of bs !! j = Some x → is_nan x = false).
  { intros j x Hx. unfold numbers in Hn. rewrite Forall_forall in Hn. apply Hn. by eapply list_elem_of_lookup_2. }
  assert (Hbb : bounds_of bs !! base = Some (Histogram.bucket b)) by by rewrite bounds_lookup, Hb.
  destruct (against_spec v b (Hnum _ _ Hbb) Hv) as [Hleb _].
  assert (Habove : ∀ j x, (base < j)%nat → bounds_of bs !! j = Some x → ¬ f64_le x v).
  { intros j x Hj Hx Hxv. rewrite bounds_lookup in Hx. destruct (bs !! j) as [b'|] eqn:Hb'; [|done].
    injection Hx as <-. destruct (against_spec v b') as [H _]; [|done|].
    { apply (Hnum j). by rewrite bounds_lookup, Hb'. }
    apply f64_leb_spec, H in Hxv. by apply Hxv, (Hgt j). }
  destruct (decide (against v b = Gt)) as [E|E].
  - rewrite E. assert (base = 0%nat) as -> by (destruct (decide (base = 0%nat)); naive_solver).
    cbn. intros x (j & Hj)%list_elem_of_lookup Hxv. destruct j as [|j]; [|eapply Habove; [|exact Hj|done]; lia].
    rewrite Hbb in Hj. injection Hj as <-. apply f64_leb_spec, Hleb in Hxv. done.
  - assert (Hb0 : match against v b with Gt => if (1 <=? base)%nat then Some (base - 1)%nat else None
              | _ => Some base end = Some base) by by destruct (against v b).
    rewrite Hb0. cbn. rewrite Hb. cbn. split_and!.
    + by eapply list_elem_of_lookup_2.
    + by apply f64_leb_spec, Hleb.
    + intros x (j & Hj)%list_elem_of_lookup Hxv. destruct (Nat.lt_trichotomy j base) as [?|[->|?]].
      * left. by apply (sorted_lookup f64_lt (bounds_of bs) j base).
      * rewrite Hbb in Hj. injection Hj as <-. by apply f64_le_refl, (Hnum base).
      * by destruct (Habove j x).
Qed.
End Histograms.

Section Counting.
Lemma add_value_run v h :
  h ⊢ Histogram.add_value v ⇓ tt ⊣
    Histogram.Mk (Histogram.id h)
      (match Histogram.find_bucket v (Histogram.buckets h) with
       | Some i => alter Histogram.bump i (Histogram.buckets h)
       | None => Histogram.buckets h
       end).
Proof.
  unfold Histogram.add_value. rewrite (bind_Ret (gets Histogram.buckets) _ _ (Histogram.buckets h) h) by done.
  destruct (Histogram.find_bucket v (Histogram.buckets h)) as [i|] eqn:E; [|by destruct h].
  apply find_bucket_bound, lookup_lt_is_Some_2 in E as [b Hb]. by rewrite Hb.
Qed.

(** Values added one after the other; [fetch_add] makes the order of
    concurrent additions immaterial. *)
Fixpoint add_values (vs : list f64) : M Histogram.t unit :=
  match vs with [] => ret tt | v :: vs => Histogram.add_value v ;; add_values vs end.

Definition owned (bounds : list f64) (i : nat) (vs : list f64) : nat :=
  length (filter (λ v, owns bounds i v = true) vs).

#[local] Arguments owned : simpl never.

Lemma owned_cons bounds i v vs :
  owned bounds i (v :: vs) = ((if owns bounds i v then 1 else 0) + owned bounds i vs)%nat.
Proof. unfold owned. rewrite filter_cons. destruct (owns bounds i v); by case_decide. Qed.

Definition recount (vs : list f64) (bs : list Histogram.Bucket) : list Histogram.Bucket :=
  imap (λ i b, Histogram.MkBucket (Histogram.bucket b)
                 (wrap_signed 64 (Histogram.count b + Z.of_nat (owned (bounds_of bs) i vs)))) bs.

#[local] Arguments recount : simpl never.

Lemma bump_bounds i bs : bounds_of (alter Histogram.bump i bs) = bounds_of bs.
Proof.
  apply list_eq. intros j. rewrite !bounds_lookup. destruct (decide (i = j)) as [->|Hne].
  - rewrite list_lookup_alter_eq. by destruct (bs !! j).
  - by rewrite list_lookup_alter_ne.
Qed.

Definition fitting (bs : list Histogram.Bucket) : Prop :=
  Forall (λ b, in_signed 64 (Histogram.count b) = true) bs.

Lemma fitting_alter i bs : fitting bs → fitting (alter Histogram.bump i bs).
Proof.
  intros H. apply Forall_alter; [done|]. intros b _ _. by apply wrap_signed_range.
Qed.

Lemma not_owned v bs i j :
  Histogram.find_bucket v bs = Some j → j ≠ i →
  ascending (bounds_of bs) → is_nan v = false → owns (bounds_of bs) i v = false.
Proof.
  intros Hj Hne Hasc Hv. apply not_true_iff_false. rewrite <-find_bucket_owns by done. congruence.
Qed.

Lemma recount_cons v vs bs i :
  Histogram.find_bucket v bs = Some i →
  ascending (bounds_of bs) → is_nan v = false →
  recount vs (alter Histogram.bump i bs) = recount (v :: vs) bs.
Proof.
  intros Hi Hasc Hv. apply list_eq. intros j. unfold recount. rewrite !list_lookup_imap, bump_bounds.
  destruct (decide (i = j)) as [->|Hne].
  - rewrite list_lookup_alter_eq. destruct (bs !! j) as [b|]; cbn; [|done].
    rewrite owned_cons, (proj1 (find_bucket_owns v bs j Hasc Hv) Hi), wrap_signed_add_l.
    do 3 f_equal. lia.
  - rewrite list_lookup_alter_ne by done. destruct (bs !! j) as [b|]; cbn; [|done].
    by rewrite owned_cons, (not_owned v bs j i).
Qed.

Lemma recount_skip v vs bs :
  Histogram.find_bucket v bs = None →
  ascending (bounds_of bs) → is_nan v = false → recount vs bs = recount (v :: vs) bs.
Proof.
  intros Hi Hasc Hv. apply imap_ext. intros i b _. cbn.
  rewrite owned_cons. destruct (owns (bounds_of bs) i v) eqn:E; [|done].
  apply find_bucket_owns in E; [congruence|done..].
Qed.

Lemma recount_nil bs : fitting bs → recount [] bs = bs.
Proof.
  intros H. apply list_eq. intros i. unfold recount. rewrite list_lookup_imap.
  destruct (bs !! i) as [b|] eqn:E; cbn; [|done].
  unfold fitting in H. rewrite Forall_forall in H. specialize (H b ltac:(by eapply list_elem_of_lookup_2)).
  rewrite Z.add_0_r, wrap_signed_id by done. by destruct b.
Qed.

Lemma add_values_run vs h :
  fitting (Histogram.buckets h) → ascending (bounds_of (Histogram.buckets h)) → numbers vs →
  h ⊢ add_values vs ⇓ tt ⊣ Histogram.Mk (Histogram.id h) (recount vs (Histogram.buckets h)).
Proof.
  revert h. induction vs as [|v vs IH]; intros h Hf Hasc Hn; cbn [add_values].
  { rewrite recount_nil by done. by destruct h. }
  apply Forall_cons in Hn as [Hv Hn]. rewrite (bind_Ret _ _ _ _ _ (add_value_run v h)).
  destruct (Histogram.find_bucket v (Histogram.buckets h)) as [i|] eqn:Hi.
  - rewrite IH; cbn; [|by apply fitting_alter|by rewrite bump_bounds|done].
    by rewrite (recount_cons v).
  - rewrite IH by done. cbn. by rewrite <-(recount_skip v).
Qed.

Lemma recount_bounds vs bs : bounds_of (recount vs bs) = bounds_of bs.
Proof.
  apply list_eq. intros i. rewrite !bounds_lookup. unfold recount. rewrite list_lookup_imap.
  by destruct (bs !! i).
Qed.

(** A new histogram. *)
Lemma new_bounds name steps :
  bounds_of (Histogram.buckets (Histogram.new name steps)) =
    dedup f64_eqb (sort_by Histogram.cmp_or_equal steps).
Proof. 
  cbn. generalize (dedup f64_eqb (sort_by Histogram.cmp_or_equal steps)). intros l.
  unfold bounds_of. induction l as [|x l IH]; [done|]. cbn. f_equal. exact IH.
Qed.

Lemma dedup_elem l y :
  numbers l →
  (y ∈ dedup f64_eqb l → y ∈ l) ∧ (y ∈ l → ∃ z, z ∈ dedup f64_eqb l ∧ f64_eqb y z = true).
Proof.
  destruct l as [|x l]; cbn; intros Hn; [split; intros H; by apply elem_of_nil in H|].
  apply Forall_cons in Hn as [Hx Hn].
  destruct (dedup_after_elem x l y Hx Hn) as [H1 H2]. split; [set_solver|].
  intros [->|H]%elem_of_cons; [|by apply H2]. exists x. split; [left|].
  apply f64_eqb_spec. rewrite f64_cmp_key by done. f_equal. by apply key_cmp_eq.
Qed.

Lemma new_ascending name steps :
  numbers steps → ascending (bounds_of (Histogram.buckets (Histogram.new name steps))).
Proof.
  intros Hn. rewrite new_bounds. split; [|by apply dedup_sorted, sort_sorted].
  assert (Hs : numbers (sort_by Histogram.cmp_or_equal steps)) by (unfold numbers; by rewrite sort_by_perm).
  apply Forall_forall. intros x Hx. apply (dedup_elem _ x Hs) in Hx.
  unfold numbers in Hs. rewrite Forall_forall in Hs. by apply Hs.
Qed.
End Counting.

(** ** Concurrent use of a counter

    A RATE counter is incremented by any thread while the metricer transforms
    it: reading the count and swapping the previous count are two separate
    atomic accesses. [incs] and [cut] are ghosts: the increments so far, and how
    many of them the last report has covered. *)
Module Rate.
Inductive phase := Idle | Loaded (current_count : f64) (upto : nat).

Record state := MkState {
  counter : Counter.t;
  at_ : phase;
  incs : list f64;
  cut : nat;
  reports : list (f64 * nat)
}.

Definition init (c : Counter.t) : state := MkState c Idle [] 0 [].

Inductive step : state → state → Prop :=
| step_increment n s c' :
    counter s ⊢ Counter.increment n ⇓ tt ⊣ c' →
    step s (MkState c' (at_ s) (incs s ++ [n]) (cut s) (reports s))
| step_load s v :
    at_ s = Idle → counter s ⊢ Counter.get ⇓ v ⊣ counter s →
    step s (MkState (counter s) (Loaded v (length (incs s))) (incs s) (cut s) (reports s))
| step_swap s v k previous c' :
    at_ s = Loaded v k → counter s ⊢ Counter.swap_previous v ⇓ previous ⊣ c' →
    step s (MkState c' Idle (incs s) k (reports s ++ [(f64_sub v previous, k)])).

(** The sum of the first [k] increments, in the order they were made. *)
Definition total (l : list f64) (k : nat) : f64 := foldl f64_add f64_zero (take k l).

#[global] Arguments total : simpl never.

(** The reports as windows of the increments. *)
Fixpoint windows (l : list f64) (from : nat) (rs : list (f64 * nat)) : Prop :=
  match rs with
  | [] => True
  | (v, k) :: rs =>
      (from ≤ k ≤ length l)%nat ∧ v = f64_sub (total l k) (total l from) ∧ windows l k rs
  end.

Definition last_cut (from : nat) (rs : list (f64 * nat)) : nat := default from (snd <$> last rs).

Definition phase_ok (s : state) : Prop :=
  match at_ s with
  | Idle => True
  | Loaded v k => (cut s ≤ k ≤ length (incs s))%nat ∧ v = total (incs s) k
  end.

Record inv (s : state) : Prop := {
  inv_count : Counter.count (counter s) = total (incs s) (length (incs s));
  inv_previous : Counter.previous_count (counter s) = total (incs s) (cut s);
  inv_cut : (cut s ≤ length (incs s))%nat;
  inv_last : cut s = last_cut 0 (reports s);
  inv_phase : phase_ok s;
  inv_windows : windows (incs s) 0 (reports s)
}.

Lemma total_app l n k : (k ≤ length l)%nat → total (l ++ [n]) k = total l k.
Proof. intros H. unfold total. by rewrite take_app_le. Qed.

Lemma windows_app l n from rs : windows l from rs → windows (l ++ [n]) from rs.
Proof.
  revert from. induction rs as [|[v k] rs IH]; intros from; cbn; [done|].
  intros ([Hf Hk] & -> & H). rewrite length_app, !total_app by lia. cbn. split_and!; [lia..|done|by apply IH].
Qed.

Lemma last_cut_cons from v k rs : last_cut from ((v, k) :: rs) = last_cut k rs.
Proof.
  unfold last_cut. destruct rs as [|r rs]; [done|].
  change (last ((v, k) :: r :: rs)) with (last (r :: rs)).
  destruct (last (r :: rs)) eqn:E; [done|]. by apply last_None in E.
Qed.

Lemma windows_snoc l from rs v k :
  windows l from rs → (last_cut from rs ≤ k ≤ length l)%nat →
  v = f64_sub (total l k) (total l (last_cut from rs)) → windows l from (rs ++ [(v, k)]).
Proof.
  revert from. induction rs as [|[v' k'] rs IH]; intros from; [intros _ [? ?] ?; unfold last_cut in *; cbn in *; by split_and!|].
  intros (Hk & Hv & H) Hle Hnew. cbn. split_and!; [lia..|done|]. rewrite last_cut_cons in *. by apply IH.
Qed.

Lemma rate_inv_step s s' : inv s → step s s' → inv s'.
Proof.
  intros [Hc Hp Hcut Hl Hph Hw] Hstep. unfold phase_ok in *.
  destruct Hstep as [n s c' Hrun|s v Hat Hrun|s v k p c' Hat Hrun]; cbn in *.
  - injection Hrun as <-. split; cbn.
    + rewrite Hc. unfold total. rewrite !firstn_all, foldl_app. done.
    + by rewrite total_app.
    + rewrite length_app. lia.
    + done.
    + unfold phase_ok. cbn. destruct (at_ s) as [|v k]; [done|]. destruct Hph as [? ->].
      rewrite length_app, total_app by lia. split; [lia|done].
    + by apply windows_app.
  - injection Hrun as <-. split; cbn; try done.
  - rewrite Hat in Hph. destruct Hph as [Hk ->]. injection Hrun as <- <-. split; cbn; try done.
    + apply Hk.
    + unfold last_cut. by rewrite last_snoc.
    + apply windows_snoc; [done|rewrite <-Hl; lia|by rewrite <-Hl, Hp].
Qed.

Lemma rate_inv_reachable name s :
  rtc step (init (Counter.mode Counter.RATE (Counter.new name))) s → inv s.
Proof.
  intros H. remember (init _) as s0 eqn:E. assert (inv s0) as Hinv by (subst; by split).
  clear E. induction H; eauto using rate_inv_step.
Qed.
End Rate.

(** ** Properties *)
Section Properties.
Context {BC : Build}.

(** C28: a histogram counts what it says. For bounds that are numbers, in any
    order and with repetitions, the buckets are the distinct bounds in strictly
    ascending order; adding any numbers never panics, and each bucket's count
    is the number of values from its bound up to the next one (an [i64] that
    wraps around). No value is counted twice, and a value below every bound
    is not counted. *)
Theorem histogram_counts name steps vs :
  numbers steps → numbers vs →
  ∃ h, (Histogram.new name steps ⊢ add_values vs ⇓ tt ⊣ h) ∧
    let bounds := bounds_of (Histogram.buckets h) in
    StronglySorted f64_lt bounds ∧
    (∀ b, b ∈ bounds → b ∈ steps) ∧
    (∀ s, s ∈ steps → ∃ b, b ∈ bounds ∧ f64_eqb s b = true) ∧
    (∀ i b, Histogram.buckets h !! i = Some b →
       Histogram.count b = wrap_signed 64 (Z.of_nat (owned bounds i vs))) ∧
    (∀ v i j, v ∈ vs → owns bounds i v = true → owns bounds j v = true → i = j).
Proof.
  intros Hs Hv. pose proof (new_ascending name steps Hs) as Hasc.
  assert (Hfit : fitting (Histogram.buckets (Histogram.new name steps))).
  { unfold fitting. cbn. apply Forall_forall. by intros b (x & -> & _)%list_elem_of_fmap. }
  eexists. split; [by apply add_values_run|]. cbn [Histogram.buckets].
  rewrite recount_bounds. destruct Hasc as [Hn Hasc]. rewrite new_bounds in *.
  assert (Hsn : numbers (sort_by Histogram.cmp_or_equal steps)) by (unfold numbers; by rewrite sort_by_perm).
  split_and!; [done| | | |].
  - intros b Hb. apply (dedup_elem _ b Hsn) in Hb. by rewrite sort_by_perm in Hb.
  - intros s Hin. apply (dedup_elem _ s Hsn). by rewrite sort_by_perm.
  - intros i b Hb. unfold recount in Hb. rewrite list_lookup_imap in Hb.
    destruct (Histogram.buckets (Histogram.new name steps) !! i) as [b0|] eqn:E; [|done].
    injection Hb as <-. cbn in E. apply list_lookup_fmap_Some in E as (x & -> & _).
    pose proof (new_bounds name steps) as Hb. cbn [Histogram.new Histogram.buckets] in Hb.
    rewrite Hb. done.
  - intros v i j Hin Hi Hj. unfold numbers in Hv. rewrite Forall_forall in Hv.
    assert (Hasc' : ascending (bounds_of (Histogram.buckets (Histogram.new name steps))))
      by by apply new_ascending.
    rewrite <-(new_bounds name) in Hi, Hj.
    apply find_bucket_owns in Hi; [|done|by apply Hv]. apply find_bucket_owns in Hj; [|done|by apply Hv].
    congruence.
Qed.

(** C27: sorting, deduplicating and binary search against looking at every step.
    For steps that are numbers, in any order and with repetitions, a number is
    put into the bucket whose bound is the greatest step not above it, or into
    none if there is no such step; the bound is the one that a scan of the
    steps as they were given finds (up to the sign of a zero). A NaN is not
    above any step, so the scan finds nothing, but the search treats it as equal
    to every bound: it is counted in some bucket of any histogram that has
    one. *)
Theorem bucket_search_is_scan name steps v h :
  numbers steps → bounds_of (Histogram.buckets h) = bounds_of (Histogram.buckets (Histogram.new name steps)) →
  if is_nan v
  then reference_bound v steps = None ∧
    (steps ≠ [] → ∃ i b, Histogram.buckets h !! i = Some b ∧
       (h ⊢ Histogram.add_value v ⇓ tt ⊣
          Histogram.Mk (Histogram.id h) (<[i := Histogram.bump b]> (Histogram.buckets h))))
  else option_Forall2 (λ x y, f64_eqb x y = true) (chosen v (Histogram.buckets h)) (reference_bound v steps).
Proof.
  intros Hn Hb. destruct (is_nan v) eqn:Hv.
  - split.
    + pose proof (reference_greatest v steps Hn) as Hr. destruct (reference_bound v steps) as [b|]; [|done].
      destruct Hr as (_ & [_ H]%f64_le_number & _). by rewrite Hv in H.
    + intros Hne. destruct (find_bucket_nan v (Histogram.buckets h) Hv) as [i Hi].
      { intros He. rewrite He, new_bounds in Hb. destruct steps as [|s steps]; [done|].
        destruct (dedup_elem (sort_by Histogram.cmp_or_equal (s :: steps)) s) as [_ Hd].
        { unfold numbers. by rewrite sort_by_perm. }
        destruct Hd as (z & Hz & _); [rewrite sort_by_perm; left|]. rewrite <-Hb in Hz. by apply elem_of_nil in Hz. }
      destruct (lookup_lt_is_Some_2 _ _ (find_bucket_bound _ _ _ Hi)) as [b Hbi].
      exists i, b. split; [done|]. rewrite add_value_run, Hi. do 2 f_equal. by apply alter_is_insert.
  - eapply greatest_unique; [|by apply reference_greatest].
    eapply greatest_transfer; [|by apply chosen_greatest; [rewrite Hb; by apply new_ascending|]].
    rewrite Hb, new_bounds. intros s.
    destruct (dedup_elem (sort_by Histogram.cmp_or_equal steps) s) as [H1 H2].
    { unfold numbers. by rewrite sort_by_perm. }
    pose proof (sort_by_perm Histogram.cmp_or_equal steps) as Hp. split.
    + intros Hs%H1. by rewrite Hp in Hs.
    + intros Hs. apply H2. by rewrite Hp.
Qed.

(** C29: RATE reports under concurrency. However the increments of any number
    of threads interleave with the two accesses of a transformation, the
    reports are the differences between consecutive sums of increments: the
    windows they cover follow one another without gap or overlap, so every
    increment made before the last load is in exactly one report. *)
Theorem rate_reports_windows name s :
  rtc Rate.step (Rate.init (Counter.mode Counter.RATE (Counter.new name))) s →
  Rate.windows (Rate.incs s) 0 (Rate.reports s) ∧
  Counter.count (Rate.counter s) = Rate.total (Rate.incs s) (length (Rate.incs s)) ∧
  Counter.previous_count (Rate.counter s) =
    Rate.total (Rate.incs s) (Rate.last_cut 0 (Rate.reports s)).
Proof.
  intros [Hc Hp _ Hl _ Hw]%Rate.rate_inv_reachable. by rewrite <-Hl.
Qed.

(** The message of a meter carries the metricer's service and instance,
    the metric time, the meter's name and its labels in the order they were
    added; an INCREMENT counter sends its count and stays as it is, a RATE
    counter sends the difference to the last report and remembers the count,
    a gauge sends what its getter returns (and panics when it does). *)
Lemma transform_spec {E} (now : Z) service instance name k v kvs (e : E) c (g : M E f64) :
  let id := MeterId.add_labels kvs (MeterId.add_label k v (MeterId.new name TypeCounter)) in
  let msg i x := MeterData.Mk service instance (SystemTime.fetch_time now SystemTime.Metric)
    (Some (MeterData.SingleValue (MeterSingleValue.Mk name
      (map (λ '(name, value), Label.Mk name value) (MeterId.labels i)) x))) in
  let run {T} `{Transform T E} (t : T) := transform now service instance (t, e) in
  MeterId.labels id = (k, v) :: kvs ∧
  (MeterId.name (Counter.id c) = name →
     (Counter.mode_ c = Counter.INCREMENT →
        run c = (Ret (msg (Counter.id c) (Counter.count c)), (c, e))) ∧
     (Counter.mode_ c = Counter.RATE →
        run c = (Ret (msg (Counter.id c) (f64_sub (Counter.count c) (Counter.previous_count c))),
                 (Counter.Mk (Counter.id c) Counter.RATE (Counter.count c) (Counter.count c), e)))) ∧
  let gauge := Gauge.add_labels kvs (Gauge.new name g) in
  (∀ x e', (e ⊢ g ⇓ x ⊣ e') → run gauge = (Ret (msg (Gauge.id gauge) x), (gauge, e'))) ∧
  (∀ m e', (e ⊢ g ⇑ m ⊣ e') → run gauge = (Panic m, (gauge, e'))).
Proof.
  intros id msg run. split; [done|]. split.
  - intros Hname. destruct c as [i [] x p]; cbn in *; subst name; split; intros [=]; done.
  - intros gauge. split; intros x e' Hg; unfold run; cbn;
      unfold zoom, Gauge.transform_gauge, Gauge.get, bind; cbn; by rewrite Hg.
Qed.
End Properties.

(** ** Concrete meters *)
Module MeterDemo.
#[local] Existing Instance test_build.

Definition steps : list f64 := [f64_of_Z 3; f64_of_Z 1; f64_of_Z 2; f64_of_Z 1].
Definition values : list f64 := [f64_of_Z 0; f64_of_Z 1; f64_of_Z 2; f64_of_Z 7; f64_of_Z 2].

Example counted :
  map Histogram.count (Histogram.buckets (state_of (add_values values) (Histogram.new "h" steps)))
    = [1; 2; 1].
Proof. vm_compute. reflexivity. Qed.

Lemma histogram_counts_witness :
  ∃ h, Histogram.new "h" steps ⊢ add_values values ⇓ tt ⊣ h ∧
    StronglySorted f64_lt (bounds_of (Histogram.buckets h)).
Proof.
  destruct (histogram_counts "h" steps values) as (h & ? & ? & _);
    [repeat constructor..|]. exists h. split; assumption.
Defined.

(** 7 belongs to the bucket of 3, whatever the order of the steps. *)
Lemma bucket_search_is_scan_witness :
  option_Forall2 (λ x y, f64_eqb x y = true)
    (chosen (f64_of_Z 7) (Histogram.buckets (Histogram.new "h" steps))) (Some (f64_of_Z 3)).
Proof.
  apply (bucket_search_is_scan "h" steps (f64_of_Z 7) (Histogram.new "h" steps));
    [repeat constructor|reflexivity].
Defined.

(** Two increments, a report that reads before a third one, and a second
    report. *)
Definition rated : Rate.state :=
  Rate.MkState
    (Counter.Mk (MeterId.new "c" TypeCounter) Counter.RATE
       (Rate.total [f64_of_Z 2; f64_of_Z 5] 2) (Rate.total [f64_of_Z 2; f64_of_Z 5] 1))
    Rate.Idle [f64_of_Z 2; f64_of_Z 5] 1
    [(f64_sub (Rate.total [f64_of_Z 2] 1) f64_zero, 1%nat)].

Lemma rate_reports_windows_witness :
  Rate.windows (Rate.incs rated) 0 (Rate.reports rated).
Proof.
  apply (rate_reports_windows "c").
  eapply rtc_l; [apply (Rate.step_increment (f64_of_Z 2)); reflexivity|].
  eapply rtc_l; [eapply Rate.step_load; reflexivity|].
  eapply rtc_l; [apply (Rate.step_increment (f64_of_Z 5)); reflexivity|].
  eapply rtc_l; [eapply Rate.step_swap; reflexivity|]. apply rtc_refl.
Defined.
End MeterDemo.
