(* ===== verification/Channel.v ===== *)
(** * tokio's mpsc channels, as the reporters use them

    The channels are third-party code: [Mpsc] lists the operations that the
    reporters call, with what can be observed of a channel (queued items, live
    senders, whether the receiver is alive, the capacity of a bounded one), and
    [MpscLaws] states their documented behaviour. Module [Reference] implements
    the interface to show that the laws can hold. *)

From S2P Require Import Prelude.

Local Open Scope sky_scope.

(** A future that is polled: ready, or still pending. *)
Inductive poll (A : Type) := Ready (a : A) | Pending.
Arguments Ready {A}. Arguments Pending {A}.

(** The errors; a failed [try_send] gives the item back. *)
Inductive SendError := Send.
Inductive TrySendError (I : Type) := Full (item : I) | Closed (item : I).
Arguments Full {I}. Arguments Closed {I}.
Inductive TryRecvError := Empty | Disconnected.

Class Mpsc (Ch : Type → Type) := {
  channel {I} : option nat → Ch I;
  (* [UnboundedSender::send] and [Sender::blocking_send] *)
  send {I} : I → M (Ch I) (poll (result unit SendError));
  (* [Sender::try_send] *)
  try_send {I} : I → M (Ch I) (result unit (TrySendError I));
  (* [recv] and [poll_recv] *)
  recv {I} : M (Ch I) (poll (option I));
  try_recv {I} : M (Ch I) (result I TryRecvError);
  clone_sender {I} : Ch I → Ch I;
  drop_sender {I} : Ch I → Ch I;
  drop_receiver {I} : Ch I → Ch I;
  queued {I} : Ch I → list I;
  senders {I} : Ch I → nat;
  receiving {I} : Ch I → bool;
  capacity {I} : Ch I → option nat
}.

Section Observations.
Context `{MP : Mpsc Ch} {I : Type}.
Implicit Types (c : Ch I).

Definition is_full c : bool :=
  match capacity c with Some n => (n <=? length (queued c))%nat | None => false end.

(** [c'] is [c] with the items [q]. *)
Definition requeued c c' (q : list I) : Prop :=
  queued c' = q ∧ senders c' = senders c ∧ receiving c' = receiving c ∧ capacity c' = capacity c.

(** The moves of whoever else holds a sender. *)
Inductive sender_moves : Ch I → Ch I → Prop :=
| move_clone c : senders c ≠ 0%nat → sender_moves c (clone_sender c)
| move_drop c : senders c ≠ 0%nat → sender_moves c (drop_sender c).
End Observations.

Class MpscLaws (Ch : Type → Type) {MP : Mpsc Ch} : Prop := {
  channel_law {I} cap :
    let c := channel (I := I) cap in
    queued c = [] ∧ senders c = 1%nat ∧ receiving c = true ∧ capacity c = cap;
  send_law {I} (c : Ch I) item : ∃ c',
    (receiving c = false ∧ send item c = (Ret (Ready (Err Send)), c') ∧ requeued c c' (queued c)) ∨
    (receiving c = true ∧ is_full c = true ∧ send item c = (Ret Pending, c') ∧ requeued c c' (queued c)) ∨
    (receiving c = true ∧ is_full c = false ∧ send item c = (Ret (Ready (Ok tt)), c') ∧
       requeued c c' (queued c ++ [item]));
  try_send_law {I} (c : Ch I) item : ∃ c',
    (receiving c = false ∧ try_send item c = (Ret (Err (Closed item)), c') ∧ requeued c c' (queued c)) ∨
    (receiving c = true ∧ is_full c = true ∧ try_send item c = (Ret (Err (Full item)), c') ∧
       requeued c c' (queued c)) ∨
    (receiving c = true ∧ is_full c = false ∧ try_send item c = (Ret (Ok tt), c') ∧
       requeued c c' (queued c ++ [item]));
  recv_law {I} (c : Ch I) : ∃ c',
    (∃ x q, queued c = x :: q ∧ recv c = (Ret (Ready (Some x)), c') ∧ requeued c c' q) ∨
    (queued c = [] ∧ senders c = 0%nat ∧ recv c = (Ret (Ready None), c') ∧ requeued c c' []) ∨
    (queued c = [] ∧ senders c ≠ 0%nat ∧ recv c = (Ret Pending, c') ∧ requeued c c' []);
  try_recv_law {I} (c : Ch I) : ∃ c',
    (∃ x q, queued c = x :: q ∧ try_recv c = (Ret (Ok x), c') ∧ requeued c c' q) ∨
    (queued c = [] ∧ senders c = 0%nat ∧ try_recv c = (Ret (Err Disconnected), c') ∧ requeued c c' []) ∨
    (queued c = [] ∧ senders c ≠ 0%nat ∧ try_recv c = (Ret (Err Empty), c') ∧ requeued c c' []);
  drop_receiver_law {I} (c : Ch I) :
    let c' := drop_receiver c in
    queued c' = [] ∧ senders c' = senders c ∧ receiving c' = false ∧ capacity c' = capacity c;
  clone_sender_law {I} (c : Ch I) :
    let c' := clone_sender c in
    queued c' = queued c ∧ senders c' = S (senders c) ∧ receiving c' = receiving c ∧
    capacity c' = capacity c;
  drop_sender_law {I} (c : Ch I) :
    let c' := drop_sender c in
    queued c' = queued c ∧ senders c' = pred (senders c) ∧ receiving c' = receiving c ∧
    capacity c' = capacity c
}.

(** ** A reference implementation *)
Module Reference.
Record chan (I : Type) := MkChan { q : list I; n : nat; rx : bool; cap : option nat }.
Arguments MkChan {I}. Arguments q {I}. Arguments n {I}. Arguments rx {I}. Arguments cap {I}.

Definition put {I} (l : list I) (c : chan I) : chan I := MkChan l (n c) (rx c) (cap c).
Definition full {I} (c : chan I) : bool :=
  match cap c with Some k => (k <=? length (q c))%nat | None => false end.

#[export] Instance mpsc : Mpsc chan := {|
  channel I k := MkChan [] 1 true k;
  send I item := λ c,
    if rx c then if full c then (Ret Pending, c) else (Ret (Ready (Ok tt)), put (q c ++ [item]) c)
    else (Ret (Ready (Err Send)), c);
  try_send I item := λ c,
    if rx c then if full c then (Ret (Err (Full item)), c) else (Ret (Ok tt), put (q c ++ [item]) c)
    else (Ret (Err (Closed item)), c);
  recv I := λ c,
    match q c with
    | x :: l => (Ret (Ready (Some x)), put l c)
    | [] => if (n c =? 0)%nat then (Ret (Ready None), c) else (Ret Pending, c)
    end;
  try_recv I := λ c,
    match q c with
    | x :: l => (Ret (Ok x), put l c)
    | [] => if (n c =? 0)%nat then (Ret (Err Disconnected), c) else (Ret (Err Empty), c)
    end;
  clone_sender I c := MkChan (q c) (S (n c)) (rx c) (cap c);
  drop_sender I c := MkChan (q c) (pred (n c)) (rx c) (cap c);
  drop_receiver I c := MkChan [] (n c) false (cap c);
  queued := @q; senders := @n; receiving := @rx; capacity := @cap
|}.

#[export] Instance laws : MpscLaws chan.
Proof.
  split; intros I; cbn.
  - intros k. by split_and!.
  - intros [l m r k] item. unfold is_full, requeued; cbn. unfold full; cbn.
    destruct r; [|by eexists; left]. destruct k as [k|]; [destruct (k <=? length l)%nat|];
      [by eexists; right; left|by eexists; right; right..].
  - intros [l m r k] item. unfold is_full, requeued; cbn. unfold full; cbn.
    destruct r; [|by eexists; left]. destruct k as [k|]; [destruct (k <=? length l)%nat|];
      [by eexists; right; left|by eexists; right; right..].
  - intros [[|x l] m r k]; unfold requeued; cbn; [|eexists; left; by eexists _, _].
    destruct (Nat.eqb_spec m 0); [by eexists; right; left|by eexists; right; right].
  - intros [[|x l] m r k]; unfold requeued; cbn; [|eexists; left; by eexists _, _].
    destruct (Nat.eqb_spec m 0); [by eexists; right; left|by eexists; right; right].
  - intros c. by split_and!.
  - intros c. by split_and!.
  - intros c. by split_and!.
Qed.
End Reference.
