(* ===== verification/Task.v ===== *)
(** * Spawned tasks, their handles and timers

    tokio's tasks and timers and futures_util's [try_join_all] are third-party
    code. A [run] is what has become of a spawned task; [Tasks] is what the
    handles say about it, [Intervals] whether a timer can be made, and
    [TasksLaws] and [IntervalsLaws] their documented behaviour. Module [Inline]
    implements the interfaces to show that the laws can hold. *)

From S2P Require Import Prelude Error Channel.

(** A task is running, has returned, has panicked, or was aborted. *)
Inductive run (T : Type) := Running | Finished (t : T) | Unwound (msg : string) | Aborted.
Arguments Running {T}. Arguments Finished {T}. Arguments Unwound {T}. Arguments Aborted {T}.

(** [JoinHandle::abort]: a task that is over stays as it is. *)
Definition abort {T} (r : run T) : run T := match r with Running => Aborted | _ => r end.

(** [Poll::map]. *)
Definition poll_map {A B} (f : A → B) (p : poll A) : poll B :=
  match p with Ready a => Ready (f a) | Pending => Pending end.

Class Tasks {FE : ForeignErrors} := {
  (* [JoinHandle::poll] *)
  joined {T} : run T → poll (result T join_error);
  (* [TryJoinAll::poll], on what the futures are ready with *)
  try_join_all {T} : list (poll (result T join_error)) → poll (result (list T) join_error)
}.

Class TasksLaws `{TK : Tasks} : Prop := {
  joined_running {T} : joined (T := T) Running = Pending;
  joined_finished {T} (t : T) : joined (Finished t) = Ready (Ok t);
  joined_unwound {T} msg : ∃ e, joined (T := T) (Unwound msg) = Ready (Err e);
  joined_aborted {T} : ∃ e, joined (T := T) Aborted = Ready (Err e);
  (* ready with all the results once all are there ... *)
  try_join_all_ok {T} (ps : list (poll (result T join_error))) ts :
    try_join_all ps = Ready (Ok ts) ↔ ps = map (λ t, Ready (Ok t)) ts;
  (* ... or with an error, as soon as there is one *)
  try_join_all_err {T} (ps : list (poll (result T join_error))) e :
    try_join_all ps = Ready (Err e) → Ready (Err e) ∈ ps;
  try_join_all_fails {T} (ps : list (poll (result T join_error))) e :
    Ready (Err e) ∈ ps → ∃ e', try_join_all ps = Ready (Err e')
}.

(** The handle is ready with [t] exactly when the task has returned [t]. *)
Lemma joined_ok `{TL : TasksLaws} {T} (r : run T) t : joined r = Ready (Ok t) ↔ r = Finished t.
Proof.
  destruct r as [|u|msg|]; rewrite ?joined_running, ?joined_finished; [done|naive_solver| |].
  - by destruct (joined_unwound (T := T) msg) as [e ->].
  - by destruct (joined_aborted (T := T)) as [e ->].
Qed.

(** All handles are ready with their results exactly when all tasks have
    returned. *)
Lemma all_joined_ok `{TL : TasksLaws} {T} (rs : list (run T)) ts :
  try_join_all (map joined rs) = Ready (Ok ts) ↔ rs = map Finished ts.
Proof.
  rewrite try_join_all_ok. revert ts. induction rs as [|r rs IH]; intros [|t ts]; cbn; [done..|].
  split.
  - intros [= Hr Hrs]. f_equal; [by apply joined_ok|by apply IH].
  - intros [= -> ->]. f_equal; [apply joined_finished|by apply IH].
Qed.

(** [tokio::time::interval], on the period in nanoseconds: "This function
    panics if [period] is zero." *)
Class Intervals := interval : Z → outcome unit.
Class IntervalsLaws {IV : Intervals} : Prop := {
  interval_zero : ∃ msg, interval 0 = Panic msg;
  interval_some period : period ≠ 0%Z → interval period = Ret tt
}.

(** ** A reference implementation *)
Module Inline.
Definition intervals : Intervals := λ period,
  if decide (period = 0%Z) then Panic "`period` must be non-zero." else Ret tt.
Lemma intervals_laws : IntervalsLaws (IV := intervals).
Proof. split; [by eexists|]. intros period Hp. unfold interval, intervals. by rewrite decide_False. Qed.

Section Inline.
Context {FE : ForeignErrors} (unwound : string → join_error) (cancelled : join_error).

Definition handle {T} (r : run T) : poll (result T join_error) :=
  match r with
  | Running => Pending
  | Finished t => Ready (Ok t)
  | Unwound msg => Ready (Err (unwound msg))
  | Aborted => Ready (Err cancelled)
  end.

Fixpoint all {T} (ps : list (poll (result T join_error))) : poll (result (list T) join_error) :=
  match ps with
  | [] => Ready (Ok [])
  | Ready (Err e) :: _ => Ready (Err e)
  | Ready (Ok t) :: ps =>
      match all ps with Ready (Ok ts) => Ready (Ok (t :: ts)) | r => r end
  | Pending :: ps => match all ps with Ready (Err e) => Ready (Err e) | _ => Pending end
  end.

Definition tasks : Tasks := {| joined := @handle; try_join_all := @all |}.

Lemma tasks_laws : TasksLaws (TK := tasks).
Proof.
  split; intros T; try by intros; eexists.
  - intros ps. cbn. induction ps as [|[[t|e]|] ps IH]; intros ts; cbn.
    + by destruct ts; split.
    + destruct (all ps) as [[us|e]|] eqn:E; destruct ts as [|t' ts]; cbn; try (split; congruence).
      * split; [intros [= -> ->]; f_equal; by apply IH|].
        intros [= -> H]. apply IH in H. congruence.
      * split; [done|]. intros [= -> H]. by apply IH in H.
      * split; [done|]. intros [= -> H]. by apply IH in H.
    + destruct ts; by split.
    + destruct (all ps) as [[us|e]|]; destruct ts; by split.
  - intros ps e. cbn. induction ps as [|[[t|e']|] ps IH]; cbn; [done| | |].
    + destruct (all ps) as [[us|e']|]; intros [= ->]. right. by apply IH.
    + intros [= ->]. left.
    + destruct (all ps) as [[us|e']|]; intros [= ->]. right. by apply IH.
  - intros ps e. cbn. induction ps as [|[[t|e']|] ps IH]; cbn; intros H; [by apply elem_of_nil in H| | |].
    + apply elem_of_cons in H as [H|H]; [done|]. destruct (IH H) as [e' ->]. eauto.
    + eauto.
    + apply elem_of_cons in H as [H|H]; [done|]. destruct (IH H) as [e' ->]. eauto.
Qed.
End Inline.
End Inline.
