(* ===== verification/Metricer.v ===== *)
(** * src/metrics/metricer.rs: the metricer and its reporting task

    Meters are shared: [register] returns an [Arc] through which the client
    keeps using the meter while the metricer reports it, so a meter lives in a
    memory of cells and the map holds pointers. The order in which a [HashMap]
    yields its values is not specified: a round takes any order. The task that
    [boot] starts is in Booting.v. *)

From S2P Require Import Prelude RustStr Common F64 Proto Reporter Meter.

Local Open Scope Z_scope.
Local Open Scope sky_scope.

(** A panic that [spawn_blocking] turns into a join error, which the task
    ignores. *)
Definition spawn_blocking {S} (m : M S unit) : M S unit := λ s,
  match m s with
  | (Panic _, s') => (Ret tt, s')
  | r => r
  end.

Section Metricer.
Context {T E : Type} {HT : Transform T E} `{HR : Report R W}.

Record Metricer := MkMetricer {
  service_name : string;
  instance_name : string;
  reporter : R;
  meter_map : gmap MeterId.t nat;
  report_interval : Z
}.

Definition DEFAULT_INTERVAL : Z := 20 * 1000000000.

(** [Metricer::new]; the interval is in nanoseconds. *)
Definition metricer_new (service_name instance_name : string) (reporter : R) : Metricer :=
  MkMetricer service_name instance_name reporter ∅ DEFAULT_INTERVAL.

Definition set_report_interval (v : Z) (m : Metricer) : Metricer :=
  MkMetricer (service_name m) (instance_name m) (reporter m) (meter_map m) v.

(** [Metricer::register]: the map keeps the last meter of an identity. *)
Definition register (t : T) : M (Metricer * gmap nat T) nat := λ s,
  let '(m, cells) := s in
  let p := fresh (dom cells) in
  (Ret p, (MkMetricer (service_name m) (instance_name m) (reporter m)
             (<[meter_id t := p]> (meter_map m)) (report_interval m),
           <[p := t]> cells)).

(** What the reporting task works on: the cells of the meters, the environment
    of the getters, the world of the reporter. *)
Record World := MkWorld { cells : gmap nat T; env : E; reporting : W }.

(** Calling [transform] on the meter behind a pointer. *)
Definition transform_at (m : Metricer) (now : Z) (p : nat) : M World (option MeterData.t) := λ w,
  match cells w !! p with
  | None => (Ret None, w)
  | Some t =>
      let '(r, (t', e')) := transform now (service_name m) (instance_name m) (t, env w) in
      let w' := MkWorld (<[p := t']> (cells w)) e' (reporting w) in
      match r with
      | Ret d => (Ret (Some d), w')
      | Panic e => (Panic e, w')
      | Abort => (Abort, w')
      end
  end.

(** One iteration of the loop over the meters. *)
Definition report_meter (m : Metricer) (pt : nat * Z) : M World unit :=
  d <- transform_at m pt.2 pt.1 ;;
  match d with
  | Some d => zoom reporting (λ v w, MkWorld (cells w) (env w) v)
                (report (reporter m) (Meter d))
  | None => ret tt
  end.

(** The closure given to [spawn_blocking]: every meter in the map's order,
    each at its own time. *)
Fixpoint report_all (m : Metricer) (order : list (nat * Z)) : M World unit :=
  match order with
  | [] => ret tt
  | pt :: order => report_meter m pt ;; report_all m order
  end.

(** The pointers of the map, as [values] may yield them. *)
Definition values_order (m : Metricer) (order : list (nat * Z)) : Prop :=
  order.*1 ≡ₚ (map_to_list (meter_map m)).*2.
End Metricer.

Arguments Metricer : clear implicits.
Arguments World : clear implicits.

(** ** Lemmas *)

(** What a metricer relies on: a meter keeps its identity, also when its
    [transform] panics, and the message it makes carries it; those that are
    [fine] do not panic. *)
Definition names_meter (i : MeterId.t) (d : MeterData.t) : Prop :=
  match MeterData.metric d with
  | Some (MeterData.SingleValue v) =>
      MeterSingleValue.name v = MeterId.name i ∧ MeterSingleValue.labels v = MeterId.to_labels i
  | Some (MeterData.Histogram h) =>
      MeterHistogram.name h = MeterId.name i ∧ MeterHistogram.labels h = MeterId.to_labels i
  | None => False
  end.

Class TransformLaws (T E : Type) {HT : Transform T E} (fine : T → Prop) : Prop := {
  transform_names now service instance t e o t' e' :
    transform now service instance (t, e) = (o, (t', e')) →
    meter_id t' = meter_id t ∧
    ∀ d, o = Ret d → names_meter (meter_id t) d ∧
      MeterData.service d = service ∧ MeterData.service_instance d = instance;
  transform_fine now service instance t e :
    fine t → ∃ d t' e', ((t, e) ⊢ transform now service instance ⇓ d ⊣ (t', e')) ∧ fine t'
}.

#[export] Instance Counter_laws `{!Build} E : TransformLaws Counter.t E (λ _, True).
Proof.
  split.
  - intros now service instance [i [] c p] e o t' e' Hrun; cbn in Hrun; injection Hrun as <- <- <-;
      (split; [done|]); intros d [= <-]; by split_and!.
  - intros now service instance [i [] c p] e _; cbn; eexists _, _, _; split_and!; done.
Qed.

#[export] Instance Histogram_laws `{!Build} E : TransformLaws Histogram.t E (λ _, True).
Proof.
  split.
  - intros now service instance [i bs] e o t' e' Hrun. cbn in Hrun. injection Hrun as <- <- <-.
    split; [done|]. intros d [= <-]. by split_and!.
  - intros now service instance [i bs] e _. cbn. eexists _, _, _. by split_and!.
Qed.

#[export] Instance Gauge_laws `{!Build} E :
  TransformLaws (Gauge.t E) E (λ g, ∀ e, ∃ v e', e ⊢ Gauge.getter g ⇓ v ⊣ e').
Proof.
  split.
  - intros now service instance g e o t' e'. cbn. unfold zoom, Gauge.transform_gauge, Gauge.get, bind. cbn.
    destruct (Gauge.getter g e) as [[v|msg|] e1]; cbn; intros Hrun; injection Hrun as <- <- <-;
      (split; [done|]); intros d; [intros [= <-]; by split_and!|done..].
  - intros now service instance g e Hg. destruct (Hg e) as (v & e' & Hv).
    eexists _, g, e'. cbn. unfold zoom, Gauge.transform_gauge, Gauge.get, bind. cbn. by rewrite Hv.
Qed.

(** [dyn Transform]: a map holds meters of any kind. Each of the crate's three
    kinds keeps its methods. *)
Module Dyn.
Section Dyn.
Context {BC : Build} {E : Type}.

Inductive t := OfCounter (c : Counter.t) | OfGauge (g : Gauge.t E) | OfHistogram (h : Histogram.t).

Definition lift {A} (f : A → t) (r : outcome MeterData.t * (A * E)) : outcome MeterData.t * (t * E) :=
  (r.1, (f r.2.1, r.2.2)).

#[export] Instance Transform_Dyn : Transform t E := {|
  meter_id m := match m with
                | OfCounter c => Counter.id c | OfGauge g => Gauge.id g | OfHistogram h => Histogram.id h
                end;
  transform now service instance := λ '(m, e),
    match m with
    | OfCounter c => lift OfCounter (transform now service instance (c, e))
    | OfGauge g => lift OfGauge (transform now service instance (g, e))
    | OfHistogram h => lift OfHistogram (transform now service instance (h, e))
    end
|}.

Definition fine (m : t) : Prop :=
  match m with OfGauge g => ∀ e, ∃ v e', e ⊢ Gauge.getter g ⇓ v ⊣ e' | _ => True end.

#[export] Instance laws : TransformLaws t E fine.
Proof.
  split.
  - intros now service instance m e o m' e' Hrun.
    assert (Hl : ∀ A (HA : Transform A E) (f : A → t) (x : A),
      lift f (transform now service instance (x, e)) = (o, (m', e')) →
      ∃ x', m' = f x' ∧ transform now service instance (x, e) = (o, (x', e'))).
    { intros A HA f x. unfold lift. destruct (transform now service instance (x, e)) as [o1 [x' e1]].
      intros [= <- <- <-]. by exists x'. }
    destruct m as [x|x|x]; destruct (Hl _ _ _ x Hrun) as (x' & -> & Hx); exact (transform_names _ _ _ _ _ _ _ _ Hx).
  - intros now service instance m e Hm. destruct m as [x|x|x]; cbn in Hm;
      destruct (transform_fine now service instance x e Hm) as (d & x' & e' & Hrun & Hx).
    + exists d, (OfCounter x'), e'. split; [by cbn in *; rewrite Hrun|done].
    + exists d, (OfGauge x'), e'. split; [by cbn in *; rewrite Hrun|done].
    + exists d, (OfHistogram x'), e'. split; [by cbn in *; rewrite Hrun|done].
Qed.
End Dyn.
Arguments t : clear implicits.
End Dyn.
Export (hints) Dyn.

Section Lemmas.
Context {T E : Type} {HT : Transform T E} {fine : T → Prop} {TL : TransformLaws T E fine}.
Context `{HR : Report R W} (healthy : R → W → Prop) (delivered : W → list CollectItem).
Context {HL : ReportLaws R W healthy delivered}.

(** The map of the metricer points to live meters, under their identity. *)
Definition well_formed (m : Metricer R) (cs : gmap nat T) : Prop :=
  ∀ i p, meter_map m !! i = Some p → meter_id <$> cs !! p = Some i.

Lemma register_well_formed m cs t p m' cs' :
  well_formed m cs → (m, cs) ⊢ register t ⇓ p ⊣ (m', cs') →
  well_formed m' cs' ∧ cs' !! p = Some t ∧ cs !! p = None ∧ meter_map m' = <[meter_id t := p]> (meter_map m).
Proof.
  intros Hwf [= <- <- <-]. pose proof (is_fresh (dom cs)) as Hp. apply not_elem_of_dom in Hp.
  split_and!; [|by rewrite lookup_insert_eq|done|done].
  intros i q Hi. cbn in Hi. apply lookup_insert_Some in Hi as [[<- <-]|[Hne Hi]].
  - by rewrite lookup_insert_eq.
  - rewrite lookup_insert_ne; [by apply Hwf|]. intros <-. specialize (Hwf _ _ Hi). by rewrite Hp in Hwf.
Qed.

Definition describes (m : Metricer R) (i : MeterId.t) (d : MeterData.t) : Prop :=
  names_meter i d ∧ MeterData.service d = service_name m ∧
  MeterData.service_instance d = instance_name m.

(** The map and the reporter are as they should be. *)
Definition sound (m : Metricer R) (w : World T E W) : Prop :=
  well_formed m (cells w) ∧ healthy (reporter m) (reporting w).

(** A meter that can be transformed, under its identity. *)
Definition live (w : World T E W) (p : nat) (i : MeterId.t) : Prop :=
  ∃ t, cells w !! p = Some t ∧ fine t ∧ meter_id t = i.

(** What reporting the meters [ps] leaves alone. *)
Record undisturbed (ps : list nat) (w w' : World T E W) : Prop := {
  keeps_ids : meter_id <$> cells w' = meter_id <$> cells w;
  keeps_live q i : live w q i → live w' q i;
  keeps_others q : q ∉ ps → cells w' !! q = cells w !! q
}.

Lemma undisturbed_trans ps1 ps2 w1 w2 w3 :
  undisturbed ps1 w1 w2 → undisturbed ps2 w2 w3 → undisturbed (ps1 ++ ps2) w1 w3.
Proof.
  intros [H1 H2 H3] [G1 G2 G3]. split; [congruence|auto|].
  intros q Hq. rewrite G3, H3; [done|set_solver..].
Qed.

Lemma report_meter_run m w p now i :
  healthy (reporter m) (reporting w) → live w p i →
  ∃ d w', (w ⊢ report_meter m (p, now) ⇓ tt ⊣ w') ∧ healthy (reporter m) (reporting w') ∧
    undisturbed [p] w w' ∧
    delivered (reporting w') = delivered (reporting w) ++ [Meter d] ∧ describes m i d.
Proof.
  intros Hh (t & Ht & Hf & Hi).
  destruct (transform_fine now (service_name m) (instance_name m) t (env w) Hf)
    as (d & t' & e' & Hrun & Ht').
  destruct (transform_names _ _ _ _ _ _ _ _ Hrun) as [Hid Hd]. specialize (Hd d eq_refl).
  destruct (report_delivers (reporter m) (reporting w) (Meter d) Hh) as (v & Hrep & Hh' & Hdel).
  exists d, (MkWorld (<[p := t']> (cells w)) e' v). split_and!; [|done| |done|].
  - unfold report_meter, transform_at. cbn [fst snd].
    unfold bind. rewrite Ht, Hrun. unfold zoom. cbn. by rewrite Hrep.
  - split; cbn.
    + rewrite fmap_insert, Hid. apply insert_id. by rewrite lookup_fmap, Ht.
    + intros q j (u & Hu & Huf & Huj). unfold live. cbn. destruct (decide (p = q)) as [->|Hne].
      * rewrite lookup_insert_eq. exists t'. split_and!; [done..|congruence].
      * rewrite lookup_insert_ne by done. by exists u.
    + intros q Hq. apply lookup_insert_ne. set_solver.
  - unfold describes. by rewrite <-Hi.
Qed.

(** A round over any list of live meters reports each of them once, in
    order. *)
Lemma report_all_run m w order ids :
  healthy (reporter m) (reporting w) → Forall2 (λ pt i, live w pt.1 i) order ids →
  ∃ ds w', (w ⊢ report_all m order ⇓ tt ⊣ w') ∧ healthy (reporter m) (reporting w') ∧
    undisturbed order.*1 w w' ∧
    delivered (reporting w') = delivered (reporting w) ++ map Meter ds ∧
    Forall2 (describes m) ids ds.
Proof.
  intros Hs Hids. revert w Hs Hids. revert ids. induction order as [|[p now] order IH];
    intros ids w Hs Hids; cbn [report_all].
  - apply Forall2_nil_inv_l in Hids as ->. exists [], w. rewrite app_nil_r. split_and!; [done..|by split|done|constructor].
  - apply Forall2_cons_inv_l in Hids as (i & ids' & Hi & Hids & ->).
    destruct (report_meter_run m w p now i Hs Hi) as (d & w1 & Hrun & Hs1 & Hu & Hdel & Hd).
    destruct (IH ids' w1 Hs1) as (ds & w2 & Hrun2 & Hs2 & Hu2 & Hdel2 & Hds).
    { eapply Forall2_impl; [exact Hids|]. intros q j. by apply (keeps_live _ _ _ Hu). }
    exists (d :: ds), w2. rewrite (bind_Ret _ _ _ _ _ Hrun). split_and!; [done..| | |].
    + exact (undisturbed_trans [p] order.*1 w w1 w2 Hu Hu2).
    + by rewrite Hdel2, Hdel, <-app_assoc.
    + by constructor.
Qed.

(** The identity of the meter behind each pointer. *)
Definition identified (w : World T E W) (pt : nat * Z) (i : MeterId.t) : Prop :=
  meter_id <$> cells w !! pt.1 = Some i.

Lemma identified_keep w w' pt i :
  meter_id <$> cells w' = meter_id <$> cells w → identified w pt i → identified w' pt i.
Proof. unfold identified. intros H. by rewrite <-!lookup_fmap, H. Qed.

(** One iteration of the loop, whatever the meter does: its identity stays, and
    either one message that names it is delivered, or its [transform] has
    panicked. *)
Lemma report_meter_cases m w p now i o w' :
  healthy (reporter m) (reporting w) → identified w (p, now) i → report_meter m (p, now) w = (o, w') →
  meter_id <$> cells w' = meter_id <$> cells w ∧
  match o with
  | Ret _ => healthy (reporter m) (reporting w') ∧
      ∃ d, describes m i d ∧ delivered (reporting w') = delivered (reporting w) ++ [Meter d]
  | Panic msg => reporting w' = reporting w ∧
      ∃ t te, cells w !! p = Some t ∧ meter_id t = i ∧
        (t, env w) ⊢ transform now (service_name m) (instance_name m) ⇑ msg ⊣ te
  | Abort => True
  end.
Proof.
  unfold identified. intros Hh Hi. cbn in Hi. destruct (cells w !! p) as [t|] eqn:Ht; [|done]. injection Hi as Hi.
  unfold report_meter, transform_at, bind. cbn. rewrite Ht.
  destruct (transform now (service_name m) (instance_name m) (t, env w)) as [o1 [t' e']] eqn:Htr.
  destruct (transform_names _ _ _ _ _ _ _ _ Htr) as [Hid Hd].
  assert (Hc : meter_id <$> <[p := t']> (cells w) = meter_id <$> cells w).
  { rewrite fmap_insert, Hid. apply insert_id. by rewrite lookup_fmap, Ht. }
  destruct o1 as [d|msg|].
  - destruct (report_delivers (reporter m) (reporting w) (Meter d) Hh) as (v & Hrep & Hh' & Hdel).
    unfold zoom. cbn. rewrite Hrep. intros [= <- <-]. split; [exact Hc|]. split; [done|].
    exists d. split; [|exact Hdel]. unfold describes. rewrite <-Hi. by apply Hd.
  - intros [= <- <-]. split; [exact Hc|]. split; [done|]. by exists t, (t', e').
  - by intros [= <- <-].
Qed.

Lemma values_identified m w order :
  well_formed m (cells w) → values_order m order →
  ∃ ids, ids ≡ₚ (map_to_list (meter_map m)).*1 ∧ Forall2 (identified w) order ids.
Proof.
  intros Hwf Hord. unfold values_order in Hord.
  assert (Hall : Forall2 (λ p i, meter_id <$> cells w !! p = Some i)
            (map_to_list (meter_map m)).*2 (map_to_list (meter_map m)).*1).
  { apply Forall2_fmap_2, Forall_Forall2_diag, Forall_forall. intros [i p] Hin. cbn.
    by apply elem_of_map_to_list, Hwf in Hin. }
  symmetry in Hord. destruct (Permutation_Forall2 Hord Hall) as (ids & Hids & Hall').
  exists ids. split; [by symmetry|]. exact (proj1 (Forall2_fmap_l _ _ _ _) Hall').
Qed.

Lemma report_all_app m o1 o2 (w : World T E W) :
  report_all m (o1 ++ o2) w = bind (report_all m o1) (λ _, report_all m o2) w.
Proof.
  revert w. induction o1 as [|pt o1 IH]; intros w; [done|]. cbn [report_all app]. unfold bind.
  destruct (report_meter m pt w) as [[[]|?|] w1]; [|done..]. apply IH.
Qed.
End Lemmas.

(** ** Properties *)
Section Properties.
Context {T E : Type} {HT : Transform T E} {fine : T → Prop} {TL : TransformLaws T E fine}.
Context `{HR : Report R W} (healthy : R → W → Prop) (delivered : W → list CollectItem).
Context {HL : ReportLaws R W healthy delivered}.

(** Registering. The new cell is fresh, so no meter the client already
    holds is disturbed; a meter registered under a new identity joins the
    others; one registered under a known identity takes its place in the
    reports, and the earlier one is no longer reported. *)
Lemma register_spec (m : Metricer R) (cs : gmap nat T) t p m' cs' :
  well_formed m cs → ((m, cs) ⊢ register t ⇓ p ⊣ (m', cs')) →
  well_formed m' cs' ∧ cs !! p = None ∧ cs' !! p = Some t ∧
  (∀ q t', cs !! q = Some t' → cs' !! q = Some t') ∧
  meter_map m' !! meter_id t = Some p ∧
  (∀ i, i ≠ meter_id t → meter_map m' !! i = meter_map m !! i) ∧
  size (meter_map m') = (size (meter_map m) + if decide (is_Some (meter_map m !! meter_id t)) then 0 else 1)%nat.
Proof.
  intros Hwf Hrun. destruct (register_well_formed m cs t p m' cs' Hwf Hrun) as (Hwf' & Hp & Hn & Hm).
  injection Hrun as Hp' _ Hcs. split_and!; [done..| | | |]; rewrite ?Hm.
  - intros q t' Hq. rewrite <-Hcs, Hp'. rewrite lookup_insert_ne; [done|congruence].
  - apply lookup_insert_eq.
  - intros i Hi. by apply lookup_insert_ne.
  - case_decide as Hi.
    + rewrite map_size_insert_Some by done. lia.
    + rewrite map_size_insert_None by by apply eq_None_not_Some. lia.
Qed.

End Properties.

(** ** A concrete metricer: a counter and a histogram, the mock reporter *)
Module MetricerDemo.
#[local] Existing Instance test_build.

Abbreviation meter := (Dyn.t unit).
Abbreviation fine := (Dyn.fine (E := unit)).

Definition requests : meter := Dyn.OfCounter (Counter.new "requests").
Definition broken : meter := Dyn.OfGauge (Gauge.new "broken" (panic "no value")).

Definition empty : Metricer MockReporter * gmap nat meter :=
  (metricer_new "service" "instance" Mock, ∅).
Definition one : Metricer MockReporter * gmap nat meter := state_of (register requests) empty.

Definition world : World meter unit (list CollectItem) := MkWorld one.2 tt [].

Lemma empty_well_formed : well_formed empty.1 empty.2.
Proof. intros i p Hi. cbn in Hi. by rewrite lookup_empty in Hi. Qed.

Lemma one_sound : sound (λ _ _, True) one.1 world.
Proof.
  split; [|done]. eapply (register_well_formed empty.1 empty.2 requests _ one.1 one.2 empty_well_formed). reflexivity.
Qed.

(** The pointer of the registered meter. *)
Definition ptr : nat := fresh (dom (∅ : gmap nat meter)).

Lemma register_spec_witness :
  meter_map one.1 !! meter_id requests = Some ptr ∧ one.2 !! ptr = Some requests.
Proof.
  destruct (register_spec empty.1 empty.2 requests ptr one.1 one.2 empty_well_formed eq_refl)
    as (_ & _ & ? & _ & ? & _). by split.
Defined.

End MetricerDemo.
