(* ===== verification/Booting.v ===== *)
(** * src/metrics/metricer.rs: the reporting task and its handle

    [boot] spawns a task that reports every meter of a metricer once per tick;
    [Booting] is the handle that shuts it down. The task's life, interleaved
    with the client's own use of the meters and of the handle, is the step
    relation of module [Boot]. *)

From S2P Require Import Prelude RustStr Common F64 Error Proto Reporter Channel Task Meter Metricer.

Local Open Scope Z_scope.
Local Open Scope sky_scope.

(** ** The task and its handle *)
Module Boot.
Section Boot.
Context {FE : ForeignErrors} {TK : Tasks} {IV : Intervals}.
Context {T E : Type} {HT : Transform T E} `{HR : Report R W}.

(** The task makes its timer, is at the head of its loop, awaits the closure
    (which has the meters [rest] to go), waits in [select!], has returned, or
    has panicked. The handle holds the only sender of the shutdown channel. *)
Inductive task :=
| Starting | Looping | Reporting (rest : list (nat * Z)) | Selecting | Returned | Panicked (msg : string).
Inductive handle := Held | ShutdownSent | Dropped.

Record state := MkState {
  at_ : task;
  booting : handle;
  world : World T E W;
  rounds : nat
}.

Definition boot (w : World T E W) : state := MkState Starting Held w 0.

(** A client's use of the meters and of the environment: any change that
    keeps the meters where they are. It runs beside the closure. *)
Definition client_use (w w' : World T E W) : Prop :=
  meter_id <$> cells w' = meter_id <$> cells w ∧ reporting w' = reporting w.

Inductive step (m : Metricer R) : state → state → Prop :=
(* let mut ticker = interval(self.report_interval) *)
| step_interval s :
    at_ s = Starting → interval (report_interval m) = Ret tt →
    step m s (MkState Looping (booting s) (world s) (rounds s))
| step_interval_panic s msg :
    at_ s = Starting → interval (report_interval m) = Panic msg →
    step m s (MkState (Panicked msg) (booting s) (world s) (rounds s))
| step_spawn order s :
    at_ s = Looping → values_order m order →
    step m s (MkState (Reporting order) (booting s) (world s) (rounds s))
| step_meter pt rest s w' :
    at_ s = Reporting (pt :: rest) → world s ⊢ report_meter m pt ⇓ tt ⊣ w' →
    step m s (MkState (Reporting rest) (booting s) w' (rounds s))
(* the join error of a closure that panicked is ignored *)
| step_meter_panic pt rest s e w' :
    at_ s = Reporting (pt :: rest) → world s ⊢ report_meter m pt ⇑ e ⊣ w' →
    step m s (MkState Selecting (booting s) w' (S (rounds s)))
| step_joined s :
    at_ s = Reporting [] →
    step m s (MkState Selecting (booting s) (world s) (S (rounds s)))
| step_tick s :
    at_ s = Selecting →
    step m s (MkState Looping (booting s) (world s) (rounds s))
| step_recv s :
    at_ s = Selecting → booting s ≠ Held →
    step m s (MkState Returned (booting s) (world s) (rounds s))
| step_client s w' :
    client_use (world s) w' →
    step m s (MkState (at_ s) (booting s) w' (rounds s))
| step_shutdown s :
    booting s = Held →
    step m s (MkState (at_ s) ShutdownSent (world s) (rounds s))
| step_drop s :
    booting s = Held →
    step m s (MkState (at_ s) Dropped (world s) (rounds s)).

Definition SEND_MSG : string :=
  "called `Result::unwrap()` on an `Err` value: SendError { .. }".

(** The first statement of [Booting::shutdown]: sending into the channel
    fails once the task, and with it the receiver, is gone. *)
Definition shutdown_send : M state unit :=
  t <- gets at_ ;;
  match t with
  | Returned | Panicked _ => panic SEND_MSG
  | _ => modify (λ s, MkState (at_ s) ShutdownSent (world s) (rounds s))
  end.

(** [Booting::poll] is the poll of the task's handle. *)
Definition spawned (s : state) : run unit :=
  match at_ s with Returned => Finished tt | Panicked msg => Unwound msg | _ => Running end.
Definition poll (s : state) : poll (result unit join_error) := joined (spawned s).

(** The second statement of [Booting::shutdown], [Ok(self.await?)]. *)
Definition shutdown_join (s : state) : Channel.poll (result unit Error) :=
  poll_map (λ r, match r with Ok r => Ok r | Err e => Err (TokioJoin e) end) (poll s).
End Boot.
Arguments state : clear implicits.
End Boot.

(** ** The reporting task *)
Section Booted.
Context {IV : Intervals} {T E : Type} {HT : Transform T E} {fine : T → Prop} {TL : TransformLaws T E fine}.
Context `{HR : Report R W} (healthy : R → W → Prop) (delivered : W → list CollectItem).
Context {HL : ReportLaws R W healthy delivered}.











(** Left alone, the closure runs the loop [report_all] step by step: to its
    end, or to the panic that [spawn_blocking] absorbs. *)
Lemma report_all_steps m order w w' b n :
  w ⊢ spawn_blocking (report_all m order) ⇓ tt ⊣ w' →
  rtc (Boot.step m) (Boot.MkState (Boot.Reporting order) b w n) (Boot.MkState Boot.Selecting b w' (S n)).
Proof.
  revert w. induction order as [|pt order IH]; intros w Hrun.
  - unfold spawn_blocking in Hrun. cbn in Hrun. injection Hrun as <-.
    by apply rtc_once, (Boot.step_joined m (Boot.MkState (Boot.Reporting []) b w n)).
  - unfold spawn_blocking in Hrun. cbn [report_all] in Hrun. unfold bind in Hrun.
    destruct (report_meter m pt w) as [[[]|e|] w1] eqn:Hm; [| |done].
    + eapply rtc_l; [by apply (Boot.step_meter m pt order (Boot.MkState (Boot.Reporting (pt :: order)) b w n))|].
      by apply IH.
    + injection Hrun as <-. apply rtc_once.
      by apply (Boot.step_meter_panic m pt order (Boot.MkState (Boot.Reporting (pt :: order)) b w n) e).
Qed.


Lemma returned_final m s s' :
  rtc (Boot.step m) s s' → Boot.at_ s = Boot.Returned →
  Boot.at_ s' = Boot.Returned ∧ Boot.rounds s' = Boot.rounds s ∧
  reporting (Boot.world s') = reporting (Boot.world s).
Proof.
  induction 1 as [s|s s1 s2 Hstep _ IH]; [done|]. intros Hat.
  destruct Hstep as [| | | | | | | |s w' [_ Hrep]| |]; cbn in *; try congruence; try by apply IH.
  destruct (IH Hat) as (? & ? & ->). by rewrite Hrep.
Qed.

(** How far the task gets is decided by its timer, and it returns only once the
    handle is gone. *)
Definition timed (m : Metricer R) (s : Boot.state T E W) : Prop :=
  match Boot.at_ s with
  | Boot.Starting => True
  | Boot.Panicked msg => interval (report_interval m) = Panic msg
  | Boot.Returned => interval (report_interval m) = Ret tt ∧ Boot.booting s ≠ Boot.Held
  | _ => interval (report_interval m) = Ret tt
  end.

Lemma timed_step m s s' : timed m s → Boot.step m s s' → timed m s'.
Proof.
  unfold timed. intros Ht Hstep. destruct Hstep as [s Hat Hiv|s msg Hat Hiv|order s Hat Hord|pt rest s w' Hat Hrun
    |pt rest s e w' Hat Hrun|s Hat|s Hat|s Hat Hbt|s w' Hc|s Hbt|s Hbt]; cbn; rewrite ?Hat in Ht; try done;
    destruct (Boot.at_ s); naive_solver.
Qed.

Lemma timed_reachable m w s : rtc (Boot.step m) (Boot.boot w) s → timed m s.
Proof.
  intros H. assert (timed m (Boot.boot w)) as Ht by done. revert Ht.
  generalize (Boot.boot w) H. clear H. induction 1; eauto using timed_step.
Qed.

(** Before the first round nothing is reported. *)
Lemma unstarted_quiet m w s :
  rtc (Boot.step m) (Boot.boot w) s → (Boot.at_ s = Boot.Starting ∨ ∃ msg, Boot.at_ s = Boot.Panicked msg) →
  Boot.rounds s = 0%nat ∧ reporting (Boot.world s) = reporting w.
Proof.
  intros H. remember (Boot.boot w) as s0 eqn:E0.
  assert ((Boot.at_ s0 = Boot.Starting ∨ ∃ msg, Boot.at_ s0 = Boot.Panicked msg) →
    Boot.rounds s0 = 0%nat ∧ reporting (Boot.world s0) = reporting w) as H0 by by subst.
  clear E0. induction H as [|s s1 s2 Hstep _ IH]; [done|]. apply IH. clear IH s2.
  destruct Hstep as [| | | | | | | |? ? [_ Hrep]| |]; cbn in *; try (intros [|[? ?]]; congruence);
    try (by eauto). intros Hc. destruct (H0 Hc). by split; [|congruence].
Qed.
End Booted.

(** ** Properties *)
Section Properties.
Context {FE : ForeignErrors} {TK : Tasks} {KL : TasksLaws} {IV : Intervals} {IL : IntervalsLaws}.
Context {T E : Type} {HT : Transform T E} {fine : T → Prop} {TL : TransformLaws T E fine}.
Context `{HR : Report R W} (healthy : R → W → Prop) (delivered : W → list CollectItem).
Context {HL : ReportLaws R W healthy delivered}.


(** A meter that panics (a gauge's getter, say) costs the rest of its
    round: the meters before it are delivered, those after it are not, and
    the panic does not reach the task, which goes on to wait for the next
    tick. *)
Lemma panicking_meter_skips_rest (m : Metricer R) w order1 ids p now order2 t msg :
  healthy (reporter m) (reporting w) →
  Forall2 (λ pt i, live (fine := fine) w pt.1 i) order1 ids →
  p ∉ order1.*1 → cells w !! p = Some t →
  (∀ e, ∃ t' e', (t, e) ⊢ transform now (service_name m) (instance_name m) ⇑ msg ⊣ (t', e')) →
  ∃ w' ds, (w ⊢ spawn_blocking (report_all m (order1 ++ (p, now) :: order2)) ⇓ tt ⊣ w') ∧
    delivered (reporting w') = delivered (reporting w) ++ map Meter ds ∧
    Forall2 (describes m) ids ds ∧
    ∀ b n, rtc (Boot.step m) (Boot.MkState (Boot.Reporting (order1 ++ (p, now) :: order2)) b w n)
             (Boot.MkState Boot.Selecting b w' (S n)).
Proof.
  intros Hh Hids Hp Ht Hpanic.
  destruct (report_all_run healthy delivered m w order1 ids Hh Hids)
    as (ds & w1 & Hrun & _ & Hu & Hdel & Hds).
  destruct (Hpanic (env w1)) as (t' & e' & Htr).
  set (w' := MkWorld (<[p := t']> (cells w1)) e' (reporting w1)).
  assert (w ⊢ spawn_blocking (report_all m (order1 ++ (p, now) :: order2)) ⇓ tt ⊣ w');
    [|exists w', ds; split_and!; [done..|intros; by apply report_all_steps]].
  unfold spawn_blocking. rewrite (report_all_app m order1), (bind_Ret _ _ _ _ _ Hrun).
  cbn [report_all]. unfold report_meter, transform_at, bind. cbn.
  by rewrite (keeps_others _ _ _ Hu), Ht, Htr.
Qed.

(** C33: shutting down. For a report interval that is not zero, and as long as
    the client holds the handle, the task has not returned, so sending the
    shutdown message never panics; the task can then leave its [select!] and
    return, after which nothing is reported. Dropping the handle instead closes
    the channel, which ends the task the same way. Awaiting the handle, in
    [shutdown] or directly, gives [Ok] exactly when the task has returned, and
    never an error. *)
Theorem shutdown_stops (m : Metricer R) w s :
  report_interval m ≠ 0 → rtc (Boot.step m) (Boot.boot w) s →
  (Boot.booting s = Boot.Held → ∃ s1, (s ⊢ Boot.shutdown_send ⇓ tt ⊣ s1) ∧ Boot.step m s s1 ∧
     Boot.booting s1 = Boot.ShutdownSent) ∧
  (Boot.booting s ≠ Boot.Held → Boot.at_ s = Boot.Selecting →
     ∃ s1, Boot.step m s s1 ∧ Boot.at_ s1 = Boot.Returned) ∧
  (Boot.at_ s = Boot.Returned → ∀ s1, rtc (Boot.step m) s s1 →
     Boot.at_ s1 = Boot.Returned ∧ Boot.rounds s1 = Boot.rounds s ∧
     reporting (Boot.world s1) = reporting (Boot.world s)) ∧
  Boot.shutdown_join s = match Boot.at_ s with Boot.Returned => Ready (Ok tt) | _ => Pending end.
Proof.
  intros Hi H. pose proof (timed_reachable m w s H) as Ht. unfold timed in Ht. rewrite interval_some in Ht by done.
  split_and!.
  - intros Hb.
    exists (Boot.MkState (Boot.at_ s) Boot.ShutdownSent (Boot.world s) (Boot.rounds s)).
    split_and!; [|by apply Boot.step_shutdown|done].
    unfold Boot.shutdown_send. rewrite (bind_Ret (gets Boot.at_) _ _ (Boot.at_ s) s) by done.
    destruct s as [[] b v r]; cbn in *; try done. by destruct Ht.
  - intros Hb Hat. eexists. by split; [apply Boot.step_recv|].
  - intros Hat s1 H1. by apply (returned_final m).
  - unfold Boot.shutdown_join, Boot.poll, Boot.spawned. destruct (Boot.at_ s) as [| | | | |msg];
      by rewrite ?joined_running, ?joined_finished.
Qed.

(** A report interval of zero, which [set_report_interval] accepts, makes
    the task panic before its first round: nothing is ever reported, awaiting
    the handle never gives [Ok], and once the task has run, [shutdown] panics
    in its [unwrap]. *)
Lemma zero_interval_never_reports (m : Metricer R) w s :
  report_interval m = 0 → rtc (Boot.step m) (Boot.boot w) s →
  Boot.rounds s = 0%nat ∧ reporting (Boot.world s) = reporting w ∧
  Boot.poll s ≠ Ready (Ok tt) ∧
  (Boot.at_ s = Boot.Starting → ∃ s1 msg, Boot.step m s s1 ∧ Boot.at_ s1 = Boot.Panicked msg) ∧
  (Boot.at_ s ≠ Boot.Starting → s ⊢ Boot.shutdown_send ⇑ Boot.SEND_MSG ⊣ s).
Proof.
  intros Hi H. destruct (interval_zero) as [msg Hz]. rewrite <-Hi in Hz.
  assert (Hc : Boot.at_ s = Boot.Starting ∨ ∃ msg, Boot.at_ s = Boot.Panicked msg).
  { pose proof (timed_reachable m w s H) as Ht. unfold timed in Ht. rewrite Hz in Ht.
    destruct (Boot.at_ s); naive_solver. }
  split_and!.
  - by apply (unstarted_quiet m w s H).
  - by apply (unstarted_quiet m w s H).
  - unfold Boot.poll, Boot.spawned. destruct Hc as [->|[e ->]]; [by rewrite joined_running|].
    by destruct (joined_unwound (T := unit) e) as [? ->].
  - intros Hs. eexists _, msg. by split; [apply Boot.step_interval_panic|].
  - intros Hs. destruct Hc as [|[e He]]; [done|]. unfold Boot.shutdown_send, bind, gets. by rewrite He.
Qed.
End Properties.

(** ** A concrete run *)
Module BootingDemo.
#[local] Existing Instances test_build text_errors.
#[local] Existing Instances Inline.intervals Inline.intervals_laws.
#[local] Instance inline : Tasks := Inline.tasks (FE := text_errors) id "cancelled"%string.
#[local] Instance inline_laws : TasksLaws := Inline.tasks_laws (FE := text_errors) id "cancelled"%string.
Import MetricerDemo.

(** One round, then a shutdown. *)
Definition order : list (nat * Z) := [(ptr, 0)].
Definition after_round : World meter unit (list CollectItem) := state_of (report_all one.1 order) world.
Definition stopped : Boot.state meter unit (list CollectItem) :=
  Boot.MkState Boot.Returned Boot.ShutdownSent after_round 1.






(** The counter is reported, the broken gauge panics. *)
Lemma panicking_meter_skips_rest_witness :
  ∃ w' ds, (MkWorld {[ 0%nat := requests; 1%nat := broken ]} tt [] ⊢ spawn_blocking
      (report_all (metricer_new "service" "instance" Mock) ([(0%nat, 0)] ++ (1%nat, 0) :: [(0%nat, 0)]))
      ⇓ tt ⊣ w') ∧
    reporting w' = map Meter ds ∧ length ds = 1%nat.
Proof.
  destruct (panicking_meter_skips_rest (fine := fine) (λ _ _, True) id
    (metricer_new "service" "instance" Mock) (MkWorld {[ 0%nat := requests; 1%nat := broken ]} tt [])
    [(0%nat, 0)] [meter_id requests] 1%nat 0 [(0%nat, 0)] broken "no value") as (w' & ds & ? & ? & Hds & _).
  - done.
  - constructor; [|constructor]. exists requests. by split_and!.
  - cbn. set_solver.
  - done.
  - intros []. by exists broken, tt.
  - apply Forall2_length in Hds. by exists w', ds.
Defined.

Lemma shutdown_stops_witness :
  ∃ s1, Boot.shutdown_send (Boot.boot world) = (Ret tt, s1) ∧ Boot.booting s1 = Boot.ShutdownSent.
Proof.
  destruct (shutdown_stops one.1 world (Boot.boot world) (λ H, ltac:(discriminate H)) (rtc_refl _ _)) as [H _].
  destruct (H eq_refl) as (s1 & ? & _ & ?). by exists s1.
Defined.

(** The interval is set to zero. *)
Definition hasty : Metricer MockReporter := set_report_interval 0 one.1.
Definition burnt : Boot.state meter unit (list CollectItem) :=
  Boot.MkState (Boot.Panicked "`period` must be non-zero.") Boot.Held world 0.

Lemma zero_interval_never_reports_witness :
  Boot.poll burnt ≠ Ready (Ok tt) ∧ burnt ⊢ Boot.shutdown_send ⇑ Boot.SEND_MSG ⊣ burnt.
Proof.
  assert (Hb : rtc (Boot.step hasty) (Boot.boot world) burnt)
    by by eapply rtc_once, (Boot.step_interval_panic hasty (Boot.boot world)).
  destruct (zero_interval_never_reports hasty world burnt eq_refl Hb) as (_ & _ & Hp & _ & Hs).
  split; [exact Hp|by apply Hs].
Defined.
End BootingDemo.
