(* ===== verification/E2eMetrics.v ===== *)
(** * e2e/src/main.rs: the metrics of the consumer

    [run_consumer_metric] registers one meter of each kind under one name, uses
    them and boots the metricer. The first round of the task reports what
    e2e/data/expected_context.yaml lists. *)

From Stdlib Require Import Permutation.
From S2P Require Import Prelude RustStr Common F64 Proto Reporter Meter Metricer.

Local Open Scope Z_scope.
Local Open Scope sky_scope.

Section Program.
Context {BC : Build} {E R : Type}.

(** A client's use of a meter through the [Arc] that [register] returned. *)
Definition DANGLING_MSG : string := "dangling meter".
Definition on_counter (p : nat) (op : M Counter.t unit) : M (Metricer R * gmap nat (Dyn.t E)) unit := λ s,
  match s.2 !! p with
  | Some (Dyn.OfCounter c) => let '(r, c') := op c in (r, (s.1, <[p := Dyn.OfCounter c']> s.2))
  | _ => panic DANGLING_MSG s
  end.
Definition on_histogram (p : nat) (op : M Histogram.t unit) : M (Metricer R * gmap nat (Dyn.t E)) unit := λ s,
  match s.2 !! p with
  | Some (Dyn.OfHistogram h) => let '(r, h') := op h in (r, (s.1, <[p := Dyn.OfHistogram h']> s.2))
  | _ => panic DANGLING_MSG s
  end.

Definition NAME : string := "instance_trace_count".

(** [run_consumer_metric], up to [boot]. *)
Definition run_consumer_metric : M (Metricer R * gmap nat (Dyn.t E)) unit :=
  counter <- register (Dyn.OfCounter (Counter.add_label "az" "az-1"
    (Counter.add_label "region" "us-west" (Counter.new NAME)))) ;;
  _ <- register (Dyn.OfGauge (Gauge.add_label "az" "az-3"
    (Gauge.add_label "region" "us-east" (Gauge.new NAME (ret (f64_of_Z 20)))))) ;;
  histogram <- register (Dyn.OfHistogram (Histogram.add_label "az" "az-1"
    (Histogram.add_label "region" "us-north"
      (Histogram.new NAME [f64_of_Z 10; f64_of_Z 20; f64_of_Z 30])))) ;;
  on_counter counter (Counter.increment (f64_of_Z 10)) ;;
  on_counter counter (Counter.increment (f64_of_Z 20)) ;;
  on_histogram histogram (Histogram.add_value (f64_of_Z 10)) ;;
  on_histogram histogram (Histogram.add_value (f64_of_Z 29)) ;;
  on_histogram histogram (Histogram.add_value (f64_of_Z 20)).
End Program.

(** ** A round over meters that nobody uses meanwhile *)
Section Steady.
Context {BC : Build} {T E : Type} {HT : Transform T E} `{HR : Report R W}.
Context (healthy : R → W → Prop) (delivered : W → list CollectItem) {HL : ReportLaws R W healthy delivered}.

(** The meter at [p] sends [metric], at any time, and stays as it is. *)
Definition steady (m : Metricer R) (w : World T E W) (p : nat) (metric : MeterData.Metric) : Prop :=
  ∃ t, cells w !! p = Some t ∧ ∀ now,
    (t, env w) ⊢ transform now (service_name m) (instance_name m)
      ⇓ meter_data now (service_name m) (instance_name m) metric ⊣ (t, env w).

Lemma report_meter_steady m w p now metric :
  healthy (reporter m) (reporting w) → steady m w p metric →
  ∃ v, (w ⊢ report_meter m (p, now) ⇓ tt ⊣ MkWorld (cells w) (env w) v) ∧ healthy (reporter m) v ∧
    delivered v = delivered (reporting w) ++
      [Meter (meter_data now (service_name m) (instance_name m) metric)].
Proof.
  intros Hh (t & Ht & Htr).
  destruct (report_delivers (reporter m) (reporting w)
    (Meter (meter_data now (service_name m) (instance_name m) metric)) Hh) as (v & Hr & Hh' & Hd).
  exists v. split_and!; [|done..].
  unfold report_meter, transform_at, bind. cbn. rewrite Ht, Htr. unfold zoom. cbn. rewrite Hr.
  by rewrite insert_id.
Qed.

Lemma report_all_steady m w order metrics :
  healthy (reporter m) (reporting w) → Forall2 (steady m w) order.*1 metrics →
  ∃ v, (w ⊢ report_all m order ⇓ tt ⊣ MkWorld (cells w) (env w) v) ∧ healthy (reporter m) v ∧
    delivered v = delivered (reporting w) ++
      zip_with (λ pt metric, Meter (meter_data pt.2 (service_name m) (instance_name m) metric)) order metrics.
Proof.
  revert w metrics. induction order as [|[p now] order IH]; intros w metrics Hh Hs; cbn in Hs.
  - apply Forall2_nil_inv_l in Hs as ->. exists (reporting w). destruct w. by rewrite app_nil_r.
  - apply Forall2_cons_inv_l in Hs as (metric & metrics' & Hp & Hs & ->).
    destruct (report_meter_steady m w p now metric Hh Hp) as (v & Hrun & Hv & Hd).
    destruct (IH (MkWorld (cells w) (env w) v) metrics' Hv Hs) as (v' & Hrun' & Hv' & Hd').
    exists v'. cbn [report_all]. rewrite (bind_Ret _ _ _ _ _ Hrun). split_and!; [done..|].
    by rewrite Hd'; cbn [reporting]; rewrite Hd, <-app_assoc.
Qed.
End Steady.

(** ** The consumer's first round *)
Definition labels (region az : string) : list Label.t := [Label.Mk "region" region; Label.Mk "az" az].

(** [meterItems] of expected_context.yaml. *)
Definition counter_metric : MeterData.Metric :=
  MeterData.SingleValue (MeterSingleValue.Mk NAME (labels "us-west" "az-1") (f64_of_Z 30)).
Definition gauge_metric : MeterData.Metric :=
  MeterData.SingleValue (MeterSingleValue.Mk NAME (labels "us-east" "az-3") (f64_of_Z 20)).
Definition histogram_metric : MeterData.Metric :=
  MeterData.Histogram (MeterHistogram.Mk NAME (labels "us-north" "az-1")
    [MeterBucketValue.Mk (f64_of_Z 10) 1 false; MeterBucketValue.Mk (f64_of_Z 20) 2 false;
     MeterBucketValue.Mk (f64_of_Z 30) 0 false]).

Section Consumer.
Context {BC : Build} {E : Type} `{HR : Report R W}.
Context (healthy : R → W → Prop) (delivered : W → list CollectItem) {HL : ReportLaws R W healthy delivered}.

Definition consumer_meters (r : R) : Metricer R * gmap nat (Dyn.t E) :=
  state_of run_consumer_metric (metricer_new "consumer" "node_0" r, ∅).

(** What the three cells hold when the metricer boots. *)
Definition id_of (typ : MeterType) (region az : string) : MeterId.t :=
  MeterId.Mk NAME typ [("region", region); ("az", az)].
Definition counter_cell : Dyn.t E :=
  Dyn.OfCounter (Counter.Mk (id_of TypeCounter "us-west" "az-1") Counter.INCREMENT (f64_of_Z 30) f64_zero).
Definition gauge_cell : Dyn.t E := Dyn.OfGauge (Gauge.Mk (id_of TypeGauge "us-east" "az-3") (ret (f64_of_Z 20))).
Definition histogram_cell : Dyn.t E :=
  Dyn.OfHistogram (Histogram.Mk (id_of TypeHistogram "us-north" "az-1")
    [Histogram.MkBucket (f64_of_Z 10) 1; Histogram.MkBucket (f64_of_Z 20) 2; Histogram.MkBucket (f64_of_Z 30) 0]).

Lemma consumer_meters_cells r :
  (consumer_meters r).2 !! 0%nat = Some counter_cell ∧ (consumer_meters r).2 !! 1%nat = Some gauge_cell ∧
  (consumer_meters r).2 !! 2%nat = Some histogram_cell.
Proof. split_and!; vm_compute; reflexivity. Qed.

Lemma consumer_meters_run r :
  (metricer_new "consumer" "node_0" r, ∅) ⊢ run_consumer_metric ⇓ tt ⊣ consumer_meters r.
Proof.
  unfold consumer_meters, state_of.
  assert (outcome_of run_consumer_metric (metricer_new "consumer" "node_0" r, ∅ : gmap nat (Dyn.t E)) = Ret tt)
    as H by (vm_compute; reflexivity).
  unfold outcome_of in H. by destruct (run_consumer_metric _) as [o s]; cbn in *; subst.
Qed.

Lemma consumer_meters_names r :
  reporter (consumer_meters r).1 = r ∧ service_name (consumer_meters r).1 = "consumer" ∧
  instance_name (consumer_meters r).1 = "node_0".
Proof. split_and!; vm_compute; reflexivity. Qed.

Lemma consumer_meters_values r :
  (map_to_list (meter_map (consumer_meters r).1)).*2 ≡ₚ [0; 1; 2]%nat.
Proof.
  trans [2; 0; 1]%nat; [vm_compute; reflexivity|].
  etrans; [apply Permutation_cons_append|]. reflexivity.
Qed.

Lemma consumer_steady r e (w : W) :
  Forall2 (steady (consumer_meters r).1 (MkWorld (consumer_meters r).2 e w)) [0; 1; 2]%nat
    [counter_metric; gauge_metric; histogram_metric].
Proof.
  destruct (consumer_meters_cells r) as (H0 & H1 & H2).
  constructor; [|constructor; [|constructor; [|constructor]]].
  - exists counter_cell. by split.
  - exists gauge_cell. by split.
  - exists histogram_cell. by split.
Qed.

(** Whatever reporter the consumer has, whatever order the map yields its meters
    in and whenever they are read, a round delivers the three metrics the
    end-to-end test expects, once each, and leaves the meters as they are. *)
Lemma consumer_round r (w : W) :
  healthy r w →
  ((metricer_new "consumer" "node_0" r, ∅) ⊢ run_consumer_metric ⇓ tt ⊣ consumer_meters r) ∧
  let '(m, cells) := consumer_meters r in
  ∀ order e, values_order m order →
    ∃ ds v, (MkWorld cells e w ⊢ report_all m order ⇓ tt ⊣ MkWorld cells e v) ∧ healthy r v ∧
      delivered v = delivered w ++ map Meter ds ∧
      MeterData.metric <$> ds ≡ₚ Some <$> [counter_metric; gauge_metric; histogram_metric] ∧
      Forall (λ d, MeterData.service d = "consumer" ∧ MeterData.service_instance d = "node_0") ds.
Proof.
  intros Hh. split; [apply consumer_meters_run|].
  pose proof (consumer_meters_values r) as Hv. pose proof (consumer_steady r) as Hs.
  pose proof (consumer_meters_names r) as Hm.
  destruct (consumer_meters r) as [m cells]. cbn [fst snd] in *. destruct Hm as (Hr & Hn & Hi).
  intros order e Ho. unfold values_order in Ho. rewrite Hv in Ho.
  destruct (Permutation_Forall2 (symmetry Ho) (Hs e w)) as (metrics & Hp & Hms).
  destruct (report_all_steady healthy delivered m (MkWorld cells e w) order metrics) as (v & Hrun & Hv' & Hd);
    [by rewrite Hr|done|].
  rewrite Hr, Hn, Hi in *.
  exists (zip_with (λ pt metric, meter_data pt.2 "consumer" "node_0" metric) order metrics), v.
  assert (Hlen : length order = length metrics) by (apply Forall2_length in Hms; by rewrite length_fmap in Hms).
  split_and!; [exact Hrun|done| | |].
  - cbn in Hd. rewrite Hd. f_equal. clear. revert metrics. induction order as [|x l IH]; intros [|y k]; cbn; [done..|].
    by rewrite IH.
  - etrans; [|apply fmap_Permutation; symmetry; exact Hp]. apply reflexive_eq. clear -Hlen. revert metrics Hlen.
    induction order as [|x l IH]; intros [|y k]; cbn; [done..|]. intros [= H]. by rewrite IH.
  - clear. revert metrics. induction order as [|x l IH]; intros [|y k]; cbn; constructor; [done|apply IH].
Qed.
End Consumer.
