(* ===== verification/MetricExample.v ===== *)
(** * examples/simple_metric_report.rs

    The example boots a metricer and awaits the handle of its task, which is
    never ready: the task only stops when the handle is shut down or dropped.
    Until the program is killed, every round reports the counter. The other
    examples are in Examples.v. *)

From S2P Require Import Prelude RustStr Common F64 Error Proto Reporter Meter Channel Task Metricer Booting E2eMetrics.

Local Open Scope Z_scope.
Local Open Scope sky_scope.

Section Program.
Context {BC : Build} {E R : Type}.

(** The meters of [main], up to [boot]. *)
Definition simple_meters : M (Metricer R * gmap nat (Dyn.t E)) unit :=
  counter <- register (Dyn.OfCounter (Counter.add_label "az" "az-1"
    (Counter.add_label "region" "us-west" (Counter.new NAME)))) ;;
  on_counter counter (Counter.increment (f64_of_Z 1)).

Definition simple_counter : Dyn.t E :=
  Dyn.OfCounter (Counter.Mk (id_of TypeCounter "us-west" "az-1") Counter.INCREMENT (f64_of_Z 1) f64_zero).
Definition simple_metricer (r : R) : Metricer R :=
  MkMetricer "service" "instance" r {[id_of TypeCounter "us-west" "az-1" := 0%nat]} DEFAULT_INTERVAL.

(** The message of a round. *)
Definition simple_message (now : Z) : MeterData.t :=
  meter_data now "service" "instance"
    (MeterData.SingleValue (MeterSingleValue.Mk NAME (labels "us-west" "az-1") (f64_of_Z 1))).

Lemma simple_meters_run r :
  (metricer_new "service" "instance" r, ∅) ⊢ simple_meters ⇓ tt ⊣ (simple_metricer r, {[0%nat := simple_counter]}).
Proof. by_evaluation. Qed.
End Program.

(** ** A metricer with one meter, which nobody uses while the task runs *)
Section OneMeter.
Context {FE : ForeignErrors} {TK : Tasks} {KL : TasksLaws} {IV : Intervals} {IL : IntervalsLaws} {BC : Build}.
Context {E : Type} `{HR : Report R W} (healthy : R → W → Prop) (delivered : W → list CollectItem).
Context {HL : ReportLaws R W healthy delivered}.
Context (m : Metricer R) (i : MeterId.t) (t : Dyn.t E) (metric : MeterData.Metric).
Context (one_meter : meter_map m = {[i := 0%nat]}).
Context (always : ∀ w : World (Dyn.t E) E W, cells w = {[0%nat := t]} → steady m w 0 metric).

(** The message of a round. *)
Definition message (now : Z) : MeterData.t := meter_data now (service_name m) (instance_name m) metric.

Definition left_alone (b b' : Boot.state (Dyn.t E) E W) : Prop :=
  Boot.step m b b' ∧ cells (Boot.world b') = cells (Boot.world b).

Definition done_rounds (b : Boot.state (Dyn.t E) E W) : nat :=
  match Boot.at_ b with Boot.Reporting [] => S (Boot.rounds b) | _ => Boot.rounds b end.

Record steadily (w0 : W) (b : Boot.state (Dyn.t E) E W) : Prop := {
  y_cells : cells (Boot.world b) = {[0%nat := t]};
  y_healthy : healthy (reporter m) (reporting (Boot.world b));
  y_order : match Boot.at_ b with
            | Boot.Reporting rest => rest = [] ∨ ∃ now, rest = [(0%nat, now)]
            | Boot.Selecting | Boot.Returned => Boot.rounds b ≠ 0%nat
            | _ => True
            end;
  y_reported : ∃ times, length times = done_rounds b ∧
    delivered (reporting (Boot.world b)) = delivered w0 ++ map (λ now, Meter (message now)) times
}.

Lemma one_order order : values_order m order → ∃ now, order = [(0%nat, now)].
Proof using one_meter.
  unfold values_order. rewrite one_meter, map_to_list_singleton.
  intros Ho%symmetry%Permutation_singleton_l. destruct order as [|[p now] [|? ?]]; try done.
  injection Ho as ->. by exists now.
Qed.

Lemma one_report (w : World (Dyn.t E) E W) now :
  cells w = {[0%nat := t]} → healthy (reporter m) (reporting w) →
  ∃ v, (w ⊢ report_meter m (0%nat, now) ⇓ tt ⊣ MkWorld (cells w) (env w) v) ∧ healthy (reporter m) v ∧
    delivered v = delivered (reporting w) ++ [Meter (message now)].
Proof using HL always. intros Hc Hh. apply (report_meter_steady healthy delivered m w 0 now); [done|]. by apply always. Qed.

Lemma steadily_step w0 b b' : steadily w0 b → left_alone b b' → steadily w0 b'.
Proof using HL always one_meter.
  intros [Hc Hh Ho (ts & Hl & Hd)] (Hstep & Hcs). unfold done_rounds in Hl.
  destruct Hstep as [s Hat Hiv|s msg Hat Hiv|order s Hat Hord|pt rest s w' Hat Hrun|pt rest s e w' Hat Hrun|s Hat|s Hat|s Hat Hbt
    |s w' [Hid Hrep]|s Hbt|s Hbt]; cbn in Hcs; rewrite ?Hat in Ho, Hl;
    try (split; cbn; [done..|by exists ts]).
  - destruct (one_order order Hord) as [now ->]. split; cbn; [done..|by right; exists now|by exists ts].
  - destruct Ho as [?|[now [= -> ->]]]; [done|].
    destruct (one_report (Boot.world s) now Hc Hh) as (v & Hr & Hv & Hdv). rewrite Hr in Hrun. injection Hrun as <-.
    split; cbn; [done..|by left|]. exists (ts ++ [now]). rewrite Hdv, Hd, length_app, map_app, app_assoc. cbn.
    split; [lia|done].
  - destruct Ho as [?|[now [= -> ->]]]; [done|].
    destruct (one_report (Boot.world s) now Hc Hh) as (v & Hr & _). by rewrite Hr in Hrun.
  - split; cbn; rewrite ?Hrep; [congruence|done|done|]. by exists ts.
Qed.

Lemma steadily_run e w b :
  healthy (reporter m) w → rtc left_alone (Boot.boot (MkWorld {[0%nat := t]} e w)) b → steadily w b.
Proof using HL always one_meter.
  intros Hh Hb. assert (H0 : steadily w (Boot.boot (MkWorld {[0%nat := t]} e w))).
  { split; [done..|]. exists []. by rewrite app_nil_r. }
  clear Hh. induction Hb; eauto using steadily_step.
Qed.
End OneMeter.

Section Main.
Context {FE : ForeignErrors} {TK : Tasks} {KL : TasksLaws} {IV : Intervals} {IL : IntervalsLaws} {BC : Build}.
Context {E : Type} `{HR : Report R W} (healthy : R → W → Prop) (delivered : W → list CollectItem).
Context {HL : ReportLaws R W healthy delivered}.

(** [main] holds the handle, which it awaits, and leaves its counter alone. *)
Definition awaiting (m : Metricer R) (b b' : Boot.state (Dyn.t E) E W) : Prop :=
  Boot.step m b b' ∧ Boot.booting b' = Boot.Held ∧ cells (Boot.world b') = cells (Boot.world b).

(** From [Metricer::new] to [metricer.boot().await]. *)
Inductive metric_main (r : R) (e : E) (w : W) : Boot.state (Dyn.t E) E W → Prop :=
| metric_awaiting m cs b :
    (metricer_new "service" "instance" r, ∅) ⊢ simple_meters ⇓ tt ⊣ (m, cs) →
    rtc (awaiting m) (Boot.boot (MkWorld cs e w)) b →
    metric_main r e w b.

(** The metric example never gets past [boot]. However long the task runs,
    the handle that [main] awaits is not ready, so that it never awaits the
    reporting; and in each round the task has reported the counter, with the
    value 1, once. *)
Lemma metric_main_runs r e w b :
  healthy r w → metric_main r e w b →
  Boot.poll b = Pending ∧
  ∃ times, length times = done_rounds b ∧
    delivered (reporting (Boot.world b)) = delivered w ++ map (λ now, Meter (simple_message now)) times.
Proof.
  intros Hh Hm. destruct Hm as [m cs b Hs Hb]. rewrite simple_meters_run in Hs. injection Hs as <- <-.
  assert (Hrun : rtc (Boot.step (simple_metricer r)) (Boot.boot (MkWorld {[0%nat := simple_counter]} e w)) b).
  { clear -Hb. induction Hb as [|b b1 b2 (Hs & _) _ IH]; [apply rtc_refl|by eapply rtc_l]. }
  assert (Hheld : Boot.booting b = Boot.Held).
  { clear -Hb. remember (Boot.boot _) as b0 eqn:E0. assert (H0 : Boot.booting b0 = Boot.Held) by by subst.
    clear E0. induction Hb as [|b b1 b2 (_ & Hs & _) _ IH]; auto. }
  split.
  - pose proof (timed_reachable _ _ _ Hrun) as Ht. unfold timed in Ht. unfold Boot.poll, Boot.spawned.
    destruct (Boot.at_ b) as [| | | | |msg]; try apply joined_running; [by destruct Ht|].
    by rewrite interval_some in Ht.
  - assert (Halone : rtc (left_alone (simple_metricer r)) (Boot.boot (MkWorld {[0%nat := simple_counter]} e w)) b).
    { clear -Hb. induction Hb as [|b b1 b2 (? & _ & ?) _ IH]; [apply rtc_refl|]. by eapply rtc_l; [split|]. }
    refine (y_reported _ _ _ _ _ _ _ (steadily_run healthy delivered (simple_metricer r) _ simple_counter
      (MeterData.SingleValue (MeterSingleValue.Mk NAME (labels "us-west" "az-1") (f64_of_Z 1))) eq_refl _ e w b Hh Halone)).
    intros w' Hc. exists simple_counter. rewrite Hc, lookup_singleton_eq. by split.
Qed.
End Main.

(** ** Two rounds over the mock reporter *)
Module MetricExampleDemo.
#[local] Existing Instance test_build.
#[local] Existing Instance text_errors.
#[local] Existing Instances Inline.intervals Inline.intervals_laws.
#[local] Instance inline : Tasks := Inline.tasks (FE := text_errors) id "cancelled"%string.
#[local] Instance inline_laws : TasksLaws := Inline.tasks_laws (FE := text_errors) id "cancelled"%string.

Abbreviation St := (Boot.state (Dyn.t unit) unit (list CollectItem)).
Definition world_with (items : list CollectItem) : World (Dyn.t unit) unit (list CollectItem) :=
  MkWorld {[0%nat := simple_counter]} tt items.
Definition second : St :=
  Boot.MkState Boot.Selecting Boot.Held (world_with [Meter (simple_message 5); Meter (simple_message 6)]) 2.

Definition one_round (now : Z) (b b' : St) : Prop :=
  rtc (awaiting (simple_metricer Mock)) b b'.

Lemma round_run now items n :
  one_round now (Boot.MkState Boot.Looping Boot.Held (world_with items) n)
    (Boot.MkState Boot.Selecting Boot.Held (world_with (items ++ [Meter (simple_message now)])) (S n)).
Proof.
  eapply rtc_l; [split; [apply (Boot.step_spawn _ [(0%nat, now)]); [done|by unfold values_order; vm_compute]|done]|].
  eapply rtc_l; [split; [by eapply Boot.step_meter|done]|].
  apply rtc_once. split; [by apply Boot.step_joined|done].
Qed.

Lemma second_reached : metric_main Mock tt [] second.
Proof.
  eapply metric_awaiting; [apply simple_meters_run|].
  eapply rtc_l; [split; [by apply Boot.step_interval|done]|].
  etrans; [exact (round_run 5 [] 0)|].
  eapply rtc_l; [split; [by apply Boot.step_tick|done]|].
  exact (round_run 6 [Meter (simple_message 5)] 1).
Qed.

Lemma metric_main_runs_witness :
  Boot.poll second = Pending ∧
  ∃ times, length times = 2%nat ∧ reporting (Boot.world second) = map (λ now, Meter (simple_message now)) times.
Proof. apply (metric_main_runs (λ _ _, True) id Mock tt [] second Logic.I second_reached). Defined.
End MetricExampleDemo.
