(* ===== verification/Management.v ===== *)
(** * src/management: instance properties and the heartbeat

    [Properties] is a map from a key to the values inserted under it; the order
    in which the [HashMap] yields its keys is not specified, so the conversion
    takes that order as an argument. [Manager] reports properties and pings,
    once or periodically; the life of the periodic task, which its handle can
    abort, is the step relation of module [Alive]. *)

From S2P Require Import Prelude RustStr Error Proto Reporter Channel Task.

Local Open Scope Z_scope.
Local Open Scope sky_scope.

(** ** instance.rs *)
Module Properties.
(** The values of a key in insertion order. *)
Record t := Mk { inner : gmap string (list string) }.

Definition KEY_HOST_NAME : string := "hostname".
Definition KEY_IPV4 : string := "ipv4".
Definition KEY_LANGUAGE : string := "language".
Definition KEY_OS_NAME : string := "OS Name".
Definition KEY_PROCESS_NO : string := "Process No.".

Definition new : t := Mk ∅.

(** [insert]: [entry(key).or_default().push(value)]. *)
Definition insert (key value : string) (p : t) : t :=
  Mk (<[key := default [] (inner p !! key) ++ [value]]> (inner p)).

(** [update]: only a key that is there. *)
Definition update (key value : string) (p : t) : t :=
  match inner p !! key with
  | Some _ => Mk (<[key := [value]]> (inner p))
  | None => p
  end.

Definition remove (key : string) (p : t) : t := Mk (delete key (inner p)).

(** [convert_to_instance_properties], for the order in which the map is
    consumed. *)
Fixpoint flatten (order : list (string * list string)) : list KeyStringValuePair.t :=
  match order with
  | [] => []
  | (key, values) :: order => map (KeyStringValuePair.Mk key) values ++ flatten order
  end.
Definition convert_to_instance_properties (order : list (string * list string))
    (service_name instance_name : string) : InstanceProperties.t :=
  InstanceProperties.Mk service_name instance_name (flatten order) "".

Definition yields (p : t) (order : list (string * list string)) : Prop :=
  order ≡ₚ map_to_list (inner p).
End Properties.

(** What the operating system tells: the target, and what [systemstat],
    [hostname] and [process::id] return. *)
Module Os.
Inductive target := linux | windows | macos | other_os.
Inductive IpAddr := V4 (text : string) | NotV4.
Record Network := MkNetwork { name : string; addrs : list IpAddr }.
Record t := Mk {
  target_os : target;
  networks : option (list Network);
  hostname : option string;
  process_id : Z
}.

(** [IPS]: the IPv4 addresses of the interfaces that are not loopback, docker
    or bridges. *)
Definition counts_network (n : Network) : bool :=
  negb (String.eqb (name n) "lo") && negb (starts_with "docker" (name n))
  && negb (starts_with "br-" (name n)).
Definition v4 (a : IpAddr) : option string := match a with V4 s => Some s | NotV4 => None end.
Definition IPS (o : t) : list string :=
  match networks o with
  | Some ns => flat_map (λ n, omap v4 (addrs n)) (List.filter counts_network ns)
  | None => []
  end.

(** [OS_NAME]. *)
Definition OS_NAME (o : t) : option string :=
  match target_os o with
  | linux => Some "Linux"
  | windows => Some "Windows"
  | macos => Some "Mac OS X"
  | other_os => None
  end.

(** [build_os_info]. *)
Definition build_os_info (o : t) : list (string * string) :=
  match OS_NAME o with Some n => [(Properties.KEY_OS_NAME, n)] | None => [] end ++
  match hostname o with Some h => [(Properties.KEY_HOST_NAME, h)] | None => [] end ++
  map (λ ip, (Properties.KEY_IPV4, ip)) (IPS o) ++
  [(Properties.KEY_PROCESS_NO, dec_string (process_id o)); (Properties.KEY_LANGUAGE, "rust")].

(** [Properties::insert_os_info]. *)
Definition insert_os_info (o : t) (p : Properties.t) : Properties.t :=
  foldl (λ p '(key, value), Properties.insert key value p) p (build_os_info o).

(** The closure that the example and the test give to the manager: new
    properties with the information about the system. What it can come to: the
    order in which their map yields them is any. *)
Definition properties (o : t) (p : outcome (list (string * list string))) : Prop :=
  ∃ order, p = Ret order ∧ Properties.yields (insert_os_info o Properties.new) order.
End Os.

(** ** manager.rs *)
Section Manager.
Context {BC : Build} `{HR : Report R W}.

Record Manager := MkManager { service_name : string; instance_name : string; reporter : R }.

Definition manager_new (service_name instance_name : string) (reporter : R) : Manager :=
  MkManager service_name instance_name reporter.

(** [report_properties] and [reporter_report_properties]. *)
Definition reporter_report_properties (reporter : R) (service_name instance_name : string)
    (order : list (string * list string)) : M W unit :=
  report reporter (Instance_ (Properties.convert_to_instance_properties order service_name instance_name)).
Definition report_properties (m : Manager) (order : list (string * list string)) : M W unit :=
  reporter_report_properties (reporter m) (service_name m) (instance_name m) order.

(** [keep_alive] and [reporter_keep_alive]. *)
Definition reporter_keep_alive (reporter : R) (service_name instance_name : string) : M W unit :=
  report reporter (Ping (InstancePingPkg.Mk service_name instance_name "")).
Definition keep_alive (m : Manager) : M W unit :=
  reporter_keep_alive (reporter m) (service_name m) (instance_name m).

(** The task of [report_and_keep_alive], from one tick to the next: the state
    is the [usize] counter and the reporter's world; [properties] gives what
    the closure returns at this tick, or its panic. *)
Definition beat (m : Manager) (factor : Z) (properties : outcome (list (string * list string)))
    : M (Z * W) unit :=
  counter <- gets fst ;;
  (if counter =? 0
   then match properties with
        | Ret order => zoom snd (λ w s, (s.1, w)) (report_properties m order)
        | Panic msg => panic msg
        | Abort => λ s, (Abort, s)
        end
   else zoom snd (λ w s, (s.1, w)) (keep_alive m)) ;;
  counter <- usize_add counter 1 ;;
  modify (λ s, (if factor <=? counter then 0 else counter, s.2)).

(** The loop, for the ticks that have come so far. *)
Fixpoint beats (m : Manager) (factor : Z) (properties : list (outcome (list (string * list string))))
    : M (Z * W) unit :=
  match properties with
  | [] => ret tt
  | p :: properties => beat m factor p ;; beats m factor properties
  end.

(** [report_and_keep_alive] starts at zero. *)
Definition report_and_keep_alive (m : Manager) (factor : Z)
    (properties : list (outcome (list (string * list string)))) (w : W) : outcome unit * (Z * W) :=
  beats m factor properties (0, w).
End Manager.
Arguments Manager : clear implicits.
#[global] Arguments beat : simpl never.

(** *** The task of [report_and_keep_alive] and its handle *)
Module Alive.
Section Alive.
Context {FE : ForeignErrors} {TK : Tasks} {IV : Intervals} {BC : Build} `{HR : Report R W}.

(** The task, whether its timer is made, the counter, the world of the reporter
    and the number of ticks that have come. *)
Record state := MkState { handle : run unit; ticking : bool; counter : Z; world : W; ticks : nat }.

Definition spawn (w : W) : state := MkState Running false 0 w 0.

(** [closure] says what a call of the closure that makes the properties can
    come to: properties, in an order that their map yields, or a panic. *)
Inductive step (m : Manager R) (heartbeat_period factor : Z)
    (closure : outcome (list (string * list string)) → Prop) : state → state → Prop :=
(* let mut ticker = time::interval(heartbeat_period) *)
| step_interval s :
    handle s = Running → ticking s = false → interval heartbeat_period = Ret tt →
    step m heartbeat_period factor closure s (MkState Running true (counter s) (world s) (ticks s))
| step_interval_panic s msg :
    handle s = Running → ticking s = false → interval heartbeat_period = Panic msg →
    step m heartbeat_period factor closure s (MkState (Unwound msg) false (counter s) (world s) (ticks s))
(* a tick, with what the closure comes to if it is called *)
| step_tick s properties c w :
    handle s = Running → ticking s = true → (counter s = 0 → closure properties) →
    (counter s, world s) ⊢ beat m factor properties ⇓ tt ⊣ (c, w) →
    step m heartbeat_period factor closure s (MkState Running true c w (S (ticks s)))
| step_tick_panic s properties msg c w :
    handle s = Running → ticking s = true → (counter s = 0 → closure properties) →
    (counter s, world s) ⊢ beat m factor properties ⇑ msg ⊣ (c, w) →
    step m heartbeat_period factor closure s (MkState (Unwound msg) true c w (ticks s))
(* [handle().abort()] *)
| step_abort s :
    step m heartbeat_period factor closure s (MkState (abort (handle s)) (ticking s) (counter s) (world s) (ticks s)).

(** [ReportAndKeepAlive::poll]. *)
Definition poll (s : state) : poll (result unit join_error) := joined (handle s).
End Alive.
Arguments state : clear implicits.
End Alive.

(** ** Lemmas *)
Section PropertiesLemmas.
Definition values_of (key : string) (l : list KeyStringValuePair.t) : list string :=
  KeyStringValuePair.value <$> filter (λ kv, KeyStringValuePair.key kv = key) l.

#[global] Arguments values_of : simpl never.

Lemma values_of_app key l1 l2 : values_of key (l1 ++ l2) = values_of key l1 ++ values_of key l2.
Proof. unfold values_of. by rewrite filter_app, fmap_app. Qed.

Lemma values_of_map key key' vs :
  values_of key (map (KeyStringValuePair.Mk key') vs) = if decide (key' = key) then vs else [].
Proof.
  unfold values_of. induction vs as [|v vs IH]; [by case_decide|].
  cbn [map]. rewrite filter_cons. cbn [KeyStringValuePair.key].
  destruct (decide (key' = key)); [|exact IH]. cbn. by f_equal.
Qed.

(** The pairs of one key, whatever order the keys come in. *)
Lemma values_of_flatten key order :
  NoDup order.*1 →
  values_of key (Properties.flatten order) = default [] (list_to_map (M := gmap string (list string)) order !! key).
Proof.
  induction order as [|[k vs] order IH]; cbn; [by rewrite lookup_empty|].
  intros [Hk Hnd]%NoDup_cons. rewrite values_of_app, values_of_map, IH by done.
  case_decide as Heq.
  - subst k. rewrite lookup_insert_eq, not_elem_of_list_to_map_1 by done. cbn. by rewrite app_nil_r.
  - by rewrite lookup_insert_ne.
Qed.

Lemma values_of_yields key p order :
  Properties.yields p order →
  values_of key (Properties.flatten order) = default [] (Properties.inner p !! key).
Proof.
  intros Hy. unfold Properties.yields in Hy.
  assert (NoDup order.*1) by (rewrite Hy; apply NoDup_fst_map_to_list).
  rewrite values_of_flatten by done. do 2 f_equal.
  rewrite <-(list_to_map_to_list (Properties.inner p)). by apply list_to_map_proper.
Qed.

(** What a list of insertions adds to a key. *)
Definition info_of (key : string) (l : list (string * string)) : list string :=
  snd <$> filter (λ kv, kv.1 = key) l.
#[global] Arguments info_of : simpl never.

Lemma info_of_app key l1 l2 : info_of key (l1 ++ l2) = info_of key l1 ++ info_of key l2.
Proof. unfold info_of. by rewrite filter_app, fmap_app. Qed.

Lemma info_of_cons key kv l :
  info_of key (kv :: l) = (if decide (kv.1 = key) then [kv.2] else []) ++ info_of key l.
Proof. unfold info_of. rewrite filter_cons. by case_decide. Qed.

Lemma info_of_same key vs : info_of key (map (λ v, (key, v)) vs) = vs.
Proof.
  induction vs as [|v vs IH]; [done|]. cbn [map]. rewrite info_of_cons, decide_True by done.
  cbn. by rewrite IH.
Qed.

Lemma info_of_none key key' vs : key ≠ key' → info_of key (map (λ v, (key', v)) vs) = [].
Proof.
  intros Hne. induction vs as [|v vs IH]; [done|]. cbn [map].
  rewrite info_of_cons, decide_False by (cbn; congruence). exact IH.
Qed.

Lemma insert_all l p key :
  default [] (Properties.inner (foldl (λ p '(key, value), Properties.insert key value p) p l) !! key)
    = default [] (Properties.inner p !! key) ++ info_of key l.
Proof.
  revert p. induction l as [|[k v] l IH]; intros p; cbn [foldl]; [unfold info_of; cbn; by rewrite app_nil_r|].
  rewrite IH, info_of_cons. cbn. destruct (decide (k = key)) as [->|Hne].
  - rewrite lookup_insert_eq. cbn. by rewrite <-app_assoc.
  - by rewrite lookup_insert_ne.
Qed.

(** The list as a sum of its five parts, for one key. *)
Lemma info_parts k o :
  info_of k (Os.build_os_info o) =
    (if decide (Properties.KEY_OS_NAME = k) then option_list (Os.OS_NAME o) else []) ++
    (if decide (Properties.KEY_HOST_NAME = k) then option_list (Os.hostname o) else []) ++
    (if decide (Properties.KEY_IPV4 = k) then Os.IPS o else []) ++
    (if decide (Properties.KEY_PROCESS_NO = k) then [dec_string (Os.process_id o)] else []) ++
    (if decide (Properties.KEY_LANGUAGE = k) then ["rust"] else []).
Proof.
  unfold Os.build_os_info. rewrite !info_of_app, !info_of_cons. cbn [fst snd].
  f_equal; [|f_equal; [|f_equal; [|by rewrite app_nil_r]]].
  - destruct (Os.OS_NAME o) as [n|]; [rewrite info_of_cons, app_nil_r; by cbn|by case_decide].
  - destruct (Os.hostname o) as [n|]; [rewrite info_of_cons, app_nil_r; by cbn|by case_decide].
  - case_decide; [subst; apply info_of_same|by apply info_of_none].
Qed.

Lemma elem_of_IPS o ip :
  ip ∈ Os.IPS o ↔ ∃ ns n, Os.networks o = Some ns ∧ n ∈ ns ∧ Os.V4 ip ∈ Os.addrs n ∧
    Os.name n ≠ "lo" ∧ starts_with "docker" (Os.name n) = false ∧
    starts_with "br-" (Os.name n) = false.
Proof.
  unfold Os.IPS. destruct (Os.networks o) as [ns|].
  2: { split; [intros H; by apply elem_of_nil in H|by intros (? & ? & ? & _)]. }
  rewrite list_elem_of_In, in_flat_map. setoid_rewrite filter_In. setoid_rewrite <-list_elem_of_In.
  setoid_rewrite list_elem_of_omap. unfold Os.counts_network.
  setoid_rewrite andb_true_iff. setoid_rewrite andb_true_iff. setoid_rewrite negb_true_iff.
  setoid_rewrite String.eqb_neq. split.
  - intros (n & [Hn [[? ?] ?]] & [a|] & Ha & [= <-]). by exists ns, n.
  - intros (ns' & n & [= <-] & ? & ? & ? & ? & ?). exists n. split; [by split_and!|].
    by exists (Os.V4 ip).
Qed.
End PropertiesLemmas.

Section ManagerLemmas.
Context {BC : Build} `{HR : Report R W}.
Context (healthy : R → W → Prop) (delivered : W → list CollectItem).
Context {HL : ReportLaws R W healthy delivered}.

(** The period in ticks: a factor of 0 is as good as 1. *)
Definition period (factor : Z) : Z := Z.max 1 factor.

(** What the [k]-th tick reports; [order] is what the closure returns, if it is
    called. *)
Definition heartbeat_item (m : Manager R) (factor : Z) (k : nat) (order : list (string * list string))
    : CollectItem :=
  if Z.of_nat k `mod` period factor =? 0
  then Instance_ (Properties.convert_to_instance_properties order (service_name m) (instance_name m))
  else Ping (InstancePingPkg.Mk (service_name m) (instance_name m) "").

Lemma next_counter factor c :
  in_unsigned usize_bits factor = true → 0 ≤ c < period factor →
  in_unsigned usize_bits (c + 1) = true ∧
  (if factor <=? c + 1 then 0 else c + 1) = (c + 1) `mod` period factor.
Proof.
  unfold period, usize_bits. rewrite !in_unsigned_spec. intros Hf Hc. split; [lia|].
  destruct (Z.leb_spec factor (c + 1)).
  - assert (c + 1 = Z.max 1 factor) as -> by lia. by rewrite Z_mod_same_full.
  - by rewrite Z.mod_small by lia.
Qed.

Lemma beat_run m factor k p order w :
  in_unsigned usize_bits factor = true → (Z.of_nat k `mod` period factor = 0 → p = Ret order) →
  healthy (reporter m) w →
  ∃ w', ((Z.of_nat k `mod` period factor, w) ⊢ beat m factor p
           ⇓ tt ⊣ (Z.of_nat (S k) `mod` period factor, w')) ∧
    healthy (reporter m) w' ∧ delivered w' = delivered w ++ [heartbeat_item m factor k order].
Proof.
  intros Hf Hp Hh. set (c := Z.of_nat k `mod` period factor) in *.
  assert (0 < period factor) by (unfold period; lia).
  assert (Hc : 0 ≤ c < period factor) by (unfold c; apply Z.mod_pos_bound; lia).
  destruct (next_counter factor c Hf Hc) as [Hfit Hnext].
  destruct (report_delivers (reporter m) w (heartbeat_item m factor k order) Hh) as (w' & Hrun & Hh' & Hdel).
  exists w'. split; [|done]. unfold beat.
  rewrite (bind_Ret (gets fst) _ _ c (c, w)) by done.
  erewrite (bind_Ret _ _ _ tt (c, w')).
  2: { unfold heartbeat_item in Hrun. fold c in Hrun.
       destruct (Z.eqb_spec c 0) as [E|E].
       - rewrite (Hp E). by erewrite zoom_run by exact Hrun.
       - by erewrite zoom_run by exact Hrun. }
  unfold usize_add, arith. rewrite Hfit. rewrite bind_ret_l. unfold modify. cbn [fst snd].
  rewrite Hnext. do 2 f_equal. unfold c. rewrite Z.add_mod_idemp_l by lia. f_equal. lia.
Qed.

Lemma beats_run m factor orders k w :
  in_unsigned usize_bits factor = true → healthy (reporter m) w →
  ∃ w', ((Z.of_nat k `mod` period factor, w) ⊢ beats m factor (Ret <$> orders)
           ⇓ tt ⊣ (Z.of_nat (k + length orders) `mod` period factor, w')) ∧
    healthy (reporter m) w' ∧
    delivered w' = delivered w ++ imap (λ i, heartbeat_item m factor (k + i)) orders.
Proof.
  intros Hf. revert k w. induction orders as [|o orders IH]; intros k w Hh; cbn [beats fmap list_fmap].
  - exists w. cbn. by rewrite Nat.add_0_r, app_nil_r.
  - destruct (beat_run m factor k (Ret o) o w Hf) as (w1 & Hrun & Hh1 & Hdel1); [done..|].
    destruct (IH (S k) w1 Hh1) as (w2 & Hrun2 & Hh2 & Hdel2).
    exists w2. rewrite (bind_Ret _ _ _ _ _ Hrun). cbn [length].
    rewrite <-plus_n_Sm. split_and!; [done|done|].
    rewrite Hdel2, Hdel1, <-app_assoc. do 2 f_equal. cbn. rewrite Nat.add_0_r. f_equal.
    apply imap_ext. intros i x _. cbn. by rewrite <-plus_n_Sm.
Qed.

(** A tick gets past the closure only if the closure returns, and panics only
    in the closure. *)
Lemma beat_closure m factor c p w s :
  (c, w) ⊢ beat m factor p ⇓ tt ⊣ s → c = 0 → ∃ order, p = Ret order.
Proof. intros Hb ->. destruct p as [order|msg|]; [by exists order|done..]. Qed.

Lemma beat_panic m factor k p msg w s :
  in_unsigned usize_bits factor = true → healthy (reporter m) w →
  (Z.of_nat k `mod` period factor, w) ⊢ beat m factor p ⇑ msg ⊣ s →
  Z.of_nat k `mod` period factor = 0 ∧ p = Panic msg ∧ s.2 = w.
Proof.
  intros Hf Hh Hb. destruct (decide (Z.of_nat k `mod` period factor = 0)) as [E|E].
  - split; [done|]. destruct p as [order|msg'|];
      [|rewrite E in Hb; by injection Hb as -> <-|by rewrite E in Hb].
    destruct (beat_run m factor k (Ret order) order w Hf) as (w' & Hr & _); [done..|]. by rewrite Hr in Hb.
  - destruct (beat_run m factor k p [] w Hf) as (w' & Hr & _); [done..|]. by rewrite Hr in Hb.
Qed.
End ManagerLemmas.

(** *** The life of the periodic task *)
Section AliveLemmas.
Context {IV : Intervals} {BC : Build} `{HR : Report R W}.
Context (healthy : R → W → Prop) (delivered : W → list CollectItem).
Context {HL : ReportLaws R W healthy delivered}.
Context (m : Manager R) (heartbeat_period factor : Z) (closure : outcome (list (string * list string)) → Prop) (w0 : W).
Context (Hfit : in_unsigned usize_bits factor = true).
Import Alive.
Implicit Types (s : state W).

(** What the ticks so far have reported, and how the task can have ended. *)
Record life s : Prop := {
  l_counter : handle s = Running → counter s = Z.of_nat (ticks s) `mod` period factor;
  l_healthy : healthy (reporter m) (world s);
  l_reported : ∃ orders, length orders = ticks s ∧
    (∀ k order, orders !! k = Some order → Z.of_nat k `mod` period factor = 0 → closure (Ret order)) ∧
    delivered (world s) = delivered w0 ++ imap (heartbeat_item m factor) orders;
  l_end : match handle s with
          | Finished _ => False
          | Unwound msg => interval heartbeat_period = Panic msg ∧ ticks s = 0%nat ∨
              interval heartbeat_period = Ret tt ∧ Z.of_nat (ticks s) `mod` period factor = 0 ∧ closure (Panic msg)
          | _ => True
          end;
  l_timer : if ticking s then interval heartbeat_period = Ret tt else ticks s = 0%nat
}.

Lemma life_spawn : healthy (reporter m) w0 → life (spawn w0).
Proof.
  intros Hh. split; cbn; try done. exists []. by rewrite app_nil_r.
Qed.

Lemma life_tick s p c w :
  life s → handle s = Running → ticking s = true → (counter s = 0 → closure p) →
  (counter s, world s) ⊢ beat m factor p ⇓ tt ⊣ (c, w) →
  life (MkState Running true c w (S (ticks s))).
Proof using Hfit HL.
  intros [Hc Hh (orders & Hlen & Hps & Hd) _ Ht] Hr Hti Hcl Hb. rewrite Hti in Ht. rewrite Hc in Hb, Hcl by done.
  assert (∃ order, Z.of_nat (ticks s) `mod` period factor = 0 → p = Ret order) as [order Hp].
  { destruct (decide (Z.of_nat (ticks s) `mod` period factor = 0)) as [E|E]; [|by exists []].
    destruct (beat_closure _ _ _ _ _ _ Hb E) as [order ->]. by exists order. }
  destruct (beat_run healthy delivered m factor (ticks s) p order (world s) Hfit Hp Hh) as (w' & Hb' & Hh' & Hd').
  rewrite Hb' in Hb. injection Hb as <- <-. split; cbn; try done.
  exists (orders ++ [order]). rewrite length_app, imap_app, Hd', Hd, <-app_assoc. cbn.
  rewrite Nat.add_0_r, Hlen. split_and!; [lia| |done].
  intros k q [?|[? Hq]]%lookup_app_Some E; [by eapply Hps|].
  apply list_lookup_singleton_Some in Hq as [Hk <-]. replace k with (ticks s) in E by lia.
  rewrite <-Hp by done. by apply Hcl.
Qed.

Lemma life_step s s' : life s → step m heartbeat_period factor closure s s' → life s'.
Proof.
  intros L Hs. destruct Hs as [s Hr Hti Hi|s msg Hr Hti Hi|s p c w Hr Hti Hcl Hb|s p msg c w Hr Hti Hcl Hb|s].
  - destruct L as [Hc Hh Hd He Ht]. rewrite Hti in Ht. split; cbn; try done. intros _. by apply Hc.
  - destruct L as [Hc Hh Hd He Ht]. rewrite Hti in Ht. split; cbn; try done. by left.
  - by eapply life_tick.
  - destruct L as [Hc Hh Hd He Ht]. rewrite Hti in Ht. rewrite Hc in Hb, Hcl by done.
    destruct (beat_panic healthy delivered m factor _ p msg (world s) _ Hfit Hh Hb) as (E & -> & Hw).
    cbn in Hw. subst w. split; cbn; try done. right. split_and!; [done..|by apply Hcl].
  - destruct L as [Hc Hh Hd He Ht]. split; cbn; try done.
    + intros Ha. apply Hc. by destruct (handle s).
    + by destruct (handle s).
Qed.

Lemma life_reachable s :
  healthy (reporter m) w0 → rtc (step m heartbeat_period factor closure) (spawn w0) s → life s.
Proof.
  intros Hh%life_spawn Hs. revert Hh. generalize (spawn w0) Hs. clear Hs. induction 1; eauto using life_step.
Qed.

(** A task that is over reports no more. *)
Lemma over_final s s' :
  rtc (step m heartbeat_period factor closure) s s' → handle s ≠ Running → handle s' = handle s ∧ world s' = world s.
Proof.
  induction 1 as [|s s1 s2 Hs _ IH]; [done|]. intros Hr.
  destruct Hs; cbn in *; try congruence. assert (abort (handle s) = handle s) as E by by destruct (handle s).
  rewrite E in IH. by apply IH.
Qed.
End AliveLemmas.

(** ** Properties *)
Section Statements.
(** C36: [Properties] is a multimap. In the message made from it, whatever the
    order of the map, the values of a key come in insertion order; inserting
    appends to them, updating replaces them if there were any and otherwise
    does nothing, removing drops them, and no operation touches another
    key. *)
Theorem properties_multimap (p : Properties.t) key value k o0 o1 o2 o3 :
  Properties.yields p o0 → Properties.yields (Properties.insert key value p) o1 →
  Properties.yields (Properties.update key value p) o2 → Properties.yields (Properties.remove key p) o3 →
  let vs o k := values_of k (InstanceProperties.properties
                  (Properties.convert_to_instance_properties o "" "")) in
  vs o1 key = vs o0 key ++ [value] ∧
  vs o2 key = (if decide (key ∈ dom (Properties.inner p)) then [value] else []) ∧
  vs o3 key = [] ∧
  (k ≠ key → vs o1 k = vs o0 k ∧ vs o2 k = vs o0 k ∧ vs o3 k = vs o0 k).
Proof.
  intros H0 H1 H2 H3 vs. unfold vs. cbn.
  rewrite !(values_of_yields _ _ _ H0), !(values_of_yields _ _ _ H1),
    !(values_of_yields _ _ _ H2), !(values_of_yields _ _ _ H3).
  unfold Properties.insert, Properties.update, Properties.remove. cbn.
  rewrite lookup_insert_eq, lookup_delete_eq.
  destruct (Properties.inner p !! key) as [l|] eqn:E; cbn.
  - rewrite decide_True by by apply elem_of_dom. rewrite lookup_insert_eq.
    split_and!; [done..|]. intros Hk. by rewrite !lookup_insert_ne, lookup_delete_ne by done.
  - rewrite decide_False by by apply not_elem_of_dom. rewrite E.
    split_and!; [done..|]. intros Hk. by rewrite lookup_insert_ne, lookup_delete_ne by done.
Qed.

(** The system information. [insert_os_info] appends the language and the
    process number, the names the system gives (if any), and exactly the IPv4
    addresses of the interfaces that are not loopback, docker or bridges; it
    leaves every other key alone and replaces nothing. *)
Lemma os_info_spec (o : Os.t) (p : Properties.t) o0 o1 :
  Properties.yields p o0 → Properties.yields (Os.insert_os_info o p) o1 →
  let vs o k := values_of k (Properties.flatten o) in
  vs o1 Properties.KEY_LANGUAGE = vs o0 Properties.KEY_LANGUAGE ++ ["rust"] ∧
  vs o1 Properties.KEY_PROCESS_NO = vs o0 Properties.KEY_PROCESS_NO ++ [dec_string (Os.process_id o)] ∧
  vs o1 Properties.KEY_OS_NAME = vs o0 Properties.KEY_OS_NAME ++ option_list (Os.OS_NAME o) ∧
  vs o1 Properties.KEY_HOST_NAME = vs o0 Properties.KEY_HOST_NAME ++ option_list (Os.hostname o) ∧
  (∃ ips, vs o1 Properties.KEY_IPV4 = vs o0 Properties.KEY_IPV4 ++ ips ∧
     ∀ ip, ip ∈ ips ↔ ∃ ns n, Os.networks o = Some ns ∧ n ∈ ns ∧ Os.V4 ip ∈ Os.addrs n ∧
       Os.name n ≠ "lo" ∧ starts_with "docker" (Os.name n) = false ∧
       starts_with "br-" (Os.name n) = false) ∧
  (∀ k, k ∉ [Properties.KEY_LANGUAGE; Properties.KEY_PROCESS_NO; Properties.KEY_OS_NAME;
             Properties.KEY_HOST_NAME; Properties.KEY_IPV4] → vs o1 k = vs o0 k).
Proof.
  intros H0 H1 vs. assert (Hvs : ∀ k, vs o1 k = vs o0 k ++ info_of k (Os.build_os_info o)).
  { intros k. unfold vs. rewrite (values_of_yields _ _ _ H0), (values_of_yields _ _ _ H1).
    apply insert_all. }
  setoid_rewrite info_parts in Hvs. split_and!; [rewrite Hvs; cbn; by rewrite ?app_nil_r..| |].
  - exists (Os.IPS o). split; [rewrite Hvs; cbn; by rewrite ?app_nil_r|intros ip; apply elem_of_IPS].
  - intros k Hk. rewrite Hvs, !decide_False by (intros <-; set_solver). by rewrite app_nil_r.
Qed.

(** The [k]-th tick reports the instance properties if [k] is a multiple of the
    factor and a ping otherwise, as long as the closure returns. *)
Lemma heartbeat_schedule {BC : Build} `{HR : Report R W} (healthy : R → W → Prop)
    (delivered : W → list CollectItem) `{HL : !ReportLaws R W healthy delivered}
    (m : Manager R) factor orders w :
  in_unsigned usize_bits factor = true → healthy (reporter m) w →
  ∃ c w', report_and_keep_alive m factor (Ret <$> orders) w = (Ret tt, (c, w')) ∧
    delivered w' = delivered w ++ imap (heartbeat_item m factor) orders.
Proof.
  intros Hf Hh. destruct (beats_run healthy delivered m factor orders 0 w Hf Hh) as (w' & Hrun & _ & Hdel).
  unfold report_and_keep_alive. cbn in Hrun. rewrite Z.mod_0_l in Hrun by (unfold period; lia).
  rewrite Hrun. eauto.
Qed.

(** C31: the heartbeat. For any factor of the type [usize], whenever the task
    is looked at: the [k]-th of the ticks so far has reported the instance
    properties, as the closure returned them, if [k] is a multiple of the factor,
    and a ping otherwise (a factor of 0 behaves as 1), each once, in order, and
    nothing else, and the counter has not overflowed. The task never returns, so
    its handle is never ready with [Ok]; it ends when it is aborted, when the
    closure panics, which only happens on a properties tick, or at once, before
    any tick, if the heartbeat period is zero; then it reports no more. *)
Theorem heartbeat_life {FE : ForeignErrors} {TK : Tasks} {KL : TasksLaws} {IV : Intervals}
    {IL : IntervalsLaws} {BC : Build} `{HR : Report R W} (healthy : R → W → Prop)
    (delivered : W → list CollectItem) `{HL : !ReportLaws R W healthy delivered}
    (m : Manager R) heartbeat_period factor closure w s :
  in_unsigned usize_bits factor = true → healthy (reporter m) w →
  rtc (Alive.step m heartbeat_period factor closure) (Alive.spawn w) s →
  (∃ orders, length orders = Alive.ticks s ∧
     (∀ k order, orders !! k = Some order → Z.of_nat k `mod` period factor = 0 → closure (Ret order)) ∧
     delivered (Alive.world s) = delivered w ++ imap (heartbeat_item m factor) orders) ∧
  Alive.poll s ≠ Ready (Ok tt) ∧
  (∀ msg, Alive.handle s = Unwound msg →
     if decide (heartbeat_period = 0) then Alive.ticks s = 0%nat
     else Z.of_nat (Alive.ticks s) `mod` period factor = 0 ∧ closure (Panic msg)) ∧
  (Alive.handle s ≠ Running → ∀ s', rtc (Alive.step m heartbeat_period factor closure) s s' →
     Alive.handle s' = Alive.handle s ∧ Alive.world s' = Alive.world s).
Proof.
  intros Hf Hh Hs. destruct (life_reachable healthy delivered m heartbeat_period factor closure w Hf s Hh Hs)
    as [_ _ Hd He _]. split_and!.
  - exact Hd.
  - unfold Alive.poll. intros Hp%joined_ok. by rewrite Hp in He.
  - intros msg Hu. rewrite Hu in He. case_decide as E.
    + subst. destruct interval_zero as [msg0 Hz]. rewrite Hz in He. naive_solver.
    + rewrite interval_some in He by done. naive_solver.
  - intros Hr s' Hs'. by eapply over_final.
Qed.
End Statements.

(** ** A concrete manager *)
Module ManagementDemo.
#[local] Existing Instance test_build.

Definition props : Properties.t :=
  Properties.insert "k" "v2" (Properties.insert "k" "v1" Properties.new).
Definition order (p : Properties.t) : list (string * list string) := map_to_list (Properties.inner p).

Lemma properties_multimap_witness :
  values_of "k" (Properties.flatten (order (Properties.insert "k" "v3" props))) = ["v1"; "v2"; "v3"].
Proof.
  destruct (properties_multimap props "k" "v3" "k" (order props)
    (order (Properties.insert "k" "v3" props)) (order (Properties.update "k" "v3" props))
    (order (Properties.remove "k" props)) (reflexivity _) (reflexivity _) (reflexivity _) (reflexivity _))
    as [H _]. exact H.
Defined.

Definition host : Os.t :=
  Os.Mk Os.linux (Some [Os.MkNetwork "lo" [Os.V4 "127.0.0.1"];
                        Os.MkNetwork "eth0" [Os.NotV4; Os.V4 "10.0.0.2"];
                        Os.MkNetwork "docker0" [Os.V4 "172.17.0.1"]]) (Some "host") 42.

Example host_info :
  Os.build_os_info host =
    [("OS Name", "Linux"); ("hostname", "host"); ("ipv4", "10.0.0.2"); ("Process No.", "42");
     ("language", "rust")].
Proof. vm_compute. reflexivity. Qed.

Lemma os_info_spec_witness :
  values_of Properties.KEY_LANGUAGE (Properties.flatten (order (Os.insert_os_info host props))) = ["rust"].
Proof.
  destruct (os_info_spec host props (order props) (order (Os.insert_os_info host props))
    (reflexivity _) (reflexivity _)) as [H _]. exact H.
Defined.

(** Two ticks with factor 3, then an abort. *)
#[local] Existing Instance text_errors.
#[local] Existing Instances Inline.intervals Inline.intervals_laws.
#[local] Instance inline : Tasks := Inline.tasks (FE := text_errors) id "cancelled"%string.
#[local] Instance inline_laws : TasksLaws := Inline.tasks_laws (FE := text_errors) id "cancelled"%string.

Definition manager : Manager MockReporter := manager_new "s" "i" Mock.
Definition aborted : Alive.state (list CollectItem) :=
  Alive.MkState Aborted true 2
    [Instance_ (InstanceProperties.Mk "s" "i" [] ""); Ping (InstancePingPkg.Mk "s" "i" "")] 2.

(** The closure returns no properties. *)
Definition nothing (p : outcome (list (string * list string))) : Prop := p = Ret [].

Lemma aborted_reachable : rtc (Alive.step manager 30 3 nothing) (Alive.spawn []) aborted.
Proof.
  eapply rtc_l; [by apply Alive.step_interval|cbn].
  eapply rtc_l; [by apply (Alive.step_tick _ _ _ _ _ (Ret []))|cbn].
  eapply rtc_l; [by apply (Alive.step_tick _ _ _ _ _ (Panic "not called"))|cbn].
  apply rtc_once, (Alive.step_abort manager 30 3 nothing (Alive.MkState Running true 2 _ 2)).
Qed.

Lemma heartbeat_life_witness :
  Alive.poll aborted ≠ Ready (Ok tt) ∧
  ∃ orders, length orders = 2%nat ∧ orders !! 0%nat = Some [] ∧
    Alive.world aborted = imap (heartbeat_item manager 3) orders.
Proof.
  destruct (heartbeat_life (λ _ _, True) id manager 30 3 nothing [] aborted eq_refl Logic.I aborted_reachable)
    as ((orders & Hl & Hc & Hd) & Hp & _). split; [done|]. exists orders. split_and!; [done| |exact Hd].
  destruct orders as [|o orders]; [done|]. cbn. f_equal. specialize (Hc 0%nat o eq_refl eq_refl). by injection Hc.
Defined.
End ManagementDemo.
