(* ===== verification/Pipeline.v ===== *)
(** * From the caller's [report] to the background worker

    The gRPC and the Kafka reporters share this part of reporter/mod.rs,
    grpc.rs and kafka.rs: [report] puts an item into a channel unless the
    reporter is closing; a worker takes items out and gives them to a sink until
    it is told to shut down or the channel ends, then flushes. The channel is an
    interface (user-defined producers and consumers are possible), which the
    ends of tokio's channel implement. *)

From S2P Require Import Prelude Error Proto Reporter Channel.

Local Open Scope sky_scope.

(** ** The channel's two ends *)

(** [CollectItemProduce]: [Pending] is a caller blocked in a full channel. *)
Class CollectItemProduce (W X : Type) :=
  produce : CollectItem → M W (poll (result unit X)).

(** [ConsumeResult] and [CollectItemConsume]. *)
Definition ConsumeResult (X : Type) : Type := result (option CollectItem) X.
Class CollectItemConsume (W X : Type) := {
  consume : M W (poll (ConsumeResult X));
  try_consume : M W (ConsumeResult X);
  drop_consumer : W → W
}.

(** The noop ends [()]. *)
#[export] Instance Produce_unit X : CollectItemProduce unit X := λ _, ret (Ready (Ok tt)).
#[export] Instance Consume_unit X : CollectItemConsume unit X := {|
  consume := ret (Ready (Ok None));
  try_consume := ret (Ok None);
  drop_consumer := id
|}.

(** What the worker and the callers rely on. [other w w'] is a move of whoever
    else holds an end of the channel. *)
Class ChannelLaws (W X : Type) {P : CollectItemProduce W X} {C : CollectItemConsume W X}
    (contents : W → list CollectItem) (dropped : W → Prop) (other : W → W → Prop) : Prop := {
  produce_total w item : ∃ r w', w ⊢ produce item ⇓ r ⊣ w';
  produce_Ok w item w' :
    w ⊢ produce item ⇓ Ready (Ok tt) ⊣ w' → contents w' = contents w ++ [item] ∧ ¬ dropped w;
  produce_not w item r w' :
    w ⊢ produce item ⇓ r ⊣ w' → r ≠ Ready (Ok tt) → contents w' = contents w;
  produce_dropped w item r w' : w ⊢ produce item ⇓ r ⊣ w' → dropped w' ↔ dropped w;
  consume_item w item w' :
    w ⊢ consume ⇓ Ready (Ok (Some item)) ⊣ w' → contents w = item :: contents w';
  consume_not w r w' :
    w ⊢ consume ⇓ r ⊣ w' → (∀ item, r ≠ Ready (Ok (Some item))) → contents w' = contents w;
  consume_dropped w r w' : w ⊢ consume ⇓ r ⊣ w' → dropped w' ↔ dropped w;
  try_consume_total w : ∃ r w', w ⊢ try_consume ⇓ r ⊣ w';
  try_consume_item w item w' :
    w ⊢ try_consume ⇓ Ok (Some item) ⊣ w' → contents w = item :: contents w';
  try_consume_none w w' :
    w ⊢ try_consume ⇓ Ok None ⊣ w' → contents w = [] ∧ contents w' = [];
  try_consume_err w e w' :
    w ⊢ try_consume ⇓ Err e ⊣ w' → contents w = [] ∧ contents w' = [];
  try_consume_dropped w r w' : w ⊢ try_consume ⇓ r ⊣ w' → dropped w' ↔ dropped w;
  drop_contents w : contents (drop_consumer w) = [] ∧ dropped (drop_consumer w);
  other_contents w w' : other w w' → contents w' = contents w ∧ (dropped w' ↔ dropped w)
}.

(** ** The ends of tokio's channel *)
Section MpscEnds.
Context `{MP : Mpsc Ch}.

(** The boxed errors. *)
Inductive channel_error := FromSend (e : SendError) | FromTryRecv (e : TryRecvError).

(** [CollectItemProduce] for [Sender] and [UnboundedSender]. *)
#[export] Instance produce_mpsc : CollectItemProduce (Ch CollectItem) channel_error := λ item,
  r <- send item ;;
  ret (match r with
       | Ready (Ok _) => Ready (Ok tt)
       | Ready (Err e) => Ready (Err (FromSend e))
       | Pending => Pending
       end).

(** [CollectItemConsume] for [Receiver] and [UnboundedReceiver]. *)
Definition consume_mpsc : M (Ch CollectItem) (poll (ConsumeResult channel_error)) :=
  r <- recv ;; ret (match r with Ready item => Ready (Ok item) | Pending => Pending end).
Definition try_consume_mpsc : M (Ch CollectItem) (ConsumeResult channel_error) :=
  r <- try_recv ;;
  ret (match r with
       | Ok item => Ok (Some item)
       | Err Empty => Ok None
       | Err Disconnected => Err (FromTryRecv Disconnected)
       end).
#[export] Instance consume_instance : CollectItemConsume (Ch CollectItem) channel_error := {|
  consume := consume_mpsc;
  try_consume := try_consume_mpsc;
  drop_consumer := drop_receiver
|}.

Context {ML : MpscLaws Ch}.

Lemma produce_cases (c : Ch CollectItem) item : ∃ r c',
  produce item c = (Ret r, c') ∧ receiving c' = receiving c ∧ senders c' = senders c ∧
  capacity c' = capacity c ∧
  ((r = Ready (Ok tt) ∧ queued c' = queued c ++ [item] ∧ receiving c = true) ∨
   (r ≠ Ready (Ok tt) ∧ queued c' = queued c ∧ (receiving c = true → is_full c = true))).
Proof.
  unfold produce, produce_mpsc, bind, ret.
  destruct (send_law c item) as (c' & [(Hr & -> & ? & ? & ? & ?)|[(Hr & Hf & -> & ? & ? & ? & ?)
    |(Hr & Hf & -> & ? & ? & ? & ?)]]); eexists _, c'; split_and!; try done; auto;
    right; split_and!; congruence.
Qed.

Lemma consume_cases (c : Ch CollectItem) : ∃ r c',
  consume c = (Ret r, c') ∧ receiving c' = receiving c ∧ senders c' = senders c ∧
  ((∃ x, r = Ready (Ok (Some x)) ∧ queued c = x :: queued c') ∨
   ((r = Pending ∨ r = Ready (Ok None)) ∧ queued c = [] ∧ queued c' = [])).
Proof.
  unfold consume; cbn. unfold consume_mpsc, bind, ret.
  destruct (recv_law c) as (c' & [(x & q & Hq & -> & ? & ? & ? & ?)|[(Hq & Hn & -> & ? & ? & ? & ?)
    |(Hq & Hn & -> & ? & ? & ? & ?)]]); eexists _, c'; split_and!; try done.
  - left. exists x. split; congruence.
  - right. split; [by right|done].
  - right. split; [by left|done].
Qed.

Lemma try_consume_cases (c : Ch CollectItem) : ∃ r c',
  try_consume c = (Ret r, c') ∧ receiving c' = receiving c ∧ senders c' = senders c ∧
  ((∃ x, r = Ok (Some x) ∧ queued c = x :: queued c') ∨
   (r = Ok None ∧ queued c = [] ∧ queued c' = [] ∧ senders c ≠ 0%nat) ∨
   ((∃ e, r = Err e) ∧ queued c = [] ∧ queued c' = [])).
Proof.
  unfold try_consume; cbn. unfold try_consume_mpsc, bind, ret.
  destruct (try_recv_law c) as (c' & [(x & q & Hq & -> & ? & ? & ? & ?)|[(Hq & Hn & -> & ? & ? & ? & ?)
    |(Hq & Hn & -> & ? & ? & ? & ?)]]); eexists _, c'; split_and!; try done.
  - left. exists x. split; congruence.
  - right; right. split; [by eexists|done].
  - right; left. done.
Qed.

Lemma sender_moves_obs (c c' : Ch CollectItem) :
  sender_moves c c' → queued c' = queued c ∧ receiving c' = receiving c.
Proof.
  intros [d _|d _]; [destruct (clone_sender_law d) as (? & _ & ? & _)
                    |destruct (drop_sender_law d) as (? & _ & ? & _)]; done.
Qed.

#[export] Instance mpsc_channel_laws :
  ChannelLaws (Ch CollectItem) channel_error queued (λ c, receiving c = false) sender_moves.
Proof.
  split.
  - intros c item. destruct (produce_cases c item) as (r & c' & ? & _). by exists r, c'.
  - intros c item c' H. destruct (produce_cases c item) as (r & d & Hr & _ & _ & _ & [(_ & ? & Hx)|(Hn & _)]);
      rewrite H in Hr; simplify_eq; try done; split; [done|congruence].
  - intros c item r c' H Hne.
    destruct (produce_cases c item) as (r' & d & Hr & _ & _ & _ & [(? & _)|(_ & ? & _)]);
      rewrite H in Hr; by simplify_eq.
  - intros c item r c' H. destruct (produce_cases c item) as (r' & d & Hr & Hx & _).
    rewrite H in Hr. simplify_eq. by rewrite Hx.
  - intros c item c' H. destruct (consume_cases c) as (r & d & Hr & _ & _ & [(x & ? & ?)|([?|?] & _)]);
      rewrite H in Hr; by simplify_eq.
  - intros c r c' H Hne. destruct (consume_cases c) as (r' & d & Hr & _ & _ & [(x & ? & ?)|(_ & ? & ?)]);
      rewrite H in Hr; simplify_eq; try congruence; by destruct (Hne x).
  - intros c r c' H. destruct (consume_cases c) as (r' & d & Hr & Hx & _).
    rewrite H in Hr. simplify_eq. by rewrite Hx.
  - intros c. destruct (try_consume_cases c) as (r & c' & ? & _). by exists r, c'.
  - intros c item c' H.
    destruct (try_consume_cases c) as (r & d & Hr & _ & _ & [(x & ? & ?)|[(? & _)|([e ?] & _)]]);
      rewrite H in Hr; by simplify_eq.
  - intros c c' H.
    destruct (try_consume_cases c) as (r & d & Hr & _ & _ & [(x & ? & ?)|[(_ & ? & ? & _)|([e ?] & _)]]);
      rewrite H in Hr; by simplify_eq.
  - intros c e c' H.
    destruct (try_consume_cases c) as (r & d & Hr & _ & _ & [(x & ? & ?)|[(? & _)|(_ & ? & ?)]]);
      rewrite H in Hr; by simplify_eq.
  - intros c r c' H. destruct (try_consume_cases c) as (r' & d & Hr & Hx & _).
    rewrite H in Hr. simplify_eq. by rewrite Hx.
  - intros c. by destruct (drop_receiver_law c) as (? & _ & ? & _).
  - intros c c' Hm. destruct (sender_moves_obs c c' Hm) as [? Hx]. by rewrite Hx.
Qed.
End MpscEnds.

(** ** The two halves of a reporter *)
Section Pipeline.
Context {FE : ForeignErrors} {W X : Type} {P : CollectItemProduce W X} {C : CollectItemConsume W X}.

(** The error handler acts on [H]; a channel error is boxed into the crate's
    error. *)
Context {H : Type} (err_handle : string → X → M H unit) (boxed : X → other_error).

(** What is in the channel: for the ghosts only. *)
Context (contents : W → list CollectItem).

(** What a sink does with an item: [InnerReportSender::report] for gRPC,
    [KafkaProducer::produce] for Kafka. *)
Context {V : Type} (sink : CollectItem → M V unit).

(** The caller's side: the producer and the shared [is_closing] flag. *)
Record Front := MkFront { chan : W; is_closing : bool; handler : H }.

Definition REPORT_MSG : string := "report collect item failed".

(** The body of the [if] of [Report::report]. *)
Definition send_item (item : CollectItem) : M Front (poll unit) :=
  r <- zoom chan (λ w s, MkFront w (is_closing s) (handler s)) (produce item) ;;
  match r with
  | Ready (Ok _) => ret (Ready tt)
  | Ready (Err e) =>
      zoom handler (λ h s, MkFront (chan s) (is_closing s) h) (err_handle REPORT_MSG e) ;;
      ret (Ready tt)
  | Pending => ret Pending
  end.

(** [Report::report] of both reporters. *)
Definition front_report (item : CollectItem) : M Front (poll unit) :=
  closing <- gets is_closing ;;
  if closing : bool then ret (Ready tt) else send_item item.

(** [state.is_closing.store(true, ..)]. *)
Definition store_closing (f : Front) : Front := MkFront (chan f) true (handler f).
Definition set_chan (w : W) (f : Front) : Front := MkFront w (is_closing f) (handler f).

(** The worker: in the loop, giving an item to the sink (from the loop or from
    the flush), flushing, at the end of the flush, returned. *)
Inductive phase :=
| Looping
| Giving (item : CollectItem) (flushing : bool)
| Flushing
| Flushed
| Ended (r : result unit Error).

(** The whole: the callers that have read the flag and not yet sent; the
    shutdown message ([signalled]: the signal has come and the message is
    sent); [task], what the spawned task returned. Ghosts: the items the
    channel accepted, those given to the sink, those accepted after closing,
    those lost in the channel when the worker dropped it. *)
Record state := MkState {
  front : Front;
  callers : list CollectItem;
  at_ : phase;
  sunk : V;
  signalled : bool;
  task : option (result unit Error);
  accepted : list CollectItem;
  delivered : list CollectItem;
  late : list CollectItem;
  lost : list CollectItem
}.

Definition start (w : W) (h : H) (v : V) : state :=
  MkState (MkFront w false h) [] Looping v false None [] [] [] [].

(** What a send adds to the accepted items. *)
Definition taken (r : poll (result unit X)) (item : CollectItem) : list CollectItem :=
  match r with Ready (Ok _) => [item] | _ => [] end.

Definition with_worker (s : state) (f : Front) (p : phase) : state :=
  MkState f (callers s) p (sunk s) (signalled s) (task s) (accepted s) (delivered s) (late s) (lost s).
(** [work_fut] returns and drops the consumer, whatever is left in it. *)
Definition finish (s : state) (w : W) (r : result unit Error) : state :=
  MkState (set_chan (drop_consumer w) (front s)) (callers s) (Ended r) (sunk s) (signalled s) (task s)
    (accepted s) (delivered s) (late s) (contents w).
Definition with_task (s : state) (sig : bool) (r : option (result unit Error)) : state :=
  MkState (front s) (callers s) (at_ s) (sunk s) sig r (accepted s) (delivered s) (late s) (lost s).

Inductive step (other : W → W → Prop) (env : V → V → Prop) : state → state → Prop :=
(* a caller of [report]: the flag, then the channel *)
| caller_check item s :
    is_closing (front s) = false →
    step other env s (MkState (front s) (callers s ++ [item]) (at_ s) (sunk s) (signalled s) (task s)
                    (accepted s) (delivered s) (late s) (lost s))
| caller_send s l1 item l2 r w' f' :
    callers s = l1 ++ item :: l2 → chan (front s) ⊢ produce item ⇓ r ⊣ w' →
    front s ⊢ send_item item ⇓ Ready tt ⊣ f' →
    step other env s (MkState f' (l1 ++ l2) (at_ s) (sunk s) (signalled s) (task s)
                    (accepted s ++ taken r item) (delivered s)
                    (late s ++ if is_closing (front s) then taken r item else []) (lost s))
(* another holder of the channel's ends *)
| channel_other s w' :
    other (chan (front s)) w' →
    step other env s (with_worker s (set_chan w' (front s)) (at_ s))
(* whoever shares the sink's state *)
| sink_other s v' :
    env (sunk s) v' →
    step other env s (MkState (front s) (callers s) (at_ s) v' (signalled s) (task s) (accepted s)
                        (delivered s) (late s) (lost s))
(* the loop: an item, the end, an error, the shutdown message *)
| work_item s item w' :
    at_ s = Looping → chan (front s) ⊢ consume ⇓ Ready (Ok (Some item)) ⊣ w' →
    step other env s (with_worker s (set_chan w' (front s)) (Giving item false))
| work_none s w' :
    at_ s = Looping → chan (front s) ⊢ consume ⇓ Ready (Ok None) ⊣ w' →
    step other env s (with_worker s (store_closing (set_chan w' (front s))) Flushing)
| work_err s e w' :
    at_ s = Looping → chan (front s) ⊢ consume ⇓ Ready (Err e) ⊣ w' →
    step other env s (finish s w' (Err (Other (boxed e))))
| work_shutdown s :
    at_ s = Looping → signalled s = true →
    step other env s (with_worker s (store_closing (front s)) Flushing)
| work_give s item (flushing : bool) v' :
    at_ s = Giving item flushing → sunk s ⊢ sink item ⇓ tt ⊣ v' →
    step other env s (MkState (front s) (callers s) (if flushing then Flushing else Looping) v'
                    (signalled s) (task s) (accepted s) (delivered s ++ [item]) (late s) (lost s))
(* the flush *)
| flush_item s item w' :
    at_ s = Flushing → chan (front s) ⊢ try_consume ⇓ Ok (Some item) ⊣ w' →
    step other env s (with_worker s (set_chan w' (front s)) (Giving item true))
| flush_none s w' :
    at_ s = Flushing → chan (front s) ⊢ try_consume ⇓ Ok None ⊣ w' →
    step other env s (with_worker s (set_chan w' (front s)) Flushed)
| flush_err s e w' :
    at_ s = Flushing → chan (front s) ⊢ try_consume ⇓ Err e ⊣ w' →
    step other env s (finish s w' (Err (Other (boxed e))))
| work_end s :
    at_ s = Flushed → step other env s (finish s (chan (front s)) (Ok tt))
(* [shutdown_fut]: the message reaches the worker only while it runs *)
| shutdown_signal s :
    signalled s = false → task s = None → (∀ r, at_ s ≠ Ended r) →
    step other env s (with_task s true None)
| shutdown_too_late s e :
    signalled s = false → task s = None → at_ s = Ended (Ok tt) →
    step other env s (with_task s false (Some (Err (Other e))))
(* [try_join!]: an error at once, [Ok] when both futures are done *)
| join_err s e :
    task s = None → at_ s = Ended (Err e) →
    step other env s (with_task s (signalled s) (Some (Err e)))
| join_ok s :
    task s = None → at_ s = Ended (Ok tt) → signalled s = true →
    step other env s (with_task s true (Some (Ok tt))).

(** The sink given items one by one, among the moves of those who share its
    state. *)
Inductive given (env : V → V → Prop) (v : V) : list CollectItem → V → Prop :=
| given_none : given env v [] v
| given_item items item v1 v2 :
    given env v items v1 → v1 ⊢ sink item ⇓ tt ⊣ v2 → given env v (items ++ [item]) v2
| given_env items v1 v2 :
    given env v items v1 → env v1 v2 → given env v items v2.

Lemma given_reachable other env w h v s :
  rtc (step other env) (start w h v) s → given env v (delivered s) (sunk s).
Proof.
  intros Hs. assert (H0 : given env v (delivered (start w h v)) (sunk (start w h v))) by apply given_none.
  induction Hs as [|s s1 s2 Hstep _ IH]; [done|]. apply IH. clear IH.
  destruct Hstep; cbn in *; try done; [by eapply given_env|by eapply given_item].
Qed.

(** ** The invariant *)
Context (dropped : W → Prop) (other : W → W → Prop) {CL : ChannelLaws W X contents dropped other}.
Context (env : V → V → Prop).

Definition in_flight (p : phase) : list CollectItem :=
  match p with Giving item _ => [item] | _ => [] end.
Definition remaining (s : state) : list CollectItem :=
  match at_ s with Ended _ => lost s | _ => contents (chan (front s)) end.

(** The phases that come after the flag was set. *)
Definition after_closing (p : phase) : bool :=
  match p with Giving _ b => b | Flushing | Flushed | Ended (Ok _) => true | _ => false end.
Definition flushed (p : phase) : bool :=
  match p with Flushed | Ended (Ok _) => true | _ => false end.

Record inv (s : state) : Prop := {
  i_items : accepted s = delivered s ++ in_flight (at_ s) ++ remaining s;
  i_ended r : at_ s = Ended r → dropped (chan (front s)) ∧ contents (chan (front s)) = [];
  i_closing : after_closing (at_ s) = true → is_closing (front s) = true;
  i_late : is_closing (front s) = false → late s = [];
  i_early : ∃ early, accepted s = early ++ late s ∧ (flushed (at_ s) = true → early `prefix_of` delivered s);
  i_task : task s = Some (Ok tt) → at_ s = Ended (Ok tt)
}.

Lemma pipe_inv_start w h v : contents w = [] → inv (start w h v).
Proof. intros Hw. split; cbn; try done. exists []. split; done. Qed.

Lemma send_item_run f item r w' f' :
  chan f ⊢ produce item ⇓ r ⊣ w' → f ⊢ send_item item ⇓ Ready tt ⊣ f' →
  chan f' = w' ∧ is_closing f' = is_closing f.
Proof.
  intros Hp Hs. unfold send_item, bind, zoom, ret in Hs. rewrite Hp in Hs. cbn in Hs.
  destruct r as [[[]|e]|]; cbn in Hs; [by injection Hs as <-| |done].
  destruct (err_handle REPORT_MSG e (handler f)) as [[[]|?|] h']; cbn in Hs; by simplify_eq.
Qed.

Lemma contents_send w item r w' :
  w ⊢ produce item ⇓ r ⊣ w' → contents w' = contents w ++ taken r item.
Proof.
  intros Hp. destruct r as [[[]|e]|]; cbn; [by apply produce_Ok in Hp as [-> _]|..];
    rewrite app_nil_r; by eapply produce_not.
Qed.

(** A send into a channel whose receiver is gone is not accepted. *)
Lemma dropped_send w item r w' :
  w ⊢ produce item ⇓ r ⊣ w' → dropped w → taken r item = [].
Proof.
  intros Hp Hd. destruct r as [[[]|e]|]; [|done..]. by apply produce_Ok in Hp as [_ Hn].
Qed.

Lemma inv_send s l1 l2 item r w' f' :
  inv s → chan (front s) ⊢ produce item ⇓ r ⊣ w' → front s ⊢ send_item item ⇓ Ready tt ⊣ f' →
  inv (MkState f' (l1 ++ l2) (at_ s) (sunk s) (signalled s) (task s)
         (accepted s ++ taken r item) (delivered s)
         (late s ++ if is_closing (front s) then taken r item else []) (lost s)).
Proof.
  intros [Hi He Hc Hl Hy Ht] Hp Hs. destruct (send_item_run _ _ _ _ _ Hp Hs) as [Hch Hcl].
  pose proof (contents_send _ _ _ _ Hp) as Hcon. split; unfold remaining in *; cbn; rewrite ?Hch, ?Hcl.
  - rewrite Hi, Hcon. destruct (at_ s) as [| | | |r'] eqn:Hat; try rewrite <-!app_assoc; try done.
    destruct (He r' eq_refl) as [Hd _]. rewrite (dropped_send _ _ _ _ Hp Hd). by rewrite !app_nil_r.
  - intros r' Hat. destruct (He r' Hat) as [Hd Hnil]. split; [by eapply produce_dropped|].
    by rewrite Hcon, Hnil, (dropped_send _ _ _ _ Hp Hd).
  - done.
  - intros Hf. rewrite Hl, Hf by done. done.
  - destruct Hy as (early & Ha & Hpre). destruct (is_closing (front s)) eqn:Hclo.
    + exists early. split; [by rewrite Ha, app_assoc|done].
    + rewrite (Hl eq_refl), app_nil_r in *. exists (accepted s ++ taken r item). split; [by rewrite app_nil_r|].
      intros Hfl. assert (after_closing (at_ s) = true) as Hac by by destruct (at_ s) as [| | | |[]].
      by apply Hc in Hac.
  - done.
Qed.

(** The worker finishes. *)
Lemma inv_finish s w r :
  inv s → contents w = contents (chan (front s)) → (∀ r', at_ s ≠ Ended r') → in_flight (at_ s) = [] →
  (r = Ok tt → at_ s = Flushed) → task s = None ∨ task s ≠ Some (Ok tt) → inv (finish s w r).
Proof.
  intros [Hi He Hc Hl Hy Ht] Hw Hne Hfl Hr Htask. unfold finish. split; unfold remaining in *; cbn.
  - rewrite Hi, Hfl, Hw. destruct (at_ s); try done. by destruct (Hne r0).
  - intros r' _. destruct (drop_contents w) as [? ?]. by split.
  - intros Hac. apply Hc. destruct r as [[]|e]; [|done]. by rewrite Hr.
  - done.
  - destruct Hy as (early & Ha & Hpre). exists early. split; [done|]. intros Hf. apply Hpre.
    destruct r as [[]|e]; [|done]. by rewrite Hr.
  - intros Htk. exfalso. destruct Htask; congruence.
Qed.

(** A step of the worker inside the loop or the flush. *)
Lemma inv_worker s w (closing : bool) p :
  inv s → in_flight p ++ contents w = in_flight (at_ s) ++ contents (chan (front s)) →
  (∀ r, at_ s ≠ Ended r) → (∀ r, p ≠ Ended r) →
  (after_closing p = true → closing = true ∨ is_closing (front s) = true) →
  (flushed p = true → contents w = []) →
  inv (with_worker s (MkFront w (closing || is_closing (front s)) (handler (front s))) p).
Proof.
  intros [Hi He Hc Hl Hy Ht] Hw Hne Hnp Hac Hfl. split; unfold remaining in *; cbn.
  - rewrite Hi. f_equal. destruct (at_ s), p; try done; try (by destruct (Hne _ eq_refl)); by destruct (Hnp _ eq_refl).
  - intros r Hr. by destruct (Hnp r).
  - intros Hp. destruct (Hac Hp) as [E|E]; rewrite E; [done|apply orb_true_r].
  - intros [_ Hf]%orb_false_iff. by apply Hl.
  - destruct Hy as (early & Ha & _). exists early. split; [done|]. intros Hp.
    assert (Hd : delivered s = accepted s).
    { rewrite Hi. specialize (Hfl Hp). rewrite Hfl, app_nil_r in Hw.
      assert (in_flight p = []) as Hfp by (by destruct p as [| | | |[]]). rewrite Hfp in Hw.
      destruct (at_ s) as [| | | |r']; cbn in *; try (by rewrite <-Hw, app_nil_r); try done.
      by destruct (Hne r'). }
    rewrite Hd, Ha. by apply prefix_app_r.
  - intros Htk. destruct (Hne _ (Ht Htk)).
Qed.

Lemma not_ended s p : at_ s = p → (∀ r, p ≠ Ended r) → ∀ r, at_ s ≠ Ended r.
Proof. by intros ->. Qed.

(** The same, for a step that leaves the flag alone. *)
Lemma inv_worker_quiet s w p :
  inv s → in_flight p ++ contents w = in_flight (at_ s) ++ contents (chan (front s)) →
  (∀ r, at_ s ≠ Ended r) → (∀ r, p ≠ Ended r) →
  (after_closing p = true → after_closing (at_ s) = true) →
  (flushed p = true → contents w = []) →
  inv (with_worker s (set_chan w (front s)) p).
Proof.
  intros I Hw Hne Hnp Hac Hfl. apply (inv_worker s w false p I Hw Hne Hnp); [|done].
  intros Hp. right. by apply (i_closing _ I), Hac.
Qed.

Lemma inv_task s sig r :
  inv s → (r = Some (Ok tt) → at_ s = Ended (Ok tt)) → inv (with_task s sig r).
Proof. intros [Hi He Hc Hl Hy Ht] Hr. by split. Qed.

Lemma pipe_inv_step s s' : inv s → step other env s s' → inv s'.
Proof.
  intros I Hstep.
  destruct Hstep as [item s Hc|s l1 item l2 r w' f' Hl Hp Hs|s w' Ho|s v' He|s item w' Hat Hr|s w' Hat Hr
    |s e w' Hat Hr|s Hat Hsig|s item b v' Hat Hr|s item w' Hat Hr|s w' Hat Hr|s e w' Hat Hr|s Hat
    |s Hsig Ht Hne|s e Hsig Ht Hat|s e Ht Hat|s Ht Hat Hsig].
  - destruct I as [Hi He Hcl Hl Hy Ht]. by split.
  - by eapply inv_send.
  - destruct (other_contents _ _ Ho) as [Hc Hd]. destruct I as [Hi He Hcl Hl Hy Ht].
    split; unfold remaining in *; cbn; rewrite ?Hc; try done. intros r Hat. rewrite Hd. exact (He r Hat).
  - destruct I as [Hi Hen Hcl Hl Hy Ht]. by split.
  - apply inv_worker_quiet; rewrite ?Hat; try done. cbn. symmetry. by apply consume_item in Hr.
  - apply (inv_worker s w' true); rewrite ?Hat; cbn; auto; try done. by apply (consume_not _ _ _ Hr).
  - apply inv_finish; rewrite ?Hat; try done; [by apply (consume_not _ _ _ Hr)|].
    right. intros Htk%(i_task _ I). congruence.
  - apply (inv_worker s (chan (front s)) true); rewrite ?Hat; cbn; auto; done.
  - destruct I as [Hi He Hcl Hl Hy Ht]. rewrite Hat in *.
    split; unfold remaining in *; cbn in *; rewrite ?Hat in *.
    + rewrite Hi, <-app_assoc. by destruct b.
    + intros r Hr'. by destruct b.
    + intros Hb. apply Hcl. by destruct b.
    + done.
    + destruct Hy as (early & Ha & Hpre). exists early. split; [done|]. by destruct b.
    + intros Htk%Ht. congruence.
  - apply inv_worker_quiet; rewrite ?Hat; try done. cbn. symmetry. by apply try_consume_item in Hr.
  - apply try_consume_none in Hr as [H0 H1]. apply inv_worker_quiet; rewrite ?Hat; try done.
    cbn. by rewrite H0, H1.
  - apply try_consume_err in Hr as [H0 H1]. apply inv_finish; rewrite ?Hat; try done; [by rewrite H0|].
    right. intros Htk%(i_task _ I). congruence.
  - apply inv_finish; rewrite ?Hat; try done. right. intros Htk%(i_task _ I). congruence.
  - by apply inv_task.
  - by apply inv_task.
  - by apply inv_task.
  - by apply inv_task.
Qed.

Lemma pipe_inv_reachable w h v s : contents w = [] → rtc (step other env) (start w h v) s → inv s.
Proof.
  intros Hw Hs. pose proof (pipe_inv_start w h v Hw) as I. remember (start w h v) as s0 eqn:E. clear E.
  induction Hs; eauto using pipe_inv_step.
Qed.

(** The flush, step by step: if the sink returns, the worker can run to its end
    by itself. *)
Lemma flush_run s :
  (∀ v item, ∃ v', v ⊢ sink item ⇓ tt ⊣ v') → inv s → at_ s = Flushing →
  ∃ s' r, rtc (step other env) s s' ∧ at_ s' = Ended r ∧
    accepted s' = accepted s ∧ delivered s' = accepted s ∧ signalled s' = signalled s.
Proof.
  intros Hsink I Hat.
  remember (length (contents (chan (front s)))) as n eqn:Hn. revert s Hat I Hn.
  induction n as [|n IH]; intros s Hat I Hn;
    destruct (try_consume_total (chan (front s))) as (r & w' & Hr);
    pose proof (i_items _ I) as Hi; unfold remaining in Hi; rewrite Hat in Hi; cbn in Hi.
  - assert (Hc : contents (chan (front s)) = []) by by apply length_zero_iff_nil.
    rewrite Hc, app_nil_r in Hi. destruct r as [[item|]|e].
    + apply try_consume_item in Hr. by rewrite Hc in Hr.
    + eexists _, _. split; [eapply rtc_l; [by eapply flush_none|apply rtc_once; by apply work_end]|].
      by split_and!.
    + eexists _, _. split; [apply rtc_once; by eapply flush_err|]. by split_and!.
  - destruct r as [[item|]|e].
    + assert (S1 := flush_item other env s item w' Hat Hr).
      destruct (Hsink (sunk s) item) as [v' Hv'].
      assert (S2 := work_give other env
        (with_worker s (set_chan w' (front s)) (Giving item true)) item true v' eq_refl Hv').
      pose proof (pipe_inv_step _ _ I S1) as I1. pose proof (pipe_inv_step _ _ I1 S2) as I2.
      edestruct IH as (s' & r & Hrun & ? & ? & ? & ?); [|exact I2| |]; [done| |].
      { cbn. apply try_consume_item in Hr. rewrite Hr in Hn. by injection Hn. }
      exists s', r. split_and!; [|done..]. eapply rtc_l; [exact S1|]. eapply rtc_l; [exact S2|exact Hrun].
    + apply try_consume_none in Hr as [Hc _]. by rewrite Hc in Hn.
    + apply try_consume_err in Hr as [Hc _]. by rewrite Hc in Hn.
Qed.

(** Without another item accepted, the worker runs to its end and is joined. *)
Definition can_end s : Prop :=
  ∃ s' r r', rtc (step other env) s s' ∧ at_ s' = Ended r ∧ task s' = Some r' ∧ accepted s' = accepted s.

Lemma can_end_back s s' :
  rtc (step other env) s s' → accepted s' = accepted s → can_end s' → can_end s.
Proof.
  intros R Ha (s2 & r & r' & R2 & Hat & Ht & Ha2). exists s2, r, r'.
  split_and!; [by etrans|done|done|congruence].
Qed.

Lemma ended_can_end s r : at_ s = Ended r → signalled s = true → can_end s.
Proof.
  intros Hat Hsig. destruct (task s) as [r'|] eqn:Ht; [exists s, r, r'; by split_and!|].
  destruct r as [[]|e].
  - eexists _, _, _. split; [by apply rtc_once, join_ok|by split_and!].
  - eexists _, _, _. split; [by eapply rtc_once, join_err|by split_and!].
Qed.

Context (Hsink : ∀ v item, ∃ v', v ⊢ sink item ⇓ tt ⊣ v').

Lemma flushing_can_end s : inv s → at_ s = Flushing → signalled s = true → can_end s.
Proof.
  intros I Hat Hsig. destruct (flush_run s Hsink I Hat) as (s' & r & R & Hat' & Ha & _ & Hs).
  eapply can_end_back; [exact R|done|]. eapply ended_can_end; [done|congruence].
Qed.

Lemma looping_can_end s : inv s → at_ s = Looping → signalled s = true → can_end s.
Proof.
  intros I Hat Hsig. pose proof (work_shutdown other env s Hat Hsig) as S1.
  eapply can_end_back; [by apply rtc_once, S1|done|].
  apply flushing_can_end; [by eapply pipe_inv_step|done..].
Qed.

(** Once signalled, that holds wherever the worker is. *)
Lemma signalled_can_end s : inv s → signalled s = true → can_end s.
Proof.
  intros I Hsig. destruct (at_ s) as [|item b| | |r] eqn:Hat.
  - by apply looping_can_end.
  - destruct (Hsink (sunk s) item) as [v' Hv'].
    pose proof (work_give other env s item b v' Hat Hv') as S1. pose proof (pipe_inv_step _ _ I S1) as I1.
    eapply can_end_back; [by apply rtc_once, S1|done|].
    destruct b; [by apply flushing_can_end|by apply looping_can_end].
  - by apply flushing_can_end.
  - eapply can_end_back; [by apply rtc_once, work_end|done|]. by eapply ended_can_end.
  - by eapply ended_can_end.
Qed.

(** What the sink has been given when the task has returned [Ok]. *)
Lemma task_ok_early s :
  inv s → task s = Some (Ok tt) →
  ∃ early, accepted s = early ++ late s ∧ early `prefix_of` delivered s.
Proof.
  intros I Htask. destruct (i_early _ I) as (early & Ha & Hpre). exists early. split; [done|].
  apply Hpre. by rewrite (i_task _ I Htask).
Qed.

Lemma delivered_accepted s : inv s → delivered s `prefix_of` accepted s.
Proof. intros I. rewrite (i_items _ I). by apply prefix_app_r. Qed.
End Pipeline.
#[global] Arguments pipe_inv_reachable {FE W X P C H err_handle boxed contents V sink dropped other CL env}.

(** ** Properties *)
Section Properties.
Context {FE : ForeignErrors} {W X : Type} {P : CollectItemProduce W X} {C : CollectItemConsume W X}.
Context {H : Type} (err_handle : string → X → M H unit) (boxed : X → other_error).
Context (contents : W → list CollectItem) {V : Type} (sink : CollectItem → M V unit).
Context (dropped : W → Prop) (other : W → W → Prop) {CL : ChannelLaws W X contents dropped other}.
Context (env : V → V → Prop).

(** C14: exactly once, in order. At every point of every interleaving of
    callers, worker and shutdown, the items the channel has accepted are, in
    the order of their acceptance: those given to the sink, the one the
    worker holds, and those still in the channel (or lost with it, once the
    worker has returned); and the sink is in the state that giving it those
    items one by one leads to. *)
Theorem pipeline_exactly_once w h v s :
  contents w = [] → rtc (step err_handle boxed contents sink other env) (start w h v) s →
  accepted s = delivered s ++ in_flight (at_ s) ++ remaining contents s ∧
  ((∃ r, at_ s = Ended r) → contents (chan (front s)) = []) ∧
  given sink env v (delivered s) (sunk s).
Proof.
  intros Hw Hs. pose proof (pipe_inv_reachable w h v s Hw Hs) as I.
  split_and!; [by apply (i_items _ _ _ I)| |by eapply given_reachable].
  intros [r Hr]. by apply (i_ended _ _ _ I) in Hr as [_ ?].
Qed.

(** C8: graceful shutdown. When the task has returned [Ok], every item that
    was accepted before the reporter was closing has been given to the sink;
    what is lost was accepted after closing, from callers that had read the
    flag just before it was set. *)
Theorem graceful_shutdown_delivers w h v s :
  contents w = [] → rtc (step err_handle boxed contents sink other env) (start w h v) s →
  task s = Some (Ok tt) →
  (∃ early, accepted s = early ++ late s ∧ early `prefix_of` delivered s) ∧
  accepted s = delivered s ++ lost s ∧
  (late s = [] → lost s = [] ∧ delivered s = accepted s).
Proof.
  intros Hw Hs Htask. pose proof (pipe_inv_reachable w h v s Hw Hs) as I.
  pose proof (i_task _ _ _ I Htask) as Hat. pose proof (i_items _ _ _ I) as Hi.
  destruct (task_ok_early contents dropped s I Htask) as (early & Ha & Hpre).
  unfold remaining in Hi. rewrite Hat in Hi. cbn in Hi. split_and!; [by exists early|done|].
  intros Hl. rewrite Hl, app_nil_r in Ha. destruct Hpre as [l Hd].
  assert (Hlen : length (lost s) = 0%nat).
  { apply (f_equal length) in Ha, Hd, Hi. rewrite ?length_app in *. lia. }
  apply length_zero_iff_nil in Hlen. rewrite Hlen, app_nil_r in Hi. by rewrite Hlen, Hi.
Qed.

(** C25: the flush ends. From the moment the worker flushes, if the sink
    returns, the worker can run to its end by itself, and then everything the
    channel has accepted has been given to the sink. *)
Theorem flush_terminates w h v s :
  contents w = [] → rtc (step err_handle boxed contents sink other env) (start w h v) s →
  at_ s = Flushing → (∀ v item, ∃ v', v ⊢ sink item ⇓ tt ⊣ v') →
  ∃ s' r, rtc (step err_handle boxed contents sink other env) s s' ∧ at_ s' = Ended r ∧
    accepted s' = accepted s ∧ delivered s' = accepted s.
Proof.
  intros Hw Hs Hat Hsink.
  destruct (flush_run err_handle boxed contents sink dropped other env s Hsink
    (pipe_inv_reachable w h v s Hw Hs) Hat) as (s' & r & ? & ? & ? & ? & _). by exists s', r.
Qed.

(** [report] never fails the caller. On a closing reporter it does nothing
    at all; otherwise it puts the item at the end of the channel, or hands the
    channel's error to the error handler and keeps the channel as it was, or
    (a full bounded channel) blocks. *)
Lemma front_report_spec (f : Front) item :
  (∀ m e h, ∃ h', h ⊢ err_handle m e ⇓ tt ⊣ h') →
  (is_closing f = true → f ⊢ front_report err_handle item ⇓ Ready tt ⊣ f) ∧
  (is_closing f = false → ∃ r f', (f ⊢ front_report err_handle item ⇓ r ⊣ f') ∧
     is_closing f' = false ∧
     ((r = Ready tt ∧ contents (chan f') = contents (chan f) ++ [item] ∧ handler f' = handler f) ∨
      (r = Pending ∧ contents (chan f') = contents (chan f) ∧ handler f' = handler f) ∨
      (r = Ready tt ∧ contents (chan f') = contents (chan f) ∧
       ∃ e, handler f ⊢ err_handle REPORT_MSG e ⇓ tt ⊣ handler f'))).
Proof.
  intros Hh. unfold front_report. split; intros Hc.
  - rewrite (bind_Ret (gets is_closing) _ _ true f); [done|]. unfold gets. by rewrite Hc.
  - rewrite (bind_Ret (gets is_closing) _ _ false f) by (unfold gets; by rewrite Hc).
    destruct (produce_total (chan f) item) as (r & w' & Hr). unfold send_item, bind, zoom, ret.
    rewrite Hr. destruct r as [[[]|e]|]; cbn.
    + eexists _, _. split_and!; [done|done|]. left. cbn. by apply produce_Ok in Hr as [-> _].
    + destruct (Hh REPORT_MSG e (handler f)) as [h' Hh']. rewrite Hh'. eexists _, _.
      split_and!; [done|done|]. right; right. cbn. split_and!; [done| |by exists e].
      by apply (produce_not _ _ _ _ Hr).
    + eexists _, _. split_and!; [done|done|]. right; left. cbn. split_and!; [done| |done].
      by apply (produce_not _ _ _ _ Hr).
Qed.
End Properties.

(** The caller's half as a reporter: a client of [Report] sees a channel that
    takes every item in order, as long as the reporter is open. *)
Section AsReport.
Context `{MP : Mpsc Ch} {ML : MpscLaws Ch} {H : Type}.

Record ChannelReporter := MkReporter { err_handle_ : string → channel_error → M H unit }.

(** A blocked caller has not returned; the laws below rule it out. *)
#[export] Instance Report_channel : Report ChannelReporter (Front (W := Ch CollectItem) (H := H)) :=
  λ r item, _ <- front_report (err_handle_ r) item ;; ret tt.

#[export] Instance channel_laws :
  ReportLaws ChannelReporter (Front (W := Ch CollectItem) (H := H))
    (λ _ f, is_closing f = false ∧ receiving (chan f) = true ∧ capacity (chan f) = None)
    (λ f, queued (chan f)).
Proof.
  split. intros [eh] [c cl h] item (Hc & Hrx & Hcap). cbn in *. subst cl.
  destruct (produce_cases c item) as (r & c' & Hr & Hrx' & _ & Hcap' & [(-> & Hq & _)|(_ & _ & Hfull)]).
  - exists (MkFront c' false h). split_and!; [|done|cbn; congruence..|done].
    unfold report, Report_channel, front_report, send_item, bind, gets, zoom, ret. cbn. by rewrite Hr.
  - specialize (Hfull Hrx). unfold is_full in Hfull. by rewrite Hcap in Hfull.
Qed.
End AsReport.
Arguments ChannelReporter : clear implicits.

(** ** The default channel: tokio's unbounded mpsc *)
Section Default.
Context {FE : ForeignErrors} `{MP : Mpsc Ch} {ML : MpscLaws Ch}.
Context {H : Type} (err_handle : string → channel_error → M H unit)
  (boxed : channel_error → other_error) {V : Type} (sink : CollectItem → M V unit).

Context (env : V → V → Prop).

Abbreviation run := (rtc (step err_handle boxed queued sink sender_moves env)).

Definition disconnected (s : state (W := Ch CollectItem) (H := H) (V := V)) : Prop :=
  senders (chan (front s)) = 0%nat ∧ task s ≠ Some (Ok tt) ∧
  match at_ s with Flushed | Ended (Ok _) => False | _ => True end.

Lemma senders_produce (c c' : Ch CollectItem) item r :
  c ⊢ produce item ⇓ r ⊣ c' → senders c' = senders c.
Proof.
  intros Hr. destruct (produce_cases c item) as (r' & d & Hr' & _ & Hn & _).
  rewrite Hr in Hr'. by simplify_eq.
Qed.

Lemma senders_consume (c c' : Ch CollectItem) r : c ⊢ consume ⇓ r ⊣ c' → senders c' = senders c.
Proof.
  intros Hr. destruct (consume_cases c) as (r' & d & Hr' & _ & Hn & _). rewrite Hr in Hr'. by simplify_eq.
Qed.

Lemma senders_try_consume (c c' : Ch CollectItem) r :
  c ⊢ try_consume ⇓ r ⊣ c' → senders c' = senders c ∧ (r = Ok None → senders c ≠ 0%nat).
Proof.
  intros Hr. destruct (try_consume_cases c) as (r' & d & Hr' & _ & Hn & Hcase). rewrite Hr in Hr'.
  simplify_eq. split; [done|]. intros ->. by destruct Hcase as [(x & ? & _)|[(_ & _ & _ & ?)|([e ?] & _)]].
Qed.

Lemma disconnected_step s s' :
  disconnected s → step err_handle boxed queued sink sender_moves env s s' → disconnected s'.
Proof.
  intros (H0 & Htk & Hp) Hstep. unfold disconnected.
  destruct Hstep as [item s Hc|s l1 item l2 r w' f' Hl Hpr Hs|s w' Ho|s v' He|s item w' Hat Hr|s w' Hat Hr
    |s e w' Hat Hr|s Hat Hsig|s item b v' Hat Hr|s item w' Hat Hr|s w' Hat Hr|s e w' Hat Hr|s Hat
    |s Hsig Ht Hne|s e Hsig Ht Hat|s e Ht Hat|s Ht Hat Hsig]; cbn; try (rewrite Hat in Hp; cbn in Hp).
  - done.
  - destruct (send_item_run err_handle _ _ _ _ _ Hpr Hs) as [-> _]. apply senders_produce in Hpr.
    split_and!; congruence || done.
  - by destruct Ho.
  - done.
  - apply senders_consume in Hr. split_and!; congruence || done.
  - apply senders_consume in Hr. split_and!; congruence || done.
  - apply senders_consume in Hr. destruct (drop_receiver_law w') as (_ & Hn & _).
    split_and!; congruence || done.
  - done.
  - split_and!; [done..|by destruct b].
  - apply senders_try_consume in Hr as [Hr _]. split_and!; congruence || done.
  - apply senders_try_consume in Hr as [_ Hr]. by specialize (Hr eq_refl).
  - apply senders_try_consume in Hr as [Hr _]. destruct (drop_receiver_law w') as (_ & Hn & _).
    split_and!; congruence || done.
  - done.
  - done.
  - done.
  - split_and!; [done..|by rewrite Hat].
  - done.
Qed.

(** A closed channel is reported as a failure. Once the last clone of the
    reporter has been dropped before the flush has ended, the reporting task
    never returns [Ok], with or without a shutdown signal: when everything is
    flushed, the flush reads the end of the channel as an error. *)
Lemma disconnected_never_ok w h v s s' :
  queued w = [] → run (start w h v) s →
  senders (chan (front s)) = 0%nat → flushed (at_ s) = false → run s s' →
  task s' ≠ Some (Ok tt).
Proof.
  intros Hw Hs H0 Hfl Hs'.
  assert (Hd : disconnected s).
  { pose proof (pipe_inv_reachable (CL := mpsc_channel_laws) w h v s Hw Hs) as I.
    split_and!; [done| |by destruct (at_ s) as [| | | |[]]].
    intros Htk%(i_task _ _ _ I). by rewrite Htk in Hfl. }
  induction Hs' as [|s s1 s2 Hstep _ IH]; [by apply Hd|].
  assert (Hd1 : disconnected s1) by by eapply disconnected_step.
  apply IH; try by apply Hd1.
  - eapply rtc_r; [exact Hs|exact Hstep].
  - destruct Hd1 as (_ & _ & Hp). by destruct (at_ s1) as [| | | |[]].
Qed.
End Default.

(** ** A concrete run: one item, then a graceful shutdown *)
Module PipelineDemo.
#[local] Existing Instance text_errors.
#[local] Existing Instances Reference.mpsc Reference.laws.

Definition ping : CollectItem := Ping (InstancePingPkg.Mk "service" "instance" "").
Definition handle (_ : string) (_ : channel_error) : M unit unit := ret tt.
Definition boxed (_ : channel_error) : other_error := "channel closed"%string.
Definition keep (item : CollectItem) : M (list CollectItem) unit := modify (λ l, l ++ [item]).

Definition new_chan : Reference.chan CollectItem := channel None.
Lemma new_empty : queued new_chan = [].
Proof. reflexivity. Qed.

(** Nobody shares the list of the sink. *)
Definition alone (_ _ : list CollectItem) : Prop := False.

Definition St : Type := state (W := Reference.chan CollectItem) (H := unit) (V := list CollectItem).
Definition one_step : St → St → Prop := step handle boxed queued keep sender_moves alone.
Definition init : St := start new_chan tt [].

Definition closed_front : Front (W := Reference.chan CollectItem) (H := unit) := MkFront new_chan true tt.

(** The worker flushes, with the item delivered. *)
Definition flushing : St := MkState closed_front [] Flushing [ping] true None [ping] [ping] [] [].
(** The task has returned. *)
Definition over : St :=
  MkState (MkFront (drop_receiver new_chan) true tt) [] (Ended (Ok tt)) [ping] true
    (Some (Ok tt)) [ping] [ping] [] [].

Ltac one c := eapply rtc_l; [eapply c; first [reflexivity|done]|cbn].

Lemma flushing_reachable : rtc one_step init flushing.
Proof.
  eapply rtc_l; [by apply (caller_check _ _ _ _ _ _ ping)|cbn].
  eapply rtc_l; [eapply (caller_send _ _ _ _ _ _ _ [] ping [] (Ready (Ok tt))); reflexivity|cbn].
  one (work_item handle boxed queued keep sender_moves alone).
  one (work_give handle boxed queued keep sender_moves alone).
  eapply rtc_l; [by apply shutdown_signal|cbn].
  eapply rtc_l; [by apply work_shutdown|cbn]. apply rtc_refl.
Qed.

Lemma over_reachable : rtc one_step init over.
Proof.
  etrans; [exact flushing_reachable|].
  one (flush_none handle boxed queued keep sender_moves alone).
  eapply rtc_l; [by apply work_end|cbn].
  eapply rtc_l; [by apply join_ok|cbn]. apply rtc_refl.
Qed.

Lemma pipeline_exactly_once_witness :
  accepted over = delivered over ++ in_flight (at_ over) ++ remaining queued over.
Proof.
  apply (pipeline_exactly_once handle boxed queued keep _ sender_moves alone
    new_chan tt [] over new_empty over_reachable).
Defined.

Lemma graceful_shutdown_delivers_witness : delivered over = accepted over.
Proof.
  apply (graceful_shutdown_delivers handle boxed queued keep _ sender_moves alone
    new_chan tt [] over new_empty over_reachable eq_refl). reflexivity.
Defined.

Lemma flush_terminates_witness :
  ∃ s' r, rtc one_step flushing s' ∧ at_ s' = Ended r ∧ accepted s' = [ping] ∧ delivered s' = [ping].
Proof.
  apply (flush_terminates handle boxed queued keep _ sender_moves alone
    new_chan tt [] flushing new_empty flushing_reachable eq_refl).
  intros v item. by eexists.
Defined.

Lemma front_report_spec_witness :
  closed_front ⊢ front_report handle ping ⇓ Ready tt ⊣ closed_front.
Proof.
  apply (front_report_spec handle queued _ sender_moves closed_front ping); [|done].
  intros m e []. by exists tt.
Defined.

(** The reporter is dropped while the worker waits for items. *)
Definition abandoned : St :=
  MkState (MkFront (Reference.MkChan [] 0 true None) false tt) [] Looping [] false None [] [] [] [].

Lemma abandoned_reachable : rtc one_step init abandoned.
Proof.
  apply rtc_once. apply (channel_other handle boxed queued keep sender_moves alone init).
  exact (move_drop (MP := Reference.mpsc) new_chan (Nat.neq_succ_0 0)).
Qed.

(** The worker sees the end of the channel, and so does the flush. *)
Definition failed : St :=
  MkState (MkFront (Reference.MkChan [] 0 false None) true tt) [] (Ended (Err (Other (boxed (FromTryRecv Disconnected)))))
    [] false (Some (Err (Other (boxed (FromTryRecv Disconnected))))) [] [] [] [].

Lemma failed_reachable : rtc one_step abandoned failed.
Proof.
  one (work_none handle boxed queued keep sender_moves alone).
  one (flush_err handle boxed queued keep sender_moves alone).
  eapply rtc_l; [by apply join_err|cbn]. apply rtc_refl.
Qed.

Lemma disconnected_never_ok_witness : task failed ≠ Some (Ok tt).
Proof.
  apply (disconnected_never_ok handle boxed keep alone new_chan tt [] abandoned failed new_empty
    abandoned_reachable eq_refl eq_refl failed_reachable).
Defined.
End PipelineDemo.
