(* ===== verification/Running.v ===== *)
(** * A reporter while its worker runs

    In Pipeline.v, GrpcSystem.v and Kafka.v a caller's [report] is a step among
    the others; the front ends (tracer, logger, metricer, manager) are proved
    against the interface [Report]. Here a running system is a reporter: [call]
    is [Report::report] on the caller's half of the whole system, those who run
    beside the caller may move between two calls, and the laws of the interface
    hold of it. What a front end is proved to report is thereby what the worker
    and the streaming tasks are proved to bring to the backend. *)

From S2P Require Import Prelude Error Proto Reporter Channel Pipeline.

Local Open Scope sky_scope.

(** ** A call *)
Section Call.
Context {FE : ForeignErrors} `{MP : Mpsc Ch} {ML : MpscLaws Ch} {H V : Type}.
Context (err_handle : string → channel_error → M H unit).

Abbreviation pipeline := (state (W := Ch CollectItem) (H := H) (V := V)).
Implicit Types (p : pipeline).

(** What a call adds to the ghost of the accepted items. *)
Definition handed_over (item : CollectItem) (f : Front (W := Ch CollectItem) (H := H)) : list CollectItem :=
  if is_closing f then [] else match produce item (chan f) with (Ret r, _) => taken r item | _ => [] end.

(** [Report::report] of both reporters, in the whole system. *)
Definition call (item : CollectItem) : M pipeline (poll unit) := λ p,
  let '(r, f) := front_report err_handle item (front p) in
  (r, MkState f (callers p) (at_ p) (sunk p) (signalled p) (task p)
        (accepted p ++ handed_over item (front p)) (delivered p) (late p) (lost p)).

(** Nothing stands in the way of a caller. *)
Definition open p : Prop :=
  is_closing (front p) = false ∧ receiving (chan (front p)) = true ∧ capacity (chan (front p)) = None.

Context (boxed : channel_error → other_error) (sink : CollectItem → M V unit)
  (other : Ch CollectItem → Ch CollectItem → Prop) (env : V → V → Prop).
Abbreviation step := (Pipeline.step err_handle boxed queued sink other env).

(** A call that returns is the two steps of a caller, or none. *)
Lemma call_steps item p p' : p ⊢ call item ⇓ Ready tt ⊣ p' → rtc step p p'.
Proof.
  unfold call. destruct (front_report err_handle item (front p)) as [r f] eqn:Hr. intros [= -> <-].
  unfold front_report, bind, gets in Hr. unfold handed_over. destruct (is_closing (front p)) eqn:Hc.
  - injection Hr as <-. rewrite app_nil_r. by destruct p.
  - destruct (produce_total (chan (front p)) item) as (rp & w' & Hp). rewrite Hp.
    eapply rtc_l; [by apply (caller_check _ _ _ _ _ _ item)|]. apply rtc_once.
    set (p1 := MkState (front p) (callers p ++ [item]) _ _ _ _ _ _ _ _).
    pose proof (caller_send err_handle boxed queued sink other env p1 (callers p) item [] rp w' f eq_refl Hp Hr) as S.
    cbn in S. by rewrite Hc, !app_nil_r in S.
Qed.

(** An open system accepts the item at once. *)
Lemma call_open item p :
  open p →
  ∃ p', (p ⊢ call item ⇓ Ready tt ⊣ p') ∧ open p' ∧ accepted p' = accepted p ++ [item] ∧
    senders (chan (front p')) = senders (chan (front p)).
Proof.
  intros (Hc & Hrx & Hcap). unfold call, front_report, send_item, handed_over, bind, gets, zoom, ret.
  rewrite Hc. destruct (produce_cases (chan (front p)) item)
    as (r & c' & -> & Hrx' & Hn & Hcap' & [(-> & _ & _)|(_ & _ & Hfull)]).
  - eexists. split_and!; [done|split_and!; cbn; congruence|done|done].
  - specialize (Hfull Hrx). unfold is_full in Hfull. by rewrite Hcap in Hfull.
Qed.

(** A call returns if the handler does, and leaves the signal alone. *)
Lemma call_total item p :
  (∀ m e h, ∃ h', h ⊢ err_handle m e ⇓ tt ⊣ h') → ∃ r p', p ⊢ call item ⇓ r ⊣ p' ∧ signalled p' = signalled p.
Proof.
  intros Herr. unfold call, front_report, send_item, bind, gets, zoom, ret.
  destruct (is_closing (front p)); [by eexists _, _|].
  destruct (produce_total (chan (front p)) item) as (x & w & ->).
  destruct x as [[[]|e]|]; [by eexists _, _| |by eexists _, _].
  destruct (Herr REPORT_MSG e (handler (front p))) as [h' Hh]. cbn. rewrite Hh. by eexists _, _.
Qed.

(** Of the items accepted later, no more are late than were accepted. *)
Definition grown p p' : Prop :=
  ∃ la ll, accepted p' = accepted p ++ la ∧ late p' = late p ++ ll ∧ length ll ≤ length la.

#[export] Instance grown_preorder : PreOrder grown.
Proof.
  split; [intros p; exists [], []; by rewrite !app_nil_r|].
  intros p q r (la & ll & Ha & Hl & Hlen) (la' & ll' & Ha' & Hl' & Hlen').
  exists (la ++ la'), (ll ++ ll'). rewrite Ha', Ha, Hl', Hl, !app_assoc, !length_app. split_and!; [done..|lia].
Qed.

Lemma grown_same p p' : accepted p' = accepted p → late p' = late p → grown p p'.
Proof. intros Ha Hl. exists [], []. by rewrite !app_nil_r. Qed.

Lemma step_grown p p' : step p p' → grown p p'.
Proof.
  intros Hs. destruct Hs; try by apply grown_same.
  eexists _, _. split_and!; [done|done|]. destruct (is_closing (front s)); cbn; lia.
Qed.

(** What was accepted while the reporter was open has been given to the sink
    when the task has returned [Ok]. *)
Lemma open_delivered dropped p p' :
  inv queued dropped p → is_closing (front p) = false → grown p p' →
  inv queued dropped p' → task p' = Some (Ok tt) → accepted p `prefix_of` delivered p'.
Proof.
  intros I Hc (la & ll & Ha & Hl & Hlen) I' Htask.
  rewrite (i_late _ _ _ I Hc) in Hl. cbn in Hl.
  destruct (task_ok_early queued dropped p' I' Htask) as (early & He & Hpre).
  etrans; [|exact Hpre]. rewrite Ha, Hl in He.
  apply app_eq_inv in He as [(k & -> & ->)|(k & -> & _)]; [|by apply prefix_app_r].
  rewrite length_app in Hlen. assert (k = []) as -> by (apply length_zero_iff_nil; lia). by rewrite app_nil_r.
Qed.

(** Clones of the reporter come and go, but not the last one. *)
Definition clones_kept (c c' : Ch CollectItem) : Prop := sender_moves c c' ∧ senders c' ≠ 0.

#[export] Instance clones_kept_laws :
  ChannelLaws (Ch CollectItem) channel_error queued (λ c, receiving c = false) clones_kept.
Proof.
  destruct (mpsc_channel_laws (Ch := Ch)) as [? ? ? ? ? ? ? ? ? ? ? ? ? Hm]. split; try done.
  intros c c' [H0 _]. by apply Hm.
Qed.

Lemma clones_kept_senders c c' : clones_kept c c' → senders c ≠ 0 ∧ senders c' ≠ 0.
Proof. intros [[d ?|d ?] ?]; [|done]. by destruct (clone_sender_law d). Qed.
Lemma clones_kept_open c c' : clones_kept c c' → receiving c' = receiving c ∧ capacity c' = capacity c.
Proof.
  intros [[d _|d _] _]; [destruct (clone_sender_law d) as (_ & _ & ? & ?)|destruct (drop_sender_law d) as (_ & _ & ? & ?)]; done.
Qed.

(** Nobody else holds an end of the channel. *)
Definition nobody (_ _ : Ch CollectItem) : Prop := False.

#[export] Instance nobody_laws :
  ChannelLaws (Ch CollectItem) channel_error queued (λ c, receiving c = false) nobody.
Proof. by destruct (mpsc_channel_laws (Ch := Ch)); split. Qed.

(** *** The worker of an open system *)
Context {CL : ChannelLaws (Ch CollectItem) channel_error queued (λ c, receiving c = false) other}.
Abbreviation dropped := (λ c : Ch CollectItem, receiving c = false).

Lemma open_not_ended p r : inv queued dropped p → open p → at_ p ≠ Ended r.
Proof. intros I (_ & Hrx & _) Hat. destruct (i_ended _ _ _ I r Hat) as [Hd _]. congruence. Qed.

Lemma open_looping p : inv queued dropped p → open p → at_ p = Looping ∨ ∃ item, at_ p = Giving item false.
Proof.
  intros I Ho. pose proof (i_closing _ _ _ I) as Hc. pose proof (open_not_ended p) as Hne.
  destruct Ho as (Hcl & Hrest). destruct (at_ p) as [|item []| | |r] eqn:Hat; eauto;
    try (rewrite Hcl in Hc; by specialize (Hc eq_refl)). by destruct (Hne r I).
Qed.

(** The worker has nothing to do. *)
Record idle p : Prop := {
  d_open : open p;
  d_loop : at_ p = Looping;
  d_empty : queued (chan (front p)) = []
}.

(** What stays the same while the worker works. *)
Record same p p' : Prop := {
  m_accepted : accepted p' = accepted p;
  m_senders : senders (chan (front p')) = senders (chan (front p));
  m_signal : signalled p' = signalled p;
  m_task : task p' = task p
}.
#[local] Instance same_trans : Transitive same.
Proof. intros p q r [] []. split; congruence. Qed.

Context (Hsink : ∀ v item, ∃ v', v ⊢ sink item ⇓ tt ⊣ v').

Lemma give_run item p :
  at_ p = Giving item false → ∃ p', step p p' ∧ at_ p' = Looping ∧ same p p' ∧ front p' = front p.
Proof.
  intros Hat. destruct (Hsink (sunk p) item) as [v' Hv].
  eexists. split; [by apply (work_give _ _ _ _ _ _ p item false v')|]. by split_and!.
Qed.

Lemma looping_drains n p :
  length (queued (chan (front p))) = n → open p → at_ p = Looping →
  ∃ p', rtc step p p' ∧ idle p' ∧ same p p'.
Proof.
  revert p. induction n as [|n IH]; intros p Hn (Hc & Hrx & Hcap) Hat.
  { exists p. split_and!; [apply rtc_refl|split; [by split_and!|done|by apply length_zero_iff_nil]|done]. }
  destruct (recv_law (chan (front p))) as (c & [(x & q & Hq & Hr & Hq' & Hs & Hrx' & Hcap')|[(Hq & _)|(Hq & _)]]);
    [|by rewrite Hq in Hn..].
  set (p1 := with_worker p (set_chan c (front p)) (Giving x false)).
  assert (S1 : step p p1).
  { apply work_item; [done|]. unfold consume; cbn. unfold consume_mpsc, bind, ret. by rewrite Hr. }
  destruct (give_run x p1 eq_refl) as (p2 & S2 & Hat2 & M2 & Hf2).
  destruct (IH p2) as (p' & R & Hi & Mp).
  - rewrite Hf2. cbn. rewrite Hq', Hq in *. by injection Hn.
  - unfold open; rewrite Hf2. cbn. split_and!; congruence.
  - done.
  - exists p'. split_and!; [by eapply rtc_l, rtc_l|done|]. etrans; [|exact Mp]. etrans; [|exact M2]. by split.
Qed.

Lemma idle_delivered p : inv queued dropped p → idle p → delivered p = accepted p.
Proof.
  intros I [_ Hat Hq]. pose proof (i_items _ _ _ I) as Hi. unfold remaining in Hi. rewrite Hat, Hq in Hi.
  by rewrite !app_nil_r in Hi.
Qed.

(** Left alone, it gives everything to the sink. *)
Lemma open_drains p :
  inv queued dropped p → open p → ∃ p', rtc step p p' ∧ idle p' ∧ same p p' ∧ delivered p' = accepted p.
Proof.
  intros I Ho.
  assert (H0 : ∃ p1, rtc step p p1 ∧ open p1 ∧ at_ p1 = Looping ∧ same p p1).
  { destruct (open_looping p I Ho) as [Hat|[item Hat]]; [by exists p|].
    destruct (give_run item p Hat) as (p1 & S1 & Hat1 & M1 & Hf1).
    exists p1. split_and!; [by apply rtc_once|by unfold open; rewrite Hf1|done|done]. }
  destruct H0 as (p1 & R1 & Ho1 & Hat1 & M1).
  destruct (looping_drains _ p1 eq_refl Ho1 Hat1) as (p2 & R2 & [Ho2 Hat2 Hq2] & M2).
  exists p2. assert (R : rtc step p p2) by by etrans. split_and!; [done|done|by etrans|].
  assert (I2 : inv queued dropped p2) by (clear -I R CL; induction R; eauto using pipe_inv_step).
  by rewrite (idle_delivered p2 I2), (m_accepted _ _ M2), (m_accepted _ _ M1).
Qed.

(** And once the signal has come, as long as there is a clone of the reporter,
    it returns [Ok] with everything given. *)
Lemma open_finishes p :
  inv queued dropped p → open p → task p = None → senders (chan (front p)) ≠ 0 →
  ∃ p', rtc step p p' ∧ at_ p' = Ended (Ok tt) ∧ task p' = Some (Ok tt) ∧
    accepted p' = accepted p ∧ delivered p' = accepted p.
Proof.
  intros I Ho Htask Hn. destruct (open_drains p I Ho) as (p1 & R1 & [Ho1 Hat1 Hq1] & [Ha1 Hn1 Hs1 Ht1] & Hd1).
  set (p2 := with_task p1 true None).
  assert (R2 : rtc step p1 p2).
  { destruct (signalled p1) eqn:E.
    - unfold p2, with_task. rewrite <-E, <-Htask, <-Ht1. destruct p1; apply rtc_refl.
    - apply rtc_once, shutdown_signal; [done|congruence|]. intros r. by rewrite Hat1. }
  destruct (try_recv_law (chan (front p1))) as (c & [(x & q & Hq & _)|[(_ & H0 & _)|(_ & _ & Hr & Hc)]]);
    [congruence..|].
  eexists. split; [etrans; [exact R1|]; etrans; [exact R2|]|].
  - eapply rtc_l; [by apply work_shutdown|]. eapply rtc_l; [eapply flush_none; [done|]|].
    { unfold try_consume; cbn. unfold try_consume_mpsc, bind, ret. by rewrite Hr. }
    eapply rtc_l; [by apply work_end|]. apply rtc_once. by apply join_ok.
  - by split_and!.
Qed.

(** One round of the worker's loop, if there is an item, as a function. *)
Definition worker_round p : pipeline :=
  match at_ p, consume (chan (front p)) with
  | Looping, (Ret (Ready (Ok (Some item))), c) =>
      match sink item (sunk p) with
      | (Ret _, v) =>
          MkState (set_chan c (front p)) (callers p) Looping v (signalled p) (task p) (accepted p)
            (delivered p ++ [item]) (late p) (lost p)
      | _ => p
      end
  | _, _ => p
  end.

Lemma worker_round_steps p :
  rtc step p (worker_round p) ∧ same p (worker_round p) ∧ (open p → open (worker_round p)).
Proof.
  unfold worker_round. destruct (at_ p) eqn:Hat; try by split_and!.
  destruct (consume_cases (chan (front p))) as (r & c & Hr & Hrx & Hn & Hcase). rewrite Hr.
  destruct r as [[[x|]|e]|]; try by split_and!.
  destruct (sink x (sunk p)) as [[[]|?|] v] eqn:Hv; try by split_and!.
  assert (Hcap : capacity c = capacity (chan (front p))).
  { unfold consume in Hr; cbn in Hr. unfold consume_mpsc, bind, ret in Hr.
    destruct (recv_law (chan (front p))) as (c' & [(y & q & _ & Hc & _ & _ & _ & ?)|[(_ & _ & Hc & _ & _ & _ & ?)
      |(_ & _ & Hc & _ & _ & _ & ?)]]); rewrite Hc in Hr; by simplify_eq. }
  split_and!; [|by split|intros (? & ? & ?); split_and!; cbn; congruence].
  eapply rtc_l; [by eapply work_item|]. apply rtc_once.
  by apply (work_give _ _ _ _ _ _ (with_worker p (set_chan c (front p)) (Giving x false)) x false v).
Qed.

(** The task has returned only after the worker has. *)
Definition joined_late p : Prop := task p ≠ None → ∃ r, at_ p = Ended r.

Lemma joined_late_step p p' : joined_late p → step p p' → joined_late p'.
Proof.
  unfold joined_late. intros H0 Hstep.
  destruct Hstep; cbn in *; try done; try (intros Ht; destruct (H0 Ht) as [r' ?]; congruence || by exists r');
    intros _; eauto.
Qed.

Lemma open_unjoined p : joined_late p → inv queued dropped p → open p → task p = None.
Proof.
  intros Hj I Ho. destruct (task p) as [r|] eqn:Ht; [|done].
  destruct (Hj ltac:(congruence)) as [r' Hr']. by destruct (open_not_ended p r' I Ho).
Qed.

(** *** While a clone of the reporter is alive, and after *)

(** What an end of the channel says about its senders. *)
Lemma consume_end (c c' : Ch CollectItem) r :
  c ⊢ consume ⇓ Ready r ⊣ c' → senders c' = senders c ∧
  match r with Ok (Some _) => True | Ok None => senders c = 0 ∧ queued c' = [] | Err _ => False end.
Proof.
  intros Hr. unfold consume in Hr; cbn in Hr. unfold consume_mpsc, bind, ret in Hr.
  destruct (recv_law c) as (d & [(x & q & _ & Hc & _ & ? & _)|[(_ & ? & Hc & ? & ? & _)|(_ & _ & Hc & _ & ? & _)]]);
    rewrite Hc in Hr; by simplify_eq.
Qed.

Lemma try_consume_end (c c' : Ch CollectItem) r :
  c ⊢ try_consume ⇓ r ⊣ c' → senders c' = senders c ∧
  match r with
  | Ok (Some _) => True
  | Ok None => senders c ≠ 0
  | Err e => senders c = 0 ∧ e = FromTryRecv Disconnected ∧ queued c' = []
  end.
Proof.
  intros Hr. unfold try_consume in Hr; cbn in Hr. unfold try_consume_mpsc, bind, ret in Hr.
  destruct (try_recv_law c) as (d & [(x & q & _ & Hc & _ & ? & _)|[(_ & ? & Hc & ? & ? & _)|(_ & ? & Hc & _ & ? & _)]]);
    rewrite Hc in Hr; by simplify_eq.
Qed.

Definition DISCONNECTED : Error := Other (boxed (FromTryRecv Disconnected)).

(** Nobody holds a clone any more: the task can end with the error of the
    disconnected channel only, and then nothing was lost. *)
Record abandoned p : Prop := {
  ab_senders : senders (chan (front p)) = 0;
  ab_at : match at_ p with
          | Flushed => False
          | Ended r => r = Err DISCONNECTED ∧ lost p = []
          | _ => True
          end;
  ab_task r : task p = Some r → r = Err DISCONNECTED
}.

(** Somebody does: it ends after the signal only, and with [Ok]. *)
Record attached p : Prop := {
  at_senders : senders (chan (front p)) ≠ 0;
  at_at : match at_ p with
          | Looping | Giving _ false => True
          | Ended r => r = Ok tt ∧ signalled p = true
          | _ => signalled p = true
          end;
  at_task r : task p = Some r → r = Ok tt
}.

Context (other_senders : ∀ c c', other c c' → senders c ≠ 0 ∧ senders c' ≠ 0).

Lemma send_senders p item r w' f' :
  chan (front p) ⊢ produce item ⇓ r ⊣ w' → front p ⊢ send_item err_handle item ⇓ Ready tt ⊣ f' →
  senders (chan f') = senders (chan (front p)).
Proof. intros Hp Hs. destruct (send_item_run err_handle _ _ _ _ _ Hp Hs) as [-> _]. by eapply senders_produce. Qed.

Lemma senders_finish p w r : senders (chan (front (finish queued p w r))) = senders w.
Proof. cbn. by destruct (drop_receiver_law w) as (_ & ? & _). Qed.

Ltac ended_cases Hstep :=
  destruct Hstep as [item s Hc|s l1 item l2 r w' f' Hl Hp Hs|s w' Ho|s v' He|s item w' Hat Hr|s w' Hat Hr
    |s e w' Hat Hr|s Hat Hsig|s item b v' Hat Hr|s item w' Hat Hr|s w' Hat Hr|s e w' Hat Hr|s Hat
    |s Hsig Ht Hne|s e Hsig Ht Hat|s e Ht Hat|s Ht Hat Hsig].

Lemma abandoned_step p p' : abandoned p → step p p' → abandoned p'.
Proof.
  intros [H0 Ha Ht0] Hstep. ended_cases Hstep; rewrite ?Hat in Ha; try done.
  - split; cbn; [by rewrite (send_senders s item r w' f')|done..].
  - by destruct (other_senders _ _ Ho).
  - apply consume_end in Hr as [Hn _]. split; cbn; congruence || done.
  - apply consume_end in Hr as [Hn _]. split; cbn; congruence || done.
  - by apply consume_end in Hr as [_ ?].
  - split; cbn; [done|by destruct b|done].
  - apply try_consume_end in Hr as [Hn _]. split; cbn; congruence || done.
  - by apply try_consume_end in Hr as [_ ?].
  - apply try_consume_end in Hr as (Hn & _ & -> & Hq). split; [by rewrite senders_finish, Hn|done|done].
  - by destruct Ha.
  - split; cbn; [done|by rewrite Hat|]. intros r [= <-]. by destruct Ha as [-> _].
  - by destruct Ha.
Qed.

Lemma attached_step p p' : attached p → step p p' → attached p'.
Proof.
  intros [H0 Ha Ht0] Hstep. ended_cases Hstep; rewrite ?Hat in Ha; try done.
  - split; cbn; [by rewrite (send_senders s item r w' f')|done..].
  - split; cbn; [by apply (other_senders _ _ Ho)|done..].
  - apply consume_end in Hr as [Hn _]. split; cbn; congruence || done.
  - by apply consume_end in Hr as (_ & ? & _).
  - by apply consume_end in Hr as [_ ?].
  - split; cbn; [done|by destruct b|done].
  - apply try_consume_end in Hr as [Hn _]. split; cbn; congruence || done.
  - apply try_consume_end in Hr as [Hn _]. split; cbn; congruence || done.
  - by apply try_consume_end in Hr as (_ & ? & _).
  - split; [by rewrite senders_finish|done|done].
  - split; cbn; [done| |done]. by destruct (at_ s) as [|? []| | |r]; [..|destruct Ha].
  - destruct Ha. congruence.
  - by destruct Ha.
  - split; cbn; [done|by rewrite Hat|by intros r [= <-]].
Qed.

(** Without a signal, such a worker stays in its loop, and the reporter open. *)
Definition front_open p : Prop := match at_ p with Looping | Giving _ false => open p | _ => True end.

Context (other_open : ∀ c c', other c c' → receiving c' = receiving c ∧ capacity c' = capacity c).

Lemma consume_open (c c' : Ch CollectItem) r :
  c ⊢ consume ⇓ r ⊣ c' → receiving c' = receiving c ∧ capacity c' = capacity c.
Proof.
  intros Hr. unfold consume in Hr; cbn in Hr. unfold consume_mpsc, bind, ret in Hr.
  destruct (recv_law c) as (d & [(x & q & _ & Hc & _ & _ & ? & ?)|[(_ & _ & Hc & _ & _ & ? & ?)
    |(_ & _ & Hc & _ & _ & ? & ?)]]); rewrite Hc in Hr; by simplify_eq.
Qed.

Lemma front_open_step p p' : front_open p → step p p' → front_open p'.
Proof.
  unfold front_open. intros Hop Hstep. ended_cases Hstep; rewrite ?Hat in Hop; cbn; try done.
  - destruct (send_item_run err_handle _ _ _ _ _ Hp Hs) as [Hch Hcl].
    destruct (produce_cases (chan (front s)) item) as (x & c' & Hx & Hrx & _ & Hcap & _).
    rewrite Hx in Hp. injection Hp as -> ->.
    assert (open s → open (MkState f' (l1 ++ l2) (at_ s) (sunk s) (signalled s) (task s)
      (accepted s ++ taken r item) (delivered s) (late s ++ if is_closing (front s) then taken r item else []) (lost s))).
    { intros (? & ? & ?). split_and!; cbn; congruence. }
    destruct (at_ s) as [|? []| | |]; auto.
  - destruct (other_open _ _ Ho) as [Hrx Hcap].
    assert (open s → open (with_worker s (set_chan w' (front s)) (at_ s))).
    { intros (? & ? & ?). split_and!; cbn; congruence. }
    destruct (at_ s) as [|? []| | |]; auto.
  - apply consume_open in Hr as [? ?]. destruct Hop as (? & ? & ?). split_and!; cbn; congruence.
  - by destruct b.
  - by rewrite Hat.
  - by rewrite Hat.
  - by rewrite Hat.
Qed.

(** A clone is alive and the signal has not come: then the worker is in its
    loop, and the task has not returned. *)
Record unsignalled p : Prop := {
  u_attached : attached p;
  u_front : front_open p;
  u_joined : joined_late p;
  u_signal : signalled p = false
}.

Lemma unsignalled_step p p' : unsignalled p → step p p' → signalled p' = signalled p → unsignalled p'.
Proof.
  intros [] Hs E. split; [by eapply attached_step|by eapply front_open_step|by eapply joined_late_step|congruence].
Qed.

Lemma unsignalled_open p : unsignalled p → open p.
Proof.
  intros [[_ Ha _] Hop _ Hs]. unfold front_open in Hop. rewrite Hs in Ha.
  destruct (at_ p) as [|? []| | |]; try done. by destruct Ha.
Qed.

Lemma unsignalled_task p : unsignalled p → task p = None.
Proof.
  intros [[_ Ha _] _ Hj Hs]. destruct (task p) as [r|] eqn:Ht; [|done].
  destruct (Hj ltac:(congruence)) as [r' Hr]. rewrite Hr in Ha. destruct Ha. congruence.
Qed.

Lemma open_unsignalled p :
  joined_late p → inv queued dropped p → open p → senders (chan (front p)) ≠ 0 → signalled p = false →
  unsignalled p.
Proof.
  intros Hj I Ho Hn Hs. pose proof (open_unjoined p Hj I Ho) as Ht.
  split; [split| |done..]; unfold front_open;
    destruct (open_looping p I Ho) as [Hat|[item Hat]]; rewrite ?Hat, ?Ht; done.
Qed.

(** The signal does not go away. *)
Lemma signal_stays p p' : step p p' → signalled p = true → signalled p' = true.
Proof. intros Hstep. destruct Hstep; cbn; congruence. Qed.

Lemma senders_stay n p p' :
  (∀ c c', other c c' → senders c' = senders c) →
  senders (chan (front p)) = n → step p p' → senders (chan (front p')) = n.
Proof.
  intros Hno Hn Hstep. ended_cases Hstep; try done; try rewrite senders_finish; cbn; try done.
  - by rewrite (send_senders s item r w' f').
  - by rewrite (Hno _ _ Ho).
  - apply consume_end in Hr as [? _]. congruence.
  - apply consume_end in Hr as [? _]. congruence.
  - by apply consume_end in Hr as [_ ?].
  - apply try_consume_end in Hr as [? _]. congruence.
  - apply try_consume_end in Hr as [? _]. congruence.
  - apply try_consume_end in Hr as [? _]. congruence.
Qed.

Lemma call_signal item p p' : p ⊢ call item ⇓ Ready tt ⊣ p' → signalled p' = signalled p.
Proof. unfold call. destruct (front_report err_handle item (front p)) as [r f]. by intros [= _ <-]. Qed.

(** The task of an open system that was abandoned ends by itself. *)
Lemma abandoned_finishes p :
  inv queued dropped p → open p → task p = None → senders (chan (front p)) = 0 →
  ∃ p', rtc step p p' ∧ at_ p' = Ended (Err DISCONNECTED) ∧ task p' = Some (Err DISCONNECTED) ∧
    accepted p' = accepted p ∧ delivered p' = accepted p ∧ signalled p' = signalled p.
Proof.
  intros I Ho Htask H0. destruct (open_drains p I Ho) as (p1 & R1 & [Ho1 Hat1 Hq1] & [Ha1 Hn1 Hs1 Ht1] & Hd1).
  destruct (recv_law (chan (front p1))) as (c & [(x & q & Hq & _)|[(_ & _ & Hr & Hq' & Hn' & _)|(_ & Hn & _)]]);
    [congruence| |congruence].
  destruct (try_recv_law c) as (c' & [(x & q & Hq & _)|[(_ & _ & Hr' & _)|(_ & Hn & _)]]); [congruence| |congruence].
  eexists. split; [etrans; [exact R1|]|].
  - eapply rtc_l; [eapply work_none; [done|]|].
    { unfold consume; cbn. unfold consume_mpsc, bind, ret. by rewrite Hr. }
    eapply rtc_l; [eapply flush_err; [done|]|].
    { unfold try_consume; cbn. unfold try_consume_mpsc, bind, ret. by rewrite Hr'. }
    apply rtc_once. apply join_err; cbn; [congruence|done].
  - by split_and!.
Qed.
End Call.

(** Reporting before the worker runs does not touch the clones either. *)
Lemma report_channel_senders {FE : ForeignErrors} `{MP : Mpsc Ch} {ML : MpscLaws Ch} {H} (r : ChannelReporter H)
    item (f f' : Front (W := Ch CollectItem) (H := H)) :
  f ⊢ report r item ⇓ tt ⊣ f' → senders (chan f') = senders (chan f).
Proof.
  intros (p & f1 & Hf & [= <-])%bind_inv_Ret. unfold front_report, bind, gets in Hf.
  destruct (is_closing f); [by injection Hf as _ <-|].
  destruct (produce_total (chan f) item) as (x & w & Hp).
  destruct p as [[]|].
  - destruct (send_item_run _ _ _ _ _ _ Hp Hf) as [-> _]. by eapply senders_produce.
  - unfold send_item, bind, zoom in Hf. rewrite Hp in Hf.
    destruct x as [[]|]; unfold ret in Hf; simplify_eq/=; [|by eapply senders_produce].
    by destruct (err_handle_ r REPORT_MSG e (handler f)) as [[[]|?|] ?].
Qed.

(** ** The reporter

    The world of the reporter: the running system, and what those who run beside
    the caller do after the [n]-th call. *)
(** A system with a pipeline in it. *)
Class Background (S P : Type) := {
  pipe_of : S → P;
  set_pipe : P → S → S;
  pipe_of_set p s : pipe_of (set_pipe p s) = p;
  set_pipe_of s : set_pipe (pipe_of s) s = s;
  set_pipe_set s p q : set_pipe p (set_pipe q s) = set_pipe p s
}.
#[global] Hint Mode Background + - : typeclass_instances.

(** The steps of a system to which nobody gives the shutdown signal: the default
    of both reporters is a future that is pending for ever. *)
Section Pending.
Context {FE : ForeignErrors} {W H V S : Type} {BG : Background S (state (W := W) (H := H) (V := V))}.

Definition pending (step : S → S → Prop) (s s' : S) : Prop :=
  step s s' ∧ signalled (pipe_of s') = signalled (pipe_of s).

Lemma pending_signal step s s' : rtc (pending step) s s' → signalled (pipe_of s') = signalled (pipe_of s).
Proof. induction 1 as [|s s1 s2 [_ H1] _ IH]; [done|congruence]. Qed.

Lemma pending_sub step s s' : rtc (pending step) s s' → rtc step s s'.
Proof. induction 1 as [|s s1 s2 [H1 _] _ IH]; [done|by eapply rtc_l]. Qed.

(** A run after which the signal has not come is one without it. *)
Lemma pending_steps {step} (Hstay : ∀ s s', step s s' → signalled (pipe_of s) = true → signalled (pipe_of s') = true) s s' :
  rtc step s s' → signalled (pipe_of s') = signalled (pipe_of s) → rtc (pending step) s s'.
Proof.
  assert (Hm : ∀ a b, rtc step a b → signalled (pipe_of a) = true → signalled (pipe_of b) = true)
    by (induction 1; eauto).
  induction 1 as [s|s s1 s2 H1 H2 IH]; intros E; [apply rtc_refl|].
  assert (signalled (pipe_of s1) = signalled (pipe_of s)) as E1.
  { destruct (signalled (pipe_of s)) eqn:Es; [by eapply Hstay|].
    destruct (signalled (pipe_of s1)) eqn:Es1; [|done]. specialize (Hm s1 s2 H2 Es1). congruence. }
  eapply rtc_l; [by split|]. apply IH. congruence.
Qed.
End Pending.

#[export, refine] Instance pipeline_background {FE : ForeignErrors} {W H V} : Background (state (W := W) (H := H) (V := V)) (state (W := W) (H := H) (V := V)) := {|
  pipe_of s := s;
  set_pipe p _ := p
|}.
Proof. all: done. Defined.

Record RunningReporter (H : Type) := MkRunning { running_err : string → channel_error → M H unit }.
Arguments MkRunning {H}. Arguments running_err {H}.
Record World (S : Type) := MkWorld { system : S; meanwhile : nat → S → S; turn : nat }.
Arguments MkWorld {S}. Arguments system {S}. Arguments meanwhile {S}. Arguments turn {S}.

Section Running.
Context {FE : ForeignErrors} `{MP : Mpsc Ch} {ML : MpscLaws Ch} {H V S : Type}.
Abbreviation pipeline := (state (W := Ch CollectItem) (H := H) (V := V)).
Context {BG : Background S pipeline}.

(** A call on the system, and the turn of the others. A blocked caller has not
    returned; the laws rule it out. *)
Definition call_system (r : RunningReporter H) (item : CollectItem) : M (World S) unit :=
  _ <- zoom system (λ s w, MkWorld s (meanwhile w) (turn w)) (zoom pipe_of set_pipe (call (running_err r) item)) ;;
  ret tt.
Definition others_turn : M (World S) unit :=
  modify (λ w, MkWorld (meanwhile w (turn w) (system w)) (meanwhile w) (1 + turn w)).

#[export] Instance Report_running : Report (RunningReporter H) (World S) := λ r item,
  call_system r item ;; others_turn.

Context (err_handle : string → channel_error → M H unit) (boxed : channel_error → other_error).
Context (sink : CollectItem → M V unit) (other : Ch CollectItem → Ch CollectItem → Prop) (env : V → V → Prop).
Context (step : S → S → Prop).
(** The steps of the pipeline are steps of the system, apart perhaps from the
    signal. *)
Context (lift : ∀ s p, Pipeline.step err_handle boxed queued sink other env (pipe_of s) p →
  signalled p = signalled (pipe_of s) → step s (set_pipe p s)).

(** The others take steps of the system, in which nobody else reports, no
    reporter is cloned or dropped, and the reporting does not end. *)
Record quiet (s s' : S) : Prop := {
  q_steps : rtc step s s';
  q_accepted : accepted (pipe_of s') = accepted (pipe_of s);
  q_senders : senders (chan (front (pipe_of s'))) = senders (chan (front (pipe_of s)));
  q_open : open (pipe_of s')
}.

(** The system has come from [s0], and the reporter has [n] clones. *)
Record healthy (s0 : S) (n : nat) (r : RunningReporter H) (w : World S) : Prop := {
  h_reporter : r = MkRunning err_handle;
  h_reached : rtc step s0 (system w);
  h_open : open (pipe_of (system w));
  h_senders : senders (chan (front (pipe_of (system w)))) = n;
  h_quiet k s : rtc step s0 s → open (pipe_of s) → quiet s (meanwhile w k s)
}.

Lemma lift_steps s p :
  rtc (Pipeline.step err_handle boxed queued sink other env) (pipe_of s) p →
  signalled p = signalled (pipe_of s) → rtc step s (set_pipe p s).
Proof.
  intros Hs Hsig.
  apply (pending_steps (BG := pipeline_background) (signal_stays err_handle boxed sink other env)) in Hs; [|done].
  rewrite <-(set_pipe_of s) at 1.
  induction Hs as [p|p p1 p2 [Hp He] _ IH]; [apply rtc_refl|].
  eapply rtc_l; [|apply IH; cbn in *; congruence].
  rewrite <-(set_pipe_set s p1 p). apply lift; by rewrite pipe_of_set.
Qed.

(** A round of the worker is quiet. *)
Lemma round_quiet s : open (pipe_of s) → quiet s (set_pipe (worker_round sink (pipe_of s)) s).
Proof.
  intros Ho. destruct (worker_round_steps err_handle boxed sink other env (pipe_of s)) as (Hr & [Ha Hn Hs _] & Ho').
  split; rewrite ?pipe_of_set; [by apply lift_steps|auto..].
Qed.

#[export] Instance running_laws s0 n :
  ReportLaws (RunningReporter H) (World S) (healthy s0 n) (λ w, accepted (pipe_of (system w))).
Proof.
  split. intros r [s m k] item [-> Hr Ho Hn Hq]. cbn in *.
  destruct (call_open err_handle item (pipe_of s) Ho) as (p' & Hc & Ho' & Ha & Hn').
  set (s1 := set_pipe p' s).
  assert (Hr1 : rtc step s0 s1).
  { etrans; [exact Hr|]. eapply lift_steps; [by eapply call_steps|by eapply call_signal]. }
  assert (Ho1 : open (pipe_of s1)) by (unfold s1; by rewrite pipe_of_set).
  destruct (Hq k s1 Hr1 Ho1) as [Hs2 Ha2 Hn2 Ho2].
  exists (MkWorld (m k s1) m (1 + k)). split_and!.
  - unfold report, Report_running, call_system, others_turn, bind, zoom, modify, ret. cbn. by rewrite Hc.
  - split; cbn; [done|by etrans|done| |done]. rewrite Hn2. unfold s1. by rewrite pipe_of_set, Hn'.
  - cbn. rewrite Ha2. unfold s1. by rewrite pipe_of_set, Ha.
Qed.
End Running.
