(* ===== verification/Grpc.v ===== *)
(** * src/reporter/grpc.rs: the gRPC reporter

    The caller's half and the worker loop are in Pipeline.v. Here are the rest:
    the interceptor, [reporting] (at most once), the sink of the worker
    ([InnerReportSender::report]: three bounded channels and the management
    client), and the builders of the reporter and of its handle. The streaming
    tasks are in GrpcStream.v. The tonic crate and the generated clients are
    interfaces. *)

From S2P Require Import Prelude Error Proto Reporter Channel Pipeline.

Local Open Scope sky_scope.

(** ** The interceptor *)

(** tonic's requests and ASCII metadata values. *)
Class Tonic := {
  request : Type;
  metadata_value : Type;
  parse_metadata : string → option metadata_value;
  metadata_insert : string → metadata_value → request → request
}.

Module CustomInterceptor.
Section Interceptor.
Context {FE : ForeignErrors} {TN : Tonic}.

Record t := Mk {
  authentication : option string;
  custom_intercept : option (request → result request status)
}.

Definition default : t := Mk None None.
Definition with_authentication (v : string) (i : t) : t := Mk (Some v) (custom_intercept i).
Definition with_custom_intercept (f : request → result request status) (i : t) : t :=
  Mk (authentication i) (Some f).

(** [Interceptor::call]. *)
Definition call (i : t) (r : request) : result request status :=
  let r := match authentication i with
           | Some a => match parse_metadata a with
                       | Some v => metadata_insert "authentication" v r
                       | None => r
                       end
           | None => r
           end in
  match custom_intercept i with
  | Some f => r <-? f r ;; Ok r
  | None => Ok r
  end.
End Interceptor.
End CustomInterceptor.

(** ** [GrpcReporter::reporting] *)
Module Reporting.
Section Reporting.
Context {C : Type}.

(** The state a reporter shares with its clones: the flag and the consumer,
    behind the mutex. *)
Record shared := MkShared { is_reporting : bool; consumer : option C }.

Definition new_with_pc (c : C) : shared := MkShared false (Some c).

Definition ALREADY_MSG : string := "reporting already called".
Definition UNWRAP_MSG : string := "called `Option::unwrap()` on a `None` value".

(** [is_reporting.swap(true, ..)]. *)
Definition swap_reporting : M shared bool :=
  old <- gets is_reporting ;;
  modify (λ s, MkShared true (consumer s)) ;;
  ret old.

(** What [reporting] takes from the shared state; what it makes of it is in
    [GrpcReporter], the channels it creates are in [InnerSender]. *)
Definition reporting : M shared C :=
  old <- swap_reporting ;;
  panic_unless (negb old) ALREADY_MSG ;;
  c <- gets consumer ;;
  modify (λ s, MkShared (is_reporting s) None) ;;
  expect UNWRAP_MSG c.
End Reporting.
Arguments shared : clear implicits.
End Reporting.

(** ** [GrpcReporter] and the handle [Reporting] *)
Module GrpcReporter.
Section GrpcReporter.
Context {FE : ForeignErrors} {TN : Tonic}.
(** tonic's channel and endpoint, and the network behind them. *)
Context {channel endpoint Net : Type} (parse_endpoint : string → result endpoint transport_error)
  (endpoint_connect : endpoint → M Net (result channel transport_error)).
(** The handlers, and futures that complete with [()]. *)
Context {EH SH F : Type} (default_err_handle : EH) (default_status_handle : SH) (pending : F).
Context {P C : Type}.

(** The fields of one clone; [state] and [consumer], which clones share, are
    [Reporting.shared]. *)
Record t := Mk {
  producer : P;
  err_handle : EH;
  channel_ : channel;
  interceptor : CustomInterceptor.t
}.

Definition new_with_pc (ch : channel) (p : P) (c : C) : t * Reporting.shared C :=
  (Mk p default_err_handle ch CustomInterceptor.default, Reporting.new_with_pc c).

(** [GrpcReporter::new], with the two ends of an unbounded channel. *)
Definition new (unbounded_channel : P * C) (ch : channel) : t * Reporting.shared C :=
  let '(p, c) := unbounded_channel in new_with_pc ch p c.

Definition connect (unbounded_channel : P * C) (address : string)
    : M Net (result (t * Reporting.shared C) Error) :=
  match parse_endpoint address with
  | Err e => ret (Err (TonicTransport e))
  | Ok endpoint =>
      r <- endpoint_connect endpoint ;;
      match r with
      | Err e => ret (Err (TonicTransport e))
      | Ok channel => ret (Ok (new unbounded_channel channel))
      end
  end.

Definition with_err_handle (handle : EH) (r : t) : t :=
  Mk (producer r) handle (channel_ r) (interceptor r).
Definition with_authentication (v : string) (r : t) : t :=
  Mk (producer r) (err_handle r) (channel_ r) (CustomInterceptor.with_authentication v (interceptor r)).
Definition with_custom_intercept (f : request → result request status) (r : t) : t :=
  Mk (producer r) (err_handle r) (channel_ r) (CustomInterceptor.with_custom_intercept f (interceptor r)).

(** [Clone]: a clone shares the state, the consumer and the producer. *)
Definition clone (r : t) : t := Mk (producer r) (err_handle r) (channel_ r) (interceptor r).

(** [Reporting]: the report sender with its inner sender, and the three receive
    reporters, each with the client's channel and interceptor. *)
Record handle := MkHandle {
  consumer : C;
  shutdown_signal : F;
  sender_err : EH;
  sender_status : SH;
  trace_status : SH;
  log_status : SH;
  meter_status : SH;
  client : channel * CustomInterceptor.t
}.

Definition reporting (r : t) : M (Reporting.shared C) handle :=
  c <- Reporting.reporting ;;
  ret (MkHandle c pending (err_handle r) default_status_handle default_status_handle
         default_status_handle default_status_handle (channel_ r, interceptor r)).

Definition with_graceful_shutdown (signal : F) (h : handle) : handle :=
  MkHandle (consumer h) signal (sender_err h) (sender_status h) (trace_status h) (log_status h)
    (meter_status h) (client h).
Definition with_status_handle (f : SH) (h : handle) : handle :=
  MkHandle (consumer h) (shutdown_signal h) (sender_err h) f f f f (client h).

(** The handles a program can have. *)
Inductive built : handle → Prop :=
| built_reporting r s h s' : s ⊢ reporting r ⇓ h ⊣ s' → built h
| built_shutdown signal h : built h → built (with_graceful_shutdown signal h)
| built_status f h : built h → built (with_status_handle f h).

(** Sender and receive reporters always have the same status handler. *)
Lemma status_handles_agree h :
  built h → trace_status h = sender_status h ∧ log_status h = sender_status h ∧
    meter_status h = sender_status h.
Proof.
  induction 1 as [r s h s' Hr| |]; [|done..].
  unfold reporting in Hr. apply bind_inv_Ret in Hr as (c & s1 & _ & [= <- _]). done.
Qed.

(** What [connect] gives: a reporter that has not started, or the transport's
    error. *)
Lemma connect_cases ends address n : ∃ n',
  (∃ ch, n ⊢ connect ends address ⇓ Ok (new ends ch) ⊣ n') ∨
  (∃ e, n ⊢ connect ends address ⇓ Err (TonicTransport e) ⊣ n') ∨
  (∃ ep o, parse_endpoint address = Ok ep ∧ endpoint_connect ep n = (o, n') ∧ ∀ r, o ≠ Ret r).
Proof.
  unfold connect. destruct (parse_endpoint address) as [ep|e]; [|exists n; right; left; by exists e].
  unfold bind. destruct (endpoint_connect ep n) as [[[ch|e]|m|] n'] eqn:E; exists n'.
  - left. by exists ch.
  - right; left. by exists e.
  - right; right. by exists ep, (Panic m).
  - right; right. by exists ep, Abort.
Qed.
End GrpcReporter.
Arguments t {FE TN} channel EH P. Arguments handle {FE TN} channel EH SH F C.
End GrpcReporter.

(** ** The worker's sink *)
Module InnerSender.
(** The errors that reach the handler. *)
Inductive dyn_error := NoCapacity | ChannelClosed.
Definition dyn {I} (e : TrySendError I) : dyn_error :=
  match e with Full _ => NoCapacity | Closed _ => ChannelClosed end.

Section Sender.
Context {FE : ForeignErrors} `{MP : Mpsc Ch}.

(** The generated management client, acting on [G]; the two handlers, acting
    on [H]. *)
Context {G H : Type}.
Context (report_instance_properties : InstanceProperties.t → M G (result unit status)).
Context (rpc_keep_alive : InstancePingPkg.t → M G (result unit status)).
Context (err_handle : string → dyn_error → M H unit).
Context (status_handle : string → status → M H unit).

Record t := Mk {
  trace_chan : Ch SegmentObject.t;
  log_chan : Ch LogData.t;
  meter_chan : Ch MeterData.t;
  management : G;
  handlers : H
}.

Definition CAPACITY : nat := 255.
Definition new (g : G) (h : H) : t :=
  Mk (channel (Some CAPACITY)) (channel (Some CAPACITY)) (channel (Some CAPACITY)) g h.

Definition on_trace {A} : M (Ch SegmentObject.t) A → M t A :=
  zoom trace_chan (λ v s, Mk v (log_chan s) (meter_chan s) (management s) (handlers s)).
Definition on_log {A} : M (Ch LogData.t) A → M t A :=
  zoom log_chan (λ v s, Mk (trace_chan s) v (meter_chan s) (management s) (handlers s)).
Definition on_meter {A} : M (Ch MeterData.t) A → M t A :=
  zoom meter_chan (λ v s, Mk (trace_chan s) (log_chan s) v (management s) (handlers s)).
Definition on_management {A} : M G A → M t A :=
  zoom management (λ v s, Mk (trace_chan s) (log_chan s) (meter_chan s) v (handlers s)).
Definition on_handlers {A} : M H A → M t A :=
  zoom handlers (λ v s, Mk (trace_chan s) (log_chan s) (meter_chan s) (management s) v).

Definition TRACE_MSG : string := "report trace segment failed".
Definition LOG_MSG : string := "report log data failed".
Definition METER_MSG : string := "report meter data failed".
Definition INSTANCE_MSG : string := "Report instance properties failed".
Definition PING_MSG : string := "Ping failed".

(** [if let Err(e) = .. { (handle)(msg, &e) }]. *)
Definition if_err {E} (handle : E → M H unit) (r : result unit E) : M t unit :=
  match r with Ok _ => ret tt | Err e => on_handlers (handle e) end.

(** [InnerReportSender::report]. *)
Definition report (item : CollectItem) : M t unit :=
  match item with
  | Trace item =>
      r <- on_trace (try_send item) ;; if_err (λ e, err_handle TRACE_MSG (dyn e)) r
  | Log item =>
      r <- on_log (try_send item) ;; if_err (λ e, err_handle LOG_MSG (dyn e)) r
  | Meter item =>
      r <- on_meter (try_send item) ;; if_err (λ e, err_handle METER_MSG (dyn e)) r
  | Instance_ item =>
      r <- on_management (report_instance_properties item) ;;
      if_err (status_handle INSTANCE_MSG) r
  | Ping item =>
      r <- on_management (rpc_keep_alive item) ;; if_err (status_handle PING_MSG) r
  end.
End Sender.
Arguments t : clear implicits.
End InnerSender.



(** ** Lemmas *)
Section SenderLemmas.
Context {FE : ForeignErrors} `{MP : Mpsc Ch} {ML : MpscLaws Ch} {G H : Type}.
Context (report_instance_properties : InstanceProperties.t → M G (result unit status)).
Context (rpc_keep_alive : InstancePingPkg.t → M G (result unit status)).
Context (err_handle : string → InnerSender.dyn_error → M H unit).
Context (status_handle : string → status → M H unit).
Import InnerSender.

Abbreviation report := (report report_instance_properties rpc_keep_alive err_handle status_handle).

(** The collaborators return. *)
Record collaborators : Prop := {
  c_instance i g : ∃ r g', g ⊢ report_instance_properties i ⇓ r ⊣ g';
  c_ping i g : ∃ r g', g ⊢ rpc_keep_alive i ⇓ r ⊣ g';
  c_err m e h : ∃ h', h ⊢ err_handle m e ⇓ tt ⊣ h';
  c_status m e h : ∃ h', h ⊢ status_handle m e ⇓ tt ⊣ h'
}.

(** Zooming keeps a run. *)
Lemma on_trace_run {A} (m : M _ A) (s : t Ch G H) r c' :
  m (trace_chan s) = (r, c') →
  on_trace m s = (r, Mk c' (log_chan s) (meter_chan s) (management s) (handlers s)).
Proof. intros Hm. unfold on_trace. by erewrite zoom_run by exact Hm. Qed.
Lemma on_log_run {A} (m : M _ A) (s : t Ch G H) r c' :
  m (log_chan s) = (r, c') →
  on_log m s = (r, Mk (trace_chan s) c' (meter_chan s) (management s) (handlers s)).
Proof. intros Hm. unfold on_log. by erewrite zoom_run by exact Hm. Qed.
Lemma on_meter_run {A} (m : M _ A) (s : t Ch G H) r c' :
  m (meter_chan s) = (r, c') →
  on_meter m s = (r, Mk (trace_chan s) (log_chan s) c' (management s) (handlers s)).
Proof. intros Hm. unfold on_meter. by erewrite zoom_run by exact Hm. Qed.
Lemma on_management_run {A} (m : M G A) (s : t Ch G H) r g' :
  m (management s) = (r, g') →
  on_management m s = (r, Mk (trace_chan s) (log_chan s) (meter_chan s) g' (handlers s)).
Proof. intros Hm. unfold on_management. by erewrite zoom_run by exact Hm. Qed.

(** What sending [item] does to a channel, and the error it gives. *)
Definition sends {I} (c c' : Ch I) (item : I) (e : option dyn_error) : Prop :=
  match e with
  | None => receiving c = true ∧ is_full c = false ∧ requeued c c' (queued c ++ [item])
  | Some NoCapacity => receiving c = true ∧ is_full c = true ∧ requeued c c' (queued c)
  | Some ChannelClosed => receiving c = false ∧ requeued c c' (queued c)
  end.

(** The handler has been told about the error, if there is one. *)
Definition told {E} (handle : string → E → M H unit) (msg : string) (e : option E) (h h' : H) : Prop :=
  match e with Some e => h ⊢ handle msg e ⇓ tt ⊣ h' | None => h' = h end.

Definition error_of {E} (r : result unit E) : option E :=
  match r with Ok _ => None | Err e => Some e end.

Lemma try_send_sends {I} (c : Ch I) (i : I) : ∃ r c',
  (c ⊢ try_send i ⇓ r ⊣ c') ∧ sends c c' i (dyn <$> error_of r).
Proof.
  destruct (try_send_law c i) as (c' & [(? & -> & ?)|[(? & ? & -> & ?)|(? & ? & -> & ?)]]);
    by eexists _, c'.
Qed.

(** The end of each branch of [report]. *)
Lemma if_err_told {E D} (handle : string → D → M H unit) (f : E → D) msg r (s : t Ch G H) :
  (∀ m e h, ∃ h', h ⊢ handle m e ⇓ tt ⊣ h') →
  ∃ h', (s ⊢ if_err (λ e, handle msg (f e)) r ⇓ tt ⊣
           Mk (trace_chan s) (log_chan s) (meter_chan s) (management s) h') ∧
    told handle msg (f <$> error_of r) (handlers s) h'.
Proof.
  intros Hh. destruct r as [[]|e]; [exists (handlers s); split; [by destruct s|done]|].
  destruct (Hh msg (f e) (handlers s)) as [h' Hh']. exists h'. split; [|done].
  unfold if_err, on_handlers, zoom. by rewrite Hh'.
Qed.

(** The five branches of [report]. *)
Section Branches.
Context (HC : collaborators) (ct : Ch SegmentObject.t) (cl : Ch LogData.t) (cm : Ch MeterData.t)
  (g : G) (h : H).

Lemma sink_trace_run seg : ∃ c e h',
  (Mk ct cl cm g h ⊢ report (Trace seg) ⇓ tt ⊣ Mk c cl cm g h') ∧
  sends ct c seg e ∧ told err_handle TRACE_MSG e h h'.
Proof.
  destruct (try_send_sends ct seg) as (r & c & Hr & Hs).
  destruct (if_err_told err_handle dyn TRACE_MSG r (Mk c cl cm g h) (c_err HC)) as (h' & Hh & Ht).
  exists c, (dyn <$> error_of r), h'. split_and!; [|done..].
  unfold InnerSender.report. by rewrite (bind_Ret _ _ _ _ _ (on_trace_run _ (Mk ct cl cm g h) _ _ Hr)).
Qed.

Lemma sink_log_run log : ∃ c e h',
  (Mk ct cl cm g h ⊢ report (Log log) ⇓ tt ⊣ Mk ct c cm g h') ∧
  sends cl c log e ∧ told err_handle LOG_MSG e h h'.
Proof.
  destruct (try_send_sends cl log) as (r & c & Hr & Hs).
  destruct (if_err_told err_handle dyn LOG_MSG r (Mk ct c cm g h) (c_err HC)) as (h' & Hh & Ht).
  exists c, (dyn <$> error_of r), h'. split_and!; [|done..].
  unfold InnerSender.report. by rewrite (bind_Ret _ _ _ _ _ (on_log_run _ (Mk ct cl cm g h) _ _ Hr)).
Qed.

Lemma sink_meter_run meter : ∃ c e h',
  (Mk ct cl cm g h ⊢ report (Meter meter) ⇓ tt ⊣ Mk ct cl c g h') ∧
  sends cm c meter e ∧ told err_handle METER_MSG e h h'.
Proof.
  destruct (try_send_sends cm meter) as (r & c & Hr & Hs).
  destruct (if_err_told err_handle dyn METER_MSG r (Mk ct cl c g h) (c_err HC)) as (h' & Hh & Ht).
  exists c, (dyn <$> error_of r), h'. split_and!; [|done..].
  unfold InnerSender.report. by rewrite (bind_Ret _ _ _ _ _ (on_meter_run _ (Mk ct cl cm g h) _ _ Hr)).
Qed.

Lemma sink_instance_run i : ∃ r g' h', (g ⊢ report_instance_properties i ⇓ r ⊣ g') ∧
  (Mk ct cl cm g h ⊢ report (Instance_ i) ⇓ tt ⊣ Mk ct cl cm g' h') ∧
  told status_handle INSTANCE_MSG (error_of r) h h'.
Proof.
  destruct (c_instance HC i g) as (r & g' & Hr).
  destruct (if_err_told status_handle id INSTANCE_MSG r (Mk ct cl cm g' h) (c_status HC))
    as (h' & Hh & Ht). rewrite option_fmap_id in Ht. exists r, g', h'. split_and!; [done| |done].
  unfold InnerSender.report. by rewrite (bind_Ret _ _ _ _ _ (on_management_run _ (Mk ct cl cm g h) _ _ Hr)).
Qed.

Lemma sink_ping_run i : ∃ r g' h', (g ⊢ rpc_keep_alive i ⇓ r ⊣ g') ∧
  (Mk ct cl cm g h ⊢ report (Ping i) ⇓ tt ⊣ Mk ct cl cm g' h') ∧
  told status_handle PING_MSG (error_of r) h h'.
Proof.
  destruct (c_ping HC i g) as (r & g' & Hr).
  destruct (if_err_told status_handle id PING_MSG r (Mk ct cl cm g' h) (c_status HC))
    as (h' & Hh & Ht). rewrite option_fmap_id in Ht. exists r, g', h'. split_and!; [done| |done].
  unfold InnerSender.report. by rewrite (bind_Ret _ _ _ _ _ (on_management_run _ (Mk ct cl cm g h) _ _ Hr)).
Qed.
End Branches.
End SenderLemmas.

(** ** Properties *)
Section Properties.
Context {FE : ForeignErrors} `{MP : Mpsc Ch} {ML : MpscLaws Ch}.

(** the interceptor. The custom interceptor sees the request with the
    authentication header, when an authentication is set and is a legal header
    value (an illegal one is skipped without an error); its answer, request or
    status, is the answer. *)
Lemma interceptor_spec {TN : Tonic} (i : CustomInterceptor.t) (r : request) :
  let authenticated r := match CustomInterceptor.authentication i with
    | Some a => from_option (λ v, metadata_insert "authentication" v r) r (parse_metadata a)
    | None => r
    end in
  CustomInterceptor.call i r =
    match CustomInterceptor.custom_intercept i with
    | Some f => f (authenticated r)
    | None => Ok (authenticated r)
    end ∧
  (∀ a, parse_metadata a = None →
     CustomInterceptor.call (CustomInterceptor.with_authentication a i) r =
     CustomInterceptor.call (CustomInterceptor.Mk None (CustomInterceptor.custom_intercept i)) r).
Proof.
  destruct i as [[a|] [f|]]; unfold CustomInterceptor.call; cbn; split;
    try (by destruct (parse_metadata a); cbn; try destruct (f _)); try (by destruct (f r));
    try done; intros b ->; done.
Qed.

(** [reporting] runs at most once. The first call gets the consumer; every
    later one, from any clone, panics with its documented message, and the
    [unwrap] of the consumer never does. *)
Lemma reporting_once {C : Type} (c : C) (s : Reporting.shared C) :
  let s1 := Reporting.MkShared true None in
  (Reporting.new_with_pc c ⊢ Reporting.reporting ⇓ c ⊣ s1) ∧
  (s1 ⊢ Reporting.reporting ⇑ Reporting.ALREADY_MSG ⊣ s1) ∧
  (Reporting.is_reporting s = true →
     Reporting.reporting s = (Panic Reporting.ALREADY_MSG, s)).
Proof. split_and!; [done..|]. destruct s as [[] o]; [|done]. by intros _. Qed.

(** The worker's sink. A segment, a log or a meter goes to the end of its
    own channel; when 255 of them already wait it is dropped and the error
    handler is told, and the same when the streaming task is gone. Properties
    and pings are calls to the management service, whose failure the status
    handler is told. Nothing else changes, and the worker always goes on. *)
Lemma sink_spec {G H : Type} rip rka (err_handle : string → InnerSender.dyn_error → M H unit)
    (status_handle : string → status → M H unit) (s : InnerSender.t Ch G H) :
  collaborators rip rka err_handle status_handle →
  let report := InnerSender.report rip rka err_handle status_handle in
  let '(InnerSender.Mk ct cl cm g h) := s in
  (∀ seg, ∃ c e h', (s ⊢ report (Trace seg) ⇓ tt ⊣ InnerSender.Mk c cl cm g h') ∧
     sends ct c seg e ∧ told err_handle InnerSender.TRACE_MSG e h h') ∧
  (∀ log, ∃ c e h', (s ⊢ report (Log log) ⇓ tt ⊣ InnerSender.Mk ct c cm g h') ∧
     sends cl c log e ∧ told err_handle InnerSender.LOG_MSG e h h') ∧
  (∀ meter, ∃ c e h', (s ⊢ report (Meter meter) ⇓ tt ⊣ InnerSender.Mk ct cl c g h') ∧
     sends cm c meter e ∧ told err_handle InnerSender.METER_MSG e h h') ∧
  (∀ i, ∃ r g' h', (g ⊢ rip i ⇓ r ⊣ g') ∧
     (s ⊢ report (Instance_ i) ⇓ tt ⊣ InnerSender.Mk ct cl cm g' h') ∧
     told status_handle InnerSender.INSTANCE_MSG (error_of r) h h') ∧
  (∀ i, ∃ r g' h', (g ⊢ rka i ⇓ r ⊣ g') ∧
     (s ⊢ report (Ping i) ⇓ tt ⊣ InnerSender.Mk ct cl cm g' h') ∧
     told status_handle InnerSender.PING_MSG (error_of r) h h') ∧
  (∀ g h, capacity (InnerSender.trace_chan (InnerSender.new (Ch := Ch) (G := G) (H := H) g h)) = Some 255%nat ∧
          capacity (InnerSender.log_chan (InnerSender.new (Ch := Ch) (G := G) (H := H) g h)) = Some 255%nat ∧
          capacity (InnerSender.meter_chan (InnerSender.new (Ch := Ch) (G := G) (H := H) g h)) = Some 255%nat).
Proof.
  intros HC report. destruct s as [ct cl cm g h]. split_and!; intros.
  - by apply sink_trace_run.
  - by apply sink_log_run.
  - by apply sink_meter_run.
  - by apply sink_instance_run.
  - by apply sink_ping_run.
  - cbn. split_and!; apply (channel_law (Some 255%nat)).
Qed.

End Properties.

(** ** Concrete runs *)
Module GrpcDemo.
#[local] Existing Instance text_errors.
#[local] Existing Instances Reference.mpsc Reference.laws.

(** A management service that refuses everything, handlers that count. *)
Definition refuse {A} (_ : A) : M unit (result unit status) := ret (Err "unavailable"%string).
Definition count {A} (_ : string) (_ : A) : M nat unit := modify S.

Lemma refusing : collaborators (FE := text_errors) refuse refuse count count.
Proof. split; intros; by repeat eexists. Qed.

Lemma sink_spec_witness :
  ∃ r s', InnerSender.report refuse refuse count count (Ping (InstancePingPkg.Mk "s" "i" ""))
      (InnerSender.new (Ch := Reference.chan) tt 0%nat) = (Ret tt, s') ∧ r = Err (T := unit) "unavailable"%string ∧
    InnerSender.handlers s' = 1%nat.
Proof.
  destruct (sink_spec refuse refuse count count (InnerSender.new (Ch := Reference.chan) tt 0%nat) refusing)
    as (_ & _ & _ & _ & H & _).
  destruct (H (InstancePingPkg.Mk "s" "i" "")) as (r & g' & h' & Hr & Hrun & Ht).
  injection Hr as <- <-. eexists _, _. split; [exact Hrun|]. split; [done|]. by injection Ht.
Defined.

End GrpcDemo.
