(* ===== verification/GrpcStream.v ===== *)
(** * src/reporter/grpc.rs: the tasks that stream a channel to the server

    [ReceiveFrom], its streams, and the [start] loops of the three receive
    reporters, which differ in the type of the items, the client and a message.
    What the server does with a call is unknown: it may take items from the
    stream, answer at any time, or fail. A stream is no longer polled once its
    call has returned, and the timeout may elapse whenever no item is ready. *)

From S2P Require Import Prelude Error Channel Pipeline Grpc.

Local Open Scope sky_scope.

(** The handler has been told about the errors of these calls, in order. *)
Inductive told_all {H E} (handle : string → E → M H unit) (msg : string) (h0 : H) :
    list (result unit E) → H → Prop :=
| told_none : told_all handle msg h0 [] h0
| told_next rs r h h' :
    told_all handle msg h0 rs h → told handle msg (error_of r) h h' →
    told_all handle msg h0 (rs ++ [r]) h'.

Module Receive.
Section Receive.
Context {FE : ForeignErrors} `{MP : Mpsc Ch} {I H : Type}.
Context (status_handle : string → status → M H unit) (msg : string).

(** [ReceiveFrom] (and the stream it hands out): the receiver and the flag. *)
Record from := MkFrom { receiver : Ch I; is_closed : bool }.

Definition new (c : Ch I) : from := MkFrom c false.

(** [ReceiveFromStream::poll_next]. *)
Definition poll_next : M from (poll (option I)) :=
  r <- zoom receiver (λ v s, MkFrom v (is_closed s)) recv ;;
  match r with
  | Ready None => modify (λ s, MkFrom (receiver s) true) ;; ret r
  | _ => ret r
  end.

(** [ReceiveFrom::stream]: whether there is another stream. *)
Definition stream : M from bool := closed <- gets is_closed ;; ret (negb closed).

(** The [start] loop: deciding whether to open a stream, inside a [collect]
    call (whose stream may have ended), returned. Ghosts: the items each call's
    stream has yielded, the last being the current one; what the finished calls
    answered; and what the channel accepted. *)
Inductive phase := Deciding | Collecting (ended : bool) | Returned.
Record state := MkState {
  from_ : from;
  at_ : phase;
  handler : H;
  streams : list (list I);
  answers : list (result unit status);
  sent : list I
}.

Definition start (c : Ch I) (h : H) : state := MkState (new c) Deciding h [] [] [].

(** An item yielded to the current stream. *)
Definition yield (x : I) (ss : list (list I)) : list (list I) :=
  match last ss with
  | Some s => removelast ss ++ [s ++ [x]]
  | None => ss
  end.

Definition set_from (f : from) (p : phase) (ss : list (list I)) (s : state) : state :=
  MkState f p (handler s) ss (answers s) (sent s).

(** [if let Err(err) = .. { (self.status_handle)(msg, &err) }]. *)
Definition answer (r : result unit status) : M H unit :=
  match r with Ok _ => ret tt | Err err => status_handle msg err end.

(** The steps of the task. *)
Inductive pull : state → state → Prop :=
(* while let Some(stream) = rf.stream() *)
| loop_stream s :
    at_ s = Deciding → from_ s ⊢ stream ⇓ true ⊣ from_ s →
    pull s (set_from (from_ s) (Collecting false) (streams s ++ [[]]) s)
| loop_end s :
    at_ s = Deciding → from_ s ⊢ stream ⇓ false ⊣ from_ s →
    pull s (set_from (from_ s) Returned (streams s) s)
(* the client polls the stream; an elapsed timeout ends it *)
| stream_item s x f' :
    at_ s = Collecting false → from_ s ⊢ poll_next ⇓ Ready (Some x) ⊣ f' →
    pull s (set_from f' (Collecting false) (yield x (streams s)) s)
| stream_none s f' :
    at_ s = Collecting false → from_ s ⊢ poll_next ⇓ Ready None ⊣ f' →
    pull s (set_from f' (Collecting true) (streams s) s)
| stream_elapsed s f' :
    at_ s = Collecting false → from_ s ⊢ poll_next ⇓ Pending ⊣ f' →
    pull s (set_from f' (Collecting true) (streams s) s)
(* the call returns *)
| collect_returns s ended r h' :
    at_ s = Collecting ended → handler s ⊢ answer r ⇓ tt ⊣ h' →
    pull s (MkState (from_ s) Deciding h' (streams s) (answers s ++ [r]) (sent s)).

(** They alternate with those of the worker's side of the channel. *)
Inductive step : state → state → Prop :=
| sender_try_send s item r c' :
    senders (receiver (from_ s)) ≠ 0%nat →
    receiver (from_ s) ⊢ try_send item ⇓ r ⊣ c' →
    step s (MkState (MkFrom c' (is_closed (from_ s))) (at_ s) (handler s) (streams s) (answers s)
              (sent s ++ match r with Ok _ => [item] | Err _ => [] end))
| sender_other s c' :
    sender_moves (receiver (from_ s)) c' →
    step s (set_from (MkFrom c' (is_closed (from_ s))) (at_ s) (streams s) s)
| receiver_step s s' : pull s s' → step s s'.
End Receive.
Arguments from : clear implicits.
Arguments state {FE} Ch I H.
End Receive.

(** The messages of the three tasks. *)
Definition COLLECT_TRACE_MSG : string := "Collect trace segment by stream failed".
Definition COLLECT_LOG_MSG : string := "Collect log data by stream failed".
Definition COLLECT_METER_MSG : string := "Collect meter data by stream failed".

(** ** Lemmas *)
Section StreamLemmas.
Context {FE : ForeignErrors} `{MP : Mpsc Ch} {ML : MpscLaws Ch} {I H : Type}.
Context (status_handle : string → status → M H unit) (msg : string).
Import Receive.
Implicit Types (s : state Ch I H).

Abbreviation step := (step status_handle msg).
Abbreviation pull := (pull status_handle msg).

(** The calls in progress: none or one. *)
Definition calling (p : phase) : nat := match p with Collecting _ => 1 | _ => 0 end.

Record inv s : Prop := {
  i_order : mjoin (streams s) ++ queued (receiver (from_ s)) = sent s;
  i_closed : is_closed (from_ s) = true →
    queued (receiver (from_ s)) = [] ∧ senders (receiver (from_ s)) = 0%nat;
  i_calls : length (streams s) = (length (answers s) + calling (at_ s))%nat;
  i_open : at_ s = Collecting false → is_closed (from_ s) = false;
  i_returned : at_ s = Returned → is_closed (from_ s) = true
}.

Lemma poll_next_run (f : from Ch I) r f' :
  f ⊢ poll_next ⇓ r ⊣ f' →
  senders (receiver f') = senders (receiver f) ∧
  ((∃ x, r = Ready (Some x) ∧ queued (receiver f) = x :: queued (receiver f') ∧
      is_closed f' = is_closed f) ∨
   (r = Ready None ∧ queued (receiver f) = [] ∧ queued (receiver f') = [] ∧
      senders (receiver f) = 0%nat ∧ is_closed f' = true) ∨
   (r = Pending ∧ queued (receiver f') = queued (receiver f) ∧ is_closed f' = is_closed f)).
Proof.
  destruct f as [c cl]. unfold poll_next, bind, zoom, modify, ret. cbn.
  destruct (recv_law c) as (c' & [(x & q & Hq & -> & Hq' & ? & _)|[(Hq & Hn & -> & Hq' & ? & _)
    |(Hq & Hn & -> & Hq' & ? & _)]]); intros [= <- <-]; cbn; (split; [done|]).
  - left. exists x. split_and!; congruence.
  - right; left. by split_and!.
  - right; right. split_and!; congruence.
Qed.

Lemma stream_run (f : from Ch I) b : f ⊢ stream ⇓ b ⊣ f ↔ is_closed f = negb b.
Proof. unfold stream, bind, gets, ret. destruct (is_closed f), b; cbn; naive_solver. Qed.

Lemma join_yield x (ss : list (list I)) : ss ≠ [] → mjoin (yield x ss) = mjoin ss ++ [x].
Proof.
  intros Hne. unfold yield. destruct ss as [|l ss' _] using rev_ind; [done|].
  rewrite last_snoc, removelast_last, !join_app. cbn. by rewrite !app_nil_r, app_assoc.
Qed.

Lemma yield_length x (ss : list (list I)) : length (yield x ss) = length ss.
Proof.
  unfold yield. destruct ss as [|l ss' _] using rev_ind; [done|].
  rewrite last_snoc, removelast_last, !length_app. done.
Qed.

Lemma try_send_run (c : Ch I) item r c' :
  c ⊢ try_send item ⇓ r ⊣ c' →
  queued c' = queued c ++ match r with Ok _ => [item] | Err _ => [] end ∧
  senders c' = senders c.
Proof.
  intros Hr. destruct (try_send_law c item) as (d & [(_ & Hd & ? & ? & _)|[(_ & _ & Hd & ? & ? & _)
    |(_ & _ & Hd & ? & ? & _)]]); rewrite Hr in Hd; injection Hd as -> ->; by rewrite ?app_nil_r.
Qed.

Lemma sender_moves_run (c c' : Ch I) :
  sender_moves c c' → queued c' = queued c ∧ senders c ≠ 0%nat.
Proof.
  intros [d ?|d ?]; [by destruct (clone_sender_law d)|by destruct (drop_sender_law d)].
Qed.

Lemma answer_told r (h h' : H) :
  h ⊢ answer status_handle msg r ⇓ tt ⊣ h' → told status_handle msg (error_of r) h h'.
Proof. destruct r as [[]|e]; [by intros [= ->]|done]. Qed.

Lemma stream_inv_start c h : queued c = [] → inv (start c h).
Proof. intros Hq. split; done. Qed.

Lemma stream_inv_sender s item r c' :
  inv s → senders (receiver (from_ s)) ≠ 0%nat → receiver (from_ s) ⊢ try_send item ⇓ r ⊣ c' →
  inv (MkState (MkFrom c' (is_closed (from_ s))) (at_ s) (handler s) (streams s) (answers s)
         (sent s ++ match r with Ok _ => [item] | Err _ => [] end)).
Proof.
  intros [Ho Hc Hn Hop Hr] Hs Ht. destruct (try_send_run _ _ _ _ Ht) as [Hq Hs']. split; cbn; try done.
  - by rewrite Hq, app_assoc, Ho.
  - by intros [_ H0]%Hc.
Qed.

Lemma stream_inv_pull s s' :
  inv s → pull s s' → inv s' ∧ sent s' = sent s ∧
    senders (receiver (from_ s')) = senders (receiver (from_ s)).
Proof.
  intros [Ho Hc Hn Hop Hr] Hstep.
  destruct Hstep as [s Hat Hst%stream_run|s Hat Hst%stream_run|s x f' Hat Hp
    |s f' Hat Hp|s f' Hat Hp|s e r h' Hat Hh]; rewrite ?Hat in *.
  - split; [|done]. split; cbn; try done.
    + by rewrite join_app; cbn; rewrite app_nil_r.
    + rewrite length_app. cbn in *. lia.
  - split; [|done]. by split.
  - apply poll_next_run in Hp as [Hsn [(y & [= <-] & Hq & Hcl)|[[? _]|[? _]]]]; [|done..].
    split; [|done]. split; cbn; try done.
    + rewrite join_yield, <-Ho, Hq by (intros E; by rewrite E, Nat.add_comm in Hn). by rewrite <-app_assoc.
    + rewrite Hcl, Hop by done. done.
    + by rewrite yield_length.
    + by rewrite Hcl.
  - apply poll_next_run in Hp as [Hsn [(y & ? & _)|[(_ & Hq & Hq' & Hz & Hcl)|[? _]]]]; [done| |done].
    split; [|done]. split; cbn; try done; [by rewrite Hq', <-Hq|]. intros _. by rewrite Hsn.
  - apply poll_next_run in Hp as [Hsn [(y & ? & _)|[[? _]|(_ & Hq & Hcl)]]]; [done|done|].
    split; [|done]. split; cbn; try done; [by rewrite Hq|]. by rewrite Hq, Hsn, Hcl.
  - split; [|done]. split; cbn; try done. rewrite length_app. cbn in *. lia.
Qed.

Lemma stream_inv_step s s' : inv s → step s s' → inv s'.
Proof.
  intros Hi Hstep. destruct Hstep as [s item r c' Hs Ht|s c' Hm|s s1 Hp].
  - by apply stream_inv_sender.
  - destruct Hi as [Ho Hc Hn Hop Hr], (sender_moves_run _ _ Hm) as [Hq Hs]. split; cbn; try done.
    + by rewrite Hq.
    + by intros [_ H0]%Hc.
  - by destruct (stream_inv_pull _ _ Hi Hp).
Qed.

Lemma stream_inv_reachable c h s : queued c = [] → rtc step (start c h) s → inv s.
Proof.
  intros Hq Hs. pose proof (stream_inv_start c h Hq) as Hi. remember (start c h) as s0 eqn:E. clear E.
  induction Hs; eauto using stream_inv_step.
Qed.

(** The handler hears of the failed calls, of all of them, and of nothing
    else. *)
Lemma told_step h0 s s' :
  told_all status_handle msg h0 (answers s) (handler s) → step s s' →
  told_all status_handle msg h0 (answers s') (handler s').
Proof.
  intros Ht Hstep. destruct Hstep as [| |s s1 Hp]; [done..|]. destruct Hp; cbn; try done.
  eapply told_next; [done|]. by apply answer_told.
Qed.

Lemma told_reachable c h s :
  rtc step (start c h) s → told_all status_handle msg h (answers s) (handler s).
Proof.
  intros Hs. assert (H0 : told_all status_handle msg h (answers (start c h)) (handler (start c h))).
  { apply told_none. }
  remember (start c h) as s0 eqn:E. clear E. induction Hs; eauto using told_step.
Qed.

Lemma poll_next_total (f : from Ch I) : ∃ r f', f ⊢ poll_next ⇓ r ⊣ f'.
Proof.
  destruct f as [c cl]. unfold poll_next, bind, zoom, modify, ret. cbn.
  destruct (recv_law c) as (c' & [(x & q & _ & -> & _)|[(_ & _ & -> & _)|(_ & _ & -> & _)]]); eauto.
Qed.

(** A pending stream has a live sender. *)
Lemma poll_next_pending (f f' : from Ch I) :
  f ⊢ poll_next ⇓ Pending ⊣ f' → senders (receiver f) ≠ 0%nat.
Proof.
  destruct f as [c cl]. unfold poll_next, bind, zoom, modify, ret. cbn.
  by destruct (recv_law c) as (c' & [(x & q & _ & -> & _)|[(_ & _ & -> & _)|(_ & ? & -> & _)]]).
Qed.

(** The task does not look at the ghost. *)
Definition resend (l : list I) s : state Ch I H :=
  MkState (from_ s) (at_ s) (handler s) (streams s) (answers s) l.

Lemma pull_resend s s' :
  pull s s' → sent s' = sent s ∧ ∀ l, pull (resend l s) (resend l s').
Proof.
  intros Hp. destruct Hp as [s Hat Hst|s Hat Hst|s x f' Hat Hp|s f' Hat Hp|s f' Hat Hp|s e r h' Hat Hh];
    (split; [done|intros l]).
  - by apply (loop_stream _ _ (resend l s)).
  - by apply (loop_end _ _ (resend l s)).
  - by apply (stream_item _ _ (resend l s)).
  - by apply (stream_none _ _ (resend l s)).
  - by apply (stream_elapsed _ _ (resend l s)).
  - by apply (collect_returns _ _ (resend l s) e).
Qed.

(** From a stream that has not ended, the end of a disconnected channel is
    reached. *)
Lemma drain_collecting n s :
  length (queued (receiver (from_ s))) = n → at_ s = Collecting false →
  senders (receiver (from_ s)) = 0%nat →
  ∃ s', rtc pull s s' ∧ at_ s' = Returned ∧ sent s' = sent s.
Proof.
  revert s. induction n as [|n IH]; intros s Hlen Hat H0;
    destruct (poll_next_total (from_ s)) as (r & f' & Hp);
    pose proof (poll_next_run _ _ _ Hp) as [Hsn [(x & -> & Hq & _)|[(-> & Hq & _ & _ & Hcl)|(-> & _)]]];
    try (by destruct (poll_next_pending _ _ Hp)); rewrite Hq in Hlen; try done.
  - eexists. split; [eapply rtc_l; [by eapply stream_none|]|].
    + eapply rtc_l; [by apply (collect_returns _ _ _ true (Ok tt) (handler s))|].
      apply rtc_once. apply loop_end; [done|]. by apply stream_run.
    + done.
  - destruct (IH (set_from f' (Collecting false) (yield x (streams s)) s)) as (s' & Hrun & ? & ?).
    + by injection Hlen.
    + done.
    + cbn. congruence.
    + exists s'. split; [|by split]. eapply rtc_l; [by eapply stream_item|]. exact Hrun.
Qed.

(** Whatever the task is doing, once the senders are gone it can yield what is
    left and return. *)
Lemma drain s :
  inv s → senders (receiver (from_ s)) = 0%nat →
  ∃ s', rtc pull s s' ∧ at_ s' = Returned ∧ sent s' = sent s ∧ mjoin (streams s') = sent s.
Proof.
  intros Hi H0.
  assert (Hdec : ∀ s, at_ s = Deciding → senders (receiver (from_ s)) = 0%nat →
    ∃ s', rtc pull s s' ∧ at_ s' = Returned ∧ sent s' = sent s).
  { clear s Hi H0. intros s Hat H0. destruct (is_closed (from_ s)) eqn:Hcl.
    - eexists. split; [by apply rtc_once, loop_end, stream_run|by split].
    - edestruct (drain_collecting _ (set_from (from_ s) (Collecting false) (streams s ++ [[]]) s)
        eq_refl eq_refl H0) as (s' & Hrun & ? & ?).
      exists s'. split; [|by split]. eapply rtc_l; [by apply loop_stream, stream_run|exact Hrun]. }
  assert (Hrun : ∃ s', rtc pull s s' ∧ at_ s' = Returned ∧ sent s' = sent s).
  { destruct (at_ s) as [|e|] eqn:Hat; [by apply Hdec| |by exists s].
    edestruct (Hdec (MkState (from_ s) Deciding (handler s) (streams s) (answers s ++ [Ok tt]) (sent s)))
      as (s' & Hrun & ? & ?); [done|done|].
    exists s'. split; [|by split]. eapply rtc_l; [by eapply (collect_returns _ _ _ _ (Ok tt))|exact Hrun]. }
  destruct Hrun as (s' & Hrun & Hat & Hsent). exists s'. split_and!; [done..|].
  assert (Hi' : inv s').
  { clear -Hi Hrun ML. induction Hrun as [|s s1 s2 Hp _ IH]; [done|]. apply IH.
    by destruct (stream_inv_pull _ _ Hi Hp). }
  destruct (i_closed _ Hi' (i_returned _ Hi' Hat)) as [Hnil _].
  pose proof (i_order _ Hi') as Ho. by rewrite Hnil, app_nil_r, Hsent in Ho.
Qed.

(** While the worker is alive, a stream that has not ended yields what
    waits. *)
Lemma empties_collecting n s :
  length (queued (receiver (from_ s))) = n → at_ s = Collecting false →
  ∃ s', rtc pull s s' ∧ queued (receiver (from_ s')) = [].
Proof.
  revert s. induction n as [|n IH]; intros s Hlen Hat; [exists s; split; [apply rtc_refl|by apply length_zero_iff_nil]|].
  destruct (poll_next_total (from_ s)) as (r & f' & Hp).
  destruct (recv_law (receiver (from_ s))) as (c' & [(x & q & Hq & Hr & Hq' & _)|[(Hq & _)|(Hq & _)]]);
    [|by rewrite Hq in Hlen..].
  assert (Hp' : from_ s ⊢ poll_next ⇓ Ready (Some x) ⊣ MkFrom c' (is_closed (from_ s))).
  { unfold poll_next, bind, zoom, ret. cbn. by rewrite Hr. }
  destruct (IH (set_from (MkFrom c' (is_closed (from_ s))) (Collecting false) (yield x (streams s)) s))
    as (s' & Hrun & He); [cbn; rewrite Hq', Hq in *; by injection Hlen|done|].
  exists s'. split; [|done]. eapply rtc_l; [by eapply stream_item|exact Hrun].
Qed.

(** Whatever the task is doing, it can yield all that waits. *)
Lemma empties s :
  inv s → senders (receiver (from_ s)) ≠ 0%nat → ∃ s', rtc pull s s' ∧ queued (receiver (from_ s')) = [].
Proof.
  intros [_ Hc _ _ Hr] Hn.
  assert (Hcl : is_closed (from_ s) = false) by (destruct (is_closed (from_ s)); [by destruct (Hc eq_refl)|done]).
  assert (Hdec : ∀ s, at_ s = Deciding → is_closed (from_ s) = false →
    ∃ s', rtc pull s s' ∧ queued (receiver (from_ s')) = []).
  { clear -ML. intros s Hat Hcl.
    destruct (empties_collecting _ (set_from (from_ s) (Collecting false) (streams s ++ [[]]) s) eq_refl eq_refl)
      as (s' & Hrun & He).
    exists s'. split; [|done]. eapply rtc_l; [by apply loop_stream, stream_run|exact Hrun]. }
  destruct (at_ s) as [|ended|] eqn:Hat; [by apply Hdec| |specialize (Hr eq_refl); congruence].
  destruct (Hdec (MkState (from_ s) Deciding (handler s) (streams s) (answers s ++ [Ok tt]) (sent s)) eq_refl Hcl)
    as (s' & Hrun & He).
  exists s'. split; [|done]. eapply rtc_l; [by eapply (collect_returns _ _ _ _ (Ok tt))|exact Hrun].
Qed.

(** A task puts nothing into its channel. *)
Lemma pull_empty s s' : pull s s' → queued (receiver (from_ s)) = [] → queued (receiver (from_ s')) = [].
Proof.
  intros Hp Hq. destruct Hp as [| |s x f' Hat Hp|s f' Hat Hp|s f' Hat Hp|]; cbn; try done;
    apply poll_next_run in Hp as [_ [(y & ? & Hq' & _)|[(? & _ & ? & _)|(? & Hq' & _)]]]; congruence.
Qed.
End StreamLemmas.

(** ** Properties *)
Section Properties.
Context {FE : ForeignErrors} `{MP : Mpsc Ch} {ML : MpscLaws Ch} {H : Type}.
Context (status_handle : string → status → M H unit) (msg : string).

(** Streaming. Whatever the server does (calls that fail, streams cut short
    by the 30 seconds without an item), the streams of a task together yield
    the items the channel accepted, each once and in order; the status handler
    is told of each call that failed, once, in order, and of nothing else; the
    task returns only when the worker is gone and everything was yielded. *)
Lemma streams_exactly_once {I : Type} (c : Ch I) h (s : Receive.state Ch I H) :
  queued c = [] → rtc (Receive.step status_handle msg) (Receive.start c h) s →
  mjoin (Receive.streams s) ++ queued (Receive.receiver (Receive.from_ s)) = Receive.sent s ∧
  told_all status_handle msg h (Receive.answers s) (Receive.handler s) ∧
  length (Receive.streams s) = (length (Receive.answers s) + calling (Receive.at_ s))%nat ∧
  (Receive.at_ s = Receive.Returned →
     senders (Receive.receiver (Receive.from_ s)) = 0%nat ∧
     mjoin (Receive.streams s) = Receive.sent s).
Proof.
  intros Hq Hs. destruct (stream_inv_reachable status_handle msg c h s Hq Hs) as [Ho Hc Hn _ Hr].
  split_and!; [done|by eapply told_reachable|done|].
  intros Hat. destruct (Hc (Hr Hat)) as [H0 Hz]. split; [done|]. by rewrite H0, app_nil_r in Ho.
Qed.

(** The streaming task ends. Once the worker has dropped its end of the
    channel, the task can yield what is left and return. *)
Lemma streams_end {I : Type} (c : Ch I) h (s : Receive.state Ch I H) :
  queued c = [] → rtc (Receive.step status_handle msg) (Receive.start c h) s →
  senders (Receive.receiver (Receive.from_ s)) = 0%nat →
  ∃ s', rtc (Receive.pull status_handle msg) s s' ∧ Receive.at_ s' = Receive.Returned ∧
    mjoin (Receive.streams s') = Receive.sent s.
Proof.
  intros Hq Hs H0.
  destruct (drain status_handle msg s (stream_inv_reachable status_handle msg c h s Hq Hs) H0)
    as (s' & ? & ? & _ & ?).
  by exists s'.
Qed.
End Properties.

(** ** A concrete run *)
Module GrpcStreamDemo.
#[local] Existing Instance text_errors.
#[local] Existing Instances Reference.mpsc Reference.laws.
Import Receive.

(** A handler that keeps the statuses. *)
Definition keep (_ : string) (e : status (ForeignErrors := text_errors)) : M (list string) unit :=
  modify (λ l, l ++ [e]).

(** A call that fails. *)
Definition down : result unit (status (ForeignErrors := text_errors)) := Err "unavailable"%string.

(** Two items, a call that fails in between, then the end. *)
Definition chan0 : Reference.chan nat := channel (Some 255%nat).
Lemma chan0_empty : queued chan0 = [].
Proof. reflexivity. Qed.
Definition between : state Reference.chan nat (list string) :=
  MkState (MkFrom (Reference.MkChan [8%nat] 0 true (Some 255%nat)) false) Deciding ["unavailable"%string]
    [[7%nat]] [down] [7%nat; 8%nat].

Abbreviation one_step := (step (FE := text_errors) keep COLLECT_TRACE_MSG).

Lemma between_reachable : rtc one_step (start chan0 []) between.
Proof.
  eapply rtc_l; [eapply (sender_try_send _ _ _ 7%nat (Ok tt)); [done|reflexivity]|cbn].
  eapply rtc_l; [by apply receiver_step, loop_stream|cbn].
  eapply rtc_l; [eapply receiver_step, stream_item; reflexivity|cbn].
  eapply rtc_l; [eapply (sender_try_send _ _ _ 8%nat (Ok tt)); [done|reflexivity]|cbn].
  eapply rtc_l; [eapply receiver_step, (collect_returns _ _ _ false down); reflexivity|cbn].
  eapply rtc_l; [eapply sender_other; exact (move_drop (MP := Reference.mpsc) (Reference.MkChan [8%nat] 1 true (Some 255%nat)) (Nat.neq_succ_0 0))|cbn]. apply rtc_refl.
Qed.

Lemma streams_exactly_once_witness :
  mjoin (streams between) ++ [8%nat] = [7%nat; 8%nat] ∧
  told_all (E := status (ForeignErrors := text_errors)) keep COLLECT_TRACE_MSG [] [down] ["unavailable"%string].
Proof.
  destruct (streams_exactly_once keep COLLECT_TRACE_MSG chan0 [] between chan0_empty between_reachable)
    as (H1 & H2 & _). exact (conj H1 H2).
Defined.

Lemma streams_end_witness :
  ∃ s', rtc (pull (FE := text_errors) keep COLLECT_TRACE_MSG) between s' ∧ at_ s' = Returned ∧ mjoin (streams s') = [7%nat; 8%nat].
Proof.
  apply (streams_end keep COLLECT_TRACE_MSG chan0 [] between chan0_empty between_reachable eq_refl).
Defined.
End GrpcStreamDemo.
