(* ===== verification/GrpcSystem.v ===== *)
(** * src/reporter/grpc.rs: the whole gRPC reporter at work

    The worker of Pipeline.v ([ReportSender::start]) gives items to the sink of
    Grpc.v; the three tasks of GrpcStream.v stream the sink's channels to the
    server at the same time. A [system] is what they share: the sink, with its
    channels, and the state of each streaming task. [step] adds the end of the
    worker, which drops the sink, and [handle_poll] what the handle that [spawn]
    returns says. *)

From S2P Require Import Prelude Error Proto Reporter Channel Task Pipeline Grpc GrpcStream.

Local Open Scope sky_scope.

(** ** [ReportingJoinHandle] *)
Section Join.
Context {FE : ForeignErrors}.

Fixpoint first_error (rs : list (result unit Error)) : result unit Error :=
  match rs with [] => Ok tt | r :: rs => _ <-? r ;; first_error rs end.

(** [poll] of the handle, on what [try_join_all] is ready with. *)
Definition join_poll (rs : result (list (result unit Error)) join_error) : result unit Error :=
  match rs with Ok rs => first_error rs | Err e => Err (TokioJoin e) end.

Lemma first_error_ok rs : first_error rs = Ok tt ↔ Forall (λ r, r = Ok tt) rs.
Proof.
  induction rs as [|[[]|e] rs IH]; cbn; [done| |].
  - rewrite Forall_cons, IH. naive_solver.
  - split; [done|]. by intros [? _]%Forall_cons.
Qed.
End Join.

(** ** The system *)
Section System.
Context {FE : ForeignErrors} `{MP : Mpsc Ch} {ML : MpscLaws Ch} {G H : Type}.
Context (report_instance_properties : InstanceProperties.t → M G (result unit status)).
Context (rpc_keep_alive : InstancePingPkg.t → M G (result unit status)).
Context (err_handle : string → InnerSender.dyn_error → M H unit).
Context (status_handle : string → status → M H unit).

Abbreviation report := (InnerSender.report report_instance_properties rpc_keep_alive err_handle status_handle).
Implicit Types (sd : InnerSender.t Ch G H).

(** A streaming task without its channel, which is the sink's, and the handler,
    which all share. *)
Record task (I : Type) := MkTask {
  closed : bool;
  pc : Receive.phase;
  yielded : list (list I);
  answered : list (result unit status)
}.
#[global] Arguments MkTask {I}. #[global] Arguments closed {I}. #[global] Arguments pc {I}.
#[global] Arguments yielded {I}. #[global] Arguments answered {I}.

Record system := MkSystem {
  sender : InnerSender.t Ch G H;
  traces : task SegmentObject.t;
  logs : task LogData.t;
  meters : task MeterData.t
}.

(** [Reporting::spawn]: the channels are new, the tasks start. *)
Definition spawned {I} : task I := MkTask false Receive.Deciding [] [].
Definition spawn (g : G) (h : H) : system := MkSystem (InnerSender.new g h) spawned spawned spawned.

(** The task as [Receive] has it; [sent] is the ghost. *)
Definition view {I} (c : Ch I) (t : task I) (h : H) (sent : list I) : Receive.state Ch I H :=
  Receive.MkState (Receive.MkFrom c (closed t)) (pc t) h (yielded t) (answered t) sent.

(** One step of a streaming task. *)
Definition streaming {I} (msg : string) (c : Ch I) (t : task I) (h : H) (c' : Ch I) (t' : task I) (h' : H) : Prop :=
  ∀ sent, Receive.pull status_handle msg (view c t h sent) (view c' t' h' sent).

(** The sink with another channel and handler. *)
Definition set_traces (c : Ch SegmentObject.t) (h : H) sd : InnerSender.t Ch G H :=
  InnerSender.Mk c (InnerSender.log_chan sd) (InnerSender.meter_chan sd) (InnerSender.management sd) h.
Definition set_logs (c : Ch LogData.t) (h : H) sd : InnerSender.t Ch G H :=
  InnerSender.Mk (InnerSender.trace_chan sd) c (InnerSender.meter_chan sd) (InnerSender.management sd) h.
Definition set_meters (c : Ch MeterData.t) (h : H) sd : InnerSender.t Ch G H :=
  InnerSender.Mk (InnerSender.trace_chan sd) (InnerSender.log_chan sd) c (InnerSender.management sd) h.

Inductive streams : system → system → Prop :=
| stream_traces v c' t' h' :
    streaming COLLECT_TRACE_MSG (InnerSender.trace_chan (sender v)) (traces v)
      (InnerSender.handlers (sender v)) c' t' h' →
    streams v (MkSystem (set_traces c' h' (sender v)) t' (logs v) (meters v))
| stream_logs v c' t' h' :
    streaming COLLECT_LOG_MSG (InnerSender.log_chan (sender v)) (logs v)
      (InnerSender.handlers (sender v)) c' t' h' →
    streams v (MkSystem (set_logs c' h' (sender v)) (traces v) t' (meters v))
| stream_meters v c' t' h' :
    streaming COLLECT_METER_MSG (InnerSender.meter_chan (sender v)) (meters v)
      (InnerSender.handlers (sender v)) c' t' h' →
    streams v (MkSystem (set_meters c' h' (sender v)) (traces v) (logs v) t').

(** [inner_report_sender.report(item)], on the whole. *)
Definition deliver (item : CollectItem) : M system unit :=
  zoom sender (λ sd v, MkSystem sd (traces v) (logs v) (meters v)) (report item).

(** The sink is dropped, and with it the only sender of each channel. *)
Definition drop_sink (v : system) : system :=
  MkSystem (InnerSender.Mk (drop_sender (InnerSender.trace_chan (sender v)))
              (drop_sender (InnerSender.log_chan (sender v)))
              (drop_sender (InnerSender.meter_chan (sender v)))
              (InnerSender.management (sender v)) (InnerSender.handlers (sender v)))
    (traces v) (logs v) (meters v).

Section Whole.
Context {W X : Type} {P : CollectItemProduce W X} {C : CollectItemConsume W X} {HF : Type}.
Context (front_err : string → X → M HF unit) (boxed : X → other_error) (contents : W → list CollectItem)
  (other : W → W → Prop).

(** [ReportSender::start], among the callers, the streaming tasks and the
    holders of the channel's ends. *)
Definition report_sender : state (W := W) (H := HF) (V := system) → state → Prop :=
  Pipeline.step front_err boxed contents deliver other streams.

(** The four spawned tasks. *)
Record reporting := MkReporting {
  pipe : state (W := W) (H := HF) (V := system);
  sink_dropped : bool
}.

Definition set_sunk (v : system) (s : state (W := W) (H := HF) (V := system)) : state :=
  MkState (front s) (callers s) (at_ s) v (signalled s) (Pipeline.task s) (accepted s) (delivered s)
    (late s) (lost s).

Definition reporting_spawn (w : W) (hf : HF) (g : G) (h : H) : reporting :=
  MkReporting (start w hf (spawn g h)) false.

Inductive step : reporting → reporting → Prop :=
| step_pipe s p : report_sender (pipe s) p → step s (MkReporting p (sink_dropped s))
| step_drop s r :
    at_ (pipe s) = Ended r → sink_dropped s = false →
    step s (MkReporting (set_sunk (drop_sink (sunk (pipe s))) (pipe s)) true).

Definition receive_run {I} (t : task I) : run (result unit Error) :=
  match pc t with Receive.Returned => Finished (Ok tt) | _ => Running end.

Definition runs (s : reporting) : list (run (result unit Error)) :=
  [match Pipeline.task (pipe s) with Some r => Finished r | None => Running end;
   receive_run (traces (sunk (pipe s))); receive_run (logs (sunk (pipe s)));
   receive_run (meters (sunk (pipe s)))].

(** [ReportingJoinHandle::poll]. *)
Definition handle_poll {TK : Tasks} (s : reporting) : poll (result unit Error) :=
  poll_map join_poll (try_join_all (map joined (runs s))).
End Whole.

(** ** Counting what the handlers are told

    The handlers keep a list of the messages they were told. *)
Context (errors : H → list string).

Record counting : Prop := {
  e_err m e h h' : h ⊢ err_handle m e ⇓ tt ⊣ h' → errors h' = errors h ++ [m];
  e_status m e h h' : h ⊢ status_handle m e ⇓ tt ⊣ h' → errors h' = errors h ++ [m]
}.

(** What a failed send costs, and what a successful one adds. *)
Definition cost {E} (e : option E) : nat := match e with Some _ => 1 | None => 0 end.
Definition kept {E I} (e : option E) (i : I) : list I := match e with Some _ => [] | None => [i] end.

Definition times_told (msg : string) (h : H) : nat := length (filter (λ m, m = msg) (errors h)).
#[global] Arguments times_told : simpl never.

(** The handler was told [n] times of [msg], and of nothing else. *)
Definition ticks (msg : string) (n : nat) (h h' : H) : Prop :=
  ∀ m, times_told m h' = (times_told m h + if decide (msg = m) then n else 0)%nat.

Lemma told_ticks {E} (handle : string → E → M H unit) msg e h h' :
  (∀ m e h h', h ⊢ handle m e ⇓ tt ⊣ h' → errors h' = errors h ++ [m]) →
  told handle msg e h h' → ticks msg (cost e) h h'.
Proof.
  intros Hh Ht m. unfold times_told. destruct e as [e|]; cbn in Ht.
  - rewrite (Hh _ _ _ _ Ht), filter_app, length_app, filter_cons, filter_nil. by case_decide.
  - subst h'. by case_decide; rewrite Nat.add_0_r.
Qed.

(** The failed calls of a task. *)
Definition failures (rs : list (result unit status)) : nat := length (omap error_of rs).

Section Counted.
Context (HC : collaborators report_instance_properties rpc_keep_alive err_handle status_handle).
Context (HN : counting).

(** The sink, one kind of item at a time. *)
Lemma sink_step item sd sd' :
  sd ⊢ report item ⇓ tt ⊣ sd' →
  let same {I} (chan : InnerSender.t Ch G H → Ch I) := chan sd' = chan sd in
  let tick msg n := ticks msg n (InnerSender.handlers sd) (InnerSender.handlers sd') in
  match item with
  | Trace i => ∃ e, sends (InnerSender.trace_chan sd) (InnerSender.trace_chan sd') i e ∧
      same InnerSender.log_chan ∧ same InnerSender.meter_chan ∧ tick InnerSender.TRACE_MSG (cost e)
  | Log i => ∃ e, sends (InnerSender.log_chan sd) (InnerSender.log_chan sd') i e ∧
      same InnerSender.trace_chan ∧ same InnerSender.meter_chan ∧ tick InnerSender.LOG_MSG (cost e)
  | Meter i => ∃ e, sends (InnerSender.meter_chan sd) (InnerSender.meter_chan sd') i e ∧
      same InnerSender.trace_chan ∧ same InnerSender.log_chan ∧ tick InnerSender.METER_MSG (cost e)
  | Instance_ _ => same InnerSender.trace_chan ∧ same InnerSender.log_chan ∧
      same InnerSender.meter_chan ∧ ∃ n, tick InnerSender.INSTANCE_MSG n
  | Ping _ => same InnerSender.trace_chan ∧ same InnerSender.log_chan ∧
      same InnerSender.meter_chan ∧ ∃ n, tick InnerSender.PING_MSG n
  end.
Proof.
  intros Hrun same tick. subst same tick. destruct sd as [ct cl cm g h], item as [i|i|i|i|i].
  - destruct (sink_trace_run _ _ _ _ HC ct cl cm g h i) as (c & e & h' & Hr & Hs & Ht).
    rewrite Hr in Hrun. injection Hrun as <-. exists e. split_and!; [done..|by eapply told_ticks, Ht; apply HN].
  - destruct (sink_log_run _ _ _ _ HC ct cl cm g h i) as (c & e & h' & Hr & Hs & Ht).
    rewrite Hr in Hrun. injection Hrun as <-. exists e. split_and!; [done..|by eapply told_ticks, Ht; apply HN].
  - destruct (sink_meter_run _ _ _ _ HC ct cl cm g h i) as (c & e & h' & Hr & Hs & Ht).
    rewrite Hr in Hrun. injection Hrun as <-. exists e. split_and!; [done..|by eapply told_ticks, Ht; apply HN].
  - destruct (sink_instance_run _ _ _ _ HC ct cl cm g h i) as (r & g' & h' & _ & Hr & Ht).
    rewrite Hr in Hrun. injection Hrun as <-.
    split_and!; [done..|eexists; by eapply told_ticks, Ht; apply HN].
  - destruct (sink_ping_run _ _ _ _ HC ct cl cm g h i) as (r & g' & h' & _ & Hr & Ht).
    rewrite Hr in Hrun. injection Hrun as <-.
    split_and!; [done..|eexists; by eapply told_ticks, Ht; apply HN].
Qed.

(** The sink returns, whatever the server answers. *)
Lemma deliver_total v item : ∃ v', v ⊢ deliver item ⇓ tt ⊣ v'.
Proof.
  unfold deliver, zoom. destruct (sender v) as [ct cl cm g h], item as [i|i|i|i|i].
  - destruct (sink_trace_run _ _ _ _ HC ct cl cm g h i) as (c & e & h' & -> & _). by eexists.
  - destruct (sink_log_run _ _ _ _ HC ct cl cm g h i) as (c & e & h' & -> & _). by eexists.
  - destruct (sink_meter_run _ _ _ _ HC ct cl cm g h i) as (c & e & h' & -> & _). by eexists.
  - destruct (sink_instance_run _ _ _ _ HC ct cl cm g h i) as (r & g' & h' & _ & -> & _). by eexists.
  - destruct (sink_ping_run _ _ _ _ HC ct cl cm g h i) as (r & g' & h' & _ & -> & _). by eexists.
Qed.

(** A streaming task, one step. *)
Lemma streaming_told {I} msg (c : Ch I) t h c' t' h' :
  streaming msg c t h c' t' h' →
  ∃ rs, answered t' = answered t ++ rs ∧ ticks msg (failures rs) h h'.
Proof.
  intros Hs. specialize (Hs []). inversion Hs as [| | | | |? ended r ? Hat Hh]; cbn in *; subst;
    try (exists []; rewrite app_nil_r; split; [congruence|intros m; by case_decide; rewrite Nat.add_0_r]).
  exists [r]. split; [done|]. pose proof (answer_told _ _ _ _ _ Hh) as Ht.
  apply (told_ticks _ _ _ _ _ (e_status HN)) in Ht. unfold failures. by destruct r.
Qed.

Lemma streaming_senders {I} msg (c : Ch I) t h c' t' h' sent :
  streaming msg c t h c' t' h' → inv (view c t h sent) →
  inv (view c' t' h' sent) ∧ senders c' = senders c.
Proof.
  intros Hs Hi. destruct (stream_inv_pull _ _ _ _ Hi (Hs sent)) as (? & _ & ?). by split.
Qed.

(** ** One kind of items *)
Section Kind.
Context {I : Type} (chan_of : InnerSender.t Ch G H → Ch I) (task_of : system → task I).
Context (item_of : CollectItem → option I) (msg smsg : string).

Record kind : Prop := {
  k_sink item sd sd' :
    sd ⊢ report item ⇓ tt ⊣ sd' →
    times_told smsg (InnerSender.handlers sd') = times_told smsg (InnerSender.handlers sd) ∧
    match item_of item with
    | Some i => ∃ e, sends (chan_of sd) (chan_of sd') i e ∧
        times_told msg (InnerSender.handlers sd') =
          (times_told msg (InnerSender.handlers sd) + cost e)%nat
    | None => chan_of sd' = chan_of sd ∧
        times_told msg (InnerSender.handlers sd') = times_told msg (InnerSender.handlers sd)
    end;
  k_task sd v : task_of (MkSystem sd (traces v) (logs v) (meters v)) = task_of v;
  k_streams v v' :
    streams v v' →
    let h := InnerSender.handlers (sender v) in let h' := InnerSender.handlers (sender v') in
    times_told msg h' = times_told msg h ∧
    ((chan_of (sender v') = chan_of (sender v) ∧ task_of v' = task_of v ∧
      times_told smsg h' = times_told smsg h) ∨
     streaming smsg (chan_of (sender v)) (task_of v) h (chan_of (sender v')) (task_of v') h');
  k_drop v : chan_of (sender (drop_sink v)) = drop_sender (chan_of (sender v));
  k_pull v c' t' h' : ∃ v',
    (streaming smsg (chan_of (sender v)) (task_of v) (InnerSender.handlers (sender v)) c' t' h' →
     streams v v') ∧
    chan_of (sender v') = c' ∧ task_of v' = t' ∧ InnerSender.handlers (sender v') = h'
}.

(** What the tasks have yielded and what still waits, against the items
    given to the sink, while the channel has [n] senders. *)
Record carried (h0 : H) (items : list CollectItem) (v : system) (n : nat) (sent : list I) : Prop := {
  c_alive : senders (chan_of (sender v)) = n;
  c_inv : inv (view (chan_of (sender v)) (task_of v) (InnerSender.handlers (sender v)) sent);
  c_sublist : sent `sublist_of` omap item_of items;
  c_count : (length (omap item_of items) + times_told msg h0 =
             length sent + times_told msg (InnerSender.handlers (sender v)))%nat;
  c_failed : times_told smsg (InnerSender.handlers (sender v)) =
             (times_told smsg h0 + failures (answered (task_of v)))%nat
}.

Lemma sends_requeued (c c' : Ch I) i e :
  sends c c' i e → requeued c c' (queued c ++ kept e i).
Proof. destruct e as [[]|]; cbn; rewrite ?app_nil_r; tauto. Qed.

(** A send keeps the invariant of the streaming task. *)
Lemma inv_sends c c' (t : task I) h h' sent i e :
  senders c = 1%nat → inv (view c t h sent) → sends c c' i e →
  inv (view c' t h' (sent ++ kept e i)).
Proof.
  intros Hn [Ho Hc Hcur Hop Hr] (Hq & Hs & _)%sends_requeued. split; cbn in *; try done.
  - rewrite Hq, app_assoc, Ho. done.
  - intros [_ H0]%Hc. congruence.
Qed.

(** Another handler does not matter. *)
Lemma inv_handler c (t : task I) h h' sent : inv (view c t h sent) → inv (view c t h' sent).
Proof. intros [? ? ? ? ?]. by split. Qed.

Lemma carried_spawn g h :
  chan_of (InnerSender.new g h) = channel (Some InnerSender.CAPACITY) → task_of (spawn g h) = spawned →
  carried h [] (spawn g h) 1 [].
Proof.
  intros Hch Ht. destruct (channel_law (I := I) (Some InnerSender.CAPACITY)) as (Hq & Hn & _).
  by split; cbn; rewrite ?Hch, ?Ht.
Qed.

Lemma carried_sink h0 items item v v' sent :
  kind → carried h0 items v 1 sent → v ⊢ deliver item ⇓ tt ⊣ v' →
  ∃ sent', carried h0 (items ++ [item]) v' 1 sent'.
Proof.
  intros K [Ha Hi Hsub Hc Hf] Hd. unfold deliver, zoom in Hd.
  destruct (report item (sender v)) as [r sd'] eqn:Hr. injection Hd as -> <-.
  destruct (k_sink K item (sender v) sd' Hr) as [Hsm Hk].
  assert (Ho : omap item_of (items ++ [item]) = omap item_of items ++ option_list (item_of item))
    by (rewrite omap_app; cbn; by destruct (item_of item)).
  destruct (item_of item) as [i|].
  - destruct Hk as (e & Hs & Hm). exists (sent ++ kept e i). split; cbn; rewrite ?(k_task K).
    + destruct (sends_requeued _ _ _ _ Hs) as (_ & Hn' & _). congruence.
    + by eapply inv_sends.
    + rewrite Ho. apply sublist_app; [done|]. destruct e; [by apply sublist_nil_l|done].
    + rewrite Ho, !length_app. destruct e; cbn in *; lia.
    + by rewrite Hsm.
  - destruct Hk as [Hch Hm]. exists sent. cbn in Ho. rewrite app_nil_r in Ho.
    split; cbn; rewrite ?Hch, ?(k_task K), ?Ho; try done; [by eapply inv_handler|by rewrite Hm|by rewrite Hsm].
Qed.

Lemma carried_streams h0 items v v' n sent :
  kind → carried h0 items v n sent → streams v v' → carried h0 items v' n sent.
Proof.
  intros K [Ha Hi Hsub Hc Hf] Hs.
  destruct (k_streams K _ _ Hs) as [Hm [(Hch & Hta & Hsm)|Hst]].
  - split; rewrite ?Hch, ?Hta; try done; [by eapply inv_handler|by rewrite Hm|by rewrite Hsm].
  - destruct (streaming_senders _ _ _ _ _ _ _ _ Hst Hi) as [Hi' Hn].
    destruct (streaming_told _ _ _ _ _ _ _ Hst) as (rs & Hrs & Hti).
    split; try done; [by rewrite Hn|by rewrite Hm|].
    rewrite Hti, decide_True, Hf, Hrs by done. unfold failures. rewrite omap_app, length_app. lia.
Qed.

Lemma carried_drop h0 items v sent :
  kind → carried h0 items v 1 sent → carried h0 items (drop_sink v) 0 sent.
Proof.
  intros K [Ha [Ho Hcl Hcur Hop Hr] Hsub Hc Hf].
  destruct (drop_sender_law (chan_of (sender v))) as (Hq & Hn & _).
  assert (Ht : task_of (drop_sink v) = task_of v) by apply (k_task K).
  split; rewrite ?(k_drop K), ?Ht; try done; [by rewrite Hn, Ha|].
  split; cbn in *; try done; [by rewrite Hq|]. intros [_ H0]%Hcl. congruence.
Qed.

(** The steps of the task are steps of the system. *)
Lemma pulls_stream s s' sent v :
  kind → rtc (Receive.pull status_handle smsg) s s' →
  s = view (chan_of (sender v)) (task_of v) (InnerSender.handlers (sender v)) sent →
  ∃ v', rtc streams v v' ∧
    s' = view (chan_of (sender v')) (task_of v') (InnerSender.handlers (sender v')) sent.
Proof.
  intros K Hrun. revert v. induction Hrun as [s|s s1 s2 Hp _ IH]; intros v ->; [exists v; split; [apply rtc_refl|done]|].
  set (t1 := MkTask (Receive.is_closed (Receive.from_ s1)) (Receive.at_ s1) (Receive.streams s1)
    (Receive.answers s1)).
  destruct (k_pull K v (Receive.receiver (Receive.from_ s1)) t1 (Receive.handler s1))
    as (v1 & Hst & Hc & Ht & Hh).
  destruct (pull_resend _ _ _ _ Hp) as [Hsent Hre].
  destruct (IH v1) as (v' & Hr & Hv').
  { rewrite Hc, Ht, Hh. by destruct s1 as [[] ? ? ? ? ?]; cbn in *; subst. }
  exists v'. split; [|done]. eapply rtc_l; [|exact Hr]. apply Hst. intros l.
  specialize (Hre l). by destruct s1 as [[] ? ? ? ? ?].
Qed.

(** Once the sink is dropped, the task can stream the rest and return. *)
Lemma carried_drain h0 items v sent :
  kind → carried h0 items v 0 sent →
  ∃ v', rtc streams v v' ∧ pc (task_of v') = Receive.Returned.
Proof.
  intros K [Ha Hi _ _ _].
  destruct (drain status_handle smsg _ Hi Ha) as (s' & Hrun & Hat & _).
  destruct (pulls_stream _ _ _ v K Hrun eq_refl) as (v' & Hr & ->). by exists v'.
Qed.

(** Before, it can stream all there is. *)
Lemma carried_empties h0 items v sent :
  kind → carried h0 items v 1 sent → ∃ v', rtc streams v v' ∧ queued (chan_of (sender v')) = [].
Proof.
  intros K [Ha Hi _ _ _].
  destruct (empties status_handle smsg _ Hi) as (s' & Hrun & Hq); [cbn; by rewrite Ha|].
  destruct (pulls_stream _ _ _ v K Hrun eq_refl) as (v' & Hr & ->). by exists v'.
Qed.

Lemma streams_stay_empty v v' :
  kind → rtc streams v v' → queued (chan_of (sender v)) = [] → queued (chan_of (sender v')) = [].
Proof.
  intros K. induction 1 as [|v v1 v2 Hs _ IH]; [done|]. intros Hq. apply IH.
  destruct (k_streams K _ _ Hs) as [_ [(-> & _)|Hst]]; [done|].
  exact (pull_empty _ _ _ _ (Hst []) Hq).
Qed.
End Kind.

(** ** The three kinds *)
Ltac tick Ht := rewrite Ht; first [rewrite decide_True by done|rewrite decide_False by done]; lia.

Ltac kinds :=
  split;
  [intros item sd sd' Hr; pose proof (sink_step item sd sd' Hr) as Hk; destruct item; cbn in Hk |- *;
   repeat match goal with
   | H : _ ∧ _ |- _ => destruct H
   | H : ∃ _, _ |- _ => destruct H
   end;
   match goal with Ht : ticks _ _ _ _ |- _ =>
     split; [tick Ht|]; first [split; [done|tick Ht]|eexists; split; [eassumption|tick Ht]]
   end
  |done
  |intros v v' Hs; destruct Hs as [v c' t' h' Hst|v c' t' h' Hst|v c' t' h' Hst];
   destruct (streaming_told _ _ _ _ _ _ _ Hst) as (rs & _ & Ht); cbn; (split; [tick Ht|]);
   first [right; exact Hst|left; split_and!; [done|done|tick Ht]]
  |done
  |intros v c' t' h'; eexists;
   (split; [first [apply stream_traces|apply stream_logs|apply stream_meters]|]); done].

Lemma trace_kind :
  kind InnerSender.trace_chan traces segment_of InnerSender.TRACE_MSG COLLECT_TRACE_MSG.
Proof. kinds. Qed.
Lemma log_kind : kind InnerSender.log_chan logs log_of InnerSender.LOG_MSG COLLECT_LOG_MSG.
Proof. kinds. Qed.
Lemma meter_kind : kind InnerSender.meter_chan meters meter_of InnerSender.METER_MSG COLLECT_METER_MSG.
Proof. kinds. Qed.

(** ** From [report] to the server *)
Section EndToEnd.
Context {W X : Type} {P : CollectItemProduce W X} {C : CollectItemConsume W X} {HF : Type}.
Context (front_err : string → X → M HF unit) (boxed : X → other_error) (contents : W → list CollectItem).
Context (dropped : W → Prop) (other : W → W → Prop) {CL : ChannelLaws W X contents dropped other}.
Implicit Types (s : reporting (W := W) (HF := HF)).

Abbreviation step := (step front_err boxed contents other).

(** The senders of each channel of the sink. *)
Definition holding s : nat := if sink_dropped s then 0 else 1.

Record whole (h : H) s : Prop := {
  w_pipe : Pipeline.inv contents dropped (pipe s);
  w_over : sink_dropped s = true → ∃ r, at_ (pipe s) = Ended r;
  w_traces : ∃ sent, carried InnerSender.trace_chan traces segment_of InnerSender.TRACE_MSG
    COLLECT_TRACE_MSG h (delivered (pipe s)) (sunk (pipe s)) (holding s) sent;
  w_logs : ∃ sent, carried InnerSender.log_chan logs log_of InnerSender.LOG_MSG
    COLLECT_LOG_MSG h (delivered (pipe s)) (sunk (pipe s)) (holding s) sent;
  w_meters : ∃ sent, carried InnerSender.meter_chan meters meter_of InnerSender.METER_MSG
    COLLECT_METER_MSG h (delivered (pipe s)) (sunk (pipe s)) (holding s) sent
}.

Lemma whole_spawn w hf g h : contents w = [] → whole h (reporting_spawn w hf g h).
Proof.
  intros Hw. split; [by apply pipe_inv_start|done|exists []..]; by apply carried_spawn.
Qed.

(** How a step changes the system and the items it was given. *)
Lemma step_cases s s' :
  step s s' → (sink_dropped s = true → ∃ r, at_ (pipe s) = Ended r) →
  (sink_dropped s' = true → ∃ r, at_ (pipe s') = Ended r) ∧
  let v := sunk (pipe s) in let v' := sunk (pipe s') in
  let d := delivered (pipe s) in let d' := delivered (pipe s') in
  (sink_dropped s' = sink_dropped s ∧ v' = v ∧ d' = d) ∨
  (sink_dropped s' = sink_dropped s ∧ streams v v' ∧ d' = d) ∨
  (sink_dropped s = false ∧ sink_dropped s' = false ∧
     ∃ item, (v ⊢ deliver item ⇓ tt ⊣ v') ∧ d' = d ++ [item]) ∨
  (sink_dropped s = false ∧ sink_dropped s' = true ∧ v' = drop_sink v ∧ d' = d).
Proof.
  intros Hs Hover. destruct Hs as [s p Hp|s r Hat Hd].
  - cbn. destruct Hp; cbn in *; (split; [intros Hx; destruct (Hover Hx) as [r' Hr']; try congruence; eauto|]);
      try (by left); [right; left; by split_and!|].
    right; right; left. assert (sink_dropped s = false) as Hf.
    { destruct (sink_dropped s); [|done]. destruct (Hover eq_refl) as [r' Hr']. congruence. }
    split_and!; [done..|]. by exists item.
  - cbn. split; [intros _; by exists r|]. right; right; right. by split_and!.
Qed.

Lemma carried_step {I} (chan_of : InnerSender.t Ch G H → Ch I) task_of item_of msg smsg h s s' :
  kind chan_of task_of item_of msg smsg → step s s' →
  (sink_dropped s = true → ∃ r, at_ (pipe s) = Ended r) →
  (∃ sent, carried chan_of task_of item_of msg smsg h (delivered (pipe s)) (sunk (pipe s)) (holding s) sent) →
  ∃ sent, carried chan_of task_of item_of msg smsg h (delivered (pipe s')) (sunk (pipe s')) (holding s') sent.
Proof.
  intros K Hs Hover [sent Hc]. unfold holding in *.
  destruct (step_cases _ _ Hs Hover) as (_ & [(-> & -> & ->)|[(-> & Hst & ->)|[(Ed & Ed' & item & Hr & ->)
    |(Ed & Ed' & -> & ->)]]]).
  - by exists sent.
  - exists sent. by eapply carried_streams.
  - rewrite Ed in Hc. rewrite Ed'. by eapply carried_sink.
  - rewrite Ed in Hc. rewrite Ed'. exists sent. by apply carried_drop.
Qed.

Lemma whole_step h s s' : whole h s → step s s' → whole h s'.
Proof.
  intros [Hp Ho Ht Hl Hm] Hs. split.
  - clear Ho Ht Hl Hm. destruct Hs as [s p Hr|s r Hat Hd]; cbn.
    + by eapply pipe_inv_step.
    + destruct Hp. by split.
  - by apply (step_cases _ _ Hs Ho).
  - eapply carried_step; [by apply trace_kind|done..].
  - eapply carried_step; [by apply log_kind|done..].
  - eapply carried_step; [by apply meter_kind|done..].
Qed.

Lemma whole_steps h s s' : whole h s → rtc step s s' → whole h s'.
Proof. intros I Hs. induction Hs; eauto using whole_step. Qed.

Lemma whole_reachable w hf g h s :
  contents w = [] → rtc step (reporting_spawn w hf g h) s → whole h s.
Proof. intros Hw. by apply whole_steps, whole_spawn. Qed.

(** What became of the items of one kind: those yielded to the server and those
    that still wait are, in order, a part of the items given to the sink; the
    others are those the error handler was told about; and the status handler
    was told of every call that failed. *)
Definition served {I : Type} (chan_of : InnerSender.t Ch G H → Ch I) (task_of : system → task I)
    (item_of : CollectItem → option I) (msg smsg : string) (h : H) s : Prop :=
  let v := sunk (pipe s) in let h' := InnerSender.handlers (sender v) in
  let items := omap item_of (delivered (pipe s)) in
  let kept := mjoin (yielded (task_of v)) ++ queued (chan_of (sender v)) in
  kept `sublist_of` items ∧
  (length items + times_told msg h = length kept + times_told msg h')%nat ∧
  times_told smsg h' = (times_told smsg h + failures (answered (task_of v)))%nat.

Lemma carried_served {I} (chan_of : InnerSender.t Ch G H → Ch I) task_of item_of msg smsg h s :
  (∃ sent, carried chan_of task_of item_of msg smsg h (delivered (pipe s)) (sunk (pipe s)) (holding s) sent) →
  served chan_of task_of item_of msg smsg h s.
Proof.
  intros [sent [_ Hi Hsub Hc Hf]]. pose proof (i_order _ Hi) as Ho. cbn in Ho. subst sent. by split_and!.
Qed.
End EndToEnd.

(** *** The handle *)
Section Handle.
Context {TK : Tasks} {TL : TasksLaws}.
Context {W X : Type} {P : CollectItemProduce W X} {C : CollectItemConsume W X} {HF : Type}.
Context (front_err : string → X → M HF unit) (boxed : X → other_error) (contents : W → list CollectItem).
Context (dropped : W → Prop) (other : W → W → Prop) {CL : ChannelLaws W X contents dropped other}.
Implicit Types (s : reporting (W := W) (HF := HF)).

Abbreviation step := (step front_err boxed contents other).

Lemma receive_run_finished {I} (t : task I) r :
  receive_run t = Finished r ↔ pc t = Receive.Returned ∧ r = Ok tt.
Proof. unfold receive_run. destruct (pc t); naive_solver. Qed.

(** The handle is ready with a result when all tasks have returned. *)
Lemma handle_poll_ready s r :
  Pipeline.task (pipe s) = Some r → pc (traces (sunk (pipe s))) = Receive.Returned →
  pc (logs (sunk (pipe s))) = Receive.Returned → pc (meters (sunk (pipe s))) = Receive.Returned →
  handle_poll s = Ready r.
Proof.
  intros Hr Ht Hl Hm. unfold handle_poll.
  assert (runs s = map Finished [r; Ok tt; Ok tt; Ok tt]) as ->.
  { unfold runs, receive_run. by rewrite Hr, Ht, Hl, Hm. }
  rewrite (proj2 (all_joined_ok _ [r; Ok tt; Ok tt; Ok tt]) eq_refl). cbn. by destruct r as [[]|e].
Qed.

(** And only then; the result is the worker's. *)
Lemma handle_poll_inv s x :
  handle_poll s = Ready x →
  Pipeline.task (pipe s) = Some x ∧ pc (traces (sunk (pipe s))) = Receive.Returned ∧
  pc (logs (sunk (pipe s))) = Receive.Returned ∧ pc (meters (sunk (pipe s))) = Receive.Returned.
Proof.
  unfold handle_poll. destruct (try_join_all (map joined (runs s))) as [[rs|e]|] eqn:E; cbn; [| |done].
  - intros [= <-]. apply all_joined_ok in E. unfold runs in E.
    destruct rs as [|r1 [|r2 [|r3 [|r4 [|r5 rs]]]]]; try done. cbn in E.
    injection E as H1 [H2 ->]%receive_run_finished [H3 ->]%receive_run_finished [H4 ->]%receive_run_finished.
    destruct (Pipeline.task (pipe s)) as [r|]; [|done]. injection H1 as ->.
    split_and!; [by destruct r1 as [[]|e]|done..].
  - apply try_join_all_err, list_elem_of_fmap in E as (r & Hr & Hin). unfold runs, receive_run in Hin.
    assert (r = Running ∨ ∃ t, r = Finished t) as [-> |[t ->]] by (
      repeat (apply elem_of_cons in Hin as [->|Hin]; [by repeat case_match; eauto|]); by apply elem_of_nil in Hin).
    + by rewrite joined_running in Hr.
    + by rewrite joined_finished in Hr.
Qed.

(** Every item of one kind reached a stream, or the error handler was told. *)
Definition complete {I : Type} (task_of : system → task I) (item_of : CollectItem → option I)
    (msg : string) (h : H) s : Prop :=
  let v := sunk (pipe s) in
  let items := omap item_of (delivered (pipe s)) in
  mjoin (yielded (task_of v)) `sublist_of` items ∧
  (length items + times_told msg h =
   length (mjoin (yielded (task_of v))) + times_told msg (InnerSender.handlers (sender v)))%nat.

Lemma carried_empty {I} (chan_of : InnerSender.t Ch G H → Ch I) task_of item_of msg smsg h s :
  (∃ sent, carried chan_of task_of item_of msg smsg h (delivered (pipe s)) (sunk (pipe s)) (holding s) sent) →
  queued (chan_of (sender (sunk (pipe s)))) = [] → complete task_of item_of msg h s.
Proof.
  intros [sent [_ Hi Hsub Hc Hf]] Hq. pose proof (i_order _ Hi) as Ho.
  cbn in Ho. rewrite Hq, app_nil_r in Ho. subst sent. by split.
Qed.

Lemma carried_complete {I} (chan_of : InnerSender.t Ch G H → Ch I) task_of item_of msg smsg h s :
  (∃ sent, carried chan_of task_of item_of msg smsg h (delivered (pipe s)) (sunk (pipe s)) (holding s) sent) →
  pc (task_of (sunk (pipe s))) = Receive.Returned → complete task_of item_of msg h s.
Proof.
  intros Hcar Hpc. eapply carried_empty; [exact Hcar|]. destruct Hcar as [sent [_ Hi _ _ _]].
  by destruct (i_closed _ Hi (i_returned _ Hi Hpc)).
Qed.

(** C7: the handle of [spawn]. When it is ready with [Ok], the worker has
    returned [Ok] and the three streaming tasks have returned; every item that
    was accepted before the reporter was closing was given to the sink, and every
    item given to the sink has been yielded to the server, once and in order,
    except for those the error handler was told about. *)
Theorem handle_ok_means_served w hf g h s :
  contents w = [] → rtc step (reporting_spawn w hf g h) s → handle_poll s = Ready (Ok tt) →
  Pipeline.task (pipe s) = Some (Ok tt) ∧
  pc (traces (sunk (pipe s))) = Receive.Returned ∧ pc (logs (sunk (pipe s))) = Receive.Returned ∧
  pc (meters (sunk (pipe s))) = Receive.Returned ∧
  (∃ early, accepted (pipe s) = early ++ late (pipe s) ∧ early `prefix_of` delivered (pipe s)) ∧
  complete traces segment_of InnerSender.TRACE_MSG h s ∧
  complete logs log_of InnerSender.LOG_MSG h s ∧
  complete meters meter_of InnerSender.METER_MSG h s.
Proof.
  intros Hw Hs (Hr & Ht & Hl & Hm)%handle_poll_inv.
  destruct (whole_reachable _ _ _ dropped _ _ _ _ _ _ Hw Hs) as [Hp _ It Il Im]. split_and!; [done..| | | |].
  - by apply (task_ok_early contents dropped).
  - by eapply carried_complete.
  - by eapply carried_complete.
  - by eapply carried_complete.
Qed.

(** The streaming tasks run beside the ended worker. *)
Lemma streams_steps s v' :
  rtc streams (sunk (pipe s)) v' → rtc step s (MkReporting (set_sunk v' (pipe s)) (sink_dropped s)).
Proof.
  intros Hs. remember (sunk (pipe s)) as v eqn:E. revert s E.
  induction Hs as [v|v v1 v2 Hst _ IH]; intros s ->.
  - destruct s as [p d]. by destruct p.
  - eapply rtc_l; [apply step_pipe, sink_other, Hst|].
    apply (IH (MkReporting (set_sunk v1 (pipe s)) (sink_dropped s))). done.
Qed.

Lemma drain_kind {I} (chan_of : InnerSender.t Ch G H → Ch I) task_of item_of msg smsg h s :
  kind chan_of task_of item_of msg smsg → sink_dropped s = true →
  (∃ sent, carried chan_of task_of item_of msg smsg h (delivered (pipe s)) (sunk (pipe s)) (holding s) sent) →
  ∃ v, rtc streams (sunk (pipe s)) v ∧ pc (task_of v) = Receive.Returned.
Proof.
  intros K Hd [sent Hc]. unfold holding in Hc. rewrite Hd in Hc. by eapply carried_drain.
Qed.

Lemma worker_steps p p' d :
  rtc (report_sender front_err boxed contents other) p p' → rtc step (MkReporting p d) (MkReporting p' d).
Proof.
  induction 1 as [p|p p1 p2 Hp _ IH]; [apply rtc_refl|]. eapply rtc_l; [|exact IH].
  exact (step_pipe _ _ _ _ (MkReporting p d) p1 Hp).
Qed.

(** A task that has returned stays so. *)
Lemma returned_stays v v' :
  rtc streams v v' →
  (pc (traces v) = Receive.Returned → pc (traces v') = Receive.Returned) ∧
  (pc (logs v) = Receive.Returned → pc (logs v') = Receive.Returned) ∧
  (pc (meters v) = Receive.Returned → pc (meters v') = Receive.Returned).
Proof.
  assert (Hst : ∀ I m (c : Ch I) t h c' t' h',
    streaming m c t h c' t' h' → pc t = Receive.Returned → pc t' = Receive.Returned).
  { intros I m c t h c' t' h' Hp Ht. specialize (Hp []). inversion Hp; cbn in *; congruence. }
  induction 1 as [|v v1 v2 Hs _ (IH1 & IH2 & IH3)]; [done|].
  destruct Hs as [v c' t' h' Hp|v c' t' h' Hp|v c' t' h' Hp]; pose proof (Hst _ _ _ _ _ _ _ _ Hp);
    cbn in *; (split_and!); auto.
Qed.

(** Once the sink is dropped, the three tasks can return, one after the
    other. *)
Lemma streams_end_all h s :
  whole contents dropped h s → sink_dropped s = true →
  ∃ v, rtc streams (sunk (pipe s)) v ∧ pc (traces v) = Receive.Returned ∧
    pc (logs v) = Receive.Returned ∧ pc (meters v) = Receive.Returned.
Proof.
  intros Hi Hd.
  destruct (drain_kind _ _ _ _ _ _ _ trace_kind Hd (w_traces _ _ _ _ Hi)) as (v1 & S1 & Ht).
  set (s1 := MkReporting (set_sunk v1 (pipe s)) (sink_dropped s)).
  assert (I1 : whole contents dropped h s1) by by eapply whole_steps, streams_steps.
  destruct (drain_kind _ _ _ _ _ _ _ log_kind (Hd : sink_dropped s1 = true) (w_logs _ _ _ _ I1)) as (v2 & S2 & Hl).
  set (s2 := MkReporting (set_sunk v2 (pipe s)) (sink_dropped s)).
  assert (I2 : whole contents dropped h s2) by (eapply whole_steps, (streams_steps s1 v2 S2); done).
  destruct (drain_kind _ _ _ _ _ _ _ meter_kind (Hd : sink_dropped s2 = true) (w_meters _ _ _ _ I2)) as (v3 & S3 & Hm).
  exists v3. split_and!; [by etrans; [exact S1|etrans]| | |done].
  - by apply (returned_stays _ _ S3), (returned_stays _ _ S2).
  - by apply (returned_stays _ _ S3).
Qed.

(** While the sink is there, they can stream all that waits. *)
Lemma empty_kind {I} (chan_of : InnerSender.t Ch G H → Ch I) task_of item_of msg smsg h s :
  kind chan_of task_of item_of msg smsg → sink_dropped s = false →
  (∃ sent, carried chan_of task_of item_of msg smsg h (delivered (pipe s)) (sunk (pipe s)) (holding s) sent) →
  ∃ v, rtc streams (sunk (pipe s)) v ∧ queued (chan_of (sender v)) = [].
Proof.
  intros K Hd [sent Hc]. unfold holding in Hc. rewrite Hd in Hc. by eapply carried_empties.
Qed.

Lemma streams_empty_all h s :
  whole contents dropped h s → sink_dropped s = false →
  ∃ v, rtc streams (sunk (pipe s)) v ∧ queued (InnerSender.trace_chan (sender v)) = [] ∧
    queued (InnerSender.log_chan (sender v)) = [] ∧ queued (InnerSender.meter_chan (sender v)) = [].
Proof.
  intros Hi Hd.
  destruct (empty_kind _ _ _ _ _ _ _ trace_kind Hd (w_traces _ _ _ _ Hi)) as (v1 & S1 & Ht).
  set (s1 := MkReporting (set_sunk v1 (pipe s)) (sink_dropped s)).
  assert (I1 : whole contents dropped h s1) by by eapply whole_steps, streams_steps.
  destruct (empty_kind _ _ _ _ _ _ _ log_kind (Hd : sink_dropped s1 = false) (w_logs _ _ _ _ I1)) as (v2 & S2 & Hl).
  set (s2 := MkReporting (set_sunk v2 (pipe s)) (sink_dropped s)).
  assert (I2 : whole contents dropped h s2) by (eapply whole_steps, (streams_steps s1 v2 S2); done).
  destruct (empty_kind _ _ _ _ _ _ _ meter_kind (Hd : sink_dropped s2 = false) (w_meters _ _ _ _ I2)) as (v3 & S3 & Hm).
  exists v3. split_and!; [by etrans; [exact S1|etrans]| | |done].
  - apply (streams_stay_empty _ _ _ _ _ v1 v3 trace_kind); [by etrans|done].
  - by apply (streams_stay_empty _ _ _ _ _ v2 v3 log_kind).
Qed.

(** C6: from [report] to the server. In every interleaving of callers, the
    worker and the three streaming tasks, before and after the worker has
    dropped the sink: the items given to the sink are the first accepted ones;
    for each kind, what the server's streams have yielded and what still waits
    are, in order and each once, a part of the items given; the items missing
    from that part are exactly as many as the error handler was told about; and
    the status handler was told once of every call that failed. Once the sink
    is dropped, the three tasks can stream what is left and return, by steps of
    their own. *)
Theorem grpc_end_to_end w hf g h s :
  contents w = [] → rtc step (reporting_spawn w hf g h) s →
  delivered (pipe s) `prefix_of` accepted (pipe s) ∧
  served InnerSender.trace_chan traces segment_of InnerSender.TRACE_MSG COLLECT_TRACE_MSG h s ∧
  served InnerSender.log_chan logs log_of InnerSender.LOG_MSG COLLECT_LOG_MSG h s ∧
  served InnerSender.meter_chan meters meter_of InnerSender.METER_MSG COLLECT_METER_MSG h s ∧
  (sink_dropped s = true →
   ∃ v, rtc streams (sunk (pipe s)) v ∧
     pc (traces v) = Receive.Returned ∧ pc (logs v) = Receive.Returned ∧ pc (meters v) = Receive.Returned ∧
     let s' := MkReporting (set_sunk v (pipe s)) true in
     rtc step s s' ∧ complete traces segment_of InnerSender.TRACE_MSG h s' ∧
     complete logs log_of InnerSender.LOG_MSG h s' ∧ complete meters meter_of InnerSender.METER_MSG h s').
Proof.
  intros Hw Hs. pose proof (whole_reachable _ _ _ dropped _ _ _ _ _ _ Hw Hs) as I.
  pose proof I as [Hp _ Ht Hl Hm]. split_and!.
  - by apply (delivered_accepted contents dropped).
  - by apply carried_served.
  - by apply carried_served.
  - by apply carried_served.
  - intros Hd. destruct (streams_end_all h s I Hd) as (v & Sv & Pt & Pl & Pm).
    pose proof (streams_steps s v Sv) as Hss. rewrite Hd in Hss.
    destruct (whole_steps _ _ _ _ _ _ _ _ I Hss) as [_ _ It Il Im].
    exists v. split_and!; [done..|]. cbv zeta. split_and!; [done|by eapply carried_complete..].
Qed.

(** C26: the handle resolves. Wherever the worker is when the shutdown signal
    comes, the worker and the three streaming tasks can run to their ends by
    themselves, whatever the server answers and without another item accepted:
    the sink is dropped, the streams end, and the handle of [spawn] is ready. *)
Theorem handle_resolves w hf g h s :
  contents w = [] → rtc step (reporting_spawn w hf g h) s → signalled (pipe s) = true →
  ∃ s' r, rtc step s s' ∧ handle_poll s' = Ready r ∧ accepted (pipe s') = accepted (pipe s).
Proof.
  intros Hw Hs Hsig. pose proof (whole_reachable _ _ _ dropped _ _ _ _ _ _ Hw Hs) as I.
  destruct (signalled_can_end front_err boxed contents deliver dropped other streams deliver_total
    (pipe s) (w_pipe _ _ _ _ I) Hsig) as (p1 & r & r' & R1 & Hat1 & Ht1 & Ha1).
  assert (S1 : rtc step s (MkReporting p1 (sink_dropped s))) by (destruct s; by apply worker_steps).
  assert (Hdrop : ∃ s2, rtc step s s2 ∧ sink_dropped s2 = true ∧ Pipeline.task (pipe s2) = Some r' ∧
    accepted (pipe s2) = accepted (pipe s)).
  { destruct (sink_dropped s) eqn:E; [by eexists|].
    eexists. split; [eapply rtc_r; [exact S1|by eapply step_drop]|]. by split_and!. }
  destruct Hdrop as (s2 & S2 & Hd2 & Ht2 & Ha2).
  destruct (streams_end_all h s2) as (v & Sv & Ht & Hl & Hm); [by eapply whole_steps|done|].
  eexists _, r'. split_and!; [etrans; [exact S2|exact (streams_steps s2 v Sv)]|by apply handle_poll_ready|done].
Qed.
End Handle.
End Counted.
End System.

(** ** A concrete run: one segment, a shutdown signal, and the end *)
Module GrpcSystemDemo.
#[local] Existing Instance text_errors.
#[local] Existing Instances Reference.mpsc Reference.laws.

(** A management service that accepts everything, handlers that keep the
    messages, tasks joined in place. *)
Definition accept {A} (_ : A) : M unit (result unit status) := ret (Ok tt).
Definition note {A} (msg : string) (_ : A) : M (list string) unit := modify (λ l, l ++ [msg]).
Definition quiet (_ : string) (_ : channel_error) : M unit unit := ret tt.
Definition boxed (_ : channel_error) : other_error := "channel closed"%string.
#[local] Instance inline : Tasks := Inline.tasks (FE := text_errors) id "cancelled"%string.
#[local] Instance inline_laws : TasksLaws := Inline.tasks_laws (FE := text_errors) id "cancelled"%string.

Lemma accepting : collaborators (FE := text_errors) accept accept note note.
Proof. split; intros; by repeat eexists. Qed.
Lemma noting : counting (FE := text_errors) note note id.
Proof. split; by intros m e h h' [= <-]. Qed.

Definition segment : SegmentObject.t := SegmentObject.Mk "1" "2" [] "service" "instance" false.

Abbreviation Sys := (system (Ch := Reference.chan) (G := unit) (H := list string)).
Abbreviation Rep := (reporting (Ch := Reference.chan) (G := unit) (H := list string)
  (W := Reference.chan CollectItem) (HF := unit)).
Definition one_step : Rep → Rep → Prop := step accept accept note note quiet boxed queued sender_moves.

Definition pipe0 : Reference.chan CollectItem := channel None.
Lemma grpc_pipe_empty : queued pipe0 = [].
Proof. reflexivity. Qed.
Definition init : Rep := reporting_spawn pipe0 tt tt [].

(** A channel of the sink, with what is queued and [n] senders. *)
Definition sink_chan {I} (n : nat) (q : list I) : Reference.chan I :=
  Reference.MkChan q n true (Some 255%nat).
Definition sys (n : nat) (q : list SegmentObject.t) (t : task SegmentObject.t) (l : task LogData.t)
    (m : task MeterData.t) : Sys :=
  MkSystem (InnerSender.Mk (sink_chan n q) (sink_chan n []) (sink_chan n []) tt []) t l m.

(** The segment is in its channel, the signal has come. *)
Definition signalled_ : Rep :=
  MkReporting (MkState (MkFront pipe0 false tt) [] Looping (sys 1 [segment] spawned spawned spawned)
    true None [Trace segment] [Trace segment] [] []) false.
(** The worker has ended, and the sink is dropped. *)
Definition ended_pipe (v : Sys) : state :=
  MkState (MkFront (drop_receiver pipe0) true tt) [] (Ended (Ok tt)) v
    true (Some (Ok tt)) [Trace segment] [Trace segment] [] [].

Lemma signalled_reachable : rtc one_step init signalled_.
Proof.
  change init with (MkReporting (start pipe0 tt (spawn tt [])) false : Rep).
  apply worker_steps.
  eapply rtc_l; [by apply (caller_check _ _ _ _ _ _ (Trace segment))|cbn].
  eapply rtc_l; [eapply (caller_send _ _ _ _ _ _ _ [] (Trace segment) [] (Ready (Ok tt))); reflexivity|cbn].
  eapply rtc_l; [eapply work_item; reflexivity|cbn].
  eapply rtc_l; [eapply work_give; reflexivity|cbn].
  eapply rtc_l; [by apply shutdown_signal|cbn]. apply rtc_refl.
Qed.

Definition dropped_ : Rep := MkReporting (ended_pipe (sys 0 [segment] spawned spawned spawned)) true.

Lemma dropped_reachable : rtc one_step init dropped_.
Proof.
  etrans; [exact signalled_reachable|].
  set (v := sys 1 [segment] spawned spawned spawned).
  eapply (rtc_r _ (MkReporting (ended_pipe v) false));
    [apply worker_steps|exact (step_drop _ _ _ _ _ _ _ _ (MkReporting (ended_pipe v) false) _ eq_refl eq_refl)].
  eapply rtc_l; [by apply work_shutdown|cbn].
  eapply rtc_l; [eapply flush_none; reflexivity|cbn].
  eapply rtc_l; [by apply work_end|cbn].
  eapply rtc_l; [by apply join_ok|cbn]. apply rtc_refl.
Qed.

(** One streaming task, with its channel. *)
Section Task.
Context {I : Type} (msg : string).
Implicit Types (x : Reference.chan I * task I).

Definition moves x x' : Prop := streaming note msg x.1 x.2 ([] : list string) x'.1 x'.2 [].

(** It serves the items, sees the end of the channel, and returns. *)
Lemma task_serves q :
  rtc moves (sink_chan 0 q, spawned) (sink_chan 0 [], MkTask true Receive.Returned [q] [Ok tt]).
Proof.
  set (at_work (y : list I) := MkTask false (Receive.Collecting false) [y] []).
  assert (Hitems : ∀ q y, rtc moves (sink_chan 0 q, at_work y) (sink_chan 0 [], at_work (y ++ q))).
  { clear q. induction q as [|i q IH]; intros y; [by rewrite app_nil_r|].
    rewrite cons_middle, app_assoc. eapply rtc_l; [|apply IH].
    intros sent. by eapply (Receive.stream_item _ _ (view (sink_chan 0 (i :: q)) (at_work y) [] sent)). }
  eapply (rtc_l _ _ (sink_chan 0 q, at_work [])).
  { intros sent. by apply (Receive.loop_stream _ _ (view (sink_chan 0 q) spawned [] sent)). }
  etrans; [exact (Hitems q [])|]. cbn.
  eapply (rtc_l _ _ (sink_chan 0 [], MkTask true (Receive.Collecting true) [q] [])).
  { intros sent. by eapply (Receive.stream_none _ _ (view (sink_chan 0 []) (at_work q) [] sent)). }
  eapply (rtc_l _ _ (sink_chan 0 [], MkTask true Receive.Deciding [q] [Ok tt])).
  { intros sent.
    by apply (Receive.collect_returns _ _
      (view (sink_chan 0 []) (MkTask true (Receive.Collecting true) [q] []) [] sent) true (Ok tt) []). }
  apply rtc_once. intros sent.
  exact (Receive.loop_end note msg (view (sink_chan 0 []) (MkTask true Receive.Deciding [q] [Ok tt]) [] sent)
    eq_refl eq_refl).
Qed.
End Task.

Definition done_ {I} (q : list I) : task I := MkTask true Receive.Returned [q] [Ok tt].
Definition over : Rep :=
  MkReporting (ended_pipe (sys 0 [] (done_ [segment]) (done_ []) (done_ []))) true.

(** The moves of each task are moves of the whole. *)
Lemma lift_traces x x' l m :
  rtc (moves COLLECT_TRACE_MSG) x x' → let v c t := MkSystem (InnerSender.Mk c (sink_chan 0 []) (sink_chan 0 []) tt []) t l m : Sys in
  rtc (streams note) (v x.1 x.2) (v x'.1 x'.2).
Proof.
  intros Hr v. induction Hr as [x|x y z Hm _ IH]; [apply rtc_refl|]. eapply rtc_l; [|exact IH].
  exact (stream_traces note (v x.1 x.2) y.1 y.2 [] Hm).
Qed.
Lemma lift_logs x x' t m :
  rtc (moves COLLECT_LOG_MSG) x x' → let v c l := MkSystem (InnerSender.Mk (sink_chan 0 []) c (sink_chan 0 []) tt []) t l m : Sys in
  rtc (streams note) (v x.1 x.2) (v x'.1 x'.2).
Proof.
  intros Hr v. induction Hr as [x|x y z Hm _ IH]; [apply rtc_refl|]. eapply rtc_l; [|exact IH].
  exact (stream_logs note (v x.1 x.2) y.1 y.2 [] Hm).
Qed.
Lemma lift_meters x x' t l :
  rtc (moves COLLECT_METER_MSG) x x' → let v c m := MkSystem (InnerSender.Mk (sink_chan 0 []) (sink_chan 0 []) c tt []) t l m : Sys in
  rtc (streams note) (v x.1 x.2) (v x'.1 x'.2).
Proof.
  intros Hr v. induction Hr as [x|x y z Hm _ IH]; [apply rtc_refl|]. eapply rtc_l; [|exact IH].
  exact (stream_meters note (v x.1 x.2) y.1 y.2 [] Hm).
Qed.

Lemma over_reached : rtc one_step init over.
Proof.
  etrans; [exact dropped_reachable|].
  apply (streams_steps accept accept note note quiet boxed queued sender_moves dropped_
    (sys 0 [] (done_ [segment]) (done_ []) (done_ []))).
  etrans; [exact (lift_traces _ _ spawned spawned (task_serves _ [segment]))|].
  etrans; [exact (lift_logs _ _ (done_ [segment]) spawned (task_serves _ []))|].
  exact (lift_meters _ _ (done_ [segment]) (done_ []) (task_serves _ [])).
Qed.

Lemma grpc_end_to_end_witness :
  served id InnerSender.trace_chan traces segment_of InnerSender.TRACE_MSG COLLECT_TRACE_MSG [] over.
Proof.
  apply (grpc_end_to_end accept accept note note id accepting noting quiet boxed queued _ sender_moves
    pipe0 tt tt [] over grpc_pipe_empty over_reached).
Defined.

Lemma over_ready : handle_poll over = Ready (Ok tt).
Proof. vm_compute. reflexivity. Qed.

Lemma handle_ok_means_served_witness : complete id traces segment_of InnerSender.TRACE_MSG [] over.
Proof.
  apply (handle_ok_means_served accept accept note note id accepting noting quiet boxed queued _ sender_moves
    pipe0 tt tt [] over grpc_pipe_empty over_reached over_ready).
Defined.

Lemma handle_resolves_witness :
  ∃ s r, rtc one_step signalled_ s ∧ handle_poll s = Ready r ∧ accepted (pipe s) = [Trace segment].
Proof.
  apply (handle_resolves accept accept note note id accepting noting quiet boxed queued _ sender_moves
    pipe0 tt tt [] signalled_ grpc_pipe_empty signalled_reachable eq_refl).
Defined.
End GrpcSystemDemo.
