(* ===== verification/Kafka.v ===== *)
(** * src/reporter/kafka.rs: the Kafka reporter

    The caller's half and the worker loop are in Pipeline.v. Here are the client
    configuration, the builder, the topics, the sink of the worker
    ([KafkaProducer::produce]) and the handle of the spawned task. The rdkafka
    crate is an interface. *)

From S2P Require Import Prelude Error Proto Reporter Channel Task Pipeline.

Local Open Scope sky_scope.

(** ** Configuration *)

(** [LogLevel], and the levels of rdkafka it is converted to. *)
Inductive LogLevel := Critical | Error_ | Warning | Notice | Info | Debug_.

(** rdkafka's configuration: [set], [set_log_level], [get]. *)
Class RdConfig := {
  rd_config : Type;
  rd_level : Type;
  rd_Critical : rd_level; rd_Error : rd_level; rd_Warning : rd_level;
  rd_Notice : rd_level; rd_Info : rd_level; rd_Debug : rd_level;
  rd_new : rd_config;
  rd_set : string → string → rd_config → rd_config;
  rd_set_log_level : rd_level → rd_config → rd_config;
  rd_get : string → rd_config → option string;
  rd_log_level : rd_config → option rd_level
}.

(** A configuration is a map with a level. *)
Class RdConfigLaws (RC : RdConfig) : Prop := {
  rd_get_new k : rd_get k rd_new = None;
  rd_get_set k k' v c : rd_get k (rd_set k' v c) = if decide (k = k') then Some v else rd_get k c;
  rd_get_level k l c : rd_get k (rd_set_log_level l c) = rd_get k c;
  rd_level_set k v c : rd_log_level (rd_set k v c) = rd_log_level c;
  rd_level_level l c : rd_log_level (rd_set_log_level l c) = Some l
}.

Module ClientConfig.
Record t := Mk { params : gmap string string; log_level : option LogLevel }.

Definition new : t := Mk ∅ None.
Definition default : t := new.
Definition set (key value : string) (c : t) : t := Mk (<[key := value]> (params c)) (log_level c).
Definition set_log_level (level : LogLevel) (c : t) : t := Mk (params c) (Some level).

Section Convert.
Context {RC : RdConfig}.

(** [From<LogLevel>]. *)
Definition from_level (l : LogLevel) : rd_level :=
  match l with
  | Critical => rd_Critical | Error_ => rd_Error | Warning => rd_Warning
  | Notice => rd_Notice | Info => rd_Info | Debug_ => rd_Debug
  end.

Fixpoint set_all (order : list (string * string)) (c : rd_config) : rd_config :=
  match order with [] => c | (key, value) :: order => set_all order (rd_set key value c) end.

(** [to_rdkafka_config], for the order in which the map yields its
    entries. *)
Definition to_rdkafka_config (c : t) (order : list (string * string)) : rd_config :=
  let config := set_all order rd_new in
  match log_level c with
  | Some level => rd_set_log_level (from_level level) config
  | None => config
  end.
End Convert.
End ClientConfig.

(** ** Topics *)
Module TopicNames.
Record t := Mk { segment : string; meter : string; log : string; management : string }.

Definition TOPIC_LOG : string := "skywalking-logs".
Definition TOPIC_MANAGEMENT : string := "skywalking-managements".
Definition TOPIC_METER : string := "skywalking-meters".
Definition TOPIC_SEGMENT : string := "skywalking-segments".

Definition real_topic_name (namespace : option string) (topic_name : string) : string :=
  match namespace with
  | Some namespace => namespace +:+ "-" +:+ topic_name
  | None => topic_name
  end.

Definition new (namespace : option string) : t := {|
  segment := real_topic_name namespace TOPIC_SEGMENT;
  meter := real_topic_name namespace TOPIC_METER;
  log := real_topic_name namespace TOPIC_LOG;
  management := real_topic_name namespace TOPIC_MANAGEMENT
|}.
End TopicNames.

(** ** The producer *)
Module KafkaProducer.
Record FutureRecord := MkRecord { topic : string; payload : string; key : string }.

Section Producer.
Context {FE : ForeignErrors} {PM : ProstMessage}.
(** The client acts on [K], the error handler on [H]. *)
Context {K H : Type} (client_send : FutureRecord → M K (result unit rdkafka_error))
  (err_handle : string → rdkafka_error → M H unit).

(** [KafkaProducer], over the client and the handler that [build] gives it. *)
Record t (Client Handler : Type) := Mk { topic_names : TopicNames.t; client : Client; err_handler : Handler }.

(** [KafkaProducer::new], which cannot fail. *)
Definition new {Client Handler} (client : Client) (err_handle : Handler) (namespace : option string)
    : result (t Client Handler) KafkaError.t :=
  Ok (Mk _ _ (TopicNames.new namespace) client err_handle).

Definition SEND_MSG : string := "Collect data to kafka failed".

(** The [match] on the item: topic and key. *)
Definition route (topic_names : TopicNames.t) (item : CollectItem) : string * string :=
  match item with
  | Trace item => (TopicNames.segment topic_names, SegmentObject.trace_segment_id item)
  | Log item => (TopicNames.log topic_names, LogData.service item)
  | Meter item => (TopicNames.meter topic_names, MeterData.service_instance item)
  | Instance_ item =>
      (TopicNames.management topic_names, "register-" +:+ InstanceProperties.service_instance item)
  | Ping item => (TopicNames.log topic_names, InstancePingPkg.service_instance item)
  end.

Definition record_of (topic_names : TopicNames.t) (item : CollectItem) : FutureRecord :=
  let '(topic_name, key) := route topic_names item in
  let payload := encode_to_vec item in
  MkRecord topic_name payload key.

(** [KafkaProducer::produce]. *)
Definition produce (topic_names : TopicNames.t) (item : CollectItem) : M (K * H) unit :=
  r <- zoom fst (λ k s, (k, s.2)) (client_send (record_of topic_names item)) ;;
  match r with
  | Ok _ => ret tt
  | Err err => zoom snd (λ h s, (s.1, h)) (err_handle SEND_MSG err)
  end.
End Producer.
Arguments Mk {Client Handler}. Arguments topic_names {Client Handler}.
Arguments client {Client Handler}. Arguments err_handler {Client Handler}.
End KafkaProducer.

(** ** The builder *)
Module KafkaReportBuilder.
Section Builder.
Context {FE : ForeignErrors} {RC : RdConfig} {P C Client Handler F : Type}.
(** [rdkafka::ClientConfig::create]; a future that never completes. *)
Context (create : rd_config → result Client rdkafka_error) (pending : F).
Context (default_err_handle : Handler).

(** The [is_closing] flag that the two halves share is in the [Front] of
    Pipeline.v. *)
Record t := Mk {
  producer : P; consumer : C; client_config : ClientConfig.t;
  namespace : option string; err_handle : Handler
}.

Definition new_with_pc (config : ClientConfig.t) (p : P) (c : C) : t :=
  Mk p c config None default_err_handle.

(** [KafkaReportBuilder::new], with the two ends of an unbounded channel. *)
Definition new (unbounded_channel : P * C) (config : ClientConfig.t) : t :=
  let '(p, c) := unbounded_channel in new_with_pc config p c.

Definition with_err_handle (h : Handler) (b : t) : t :=
  Mk (producer b) (consumer b) (client_config b) (namespace b) h.
Definition with_namespace (n : string) (b : t) : t :=
  Mk (producer b) (consumer b) (client_config b) (Some n) (err_handle b).

(** The two halves that [build] returns. *)
Record KafkaReporter := MkKafkaReporter { reporter_producer : P; reporter_err_handle : Handler }.
Record KafkaReporting := MkKafkaReporting {
  reporting_consumer : C;
  kafka_producer : KafkaProducer.t Client Handler;
  shutdown_signal : F
}.

(** [Clone] of the reporter. *)
Definition clone (r : KafkaReporter) : KafkaReporter :=
  MkKafkaReporter (reporter_producer r) (reporter_err_handle r).

Definition build (order : list (string * string)) (b : t)
    : result (KafkaReporter * KafkaReporting) KafkaError.t :=
  client <-? match create (ClientConfig.to_rdkafka_config (client_config b) order) with
             | Ok client => Ok client
             | Err e => Err (KafkaError.RdKafka e)
             end ;;
  kafka_producer <-? KafkaProducer.new client (err_handle b) (namespace b) ;;
  Ok (MkKafkaReporter (producer b) (err_handle b),
      MkKafkaReporting (consumer b) kafka_producer pending).

Definition with_graceful_shutdown (signal : F) (r : KafkaReporting) : KafkaReporting :=
  MkKafkaReporting (reporting_consumer r) (kafka_producer r) signal.
End Builder.
Arguments t : clear implicits.
End KafkaReportBuilder.

(** ** The handle of [spawn] *)
Module ReportingJoinHandle.
Section Handle.
Context {FE : ForeignErrors}.

(** The closure [|rs| rs?]. *)
Definition question (rs : result (result unit Error) join_error) : result unit Error :=
  match rs with Ok r => r | Err e => Err (TokioJoin e) end.

(** [ReportingJoinHandle::poll], on the spawned task. *)
Definition poll {TK : Tasks} (handle : run (result unit Error)) : poll (result unit Error) :=
  poll_map question (joined handle).

Lemma poll_finished {TK : Tasks} {TL : TasksLaws} r : poll (Finished r) = Ready r.
Proof. unfold poll. by rewrite joined_finished. Qed.

Lemma poll_running {TK : Tasks} {TL : TasksLaws} : poll Running = Pending.
Proof. unfold poll. by rewrite joined_running. Qed.

Lemma poll_ok {TK : Tasks} {TL : TasksLaws} handle :
  poll handle = Ready (Ok tt) → handle = Finished (Ok tt).
Proof.
  unfold poll. destruct (joined handle) as [[r|e]|] eqn:E; cbn; [|done..]. intros [= ->].
  by apply joined_ok in E.
Qed.
End Handle.
End ReportingJoinHandle.

(** ** Properties *)
Section Properties.
Context {FE : ForeignErrors}.

Lemma set_all_get {RC : RdConfig} {L : RdConfigLaws RC} k order c :
  NoDup order.*1 →
  rd_get k (ClientConfig.set_all order c) =
    match list_to_map (M := gmap string string) order !! k with Some v => Some v | None => rd_get k c end.
Proof.
  revert c. induction order as [|[k' v'] order IH]; intros c; cbn; [by rewrite lookup_empty|].
  intros [Hk Hnd]%NoDup_cons. rewrite IH, rd_get_set by done. case_decide as Heq.
  - subst k'. by rewrite lookup_insert_eq, not_elem_of_list_to_map_1.
  - by rewrite lookup_insert_ne.
Qed.

Lemma set_all_level {RC : RdConfig} {L : RdConfigLaws RC} order c :
  rd_log_level (ClientConfig.set_all order c) = rd_log_level c.
Proof. revert c. induction order as [|[k v] order IH]; intros c; cbn; [done|]. by rewrite IH, rd_level_set. Qed.

(** The configuration. Whatever order the map yields its entries in, the
    rdkafka configuration holds exactly the parameters that were set, each with
    its last value, and the log level if one was set. *)
Lemma config_conversion {RC : RdConfig} {L : RdConfigLaws RC} (c : ClientConfig.t) order k :
  order ≡ₚ map_to_list (ClientConfig.params c) →
  let rd := ClientConfig.to_rdkafka_config c order in
  rd_get k rd = ClientConfig.params c !! k ∧
  (∀ l, ClientConfig.log_level c = Some l → rd_log_level rd = Some (ClientConfig.from_level l)) ∧
  (ClientConfig.log_level c = None → rd_log_level rd = rd_log_level rd_new).
Proof.
  intros Ho rd. assert (NoDup order.*1) by (rewrite Ho; apply NoDup_fst_map_to_list).
  assert (Hg : rd_get k (ClientConfig.set_all order rd_new) = ClientConfig.params c !! k).
  { rewrite set_all_get, rd_get_new by done.
    rewrite (list_to_map_proper order (map_to_list (ClientConfig.params c))), list_to_map_to_list by done.
    by destruct (ClientConfig.params c !! k). }
  unfold rd, ClientConfig.to_rdkafka_config.
  destruct (ClientConfig.log_level c) as [l|]; cbn; split_and!.
  - by rewrite rd_get_level.
  - intros ? [= <-]. apply rd_level_level.
  - done.
  - done.
  - done.
  - intros _. apply set_all_level.
Qed.

(** The producer sends one record per item: the encoded message, to the
    item's topic under the namespace, with the item's key; a failure reaches
    the error handler and nothing else, and the worker goes on. The heartbeat
    goes to the topic of the logs and not, like the instance properties, to
    the topic of the management data. *)
Lemma produce_spec {PM : ProstMessage} {K H : Type} client_send
    (err_handle : string → rdkafka_error → M H unit) (namespace : option string) item (k : K) (h : H) :
  (∀ m e h, ∃ h', h ⊢ err_handle m e ⇓ tt ⊣ h') →
  let names := TopicNames.new namespace in
  let topic item := KafkaProducer.topic (KafkaProducer.record_of names item) in
  let rc := KafkaProducer.record_of names item in
  KafkaProducer.payload rc = encode_to_vec item ∧
  (∃ base, topic item = TopicNames.real_topic_name namespace base ∧
     base ∈ [TopicNames.TOPIC_SEGMENT; TopicNames.TOPIC_LOG; TopicNames.TOPIC_METER;
             TopicNames.TOPIC_MANAGEMENT]) ∧
  (∀ p l i, topic (Ping p) = topic (Log l) ∧ topic (Ping p) ≠ topic (Instance_ i)) ∧
  (∀ k', (k ⊢ client_send rc ⇓ Ok tt ⊣ k') →
     (k, h) ⊢ KafkaProducer.produce client_send err_handle names item ⇓ tt ⊣ (k', h)) ∧
  (∀ e k', (k ⊢ client_send rc ⇓ Err e ⊣ k') → ∃ h',
     (h ⊢ err_handle KafkaProducer.SEND_MSG e ⇓ tt ⊣ h') ∧
     ((k, h) ⊢ KafkaProducer.produce client_send err_handle names item ⇓ tt ⊣ (k', h'))).
Proof.
  intros Hh names topic rc. split_and!.
  - by destruct item.
  - destruct item; eexists; (split; [reflexivity|set_solver]).
  - intros p l i. split; [done|]. destruct namespace as [n|]; [|done]. unfold topic. cbn.
    intros Heq. apply (inj (String.app n)) in Heq. done.
  - intros k' Hs. unfold KafkaProducer.produce, bind, zoom. cbn. fold rc. by rewrite Hs.
  - intros e k' Hs. destruct (Hh KafkaProducer.SEND_MSG e h) as [h' Hh']. exists h'. split; [done|].
    unfold KafkaProducer.produce, bind, zoom. cbn. fold rc. rewrite Hs. cbn. by rewrite Hh'.
Qed.
End Properties.

(** ** From [report] to the Kafka client *)
Section EndToEnd.
Context {FE : ForeignErrors} {PM : ProstMessage} {K H : Type}.
Context (client_send : KafkaProducer.FutureRecord → M K (result unit rdkafka_error))
  (err_handle : string → rdkafka_error → M H unit) (names : TopicNames.t).
Context {W X : Type} {P : CollectItemProduce W X} {C : CollectItemConsume W X} {HF : Type}.
Context (front_err : string → X → M HF unit) (boxed : X → other_error) (contents : W → list CollectItem).
Context (dropped : W → Prop) (other : W → W → Prop) {CL : ChannelLaws W X contents dropped other}.

(** [KafkaReporting::spawn]: the client is the worker's own. *)
Definition alone (_ _ : K * H) : Prop := False.
Definition kafka_reporting : state (W := W) (H := HF) (V := K * H) → state → Prop :=
  Pipeline.step front_err boxed contents (KafkaProducer.produce client_send err_handle names) other alone.

(** The records handed to the client, whether or not the broker took them. *)
Context (handed : K → list KafkaProducer.FutureRecord).
Definition hands_over : Prop := ∀ rc k r k', k ⊢ client_send rc ⇓ r ⊣ k' → handed k' = handed k ++ [rc].

Lemma produce_hands item v v' :
  hands_over → v ⊢ KafkaProducer.produce client_send err_handle names item ⇓ tt ⊣ v' →
  handed v'.1 = handed v.1 ++ [KafkaProducer.record_of names item].
Proof.
  intros Hc Hr. unfold KafkaProducer.produce, bind, zoom in Hr.
  destruct (client_send (KafkaProducer.record_of names item) v.1) as [[r|?|] k'] eqn:Hs; cbn in Hr; [|done..].
  rewrite <-(Hc _ _ _ _ Hs). destruct r as [[]|e]; cbn in Hr; [by injection Hr as <-|].
  destruct (err_handle KafkaProducer.SEND_MSG e v.2) as [[[]|?|] h']; by simplify_eq/=.
Qed.

Lemma given_handed v items v' :
  hands_over → given (KafkaProducer.produce client_send err_handle names) alone v items v' →
  handed v'.1 = handed v.1 ++ map (KafkaProducer.record_of names) items.
Proof.
  intros Hc. induction 1 as [|items item v1 v2 _ IH Hr|items v1 v2 _ IH []]; [by rewrite app_nil_r|].
  by rewrite (produce_hands item v1 v2 Hc Hr), IH, map_app, app_assoc.
Qed.

(** The task of the worker, behind its handle. *)
Definition spawned (s : state (W := W) (H := HF) (V := K * H)) : run (result unit Error) :=
  match task s with Some r => Finished r | None => Running end.

Lemma spawned_finished s r : spawned s = Finished r ↔ task s = Some r.
Proof. unfold spawned. destruct (task s); naive_solver. Qed.

Lemma produce_total v item :
  (∀ rc k, ∃ r k', k ⊢ client_send rc ⇓ r ⊣ k') → (∀ m e h, ∃ h', h ⊢ err_handle m e ⇓ tt ⊣ h') →
  ∃ v', v ⊢ KafkaProducer.produce client_send err_handle names item ⇓ tt ⊣ v'.
Proof.
  intros Hs Hh. unfold KafkaProducer.produce, bind, zoom.
  destruct (Hs (KafkaProducer.record_of names item) v.1) as ([[]|e] & k' & ->); cbn; [by eexists|].
  destruct (Hh KafkaProducer.SEND_MSG e v.2) as [h' ->]. by eexists.
Qed.

(** C23: from [report] to the Kafka client. In every interleaving of callers,
    worker and shutdown, the records handed to the client are those of the
    first accepted items, one each and in order; when the handle of [spawn] is
    ready with [Ok], all the items accepted before the reporter was closing are
    among them. *)
Theorem kafka_end_to_end {TK : Tasks} {TL : TasksLaws} w hf v s :
  contents w = [] → hands_over → rtc kafka_reporting (start w hf v) s →
  let records := map (KafkaProducer.record_of names) in
  handed (sunk s).1 = handed v.1 ++ records (delivered s) ∧
  delivered s `prefix_of` accepted s ∧
  (ReportingJoinHandle.poll (spawned s) = Ready (Ok tt) → ∃ early, accepted s = early ++ late s ∧
     (handed v.1 ++ records early) `prefix_of` handed (sunk s).1).
Proof.
  intros Hw Hc Hs records. pose proof (given_reachable _ _ _ _ _ _ _ _ _ _ Hs) as Hg.
  pose proof (pipe_inv_reachable w hf v s Hw Hs) as I.
  pose proof (given_handed _ _ _ Hc Hg) as Hh. split_and!; [done| |].
  - by apply (delivered_accepted contents dropped).
  - intros Htask%ReportingJoinHandle.poll_ok%spawned_finished.
    destruct (task_ok_early contents dropped s I Htask) as (early & Ha & l & Hl).
    exists early. split; [done|]. exists (records l). rewrite Hh, Hl. unfold records. by rewrite map_app, app_assoc.
Qed.

(** The handle resolves. Wherever the worker is when the shutdown signal
    comes, it can run to its end by itself, whatever the brokers answer: the
    handle of [spawn] is then ready, and nothing was accepted meanwhile. *)
Lemma kafka_handle_resolves {TK : Tasks} {TL : TasksLaws} w hf v s :
  (∀ rc k, ∃ r k', k ⊢ client_send rc ⇓ r ⊣ k') → (∀ m e h, ∃ h', h ⊢ err_handle m e ⇓ tt ⊣ h') →
  contents w = [] → rtc kafka_reporting (start w hf v) s → signalled s = true →
  ∃ s' r, rtc kafka_reporting s s' ∧ ReportingJoinHandle.poll (spawned s') = Ready r ∧
    accepted s' = accepted s.
Proof.
  intros Hsend Hh Hw Hs Hsig. pose proof (pipe_inv_reachable w hf v s Hw Hs) as I.
  destruct (signalled_can_end front_err boxed contents _ dropped other alone
    (λ v item, produce_total v item Hsend Hh) s I Hsig) as (s' & r & r' & R & _ & Ht & Ha).
  exists s', r'. split_and!; [done| |done].
  apply spawned_finished in Ht as ->. apply ReportingJoinHandle.poll_finished.
Qed.
End EndToEnd.

(** ** A concrete client *)
Module KafkaDemo.
#[local] Existing Instance text_errors.

(** A configuration that is a map with a level. *)
#[local] Instance map_config : RdConfig := {|
  rd_config := gmap string string * option nat;
  rd_level := nat;
  rd_Critical := 2%nat; rd_Error := 3%nat; rd_Warning := 4%nat;
  rd_Notice := 5%nat; rd_Info := 6%nat; rd_Debug := 7%nat;
  rd_new := (∅, None);
  rd_set k v c := (<[k := v]> c.1, c.2);
  rd_set_log_level l c := (c.1, Some l);
  rd_get k c := c.1 !! k;
  rd_log_level c := c.2
|}.
#[local] Instance map_laws : RdConfigLaws map_config.
Proof.
  split; try done. intros k k' v c. cbn. case_decide as H; [subst; apply lookup_insert_eq|].
  by apply lookup_insert_ne.
Qed.

Definition config : ClientConfig.t :=
  ClientConfig.set_log_level Debug_ (ClientConfig.set "bootstrap.servers" "broker:9092" ClientConfig.new).

Lemma config_conversion_witness :
  rd_get "bootstrap.servers"
    (ClientConfig.to_rdkafka_config config (map_to_list (ClientConfig.params config))) = Some "broker:9092".
Proof.
  apply (config_conversion config (map_to_list (ClientConfig.params config)) "bootstrap.servers").
  reflexivity.
Defined.

#[local] Instance no_messages : ProstMessage := {|
  encode_segment _ := "s"; encode_log _ := "l"; encode_meter _ := "m";
  encode_instance _ := "i"; encode_ping _ := "p"
|}.
Definition broken_send (_ : KafkaProducer.FutureRecord) : M unit (result unit rdkafka_error) :=
  ret (Err "no broker"%string).
Definition note (m : string) (_ : rdkafka_error) : M (list string) unit := modify (λ l, l ++ [m]).

Lemma produce_spec_witness :
  ∃ h', (tt, []) ⊢ KafkaProducer.produce broken_send note (TopicNames.new (Some "ns"))
          (Ping (InstancePingPkg.Mk "s" "i" "")) ⇓ tt ⊣ (tt, h') ∧ h' = ["Collect data to kafka failed"].
Proof.
  destruct (produce_spec broken_send note (Some "ns") (Ping (InstancePingPkg.Mk "s" "i" "")) tt [])
    as (_ & _ & _ & _ & H); [intros m e h; by eexists|].
  destruct (H "no broker"%string tt eq_refl) as (h' & Hh & Hr). exists h'. split; [exact Hr|].
  by injection Hh.
Defined.

(** A client that keeps the records: a ping, then a graceful shutdown. *)
#[local] Existing Instances Reference.mpsc Reference.laws.
Definition keep_record (rc : KafkaProducer.FutureRecord) : M (list KafkaProducer.FutureRecord) (result unit rdkafka_error) :=
  modify (λ l, l ++ [rc]) ;; ret (Ok tt).
Definition names : TopicNames.t := TopicNames.new (Some "ns").
Definition ping : CollectItem := Ping (InstancePingPkg.Mk "service" "instance" "").
Definition quiet (_ : string) (_ : channel_error) : M unit unit := ret tt.
Definition boxed (_ : channel_error) : other_error := "channel closed"%string.

Definition St : Type :=
  state (W := Reference.chan CollectItem) (H := unit) (V := list KafkaProducer.FutureRecord * list string).
Definition one_step : St → St → Prop := kafka_reporting keep_record note names quiet boxed queued sender_moves.
Definition pipe : Reference.chan CollectItem := channel None.
Definition over : St :=
  MkState (MkFront (drop_receiver pipe) true tt) [] (Ended (Ok tt)) ([KafkaProducer.record_of names ping], []) true
    (Some (Ok tt)) [ping] [ping] [] [].

Lemma kafka_over_reachable : rtc one_step (start pipe tt ([], [])) over.
Proof.
  eapply rtc_l; [by apply (caller_check _ _ _ _ _ _ ping)|cbn].
  eapply rtc_l; [eapply (caller_send _ _ _ _ _ _ _ [] ping [] (Ready (Ok tt))); reflexivity|cbn].
  eapply rtc_l; [eapply work_item; reflexivity|cbn].
  eapply rtc_l; [eapply work_give; reflexivity|cbn].
  eapply rtc_l; [by apply shutdown_signal|cbn].
  eapply rtc_l; [by apply work_shutdown|cbn].
  eapply rtc_l; [eapply flush_none; reflexivity|cbn].
  eapply rtc_l; [by apply work_end|cbn].
  eapply rtc_l; [by apply join_ok|cbn]. apply rtc_refl.
Qed.

Lemma kafka_pipe_empty : queued pipe = [].
Proof. reflexivity. Qed.

#[local] Instance inline : Tasks := Inline.tasks (FE := text_errors) id "cancelled"%string.
#[local] Instance inline_laws : TasksLaws := Inline.tasks_laws (FE := text_errors) id "cancelled"%string.

Lemma kafka_end_to_end_witness :
  (sunk over).1 = [KafkaProducer.record_of names ping] ∧ delivered over `prefix_of` accepted over.
Proof.
  destruct (kafka_end_to_end keep_record note names quiet boxed queued _ sender_moves id
    pipe tt ([], []) over kafka_pipe_empty) as (? & ? & _); [by intros rc k r k' [= _ <-]|exact kafka_over_reachable|].
  by split.
Defined.

(** The signal comes while the worker holds the ping. *)
Definition held : St :=
  MkState (MkFront pipe false tt) [] (Giving ping false) ([], []) true None [ping] [] [] [].

Lemma held_reachable : rtc one_step (start pipe tt ([], [])) held.
Proof.
  eapply rtc_l; [by apply (caller_check _ _ _ _ _ _ ping)|cbn].
  eapply rtc_l; [eapply (caller_send _ _ _ _ _ _ _ [] ping [] (Ready (Ok tt))); reflexivity|cbn].
  eapply rtc_l; [eapply work_item; reflexivity|cbn].
  eapply rtc_l; [by apply shutdown_signal|cbn]. apply rtc_refl.
Qed.

Lemma kafka_handle_resolves_witness :
  ∃ s r, rtc one_step held s ∧ ReportingJoinHandle.poll (spawned s) = Ready r ∧ accepted s = [ping].
Proof.
  apply (kafka_handle_resolves keep_record note names quiet boxed queued _ sender_moves pipe tt ([], []) held).
  - intros rc k. by eexists _, _.
  - intros m e h. by eexists.
  - exact kafka_pipe_empty.
  - exact held_reachable.
  - reflexivity.
Defined.
End KafkaDemo.
