(* ===== verification/Backends.v ===== *)
(** * The gRPC and the Kafka reporter at work, as reporters

    Running.v for the systems of GrpcSystem.v and Kafka.v: what any front end
    reports through a running reporter reaches the streams of the server, or the
    Kafka client. *)

From S2P Require Import Prelude Error Proto Reporter Channel Task Pipeline Running Grpc GrpcStream GrpcSystem Kafka.

Local Open Scope sky_scope.

(** ** gRPC *)
Section Grpc.
Context {FE : ForeignErrors} `{MP : Mpsc Ch} {ML : MpscLaws Ch} {G H HF : Type}.

Abbreviation grpc := (reporting (Ch := Ch) (G := G) (H := H) (W := Ch CollectItem) (HF := HF)).
Abbreviation pipeline := (state (W := Ch CollectItem) (H := HF) (V := GrpcSystem.system (Ch := Ch) (G := G) (H := H))).

#[export, refine] Instance grpc_background : Background grpc pipeline := {|
  pipe_of := pipe;
  set_pipe p s := MkReporting p (sink_dropped s)
|}.
Proof. all: by intros []. Defined.

Context (report_instance_properties : InstanceProperties.t → M G (result unit status)).
Context (rpc_keep_alive : InstancePingPkg.t → M G (result unit status)).
Context (err_handle : string → InnerSender.dyn_error → M H unit).
Context (status_handle : string → status → M H unit).
Context (front_err : string → channel_error → M HF unit) (boxed : channel_error → other_error).
Context (other : Ch CollectItem → Ch CollectItem → Prop).
Context {CL : ChannelLaws (Ch CollectItem) channel_error queued (λ c, receiving c = false) other}.

Abbreviation sink := (deliver report_instance_properties rpc_keep_alive err_handle status_handle).
Abbreviation env := (GrpcSystem.streams status_handle).
Abbreviation grpc_step :=
  (GrpcSystem.step report_instance_properties rpc_keep_alive err_handle status_handle front_err boxed queued other).
Implicit Types (s : grpc) (w : World grpc).

Lemma grpc_lift s p :
  Pipeline.step front_err boxed queued sink other env (pipe_of s) p → signalled p = signalled (pipe_of s) →
  grpc_step s (set_pipe p s).
Proof. intros Hp _. by apply step_pipe. Qed.

(** The reporter of a gRPC system that has come from [s0]. *)
Definition grpc_healthy (s0 : grpc) : nat → RunningReporter HF → World grpc → Prop :=
  healthy front_err grpc_step s0.
Definition grpc_accepted (w : World grpc) : list CollectItem := accepted (pipe (Running.system w)).

#[export] Instance grpc_laws s0 n : ReportLaws (RunningReporter HF) (World grpc) (grpc_healthy s0 n) grpc_accepted.
Proof. exact (running_laws front_err boxed sink other env grpc_step grpc_lift s0 n). Qed.

Context (errors : H → list string) (HN : counting err_handle status_handle errors).
Context (HC : collaborators report_instance_properties rpc_keep_alive err_handle status_handle).

(** The items of one kind are in the streams, unless the error handler was told
    that one could not be sent. *)
Definition streamed {I} (task_of : GrpcSystem.system (Ch := Ch) (G := G) (H := H) → GrpcSystem.task I)
    (item_of : CollectItem → option I) (msg : string) (h : H) (items : list CollectItem) s : Prop :=
  let v := sunk (pipe s) in
  times_told errors msg (InnerSender.handlers (sender v)) = times_told errors msg h →
  omap item_of items `prefix_of` mjoin (yielded (task_of v)).

Lemma complete_streamed {I} task_of (item_of : CollectItem → option I) msg h items s :
  complete errors task_of item_of msg h s → items `prefix_of` delivered (pipe s) →
  streamed task_of item_of msg h items s.
Proof.
  intros [Hsub Hlen] [l Hl] Htold. rewrite Htold in Hlen.
  assert (mjoin (yielded (task_of (sunk (pipe s)))) = omap item_of (delivered (pipe s))) as ->.
  { apply sublist_full; [done|lia]. }
  rewrite Hl, omap_app. by apply prefix_app_r.
Qed.

Abbreviation whole_of := (whole errors queued (λ c : Ch CollectItem, receiving c = false)).

Lemma healthy_whole n c hf g h r w :
  queued c = [] → grpc_healthy (reporting_spawn c hf g h) n r w → whole_of h (Running.system w).
Proof. intros Hc Hh. eapply whole_reachable; [exact HC|exact HN|exact CL|exact Hc|apply Hh]. Qed.

Lemma grpc_grown s s' : rtc grpc_step s s' → grown (pipe s) (pipe s').
Proof.
  induction 1 as [s|s s1 s2 Hs _ IH]; [done|]. etrans; [|exact IH].
  destruct Hs as [s p Hp|s r Hat Hd]; [by eapply step_grown|by apply grown_same].
Qed.

(** When the handle is ready, whatever with, what was given to the sink has
    been streamed. *)
Lemma polled_streamed {TK : Tasks} {TL : TasksLaws} h s x items :
  whole_of h s → handle_poll s = Ready x → items `prefix_of` delivered (pipe s) →
  streamed traces segment_of InnerSender.TRACE_MSG h items s ∧
  streamed logs log_of InnerSender.LOG_MSG h items s ∧
  streamed meters meter_of InnerSender.METER_MSG h items s.
Proof.
  intros [_ _ It Il Im] (_ & Pt & Pl & Pm)%handle_poll_inv Hd.
  split_and!; (eapply complete_streamed; [by eapply carried_complete|done]).
Qed.

(** What is reported is served. Let any program report through a running
    gRPC reporter, and let the system go on in any way until the handle of
    [spawn] is ready with [Ok]. Then everything that was reported has been
    given to the sink, and the segments (the logs, the meters) have been
    yielded to the server, in order and before anything that was reported
    later, unless the error handler was told of one it could not send. *)
Lemma healthy_served {TK : Tasks} {TL : TasksLaws} n c hf g h r w s :
  queued c = [] → grpc_healthy (reporting_spawn c hf g h) n r w →
  rtc grpc_step (Running.system w) s → handle_poll s = Ready (Ok tt) →
  let items := grpc_accepted w in
  items `prefix_of` delivered (pipe s) ∧
  streamed traces segment_of InnerSender.TRACE_MSG h items s ∧
  streamed logs log_of InnerSender.LOG_MSG h items s ∧
  streamed meters meter_of InnerSender.METER_MSG h items s.
Proof.
  intros Hc Hh Hs Hok items. pose proof (healthy_whole _ _ _ _ _ _ _ Hc Hh) as Hw.
  assert (Hws : whole_of h s) by by eapply whole_steps.
  assert (Hd : items `prefix_of` delivered (pipe s)).
  { destruct (handle_poll_inv s _ Hok) as [Htask _].
    eapply open_delivered; [apply Hw|apply Hh|by apply grpc_grown|apply Hws|done]. }
  split; [done|]. by eapply polled_streamed.
Qed.

(** Once the worker has returned and is joined, the streams can end, and the
    handle is ready with the worker's result. *)
Lemma joined_resolves {TK : Tasks} {TL : TasksLaws} h s r0 r :
  whole_of h s → at_ (pipe s) = Ended r0 → Pipeline.task (pipe s) = Some r →
  ∃ s', rtc grpc_step s s' ∧ handle_poll s' = Ready r ∧
    accepted (pipe s') = accepted (pipe s) ∧ delivered (pipe s') = delivered (pipe s) ∧
    signalled (pipe s') = signalled (pipe s).
Proof.
  intros Hw Hat Ht.
  assert (H2 : ∃ s2, rtc grpc_step s s2 ∧ sink_dropped s2 = true ∧ Pipeline.task (pipe s2) = Some r ∧
    accepted (pipe s2) = accepted (pipe s) ∧ delivered (pipe s2) = delivered (pipe s) ∧
    signalled (pipe s2) = signalled (pipe s)).
  { destruct (sink_dropped s) eqn:E; [by exists s|].
    eexists. split; [by eapply rtc_once, step_drop|]. by split_and!. }
  destruct H2 as (s2 & R2 & Hd2 & Ht2 & Ha2 & He2 & Hs2).
  destruct (streams_end_all _ _ _ _ _ HC HN front_err boxed queued (λ c, receiving c = false) other h s2)
    as (v & Sv & Pt & Pl & Pm); [by eapply whole_steps|done|].
  exists (MkReporting (set_sunk v (pipe s2)) (sink_dropped s2)).
  split_and!; [etrans; [exact R2|exact (streams_steps _ _ _ _ _ _ _ _ s2 v Sv)]
              |by apply (handle_poll_ready _ r)|done..].
Qed.

Lemma grpc_joined c hf g h s :
  rtc grpc_step (reporting_spawn c hf g h) s → joined_late (pipe s).
Proof.
  intros Hs. assert (H0 : joined_late (pipe (reporting_spawn c hf g h))) by (intros Ht; by destruct Ht).
  induction Hs as [s|s s1 s2 Hstep _ IH]; [done|]. apply IH. clear IH.
  destruct Hstep as [s p Hp|s r Hat Hd]; [by eapply joined_late_step|exact H0].
Qed.

(** Whatever a program has reported can be served: once the shutdown signal
    has come, as long as a clone of the reporter is alive, the tasks can run to
    their ends by themselves, and the handle is ready with [Ok]. *)
Lemma handle_succeeds {TK : Tasks} {TL : TasksLaws} n c hf g h r w :
  queued c = [] → grpc_healthy (reporting_spawn c hf g h) (S n) r w →
  ∃ s, rtc grpc_step (Running.system w) s ∧ handle_poll s = Ready (Ok tt) ∧
    accepted (pipe s) = grpc_accepted w ∧ delivered (pipe s) = grpc_accepted w.
Proof.
  intros Hc Hh. pose proof (healthy_whole _ _ _ _ _ _ _ Hc Hh) as Hw. destruct Hh as [_ Hr Ho Hn _].
  set (s := Running.system w) in *.
  pose proof (open_unjoined (pipe s) (grpc_joined _ _ _ _ _ Hr) (w_pipe _ _ _ _ _ Hw) Ho) as Ht.
  change (senders (chan (front (pipe s))) = S n) in Hn.
  assert (Hn0 : senders (chan (front (pipe s))) ≠ 0) by by rewrite Hn.
  destruct (open_finishes front_err boxed sink other env
    (deliver_total report_instance_properties rpc_keep_alive err_handle status_handle HC) (pipe s)
    (w_pipe _ _ _ _ _ Hw) Ho Ht Hn0) as (p1 & R1 & Hat1 & Ht1 & Ha1 & Hd1).
  assert (S1 : rtc grpc_step s (MkReporting p1 (sink_dropped s))) by (destruct s; by apply worker_steps).
  destruct (joined_resolves h (MkReporting p1 (sink_dropped s)) _ _ ltac:(by eapply whole_steps) Hat1 Ht1)
    as (s' & R & Hp & Ha & Hd & _).
  exists s'. split_and!; [by etrans|done|by rewrite Ha|by rewrite Hd].
Qed.

(** What holds of the pipeline whatever it does, holds of the system. *)
Lemma grpc_keeps (Q : pipeline → Prop) s s' :
  (∀ p p', Q p → Pipeline.step front_err boxed queued sink other env p p' → Q p') →
  (∀ p v, Q p → Q (set_sunk v p)) → Q (pipe s) → rtc grpc_step s s' → Q (pipe s').
Proof.
  intros Hstep Hsunk H0 Hs. induction Hs as [s|s s1 s2 Hst _ IH]; [done|]. apply IH.
  destruct Hst as [s p Hp|s r Hat Hd]; [by eapply Hstep|by apply Hsunk].
Qed.
(** *** Without the shutdown signal *)

(** Nothing waits: the worker is idle, the channels of the sink are empty. *)
Record settled s : Prop := {
  st_idle : idle (pipe s);
  st_traces : queued (InnerSender.trace_chan (sender (sunk (pipe s)))) = [];
  st_logs : queued (InnerSender.log_chan (sender (sunk (pipe s)))) = [];
  st_meters : queued (InnerSender.meter_chan (sender (sunk (pipe s)))) = []
}.

(** Then everything accepted has been streamed. *)
Lemma settled_streamed h s items :
  whole_of h s → settled s → items `prefix_of` accepted (pipe s) →
  items `prefix_of` delivered (pipe s) ∧
  streamed traces segment_of InnerSender.TRACE_MSG h items s ∧
  streamed logs log_of InnerSender.LOG_MSG h items s ∧
  streamed meters meter_of InnerSender.METER_MSG h items s.
Proof.
  intros [Hp _ It Il Im] [Hi Qt Ql Qm] Hpre. rewrite <-(idle_delivered _ Hp Hi) in Hpre.
  split_and!; [done|eapply complete_streamed; [by eapply carried_empty|done]..].
Qed.

(** An open system can get there by itself. *)
Lemma settles h s :
  whole_of h s → open (pipe s) →
  ∃ s', rtc grpc_step s s' ∧ settled s' ∧ signalled (pipe s') = signalled (pipe s) ∧
    accepted (pipe s') = accepted (pipe s).
Proof.
  intros Hw Ho.
  destruct (open_drains front_err boxed sink other env (deliver_total _ _ _ _ HC) (pipe s) (w_pipe _ _ _ _ _ Hw) Ho)
    as (p1 & R1 & Hi1 & [Ha1 _ Hs1 _] & _).
  assert (S1 : rtc grpc_step s (MkReporting p1 (sink_dropped s))) by (destruct s; by apply worker_steps).
  set (s1 := MkReporting p1 (sink_dropped s)) in *.
  assert (Hd : sink_dropped s = false).
  { destruct (sink_dropped s) eqn:E; [|done]. destruct (w_over _ _ _ _ _ Hw E) as [r Hr].
    by destruct (open_not_ended _ r (w_pipe _ _ _ _ _ Hw) Ho). }
  assert (W1 : whole_of h s1) by by eapply whole_steps.
  destruct (streams_empty_all _ _ _ _ _ HC HN front_err boxed queued (λ c, receiving c = false) other h s1 W1 Hd)
    as (v & Sv & Qt & Ql & Qm).
  exists (MkReporting (set_sunk v p1) (sink_dropped s)). split_and!; [|by destruct Hi1|exact Hs1|exact Ha1].
  etrans; [exact S1|exact (streams_steps _ _ _ _ _ _ _ _ s1 v Sv)].
Qed.

Lemma grpc_signal_stays s s' :
  grpc_step s s' → signalled (pipe_of s) = true → signalled (pipe_of s') = true.
Proof. intros Hs. destruct Hs as [s p Hp|]; [by eapply signal_stays|done]. Qed.

Context (other_senders : ∀ c c', other c c' → senders c ≠ 0 ∧ senders c' ≠ 0).
Context (other_open : ∀ c c', other c c' → receiving c' = receiving c ∧ capacity c' = capacity c).

Lemma grpc_unsignalled s s' :
  unsignalled (pipe s) → rtc (pending grpc_step) s s' → unsignalled (pipe s').
Proof.
  intros Hu Hs. induction Hs as [s|s s1 s2 [Hst E] _ IH]; [done|]. apply IH. cbn in E.
  destruct Hst as [s p Hp|s r Hat Hd]; [by eapply unsignalled_step|].
  destruct Hu as [[] Hf Hj Hs]. by split; [split| | |].
Qed.

(** Let any program report through a running reporter to which nobody gives
    the shutdown signal. In whatever way the system goes on, as long as a clone
    of the reporter is alive: the handle is not ready; when nothing waits,
    everything that was reported has been given to the sink and streamed; and it
    can always get there. *)
Lemma grpc_settles {TK : Tasks} {TL : TasksLaws} n c hf g h r w s :
  queued c = [] → healthy front_err (pending grpc_step) (reporting_spawn c hf g h) (S n) r w →
  rtc (pending grpc_step) (Running.system w) s →
  let items := grpc_accepted w in
  handle_poll s = Pending ∧
  (settled s → items `prefix_of` delivered (pipe s) ∧
    streamed traces segment_of InnerSender.TRACE_MSG h items s ∧
    streamed logs log_of InnerSender.LOG_MSG h items s ∧
    streamed meters meter_of InnerSender.METER_MSG h items s) ∧
  ∃ s', rtc (pending grpc_step) s s' ∧ settled s' ∧ accepted (pipe s') = accepted (pipe s).
Proof.
  intros Hc [_ Hr Ho Hn _] Hs items. pose proof (pending_sub _ _ _ Hr) as Hr'. pose proof (pending_sub _ _ _ Hs) as Hs'.
  assert (Hw : whole_of h (Running.system w)) by (eapply whole_reachable; [exact HC|exact HN|exact CL|exact Hc|exact Hr']).
  assert (Hws : whole_of h s) by by eapply whole_steps.
  assert (Hu : unsignalled (pipe (Running.system w))).
  { apply open_unsignalled; [by eapply grpc_joined|apply Hw|done| |exact (pending_signal _ _ _ Hr)].
    change (senders (chan (front (pipe (Running.system w)))) = S n) in Hn. by rewrite Hn. }
  pose proof (grpc_unsignalled _ _ Hu Hs) as Hus. split_and!.
  - destruct (handle_poll s) as [x|] eqn:E; [|done]. destruct (handle_poll_inv s x E) as [Ht _].
    by rewrite (unsignalled_task _ Hus) in Ht.
  - intros Hse. apply settled_streamed; [done..|].
    destruct (grpc_grown _ _ Hs') as (la & _ & Ha & _). by exists la.
  - destruct (settles h s Hws (unsignalled_open _ Hus)) as (s' & R & Hse & E & Ha).
    exists s'. split_and!; [|done..]. by apply (pending_steps grpc_signal_stays).
Qed.

(** Another clone of the reporter is dropped. *)
Definition drop_reporter s : grpc :=
  MkReporting (with_worker (pipe s) (set_chan (drop_sender (chan (front (pipe s)))) (front (pipe s))) (at_ (pipe s)))
    (sink_dropped s).

Lemma whole_drop_reporter h s : whole_of h s → whole_of h (drop_reporter s).
Proof.
  intros [[Hi He Hc Hl Hy Ht] Ho It Il Im].
  destruct (drop_sender_law (chan (front (pipe s)))) as (Hq & _ & Hrx & _).
  split; [|done..]. split; unfold remaining in *; cbn; rewrite ?Hq, ?Hrx; done.
Qed.

Lemma open_drop_reporter s : open (pipe s) → open (pipe (drop_reporter s)).
Proof.
  intros (? & ? & ?). destruct (drop_sender_law (chan (front (pipe s)))) as (_ & _ & Hrx & Hcap).
  split_and!; cbn; congruence.
Qed.
End Grpc.

(** ** Kafka *)
Section Kafka.
Context {FE : ForeignErrors} {PM : ProstMessage} `{MP : Mpsc Ch} {ML : MpscLaws Ch} {K H HF : Type}.
Context (client_send : KafkaProducer.FutureRecord → M K (result unit rdkafka_error))
  (err_handle : string → rdkafka_error → M H unit) (names : TopicNames.t).
Context (front_err : string → channel_error → M HF unit) (boxed : channel_error → other_error).
Context (other : Ch CollectItem → Ch CollectItem → Prop).
Context {CL : ChannelLaws (Ch CollectItem) channel_error queued (λ c, receiving c = false) other}.

Abbreviation kafka := (state (W := Ch CollectItem) (H := HF) (V := K * H)).

Abbreviation sink := (KafkaProducer.produce client_send err_handle names).
Abbreviation kafka_step := (kafka_reporting client_send err_handle names front_err boxed queued other).
Implicit Types (s : kafka) (w : World kafka).

Lemma kafka_lift s p :
  Pipeline.step front_err boxed queued sink other alone (pipe_of s) p → signalled p = signalled (pipe_of s) →
  kafka_step s (set_pipe p s).
Proof. done. Qed.

(** The reporter of a Kafka system that has come from [s0]. *)
Definition kafka_healthy (s0 : kafka) : nat → RunningReporter HF → World kafka → Prop :=
  healthy front_err kafka_step s0.
Definition kafka_accepted (w : World kafka) : list CollectItem := accepted (Running.system w).

#[export] Instance kafka_laws s0 n : ReportLaws (RunningReporter HF) (World kafka) (kafka_healthy s0 n) kafka_accepted.
Proof. exact (running_laws front_err boxed sink other alone kafka_step kafka_lift s0 n). Qed.

Context (handed : K → list KafkaProducer.FutureRecord) (HO : hands_over client_send handed).

Lemma kafka_grown s s' : rtc kafka_step s s' → grown s s'.
Proof. induction 1 as [s|s s1 s2 Hs _ IH]; [done|]. etrans; [by eapply step_grown|exact IH]. Qed.

(** What is reported is handed over: the same for Kafka. Let any program report
    through a running Kafka reporter, and let the system go on in any way until
    the handle of [spawn] is ready with [Ok]. Then the client has been given a
    record for every item that was reported, in order and before anything that
    was reported later. *)
Lemma reported_is_handed {TK : Tasks} {TL : TasksLaws} n c hf v r w s :
  queued c = [] → kafka_healthy (start c hf v) n r w →
  rtc kafka_step (Running.system w) s → ReportingJoinHandle.poll (Kafka.spawned s) = Ready (Ok tt) →
  (handed v.1 ++ map (KafkaProducer.record_of names) (kafka_accepted w)) `prefix_of` handed (sunk s).1.
Proof.
  intros Hc Hh Hs Htask%ReportingJoinHandle.poll_ok%spawned_finished.
  assert (Hr : rtc kafka_step (start c hf v) s) by (etrans; [apply Hh|exact Hs]).
  assert (Hd : kafka_accepted w `prefix_of` delivered s).
  { eapply open_delivered; [|apply Hh|by apply kafka_grown|by eapply pipe_inv_reachable|done].
    eapply pipe_inv_reachable; [done|apply Hh]. }
  pose proof (given_reachable _ _ _ _ _ _ _ _ _ _ Hr) as Hg.
  rewrite (given_handed _ _ _ _ _ _ _ HO Hg).
  destruct Hd as [l ->]. rewrite map_app, app_assoc. by apply prefix_app_r.
Qed.

Lemma kafka_joined c hf v s : rtc kafka_step (start c hf v) s → joined_late s.
Proof.
  intros Hs. assert (H0 : joined_late (start c hf v : kafka)) by (intros Ht; by destruct Ht).
  induction Hs; [done|]. eauto using joined_late_step.
Qed.

Context (other_senders : ∀ c c', other c c' → senders c ≠ 0 ∧ senders c' ≠ 0).
Context (other_open : ∀ c c', other c c' → receiving c' = receiving c ∧ capacity c' = capacity c).

Lemma kafka_unsignalled s s' :
  unsignalled s → rtc (pending kafka_step) s s' → unsignalled s'.
Proof. intros Hu Hs. induction Hs as [s|s s1 s2 [Hst E] _ IH]; [done|]. apply IH. by eapply unsignalled_step. Qed.

(** The same for Kafka. *)
Lemma kafka_settles {TK : Tasks} {TL : TasksLaws} n c hf v r w s :
  (∀ rc k, ∃ r k', k ⊢ client_send rc ⇓ r ⊣ k') → (∀ m e h, ∃ h', h ⊢ err_handle m e ⇓ tt ⊣ h') →
  queued c = [] → healthy front_err (pending kafka_step) (start c hf v) (S n) r w →
  rtc (pending kafka_step) (Running.system w) s →
  ReportingJoinHandle.poll (Kafka.spawned s) = Pending ∧
  (idle s →
   (handed v.1 ++ map (KafkaProducer.record_of names) (kafka_accepted w)) `prefix_of` handed (sunk s).1) ∧
  ∃ s', rtc (pending kafka_step) s s' ∧ idle s' ∧ accepted s' = accepted s.
Proof.
  intros Hsend Herr Hc [_ Hr Ho Hn _] Hs. pose proof (pending_sub _ _ _ Hr) as Hr'.
  pose proof (pending_sub _ _ _ Hs) as Hs'. assert (Hrs : rtc kafka_step (start c hf v) s) by by etrans.
  assert (Hw : Pipeline.inv queued (λ c, receiving c = false) (Running.system w)) by by eapply pipe_inv_reachable.
  assert (Hws : Pipeline.inv queued (λ c, receiving c = false) s) by by eapply pipe_inv_reachable.
  assert (Hu : unsignalled (Running.system w)).
  { apply open_unsignalled; [by eapply kafka_joined|done|done| |exact (pending_signal _ _ _ Hr)].
    change (senders (chan (front (Running.system w))) = S n) in Hn. by rewrite Hn. }
  pose proof (kafka_unsignalled _ _ Hu Hs) as Hus. split_and!.
  - destruct (ReportingJoinHandle.poll (Kafka.spawned s)) as [x|] eqn:E; [|done].
    unfold Kafka.spawned in E. rewrite (unsignalled_task _ Hus) in E. by rewrite ReportingJoinHandle.poll_running in E.
  - intros Hi. rewrite (given_handed _ _ _ _ _ _ _ HO (given_reachable _ _ _ _ _ _ _ _ _ _ Hrs)).
    rewrite (idle_delivered s Hws Hi). destruct (kafka_grown _ _ Hs') as (la & _ & -> & _).
    rewrite map_app, app_assoc. by apply prefix_app_r.
  - destruct (open_drains front_err boxed sink other alone
      (λ v item, Kafka.produce_total client_send err_handle names v item Hsend Herr) s Hws (unsignalled_open _ Hus))
      as (s' & R & Hi & [Ha _ E _] & _).
    exists s'. split_and!; [|done..]. apply pending_steps; [|done|done]. apply signal_stays.
Qed.

Lemma kafka_handle_succeeds {TK : Tasks} {TL : TasksLaws} n c hf v r w :
  (∀ rc k, ∃ r k', k ⊢ client_send rc ⇓ r ⊣ k') → (∀ m e h, ∃ h', h ⊢ err_handle m e ⇓ tt ⊣ h') →
  queued c = [] → kafka_healthy (start c hf v) (S n) r w →
  ∃ s, rtc kafka_step (Running.system w) s ∧ ReportingJoinHandle.poll (Kafka.spawned s) = Ready (Ok tt) ∧
    accepted s = kafka_accepted w ∧ delivered s = kafka_accepted w.
Proof.
  intros Hsend Herr Hc [_ Hr Ho Hn _]. set (s := Running.system w) in *.
  assert (I : Pipeline.inv queued (λ c, receiving c = false) s) by by eapply pipe_inv_reachable.
  assert (Hn0 : senders (chan (front s)) ≠ 0) by (change (senders (chan (front s)) = S n) in Hn; by rewrite Hn).
  destruct (open_finishes front_err boxed sink other alone
    (λ v item, Kafka.produce_total client_send err_handle names v item Hsend Herr) s I Ho
    (open_unjoined s (kafka_joined _ _ _ _ Hr) I Ho) Hn0) as (s' & R & _ & Ht & Ha & Hd).
  exists s'. split_and!; [done| |done..].
  apply spawned_finished in Ht as ->. apply ReportingJoinHandle.poll_finished.
Qed.
End Kafka.
