(* ===== verification/E2eBackends.v ===== *)
(** * e2e/src/main.rs over the running reporters

    The two processes of the end-to-end program, each with the gRPC and the
    Kafka reporter that its [main] starts, without a shutdown signal, and
    combines. What E2e.v shows to be reported is brought to both backends by the
    systems of GrpcSystem.v and Kafka.v. *)

From S2P Require Import Prelude RustStr Common Error WaitGroup Proto Reporter Tracer SpanStack TraceContext Session Base64 Propagation Logging E2e Channel Task Pipeline Running Grpc GrpcStream GrpcSystem Kafka Backends.

Local Open Scope Z_scope.
Local Open Scope sky_scope.

Section Processes.
Context {FE : ForeignErrors} {B : Base64} {BL : Base64Laws B} {BC : Build} {RW : RwLock} {PN : ProtoNums}.
Context {PM : ProstMessage} {TK : Tasks} {TL : TasksLaws} `{MP : Mpsc Ch} {ML : MpscLaws Ch}.

(** *** The gRPC side *)
Context {G H HF : Type}.
Context (report_instance_properties : InstanceProperties.t → M G (result unit status)).
Context (rpc_keep_alive : InstancePingPkg.t → M G (result unit status)).
Context (err_handle : string → InnerSender.dyn_error → M H unit).
Context (status_handle : string → status → M H unit).
Context (errors : H → list string) (HN : counting err_handle status_handle errors).
Context (HC : collaborators report_instance_properties rpc_keep_alive err_handle status_handle).
(** *** The Kafka side *)
Context {K HK : Type}.
Context (client_send : KafkaProducer.FutureRecord → M K (result unit rdkafka_error))
  (kafka_err : string → rdkafka_error → M HK unit) (names : TopicNames.t).
Context (handed : K → list KafkaProducer.FutureRecord) (HO : hands_over client_send handed).
(** *** The caller's halves *)
Context (front_err : string → channel_error → M HF unit) (boxed : channel_error → other_error).

Abbreviation Grpc_ := (reporting (Ch := Ch) (G := G) (H := H) (W := Ch CollectItem) (HF := HF)).
Abbreviation Kafka_ := (state (W := Ch CollectItem) (H := HF) (V := K * HK)).
Abbreviation Backends := (CombineWorld (World Grpc_) (World Kafka_)).
Abbreviation Reporters := (CombineReporter (RunningReporter HF) (RunningReporter HF)).

(** [main] gives neither reporter a shutdown signal: theirs are [pending()]. The
    clones of the global tracer and logger stay. *)
Definition grpc_moves : Grpc_ → Grpc_ → Prop :=
  pending (GrpcSystem.step report_instance_properties rpc_keep_alive err_handle status_handle front_err boxed queued
    clones_kept).
Definition kafka_moves : Kafka_ → Kafka_ → Prop :=
  pending (kafka_reporting client_send kafka_err names front_err boxed queued clones_kept).

(** The reporters that [main] starts: [c] and [ck] are their fresh channels,
    [g], [h] and [v] what the clients and the handlers act on. *)
Context (c ck : Ch CollectItem) (hf : HF) (g : G) (h : H) (v : K * HK).
Context (Hc : queued c = []) (Hck : queued ck = []).

Lemma grpc_unsignalled_lift s p :
  Pipeline.step front_err boxed queued (deliver report_instance_properties rpc_keep_alive err_handle status_handle)
    clones_kept (GrpcSystem.streams status_handle) (pipe_of s) p →
  signalled p = signalled (pipe_of s) → grpc_moves s (set_pipe p s).
Proof. intros Hp E. split; [by apply grpc_lift|by rewrite pipe_of_set]. Qed.
Lemma kafka_unsignalled_lift s p :
  Pipeline.step front_err boxed queued (KafkaProducer.produce client_send kafka_err names) clones_kept alone (pipe_of s) p →
  signalled p = signalled (pipe_of s) → kafka_moves s (set_pipe p s).
Proof. by split. Qed.

Abbreviation grpc_started := (healthy front_err grpc_moves (reporting_spawn c hf g h)).
Abbreviation kafka_started := (healthy front_err kafka_moves (start ck hf v)).

#[export] Instance grpc_started_laws n :
  ReportLaws (RunningReporter HF) (World Grpc_) (grpc_started n) grpc_accepted.
Proof. exact (running_laws front_err boxed _ clones_kept _ grpc_moves grpc_unsignalled_lift _ n). Qed.
#[export] Instance kafka_started_laws n :
  ReportLaws (RunningReporter HF) (World Kafka_) (kafka_started n) kafka_accepted.
Proof. exact (running_laws front_err boxed _ clones_kept _ kafka_moves kafka_unsignalled_lift _ n). Qed.

(** Both are open, each with [n] clones, and have been given the same. *)
Definition with_clones (n : nat) : Reporters → Backends → Prop :=
  in_step (grpc_started n) grpc_accepted (kafka_started n) kafka_accepted.
Definition started (r : Reporters) (w : Backends) : Prop := ∃ n, with_clones (S n) r w.

#[export] Instance started_laws : ReportLaws Reporters Backends started (λ w, grpc_accepted (grpc_world w)).
Proof.
  split. intros r w item [n Hn].
  destruct (report_delivers (healthy := with_clones (S n)) (delivered := λ w, grpc_accepted (grpc_world w)) r w item Hn)
    as (w' & ? & ? & ?).
  exists w'. split_and!; [done|by exists n|done].
Qed.

(** What has been reported is served, in whatever way the two systems go on.
    Nothing ends the reporting: the handles are never ready. Whenever nothing
    waits in a system, everything reported has reached its backend: it is in the
    streams of the server, or the Kafka client has been given a record of it.
    And from every state each system can get there by itself, without another
    item. *)
Definition grpc_serves (items : list CollectItem) (s0 : Grpc_) : Prop :=
  ∀ s, rtc grpc_moves s0 s →
    handle_poll s = Pending ∧
    (settled s → items `prefix_of` delivered (pipe s) ∧
       streamed errors traces segment_of InnerSender.TRACE_MSG h items s ∧
       streamed errors logs log_of InnerSender.LOG_MSG h items s) ∧
    ∃ s', rtc grpc_moves s s' ∧ settled s' ∧ accepted (pipe s') = accepted (pipe s).
Definition kafka_serves (items : list CollectItem) (s0 : Kafka_) : Prop :=
  ∀ s, rtc kafka_moves s0 s →
    ReportingJoinHandle.poll (Kafka.spawned s) = Pending ∧
    (idle s → (handed v.1 ++ map (KafkaProducer.record_of names) items) `prefix_of` handed (sunk s).1) ∧
    ∃ s', rtc kafka_moves s s' ∧ idle s' ∧ accepted s' = accepted s.
Definition served (items : list CollectItem) (w : Backends) : Prop :=
  grpc_serves items (Running.system (grpc_world w)) ∧ kafka_serves items (Running.system (kafka_world w)).

Context (Hsend : ∀ rc k, ∃ r k', k ⊢ client_send rc ⇓ r ⊣ k') (Herr : ∀ m e h, ∃ h', h ⊢ kafka_err m e ⇓ tt ⊣ h').

Lemma started_served r w : started r w → served (grpc_accepted (grpc_world w)) w.
Proof.
  intros (n & [Hg Hk] & E). split; intros s Hs.
  - destruct (grpc_settles _ _ _ _ front_err boxed clones_kept errors HN HC clones_kept_senders clones_kept_open
      _ _ _ _ _ _ _ s Hc Hg Hs) as (Hp & Hse & Hex).
    split_and!; [exact Hp| |exact Hex]. intros Hset. by destruct (Hse Hset) as (? & ? & ? & _).
  - destruct (kafka_settles client_send kafka_err names front_err boxed clones_kept handed HO clones_kept_senders
      clones_kept_open _ _ _ _ _ _ s Hsend Herr Hck Hk Hs) as (Hp & Hse & Hex).
    split_and!; [exact Hp| |exact Hex]. by rewrite <-E.
Qed.

(** C10: a ping reaches both backends. Two processes as [main] starts them; the
    producer serves [/ping], and with it the consumer [/pong]. Neither reporter
    has a shutdown signal, so no handle ever becomes ready. Whatever the worker
    and the streaming tasks of each process do meanwhile and afterwards, each
    system can always come to a state in which nothing waits, and in every such
    state: the producer's server has been streamed the segment of the job and
    the one of the request, and the consumer's the segment of the pong, unless an
    error handler was told of a segment that could not be sent; the logs
    likewise; and each Kafka client has been given a record of every one of
    them. *)
Theorem ping_reaches_backends (service instance service' instance' : string) r r' p q
    clock clock2 clock3 u1 u2 u3 u4 u5 u6 :
  serves started service instance r p → serves started service' instance' r' q →
  grpc_accepted (grpc_world (out p)) = [] → grpc_accepted (grpc_world (out q)) = [] →
  utf8_valid service = true → utf8_valid instance = true →
  in_unsigned 128 u1 = true → in_unsigned 128 u2 = true →
  ∃ p' q' : Process Reporters Backends,
    ((p, q) ⊢ producer_response (consumer clock3 u5 u6) clock clock2 u1 u2 u3 u4 ping_request
       ⇓ ok_response ⊣ (p', q')) ∧
    served (producer_items service instance clock clock2 u1 u2 u4) (out p') ∧
    served (consumer_items service instance service' instance' clock3 u1 u2 u6) (out q').
Proof.
  intros Hp Hq Ap Aq Hs Hi H1 H2.
  destruct (ping_pong_run started (λ w, grpc_accepted (grpc_world w)) _ _ _ _ _ _ _ _ clock clock2 clock3
    u1 u2 u3 u4 u5 u6 Hp Hq Hs Hi H1 H2) as (p' & q' & Hr & Dp & Dq & Sp & Sq).
  pose proof (a_items _ _ _ _ Dp) as Ep. pose proof (a_items _ _ _ _ Dq) as Eq. cbn beta in Ep, Eq.
  rewrite Ap in Ep. rewrite Aq in Eq. cbn [app] in Ep, Eq.
  exists p', q'. split_and!; [exact Hr| |].
  - rewrite <-Ep. apply (started_served r). apply Sp.
  - rewrite <-Eq. apply (started_served r'). apply Sq.
Qed.
End Processes.

(** ** Both processes over reference channels, beside busy workers *)
Module E2eBackendsDemo.
#[local] Existing Instance text_errors.
#[local] Existing Instances Rfc4648.rfc4648 Rfc4648.laws.
#[local] Existing Instances test_build CountingLock.lock example_nums.
#[local] Existing Instances Reference.mpsc Reference.laws.
#[local] Existing Instances GrpcSystemDemo.inline GrpcSystemDemo.inline_laws KafkaDemo.no_messages.
Import GrpcSystemDemo.

Abbreviation Kaf := KafkaDemo.St.
Abbreviation Procs := (Process (CombineReporter (RunningReporter unit) (RunningReporter unit))
  (CombineWorld (World Rep) (World Kaf))).

(** After each call, the workers give an item to their sinks. *)
Definition grpc_round (_ : nat) (s : Rep) : Rep :=
  set_pipe (worker_round (deliver accept accept note note) (pipe s)) s.
Definition kafka_round (_ : nat) (s : Kaf) : Kaf :=
  worker_round (KafkaProducer.produce KafkaDemo.keep_record KafkaDemo.note KafkaDemo.names) s.

Definition reporters : CombineReporter (RunningReporter unit) (RunningReporter unit) :=
  MkCombine (MkRunning quiet) (MkRunning quiet).
Definition backends : CombineWorld (World Rep) (World Kaf) :=
  MkCombineWorld [] (MkWorld init grpc_round 0) (MkWorld (start pipe0 tt ([], [])) kafka_round 0).

Abbreviation started_ := (started accept accept note note KafkaDemo.keep_record KafkaDemo.note KafkaDemo.names
  quiet boxed pipe0 pipe0 tt tt [] ([], [])).

Lemma backends_started : started_ reporters backends.
Proof.
  exists 0%nat. split; [|done]. split; split; cbn; try done.
  - intros k s _ Ho. apply (round_quiet quiet boxed _ clones_kept _ _ (grpc_unsignalled_lift _ _ _ _ _ _) s Ho).
  - intros k s _ Ho. apply (round_quiet quiet boxed _ clones_kept _ _ (kafka_unsignalled_lift _ _ _ _ _) s Ho).
Qed.

Lemma ping_reaches_backends_witness :
  ∃ p q p' q' : Procs,
    ((p, q) ⊢ producer_response (consumer Z.of_nat 5 6) Z.of_nat Z.of_nat 1 2 3 4 ping_request ⇓ ok_response ⊣ (p', q')) ∧
    ∃ s : Kaf, ReportingJoinHandle.poll (Kafka.spawned s) = Pending ∧
      (map (KafkaProducer.record_of KafkaDemo.names)
         (producer_items "producer" "node_0" Z.of_nat Z.of_nat 1 2 4)) `prefix_of` (sunk s).1.
Proof.
  destruct (install_serves started_ "producer" "node_0" reporters ∅ backends backends_started) as (p & _ & Op & Sp).
  destruct (install_serves started_ "consumer" "node_0" reporters ∅ backends backends_started) as (q & _ & Oq & Sq).
  destruct (ping_reaches_backends accept accept note note id noting accepting
    KafkaDemo.keep_record KafkaDemo.note KafkaDemo.names id ltac:(by intros rc k r k' [= _ <-])
    quiet boxed pipe0 pipe0 tt tt [] ([], []) grpc_pipe_empty grpc_pipe_empty
    ltac:(intros; by eexists _, _) ltac:(intros; by eexists)
    "producer" "node_0" "consumer" "node_0" reporters reporters p q
    Z.of_nat Z.of_nat Z.of_nat 1 2 3 4 5 6 Sp Sq ltac:(by rewrite Op) ltac:(by rewrite Oq)
    eq_refl eq_refl eq_refl eq_refl) as (p' & q' & Hr & [_ Hk] & _).
  exists p, q, p', q'. split; [exact Hr|].
  destruct (Hk _ (rtc_refl _ _)) as (_ & _ & s & Hs & Hi & _).
  destruct (Hk s Hs) as (Hp & Hse & _). exists s. split; [exact Hp|exact (Hse Hi)].
Defined.
End E2eBackendsDemo.
