(* ===== verification/E2eKafka.v ===== *)
(** * e2e/src/e2e_kafka.rs: the program that checks the records

    The end-to-end test runs the producer and the consumer of E2e.v against a
    Kafka broker, and then this program, which reads three records of each topic
    and asserts what they say. Its assertions are the repository's own statement
    of what the crate reports; here they are proved of everything the two
    processes report, in whatever order the broker yields it.

    The rdkafka client is the interface [KafkaClient]; the decoders that prost
    generates are [ProstDecode] (Codec.v). A failing assertion is a panic; the Debug text
    in the message of a panic is left out. *)

From Stdlib Require Import Permutation.
From S2P Require Import Prelude RustStr Common F64 Error WaitGroup Proto Reporter Codec Assert Tracer SpanStack TraceContext Session Base64 Propagation Logging E2e Meter Task Metricer E2eMetrics Channel Pipeline Grpc Kafka.

Local Open Scope Z_scope.
Local Open Scope sky_scope.

(** The consumer of rdkafka, acting on a network [N]. [recv_within] is [recv]
    under tokio's [timeout], which yields nothing when the time has elapsed;
    a message may have no payload. *)
Class KafkaClient {FE : ForeignErrors} (N : Type) := {
  StreamConsumer : Type;
  create : list (string * string) → M N (result StreamConsumer rdkafka_error);
  subscribe : StreamConsumer → list string → M N (result unit rdkafka_error);
  recv_within : Z → StreamConsumer → M N (option (result (option string) rdkafka_error))
}.

(** ** The program *)
Section Program.
Context {FE : ForeignErrors} {PN : ProtoNums} {PD : ProstDecode} {N : Type} {KC : KafkaClient N}.

(** The assertions on one span; that of the job has no assertion on its name. *)
Definition check_span (span : SpanObject.t) (span_id parent_span_id : Z) (operation_name : option string)
    (peer : string) (span_type : SpanType) (span_layer : SpanLayer) (refs : nat) : M N unit :=
  assert_eq (SpanObject.span_id span) span_id ;;
  assert_eq (SpanObject.parent_span_id span) parent_span_id ;;
  match operation_name with Some name => assert_eq (SpanObject.operation_name span) name | None => ret tt end ;;
  assert_eq (SpanObject.peer span) peer ;;
  assert_eq (SpanObject.span_type span) (SpanType_as_i32 span_type) ;;
  assert_eq (SpanObject.span_layer span) (SpanLayer_as_i32 span_layer) ;;
  assert_eq (SpanObject.component_id span) 11000 ;;
  assert_eq (SpanObject.is_error span) false ;;
  assert_eq (length (SpanObject.tags span)) 0%nat ;;
  assert_eq (length (SpanObject.logs span)) 0%nat ;;
  assert_eq (length (SpanObject.refs span)) refs.

(** The assertions on a reference to the producer. *)
Definition check_ref (r : SegmentReference.t) (ref_type : RefType) (parent_span_id : Z)
    (parent_endpoint network_address_used_at_peer : string) : M N unit :=
  assert_eq (SegmentReference.ref_type r) (RefType_as_i32 ref_type) ;;
  assert_eq (SegmentReference.parent_span_id r) parent_span_id ;;
  assert_eq (SegmentReference.parent_service r) "producer" ;;
  assert_eq (SegmentReference.parent_service_instance r) "node_0" ;;
  assert_eq (SegmentReference.parent_endpoint r) parent_endpoint ;;
  assert_eq (SegmentReference.network_address_used_at_peer r) network_address_used_at_peer.

Definition check_segment (segment : SegmentObject.t) : M N unit :=
  let spans := SegmentObject.spans segment in
  assert_eq (SegmentObject.service_instance segment) "node_0" ;;
  if String.eqb (SegmentObject.service segment) "consumer" then
    assert_eq (length spans) 1%nat ;;
    span <- index spans 0 ;;
    check_span span 0 (-1) (Some "/pong") "" Entry Http 1 ;;
    r <- index (SpanObject.refs span) 0 ;;
    check_ref r CrossProcess 1 "/pong" "127.0.0.1:8082"
  else if String.eqb (SegmentObject.service segment) "producer" then
    youngest <- last_of spans ;;
    if String.eqb (SpanObject.operation_name youngest) "/ping" then
      assert_eq (length spans) 3%nat ;;
      span0 <- index spans 0 ;;
      check_span span0 1 0 (Some "/pong") "127.0.0.1:8082" Exit Unknown 0 ;;
      span1 <- index spans 1 ;;
      check_span span1 2 0 (Some "async-job") "" Local Unknown 0 ;;
      span2 <- index spans 2 ;;
      check_span span2 0 (-1) (Some "/ping") "" Entry Http 0
    else if String.eqb (SpanObject.operation_name youngest) "async-callback" then
      assert_eq (length spans) 1%nat ;;
      span <- index spans 0 ;;
      check_span span 0 (-1) None "" Entry Http 1 ;;
      r <- index (SpanObject.refs span) 0 ;;
      check_ref r CrossThread 2 "async-job" ""
    else panic ("unknown operation_name " +:+ SpanObject.operation_name youngest)
  else panic ("unknown service " +:+ SegmentObject.service segment).

Definition check_label (l : Label.t) (name value : string) : M N unit :=
  assert_eq (Label.name l) name ;; assert_eq (Label.value l) value.

(** Bound and count of a bucket. *)
Definition check_bucket (b : MeterBucketValue.t) (bucket count : Z) : M N unit :=
  assert_eq_f64 (MeterBucketValue.bucket b) (f64_of_Z bucket) ;;
  assert_eq (MeterBucketValue.count b) count.

Definition is_region (l : Label.t) (region : string) : bool :=
  String.eqb (Label.name l) "region" && String.eqb (Label.value l) region.

Definition check_meter (meter : MeterData.t) : M N unit :=
  assert_eq (MeterData.service meter) "consumer" ;;
  assert_eq (MeterData.service_instance meter) "node_0" ;;
  match MeterData.metric meter with
  | Some (MeterData.SingleValue value) =>
      assert_eq (MeterSingleValue.name value) "instance_trace_count" ;;
      label <- index (MeterSingleValue.labels value) 0 ;;
      if is_region label "us-west" then
        az <- index (MeterSingleValue.labels value) 1 ;;
        check_label az "az" "az-1" ;;
        assert_eq_f64 (MeterSingleValue.value value) (f64_of_Z 30)
      else if is_region label "us-east" then
        az <- index (MeterSingleValue.labels value) 1 ;;
        check_label az "az" "az-3" ;;
        assert_eq_f64 (MeterSingleValue.value value) (f64_of_Z 20)
      else panic "unknown label"
  | Some (MeterData.Histogram value) =>
      assert_eq (MeterHistogram.name value) "instance_trace_count" ;;
      region <- index (MeterHistogram.labels value) 0 ;;
      check_label region "region" "us-north" ;;
      az <- index (MeterHistogram.labels value) 1 ;;
      check_label az "az" "az-1" ;;
      bucket0 <- index (MeterHistogram.values value) 0 ;;
      check_bucket bucket0 10 1 ;;
      bucket1 <- index (MeterHistogram.values value) 1 ;;
      check_bucket bucket1 20 2 ;;
      bucket2 <- index (MeterHistogram.values value) 2 ;;
      check_bucket bucket2 30 0
  | None => panic "unknown metric"
  end.

(** The tag that a log record has. *)
Definition level (value : string) : option LogTags.t :=
  Some (LogTags.Mk [KeyStringValuePair.Mk "level" value]).

Definition check_log (log : LogData.t) : M N unit :=
  let is_from service :=
    String.eqb (LogData.service log) service && String.eqb (LogData.service_instance log) "node_0" in
  if is_from "producer" then
    assert_eq (LogData.endpoint log) "/ping" ;;
    body <- expect UNWRAP_MSG (LogData.body log) ;;
    match LogDataBody.content body with
    | Some (LogDataBody.Json json) =>
        assert_eq json (json_message "handle ping") ;;
        assert_eq (LogData.trace_context log) None ;;
        assert_eq (LogData.tags log) (level "DEBUG")
    | Some (LogDataBody.Text text) =>
        assert_eq text "do http request" ;;
        trace_context <- expect UNWRAP_MSG (LogData.trace_context log) ;;
        assert_eq (Proto.TraceContext.span_id trace_context) 1 ;;
        assert_eq (LogData.tags log) (level "INFO")
    | _ => panic "unknown log body"
    end
  else if is_from "consumer" then
    assert_eq (LogData.endpoint log) "/pong" ;;
    body <- expect UNWRAP_MSG (LogData.body log) ;;
    assert_eq (LogDataBody.content body) (Some (LogDataBody.Json (json_message "handle pong"))) ;;
    assert_eq (LogData.trace_context log) None ;;
    assert_eq (LogData.tags log) (level "DEBUG")
  else panic ("unknown log " +:+ LogData.service log +:+ " " +:+ LogData.service_instance log).

(** [ClientConfig::new()] with its [set]s. *)
Definition consumer_config (topic : string) : list (string * string) :=
  [("bootstrap.servers", "127.0.0.1:9092"); ("broker.address.family", "v4"); ("session.timeout.ms", "30000");
   ("enable.auto.commit", "true"); ("auto.offset.reset", "earliest"); ("enable.auto.offset.store", "true");
   ("group.id", topic)].

Definition create_consumer (topic : string) : M N StreamConsumer :=
  r <- create (consumer_config topic) ;;
  consumer <- unwrap r ;;
  r <- subscribe consumer [topic] ;;
  unwrap r ;;
  ret consumer.

(** [decode] is [Message::decode] of the type wanted. *)
Definition consumer_recv {T} (decode : string → result T decode_error) (consumer : StreamConsumer) : M N T :=
  elapsed <- recv_within 12 consumer ;;
  r <- expect UNWRAP_ERR_MSG elapsed ;;
  message <- unwrap r ;;
  value <- expect UNWRAP_MSG message ;;
  unwrap (decode value).

Definition segment : M N unit :=
  consumer <- create_consumer "skywalking-segments" ;;
  repeatedly 3 (segment <- consumer_recv decode_segment consumer ;; check_segment segment).
Definition meter : M N unit :=
  consumer <- create_consumer "skywalking-meters" ;;
  repeatedly 3 (meter <- consumer_recv decode_meter consumer ;; check_meter meter).
Definition log : M N unit :=
  consumer <- create_consumer "skywalking-logs" ;;
  repeatedly 3 (log <- consumer_recv decode_log consumer ;; check_log log).

Definition main : M N unit := segment ;; meter ;; log.
End Program.

(** ** The broker *)
Section Broker.
Context {FE : ForeignErrors} {PM : ProstMessage} {PD : ProstDecode} {N : Type} {KC : KafkaClient N}.

(** The payloads of the records of the items, by topic. *)
Definition payloads (items : list CollectItem) (topic : string) : list string :=
  KafkaProducer.payload <$> filter (λ rc, KafkaProducer.topic rc = topic)
    (KafkaProducer.record_of (TopicNames.new None) <$> items).

(** What rdkafka documents, for a broker that is up and whose topics hold
    [topics]: a consumer can be created for a group that has none of its own yet
    ([groups] have) and subscribes to a topic; as it starts at the earliest record
    it is given all of them, in an order that only the partitions restrict, within
    the time. *)
Class KafkaClientLaws (broker : (string → list string) → gset string → N → Prop)
    (reading : (string → list string) → gset string → N → StreamConsumer → list string → Prop) : Prop := {
  subscribe_law topics groups n topic : broker topics groups n → topic ∉ groups →
    ∃ c n1 n2 records, n ⊢ create (consumer_config topic) ⇓ Ok c ⊣ n1 ∧ n1 ⊢ subscribe c [topic] ⇓ Ok tt ⊣ n2 ∧
      records ≡ₚ topics topic ∧ reading topics ({[topic]} ∪ groups) n2 c records;
  recv_law topics groups n c record records : reading topics groups n c (record :: records) →
    ∃ n', n ⊢ recv_within 12 c ⇓ Some (Ok (Some record)) ⊣ n' ∧ reading topics groups n' c records;
  reading_broker topics groups n c records : reading topics groups n c records → broker topics groups n
}.

Context (broker : (string → list string) → gset string → N → Prop)
  (reading : (string → list string) → gset string → N → StreamConsumer → list string → Prop)
  {KL : KafkaClientLaws broker reading}.

(** One topic: every record passes its check. *)
Lemma topic_passes {T} (decode : string → result T decode_error) (check : T → M N unit) topics groups topic k n :
  broker topics groups n → topic ∉ groups → (k ≤ length (topics topic))%nat →
  (∀ record, record ∈ topics topic → ∃ t, decode record = Ok t ∧ ∀ n, n ⊢ check t ⇓ tt ⊣ n) →
  ∃ n', (n ⊢ (consumer <- create_consumer topic ;; repeatedly k (t <- consumer_recv decode consumer ;; check t))
           ⇓ tt ⊣ n') ∧ broker topics ({[topic]} ∪ groups) n'.
Proof.
  intros Hb Hg Hk Hc. destruct (subscribe_law topics groups n topic Hb Hg) as (c & n1 & n2 & records & H1 & H2 & Hp & Hr).
  assert (Hcr : n ⊢ create_consumer topic ⇓ c ⊣ n2).
  { unfold create_consumer. rewrite (bind_Ret _ _ _ _ _ H1). cbn [unwrap]. rewrite bind_ret_l.
    rewrite (bind_Ret _ _ _ _ _ H2). reflexivity. }
  rewrite (bind_Ret _ _ _ _ _ Hcr). rewrite <-(Permutation_length Hp) in Hk.
  assert (Hall : ∀ record, record ∈ records → ∃ t, decode record = Ok t ∧ ∀ n, n ⊢ check t ⇓ tt ⊣ n).
  { intros x Hx. apply Hc. by rewrite <-Hp. }
  clear Hb Hg H1 H2 Hp Hc Hcr n n1. revert records n2 Hr Hk Hall.
  induction k as [|k IH]; intros records n Hr Hk Hall; cbn [repeatedly].
  - exists n. split; [done|]. by eapply reading_broker.
  - destruct records as [|x records]; [cbn in Hk; lia|].
    destruct (recv_law _ _ _ _ _ _ Hr) as (n' & Hx & Hr'). destruct (Hall x) as (t & Ht & Hck); [by left|].
    assert (Hbody : n ⊢ (t <- consumer_recv decode c ;; check t) ⇓ tt ⊣ n').
    { assert (n ⊢ consumer_recv decode c ⇓ t ⊣ n') as Hrecv.
      { unfold consumer_recv. rewrite (bind_Ret _ _ _ _ _ Hx). cbn. by rewrite Ht. }
      rewrite (bind_Ret _ _ _ _ _ Hrecv). apply Hck. }
    rewrite (bind_Ret _ _ _ _ _ Hbody). apply (IH records n' Hr'); [cbn in Hk; lia|].
    intros y Hy. apply Hall. by right.
Qed.

Lemma record_topic names item :
  KafkaProducer.topic (KafkaProducer.record_of names item) = (KafkaProducer.route names item).1.
Proof. unfold KafkaProducer.record_of. by destruct (KafkaProducer.route names item). Qed.

(** The records of a topic, from the items. *)
Lemma elem_of_payloads items topic x :
  x ∈ payloads items topic ↔ ∃ item, x = encode_to_vec item ∧
    (KafkaProducer.route (TopicNames.new None) item).1 = topic ∧ item ∈ items.
Proof.
  unfold payloads. rewrite list_elem_of_fmap. setoid_rewrite list_elem_of_filter. setoid_rewrite list_elem_of_fmap.
  unfold KafkaProducer.record_of. split.
  - intros (rc & -> & Ht & item & -> & Hi). exists item. revert Ht. by destruct (KafkaProducer.route _ item).
  - intros (item & -> & Ht & Hi). exists (KafkaProducer.record_of (TopicNames.new None) item).
    unfold KafkaProducer.record_of. destruct (KafkaProducer.route _ item) eqn:E; cbn in *. split_and!; [done..|].
    exists item. by rewrite E.
Qed.
End Broker.

(** Goes through a check assertion by assertion. *)
Ltac pass_checks :=
  repeat lazymatch goal with
  | |- passes (ret tt) => apply passes_ret
  | |- passes (assert_eq _ _) => apply passes_assert; reflexivity
  | |- passes (assert_eq_f64 _ _) => apply passes_assert_f64; reflexivity
  | |- passes (bind (expect _ _) _) => eapply passes_expect; [reflexivity|cbv beta]
  | |- passes (bind _ _) => apply passes_bind
  | |- passes (if _ then _ else _) => first [apply passes_if; [reflexivity|] | apply passes_else; [reflexivity|]]
  | |- _ => progress first
      [ progress cbv [check_segment check_span check_ref check_meter check_label check_bucket check_log index last_of]
      | progress cbn ]
  end.

Section Accepted.
Context {FE : ForeignErrors} {PN : ProtoNums} {PD : ProstDecode} {BC : Build} {N : Type}.

(** The program's check of an item. *)
Definition check_item (item : CollectItem) : M N unit :=
  match item with
  | Trace s => check_segment s
  | Log l => check_log l
  | Meter m => check_meter m
  | _ => panic "not a kind that the program reads"
  end.

Lemma producer_items_pass clock clock2 u1 u2 u4 :
  Forall (λ item, passes (S := N) (check_item item)) (producer_items "producer" "node_0" clock clock2 u1 u2 u4).
Proof. repeat constructor; cbn [check_item log_item]; pass_checks. Qed.

Lemma consumer_items_pass clock u1 u2 u6 :
  Forall (λ item, passes (S := N) (check_item item)) (consumer_items "producer" "node_0" "consumer" "node_0" clock u1 u2 u6).
Proof. repeat constructor; cbn [check_item log_item]; pass_checks. Qed.

(** A message of the consumer's metricer. *)
Lemma metric_passes (d : MeterData.t) :
  MeterData.service d = "consumer" → MeterData.service_instance d = "node_0" →
  MeterData.metric d ∈ Some <$> [counter_metric; gauge_metric; histogram_metric] → passes (S := N) (check_meter d).
Proof.
  intros Hs Hi. unfold check_meter. rewrite Hs, Hi. cbn [fmap list_fmap].
  rewrite !elem_of_cons. intros [->|[->|[->|[]%elem_of_nil]]]; pass_checks.
Qed.

Lemma metrics_pass ds :
  MeterData.metric <$> ds ≡ₚ Some <$> [counter_metric; gauge_metric; histogram_metric] →
  Forall (λ d, MeterData.service d = "consumer" ∧ MeterData.service_instance d = "node_0") ds →
  Forall (λ item, passes (S := N) (check_item item)) (map Meter ds).
Proof.
  intros Hp Hd. apply Forall_map, Forall_forall. intros d Hin. rewrite Forall_forall in Hd.
  destruct (Hd d Hin) as [Hs Hi]. apply metric_passes; [done..|]. rewrite <-Hp. by apply list_elem_of_fmap_2.
Qed.
End Accepted.

(** ** The whole end-to-end test *)
Section EndToEnd.
Context {FE : ForeignErrors} {B : Base64} {BL : Base64Laws B} {BC : Build} {RW : RwLock} {PN : ProtoNums}.
Context {PM : ProstMessage} {PD : ProstDecode} {N : Type} {KC : KafkaClient N}.
Context (broker : (string → list string) → gset string → N → Prop)
  (reading : (string → list string) → gset string → N → StreamConsumer → list string → Prop)
  {KL : KafkaClientLaws broker reading}.

(** The topic of a kind of items has at least as many records. *)
Lemma payloads_length {I} (kind : CollectItem → option I) items topic :
  (∀ item i, kind item = Some i → (KafkaProducer.route (TopicNames.new None) item).1 = topic) →
  (length (omap kind items) ≤ length (payloads items topic))%nat.
Proof.
  intros Hk. unfold payloads. rewrite length_fmap. induction items as [|x l IH]; [done|].
  rewrite fmap_cons, filter_cons. cbn [omap list_omap]. specialize (Hk x). destruct (kind x) as [i|].
  - rewrite decide_True by (rewrite record_topic; by eapply Hk). cbn. lia.
  - case_decide; cbn; lia.
Qed.

(** What reaches the broker is checked, whatever came before and in any order. *)
Lemma main_passes items n :
  broker (payloads items) ∅ n → Forall readable items → Forall (λ item, passes (S := N) (check_item item)) items →
  (3 ≤ length (omap segment_of items))%nat → (3 ≤ length (omap meter_of items))%nat →
  (3 ≤ length (omap log_of items))%nat →
  ∃ n', n ⊢ main ⇓ tt ⊣ n'.
Proof.
  intros Hb Hr Hc Ks Km Kl. rewrite Forall_forall in Hr, Hc.
  assert (Hno : ∀ item, item ∈ items → (∀ i, item ≠ Ping i) ∧ ∀ i, item ≠ Instance_ i).
  { intros item Hi. specialize (Hc item Hi). split; intros i ->; specialize (Hc n); discriminate Hc. }
  destruct (topic_passes broker reading decode_segment check_segment (payloads items) ∅ "skywalking-segments" 3 n)
    as (n1 & H1 & B1); [done|set_solver|etrans; [exact Ks|apply payloads_length; by intros []]| |].
  { intros x (item & -> & Ht & Hi)%elem_of_payloads. destruct item as [s| | | |]; try discriminate Ht.
    exists s. split; [apply (Hr _ Hi)|apply (Hc _ Hi)]. }
  destruct (topic_passes broker reading decode_meter check_meter (payloads items)
    ({["skywalking-segments"]} ∪ ∅) "skywalking-meters" 3 n1)
    as (n2 & H2 & B2); [done|set_solver|etrans; [exact Km|apply payloads_length; by intros []]| |].
  { intros x (item & -> & Ht & Hi)%elem_of_payloads. destruct item as [| |m| |]; try discriminate Ht.
    exists m. split; [apply (Hr _ Hi)|apply (Hc _ Hi)]. }
  destruct (topic_passes broker reading decode_log check_log (payloads items)
    ({["skywalking-meters"]} ∪ ({["skywalking-segments"]} ∪ ∅)) "skywalking-logs" 3 n2)
    as (n3 & H3 & B3); [done|set_solver|etrans; [exact Kl|apply payloads_length; by intros []]| |].
  { intros x (item & -> & Ht & Hi)%elem_of_payloads. destruct item as [|l| | |i]; try discriminate Ht.
    - exists l. split; [apply (Hr _ Hi)|apply (Hc _ Hi)].
    - by destruct (Hno _ Hi) as [H _]; destruct (H i). }
  exists n3. unfold main. rewrite (bind_Ret _ _ _ _ _ H1), (bind_Ret _ _ _ _ _ H2). exact H3.
Qed.

Context {E : Type} `{HR : Report R W} (ok : R → W → Prop) (delivered : W → list CollectItem)
  {HL : ReportLaws R W ok delivered}.

(** C11: the end-to-end test of the repository passes. A ping through both
    processes, and a round of the consumer's metricer, in any order of its map,
    leave records in the topics of which every assertion of the check program
    holds, in whatever order the broker yields them and at whatever times and
    with whatever UUIDs they were made: the program ends without a panic. *)
Theorem e2e_kafka_passes r r' (p q : Process R W) clock clock2 clock3 u1 u2 u3 u4 u5 u6 :
  serves ok "producer" "node_0" r p → serves ok "consumer" "node_0" r' q →
  delivered (out p) = [] → delivered (out q) = [] →
  in_unsigned 128 u1 = true → in_unsigned 128 u2 = true →
  ∃ p' q',
    ((p, q) ⊢ producer_response (consumer clock3 u5 u6) clock clock2 u1 u2 u3 u4 ping_request
       ⇓ ok_response ⊣ (p', q')) ∧
    let '(m, cells) := consumer_meters r' in
    ((metricer_new "consumer" "node_0" r', ∅) ⊢ run_consumer_metric ⇓ tt ⊣ (m, cells)) ∧
    ∀ order (e : E), values_order m order →
      ∃ v, (MkWorld cells e (out q') ⊢ report_all m order ⇓ tt ⊣ MkWorld cells e v) ∧
        let items := delivered (out p') ++ delivered v in
        ∀ n, broker (payloads items) ∅ n → Forall readable items → ∃ n', n ⊢ main ⇓ tt ⊣ n'.
Proof.
  intros Hp Hq Dp Dq H1 H2.
  destruct (ping_pong_run ok delivered _ _ _ _ _ _ _ _ clock clock2 clock3 u1 u2 u3 u4 u5 u6 Hp Hq eq_refl eq_refl H1 H2)
    as (p' & q' & Hr & Ap & Aq & _ & Sq).
  exists p', q'. split; [exact Hr|].
  pose proof (consumer_round (E := E) ok delivered r' (out q') (s_ok _ _ _ _ _ Sq)) as [Hrun Hround].
  destruct (consumer_meters r') as [m cells]. split; [exact Hrun|]. intros order e Ho.
  destruct (Hround order e Ho) as (ds & v & Hv & _ & Dv & Hm & Hd). exists v. split; [exact Hv|].
  intros items n Hb Hread. apply (main_passes items n Hb Hread).
  all: unfold items; rewrite Dv, (a_items _ _ _ _ Ap), (a_items _ _ _ _ Aq), Dp, Dq; cbn [app].
  - rewrite !Forall_app. split_and!; [apply producer_items_pass|apply consumer_items_pass|by apply metrics_pass].
  - rewrite !omap_app, !length_app. cbn. lia.
  - rewrite !omap_app, !length_app. cbn.
    assert (Hl : length ds = 3%nat) by (apply Permutation_length in Hm; by rewrite length_fmap in Hm).
    rewrite <-Hl. clear. induction ds; cbn; lia.
  - rewrite !omap_app, !length_app. cbn. lia.
Qed.
End EndToEnd.

(** ** A broker that gives each group all records of its topic *)
Module E2eKafkaDemo.
#[local] Existing Instance text_errors.
#[local] Existing Instances Rfc4648.rfc4648 Rfc4648.laws.
#[local] Existing Instances test_build CountingLock.lock example_nums.
#[local] Existing Instances lossless_encoder lossless_decoder.

(** What is left to read, by topic; a consumer is its group, which is its topic. *)
Definition Left : Type := string → list string.
#[local] Instance log_broker : KafkaClient Left := {|
  StreamConsumer := string;
  create config := ret (Ok (default "" (snd <$> last config)));
  subscribe _ _ := ret (Ok tt);
  recv_within _ c := λ n,
    match n c with
    | [] => (Ret None, n)
    | x :: q => (Ret (Some (Ok (Some x))), λ t, if decide (t = c) then q else n t)
    end
|}.
Definition up (topics : string → list string) (groups : gset string) (n : Left) : Prop :=
  ∀ t, t ∉ groups → n t = topics t.
Definition at_offset (topics : string → list string) (groups : gset string) (n : Left) (c : string) (q : list string) : Prop :=
  up topics groups n ∧ c ∈ groups ∧ n c = q.

#[local] Instance log_broker_laws : KafkaClientLaws up at_offset.
Proof.
  split.
  - intros topics groups n t Hn Ht. exists t, n, n, (topics t). split_and!; [done..|].
    split_and!; [intros t' Ht'; apply Hn; set_solver|set_solver|by apply Hn].
  - intros topics groups n c x q (Hn & Hc & Hq). cbn. rewrite Hq. eexists. split; [done|].
    split_and!; [|done|by rewrite decide_True].
    intros t Ht. rewrite decide_False by (by intros ->). by apply Hn.
  - by intros topics groups n c q (Hn & _).
Qed.

Abbreviation ok := (both_ok (R1 := MockReporter) (W1 := list CollectItem)
  (R2 := MockReporter) (W2 := list CollectItem) (λ _ _, True) (λ _ _, True)).
Abbreviation to_kafka := (λ w : E2eDemo.Backends, id (kafka_world w)).

Lemma e2e_kafka_passes_witness :
  ∃ (p q p' q' : E2eDemo.Proc) v (n' : Left),
    ((p, q) ⊢ producer_response (consumer Z.of_nat 5 6) Z.of_nat Z.of_nat 1 2 3 4 ping_request ⇓ ok_response ⊣ (p', q')) ∧
    (payloads (to_kafka (out p') ++ to_kafka v) ⊢ main ⇓ tt ⊣ n').
Proof.
  destruct (install_serves ok "producer" "node_0" E2eDemo.both ∅ E2eDemo.silent) as (p & _ & Hp & Sp); [done|].
  destruct (install_serves ok "consumer" "node_0" E2eDemo.both ∅ E2eDemo.silent) as (q & _ & Hq & Sq); [done|].
  destruct (e2e_kafka_passes (KC := log_broker) up at_offset (E := unit) ok to_kafka E2eDemo.both E2eDemo.both p q
    Z.of_nat Z.of_nat Z.of_nat 1 2 3 4 5 6 Sp Sq ltac:(cbn; by rewrite Hp) ltac:(cbn; by rewrite Hq) eq_refl eq_refl)
    as (p' & q' & Hr & Hm).
  pose proof (consumer_meters_values (E := unit) E2eDemo.both) as Hv.
  destruct (consumer_meters E2eDemo.both) as [m cells]. destruct Hm as [_ Hm].
  destruct (Hm [(0%nat, 7); (1%nat, 7); (2%nat, 7)] tt) as (v & _ & Hmain); [exact (Permutation_sym Hv)|].
  destruct (Hmain (payloads (to_kafka (out p') ++ to_kafka v))) as (n' & Hn);
    [done|apply Forall_forall; intros; apply lossless_readable|].
  by exists p, q, p', q', v, n'.
Defined.
End E2eKafkaDemo.
