(* ===== verification/Examples.v ===== *)
(** * The programs of examples/

    Each [main] connects a gRPC reporter, starts the reporting with a shutdown
    signal, uses one front end, and awaits the handle. A [main] is a relation
    between the network it starts from, the result it returns, and the state of
    the reporting when the handle was ready: the deterministic part is run, the
    background tasks go on in any way. *)

From S2P Require Import Prelude RustStr Common Error WaitGroup Proto Reporter Tracer SpanStack TraceContext Session Base64 Propagation Logging E2e Channel Task Booting MetricExample Management Pipeline Running Grpc GrpcStream GrpcSystem Backends.

Local Open Scope Z_scope.
Local Open Scope sky_scope.

Section Examples.
Context {FE : ForeignErrors} {B : Base64} {BC : Build} {RW : RwLock} {PN : ProtoNums} {TN : Tonic}.
Context {TK : Tasks} {TL : TasksLaws} {IV : Intervals} {IL : IntervalsLaws} `{MP : Mpsc Ch} {ML : MpscLaws Ch}.

(** The transport, the management service and the default handlers. *)
Context {channel_ endpoint Net : Type} (parse_endpoint : string → result endpoint transport_error)
  (endpoint_connect : endpoint → M Net (result channel_ transport_error)).
Context {G H HF : Type}.
Context (report_instance_properties : InstanceProperties.t → M G (result unit status)).
Context (rpc_keep_alive : InstancePingPkg.t → M G (result unit status)).
Context (err_handle : string → InnerSender.dyn_error → M H unit).
Context (status_handle : string → status → M H unit).
Context (front_err : string → channel_error → M HF unit) (boxed : channel_error → other_error).
Context (hf : HF) (g : G) (h : H).

(** The futures that are given as shutdown signals. *)
Context {Signal : Type} (pending ctrl_c ready : Signal).

Abbreviation Front_ := (Front (W := Ch CollectItem) (H := HF)).
Abbreviation Grpc_ := (reporting (Ch := Ch) (G := G) (H := H) (W := Ch CollectItem) (HF := HF)).
Abbreviation Handler := (string → channel_error → M HF unit).
Abbreviation Reporter := (GrpcReporter.t channel_ Handler unit).
Abbreviation Handle := (GrpcReporter.handle channel_ Handler (string → status → M H unit) Signal unit).

(** The two ends of the reporter's channel are in its [Front]. *)
Definition connect : string → M Net (result (Reporter * Reporting.shared unit) Error) :=
  GrpcReporter.connect parse_endpoint endpoint_connect front_err (tt, tt).
Definition reporting_ : Reporter → M (Reporting.shared unit) Handle :=
  GrpcReporter.reporting status_handle pending.
Definition fresh_front : Front_ := MkFront (channel None) false hf.

(** [Reporting::spawn], on a reporter that may already hold items. *)
Definition spawn_on (f : Front_) (_ : Handle) : Grpc_ :=
  MkReporting (MkState f [] Looping (spawn g h) false None (queued (chan f)) [] [] []) false.

Definition grpc_moves : Grpc_ → Grpc_ → Prop :=
  GrpcSystem.step report_instance_properties rpc_keep_alive err_handle status_handle front_err boxed queued nobody.

(** ** simple_log_report.rs *)
Definition ADDRESS : string := "http://0.0.0.0:11800".

Definition something : LogRecord.t := LogRecord.set_content "something to log" LogRecord.new.
Definition log_something (now : Z) (r : Reporter) : M Front_ unit :=
  Logger.log now something (Logger.new "service" "instance" (MkReporter (GrpcReporter.err_handle r))).

Inductive log_main (now : Z) (n : Net) : result unit Error → option Grpc_ → Prop :=
| log_not_connected e n' :
    n ⊢ connect ADDRESS ⇓ Err e ⊣ n' → log_main now n (Err e) None
| log_awaited r shared n' f hd shared' s x :
    n ⊢ connect ADDRESS ⇓ Ok (r, shared) ⊣ n' →
    fresh_front ⊢ log_something now r ⇓ tt ⊣ f →
    shared ⊢ reporting_ r ⇓ hd ⊣ shared' →
    rtc grpc_moves (spawn_on f (GrpcReporter.with_graceful_shutdown ready hd)) s →
    handle_poll s = Ready x →
    log_main now n x (Some s).

(** ** simple_trace_report.rs *)

(** What goes on beside [main]: the worker, the streaming tasks, and Ctrl-C.
    Nobody else uses the reporter. *)
Definition background (s s' : Grpc_) : Prop := rtc grpc_moves s s' ∧ accepted (pipe s') = accepted (pipe s).

(** The result, the state of the reporting when the request has been handled,
    and the state when the handle was ready. *)
Inductive trace_main (clock : nat → Z) (u1 u2 : Z) (n : Net) : result unit Error → option (Grpc_ * Grpc_) → Prop :=
| trace_not_connected e n' :
    n ⊢ connect ADDRESS ⇓ Err e ⊣ n' → trace_main clock u1 u2 n (Err e) None
| trace_awaited r shared n' hd shared' s1 sched p s x :
    n ⊢ connect ADDRESS ⇓ Ok (r, shared) ⊣ n' →
    shared ⊢ reporting_ r ⇓ hd ⊣ shared' →
    background (spawn_on fresh_front (GrpcReporter.with_graceful_shutdown ctrl_c hd)) s1 →
    (∀ k s, background s (sched k s)) →
    let '(tracer, memory) := tracer_new "service" "instance" (MkRunning (GrpcReporter.err_handle r)) ∅ in
    (MkProcess None None memory (MkWorld s1 sched 0), tt) ⊢ handle_request clock u1 u2 tracer ⇓ tt ⊣ (p, tt) →
    (* the tracer is gone, and with it the reporter *)
    let s2 := Running.system (out p) in
    rtc grpc_moves (drop_reporter s2) s →
    handle_poll s = Ready x →
    trace_main clock u1 u2 n x (Some (s2, s)).

(** ** simple_management_report.rs *)
Definition HEARTBEAT : Z := 30 * 10 ^ 9.

(** Nobody else uses the reporter, nor is Ctrl-C pressed, while the front end is
    looked at. *)
Definition undisturbed (s0 : Grpc_) (sched : nat → Grpc_ → Grpc_) : Prop :=
  ∀ k s, rtc grpc_moves s0 s → open (pipe s) → quiet grpc_moves s (sched k s).

(** The system that [insert_os_info] looks at. *)
Context (os : Os.t).

(** The manager keeps the reporter until [main] returns. *)
Inductive management_main (n : Net) : result unit Error → option Grpc_ → list CollectItem → Prop :=
| management_not_connected e n' :
    n ⊢ connect ADDRESS ⇓ Err e ⊣ n' → management_main n (Err e) None []
| management_awaited r shared n' hd shared' sched a s x :
    n ⊢ connect ADDRESS ⇓ Ok (r, shared) ⊣ n' →
    shared ⊢ reporting_ r ⇓ hd ⊣ shared' →
    let s0 := spawn_on fresh_front (GrpcReporter.with_graceful_shutdown ctrl_c hd) in
    undisturbed s0 sched →
    let manager := manager_new "service" "instance" (MkRunning (GrpcReporter.err_handle r)) in
    rtc (Alive.step manager HEARTBEAT 10 (Os.properties os)) (Alive.spawn (MkWorld s0 sched 0)) a →
    rtc grpc_moves (Running.system (Alive.world a)) s →
    handle_poll s = Ready x →
    management_main n x (Some s) (grpc_accepted (Alive.world a)).

(** ** simple_metric_report.rs: the result, or the metricer's task, whose handle
    [main] awaits *)
Abbreviation Booted := (Boot.state (Metricer.Dyn.t unit) unit (World Grpc_)).

Inductive metric_example (n : Net) : result unit Error + Booted → Prop :=
| metric_not_connected e n' :
    n ⊢ connect ADDRESS ⇓ Err e ⊣ n' → metric_example n (inl (Err e))
| metric_booted r shared n' hd shared' sched b :
    n ⊢ connect ADDRESS ⇓ Ok (r, shared) ⊣ n' →
    shared ⊢ reporting_ r ⇓ hd ⊣ shared' →
    let s0 := spawn_on fresh_front (GrpcReporter.with_graceful_shutdown ctrl_c hd) in
    undisturbed s0 sched →
    metric_main (MkRunning (GrpcReporter.err_handle r)) tt (MkWorld s0 sched 0) b →
    metric_example n (inr b).

(** ** Lemmas *)
Context (errors : H → list string) (HN : counting err_handle status_handle errors).
Context (HC : collaborators report_instance_properties rpc_keep_alive err_handle status_handle).

Abbreviation whole_ := (whole (G := G) (HF := HF) (Ch := Ch) errors queued (λ c : Ch CollectItem, receiving c = false)).
Abbreviation healthy_ := (grpc_healthy report_instance_properties rpc_keep_alive err_handle status_handle front_err
  boxed nobody).
Implicit Types (s : Grpc_) (f : Front_).

Lemma connected_new n address r shared n' :
  n ⊢ connect address ⇓ Ok (r, shared) ⊣ n' → GrpcReporter.err_handle r = front_err.
Proof.
  unfold connect, GrpcReporter.connect. destruct (parse_endpoint address) as [ep|e]; [|done].
  intros (c & n1 & _ & Hc)%bind_inv_Ret. unfold ret in Hc. destruct c; by simplify_eq/=.
Qed.

Lemma not_connected n address e n' :
  n ⊢ connect address ⇓ Err e ⊣ n' → ∃ t, e = TonicTransport t.
Proof.
  unfold connect, GrpcReporter.connect. destruct (parse_endpoint address) as [ep|t]; [|intros [= <- _]; by exists t].
  intros (c & n1 & _ & Hc)%bind_inv_Ret. unfold ret in Hc. destruct c as [ch|t]; simplify_eq/=. by exists t.
Qed.

(** Reporting that has been spawned on an open reporter. *)
Lemma spawn_on_whole f hd : whole_ h (spawn_on f hd).
Proof.
  split; cbn; [|done|exists []; by apply carried_spawn..].
  split; cbn; try done. by exists (queued (chan f)); rewrite app_nil_r.
Qed.

Lemma fresh_open hd : open (pipe (spawn_on fresh_front hd)) ∧ senders (chan (front (pipe (spawn_on fresh_front hd)))) = 1%nat.
Proof. destruct (channel_law (Ch := Ch) (I := CollectItem) None) as (_ & Hn & Hrx & Hcap). by split. Qed.

Lemma spawn_on_attached f hd : senders (chan f) ≠ 0%nat → attached (pipe (spawn_on f hd)).
Proof. by split. Qed.

Lemma nobody_senders (c c' : Ch CollectItem) : nobody c c' → senders c ≠ 0%nat ∧ senders c' ≠ 0%nat.
Proof. done. Qed.

Lemma moves_attached s s' : attached (pipe s) → rtc grpc_moves s s' → attached (pipe s').
Proof.
  intros Ha Hs. refine (grpc_keeps _ _ _ _ _ _ _ attached s s' _ _ Ha Hs).
  - intros p p'. by apply (attached_step front_err boxed _ _ _ nobody_senders).
  - intros p v [? ? ?]. by split.
Qed.

Lemma moves_whole s s' : whole_ h s → rtc grpc_moves s s' → whole_ h s'.
Proof.
  exact (whole_steps report_instance_properties rpc_keep_alive err_handle status_handle errors HC HN
    front_err boxed queued _ nobody h s s').
Qed.

(** While a clone of the reporter is alive the handle is ready with [Ok] only,
    and then what was reported before the signal has been served. *)
Lemma attached_serves s0 s x :
  whole_ h s0 → is_closing (front (pipe s0)) = false → attached (pipe s0) →
  rtc grpc_moves s0 s → handle_poll s = Ready x →
  x = Ok tt ∧ accepted (pipe s0) `prefix_of` delivered (pipe s) ∧
  streamed errors traces segment_of InnerSender.TRACE_MSG h (accepted (pipe s0)) s ∧
  streamed errors logs log_of InnerSender.LOG_MSG h (accepted (pipe s0)) s ∧
  streamed errors meters meter_of InnerSender.METER_MSG h (accepted (pipe s0)) s.
Proof.
  intros Hw Hc Ha Hs Hp. assert (Hws : whole_ h s) by by eapply moves_whole.
  destruct (handle_poll_inv s x Hp) as [Htask _].
  assert (x = Ok tt) as -> by by eapply (at_task _ (moves_attached _ _ Ha Hs)).
  assert (Hd : accepted (pipe s0) `prefix_of` delivered (pipe s)).
  { eapply open_delivered; [apply Hw|done|exact (grpc_grown _ _ _ _ _ _ _ _ _ Hs)|apply Hws|done]. }
  split_and!; [done..|by eapply polled_streamed|by eapply polled_streamed|by eapply polled_streamed].
Qed.

(** The reporter after logging, before the reporting starts. *)
Lemma something_logged now r hd :
  ∃ f, (fresh_front ⊢ log_something now r ⇓ tt ⊣ f) ∧ open (pipe (spawn_on f hd)) ∧ senders (chan f) = 1%nat ∧
    accepted (pipe (spawn_on f hd)) = [log_item "service" "instance" now something].
Proof.
  destruct (fresh_open hd) as [Ho Hn].
  destruct (report_delivers (ReportLaws := channel_laws) (MkReporter (GrpcReporter.err_handle r)) fresh_front
    (log_item "service" "instance" now something) Ho) as (f & Hrun & Hf & Hq).
  exists f. split_and!; [exact Hrun|exact Hf| |].
  - by rewrite (report_channel_senders _ _ _ _ Hrun).
  - cbn. rewrite Hq. cbn. by destruct (channel_law (Ch := Ch) (I := CollectItem) None) as (-> & _).
Qed.

(** C40: the logging example succeeds. Its [main] returns an error if it cannot
    connect, and otherwise, once the handle is ready, [Ok]: the record that was
    logged before the reporting started has then been given to the sink, and
    streamed to the server unless the error handler was told that it could not
    be sent. *)
Theorem simple_log_report_succeeds now n x fin :
  log_main now n x fin →
  match fin with
  | None => ∃ e, x = Err (TonicTransport e)
  | Some s => x = Ok tt ∧
      let items := [log_item "service" "instance" now something] in
      items `prefix_of` delivered (pipe s) ∧ streamed errors logs log_of InnerSender.LOG_MSG h items s
  end.
Proof.
  destruct 1 as [e n' (t & ->)%not_connected|r shared n' f hd shared' s x Hr Hlog Hrep Hs Hp]; [by exists t|].
  destruct (something_logged now r hd) as (f' & Hrun & Ho & Hn & Ha).
  assert (f' = f) as -> by (rewrite Hrun in Hlog; by injection Hlog).
  destruct (attached_serves (spawn_on f hd) s x) as (-> & Hd & _ & Hl & _);
    [apply spawn_on_whole|apply Ho|apply spawn_on_attached; by rewrite Hn|done..|].
  rewrite Ha in Hd, Hl. by split_and!.
Qed.

(** Once connected, it does end. *)
Lemma simple_log_report_ends now n r shared n' hd shared' :
  n ⊢ connect ADDRESS ⇓ Ok (r, shared) ⊣ n' → shared ⊢ reporting_ r ⇓ hd ⊣ shared' →
  ∃ x s, log_main now n x (Some s).
Proof.
  intros Hr Hrep. destruct (something_logged now r hd) as (f & Hrun & Ho & Hn & _).
  pose proof (spawn_on_whole f hd) as Hw. set (s0 := spawn_on f hd) in *.
  destruct (open_finishes front_err boxed _ nobody (GrpcSystem.streams status_handle)
    (deliver_total _ _ _ _ HC) (pipe s0) (w_pipe _ _ _ _ _ Hw) Ho eq_refl) as (p1 & R1 & Hat1 & Ht1 & _);
    [cbn; by rewrite Hn|].
  assert (S1 : rtc grpc_moves s0 (MkReporting p1 (sink_dropped s0))) by by apply worker_steps.
  destruct (joined_resolves _ _ _ _ front_err boxed nobody errors HN HC h _ _ _ (moves_whole _ _ Hw S1) Hat1 Ht1)
    as (s & R & Hp & _).
  eexists _, s. apply (log_awaited _ _ r shared n' f hd shared'); [done..|by etrans|exact Hp].
Qed.

(** *** Programs that report through the running reporter *)
Lemma fresh_healthy r shared n address n' hd sched :
  n ⊢ connect address ⇓ Ok (r, shared) ⊣ n' →
  let s0 := spawn_on fresh_front hd in
  undisturbed s0 sched → healthy_ s0 1 (MkRunning (GrpcReporter.err_handle r)) (MkWorld s0 sched 0).
Proof.
  intros Hr%connected_new s0 Hu. destruct (fresh_open hd) as [Ho Hn].
  split; [by rewrite Hr|apply rtc_refl|exact Ho|exact Hn|exact Hu].
Qed.

Lemma healthy_attached hd n r w :
  healthy_ (spawn_on fresh_front hd) n r w → attached (pipe (Running.system w)).
Proof.
  intros Hh. destruct (fresh_open hd) as [_ Hn].
  eapply moves_attached; [|exact (h_reached _ _ _ _ _ _ Hh)]. apply spawn_on_attached.
  change (senders (chan fresh_front) = 1%nat) in Hn. by rewrite Hn.
Qed.

Lemma healthy_whole_ hd n r w : healthy_ (spawn_on fresh_front hd) n r w → whole_ h (Running.system w).
Proof. intros Hh. eapply moves_whole; [apply spawn_on_whole|exact (h_reached _ _ _ _ _ _ Hh)]. Qed.

(** The management example. Whenever its [main] gets past the connection and
    the handle becomes ready, the result is [Ok], and every properties message
    and ping that the heartbeat had reported has been given to the sink: the
    properties on every tenth tick, a ping on the others. *)
Lemma simple_management_report_succeeds n x fin items :
  management_main n x fin items →
  match fin with
  | None => ∃ e, x = Err (TonicTransport e)
  | Some s => x = Ok tt ∧ items `prefix_of` delivered (pipe s) ∧
      ∃ orders, items = imap (heartbeat_item (manager_new "service" "instance" (MkRunning front_err)) 10) orders ∧
        ∀ k order, orders !! k = Some order → Z.of_nat k `mod` 10 = 0 →
          Properties.yields (Os.insert_os_info os Properties.new) order
  end.
Proof.
  destruct 1 as [e n' (t & ->)%not_connected|r shared n' hd shared' sched a s x Hr Hrep s0 Hu m Ha Hs Hp];
    [by exists t|].
  pose proof (fresh_healthy _ _ _ _ _ (GrpcReporter.with_graceful_shutdown ctrl_c hd) sched Hr Hu) as Hh.
  apply connected_new in Hr.
  destruct (life_reachable (healthy_ s0 1) grpc_accepted m HEARTBEAT 10 (Os.properties os) _ eq_refl a Hh Ha)
    as [_ Hha (orders & _ & Hos & Hd) _ _].
  destruct (attached_serves (Running.system (Alive.world a)) s x) as (-> & Hpre & _);
    [exact (healthy_whole_ hd _ _ _ Hha)|apply (h_open _ _ _ _ _ _ Hha)|exact (healthy_attached hd _ _ _ Hha)|done..|].
  split_and!; [done..|]. exists orders. split.
  - rewrite Hd. unfold m. rewrite Hr. cbn. by destruct (channel_law (Ch := Ch) (I := CollectItem) None) as (-> & _).
  - intros k order Hk H0. by destruct (Hos k order Hk H0) as (order' & [= <-] & Hy).
Qed.


(** The metric example returns only if it cannot connect. Otherwise the handle
    it awaits is never ready, and each round has reported the counter, with the
    value 1, once. *)
Lemma simple_metric_report_runs n o :
  metric_example n o →
  match o with
  | inl x => ∃ e, x = Err (TonicTransport e)
  | inr b => Boot.poll b = Pending ∧ ∃ times, length times = done_rounds b ∧
      grpc_accepted (Metricer.reporting (Boot.world b)) = map (λ now, Meter (simple_message now)) times
  end.
Proof.
  destruct 1 as [e n' (t & ->)%not_connected|r shared n' hd shared' sched b Hr Hrep s0 Hu Hm]; [by exists t|].
  pose proof (fresh_healthy _ _ _ _ _ (GrpcReporter.with_graceful_shutdown ctrl_c hd) sched Hr Hu) as Hh.
  destruct (metric_main_runs (healthy_ s0 1) grpc_accepted _ _ _ b Hh Hm) as (Hp & times & Hl & Hd).
  split; [done|]. exists times. split; [done|]. rewrite Hd. cbn.
  by destruct (channel_law (Ch := Ch) (I := CollectItem) None) as (-> & _).
Qed.

(** *** The tracer's reporter *)
Lemma moves_abandoned s s' : abandoned boxed (pipe s) → rtc grpc_moves s s' → abandoned boxed (pipe s').
Proof.
  intros Ha Hs. refine (grpc_keeps _ _ _ _ _ _ _ (abandoned boxed) s s' _ _ Ha Hs).
  - intros p p'. by apply (abandoned_step front_err boxed _ _ _ nobody_senders).
  - intros p v [? ? ?]. by split.
Qed.

Lemma moves_joined s s' : joined_late (pipe s) → rtc grpc_moves s s' → joined_late (pipe s').
Proof. intros Hj Hs. refine (grpc_keeps _ _ _ _ _ _ _ joined_late s s' _ _ Hj Hs); [apply joined_late_step|done]. Qed.

(** When the only clone is dropped, the reporting ends with the error of the
    disconnected channel: with nothing else, and by itself; everything that was
    reported is served before. *)
Lemma drop_last_reporter hd s1 :
  rtc grpc_moves (spawn_on fresh_front hd) s1 → open (pipe s1) → senders (chan (front (pipe s1))) = 1%nat →
  let s0 := drop_reporter s1 in
  (∀ s x, rtc grpc_moves s0 s → handle_poll s = Ready x →
     x = Err (DISCONNECTED boxed) ∧ accepted (pipe s1) `prefix_of` delivered (pipe s) ∧
     streamed errors traces segment_of InnerSender.TRACE_MSG h (accepted (pipe s1)) s) ∧
  (∃ s, rtc (Running.pending grpc_moves) s0 s ∧ handle_poll s = Ready (Err (DISCONNECTED boxed))).
Proof.
  intros Hr Ho Hn s0. assert (Hw : whole_ h s1) by (eapply moves_whole; [apply spawn_on_whole|exact Hr]).
  assert (Hw0 : whole_ h s0) by by apply whole_drop_reporter.
  assert (Ho0 : open (pipe s0)) by by apply open_drop_reporter.
  assert (Hj : joined_late (pipe s0)) by (refine (moves_joined (spawn_on fresh_front hd) s1 _ Hr); intros Ht; by destruct Ht).
  pose proof (open_unjoined (pipe s0) Hj (w_pipe _ _ _ _ _ Hw0) Ho0) as Ht0.
  assert (Hn0 : senders (chan (front (pipe s0))) = 0%nat).
  { destruct (drop_sender_law (chan (front (pipe s1)))) as (_ & Hd & _). cbn. by rewrite Hd, Hn. }
  assert (Ha : abandoned boxed (pipe s0)).
  { split; [done| |by rewrite Ht0]. destruct (open_looping (pipe s0) (w_pipe _ _ _ _ _ Hw0) Ho0) as [->|[item ->]]; done. }
  split.
  - intros s x Hs Hp. destruct (handle_poll_inv s x Hp) as [Htask _].
    pose proof (moves_abandoned _ _ Ha Hs) as [_ Hat Htk]. pose proof (moves_whole _ _ Hw0 Hs) as Hws.
    destruct (moves_joined _ _ Hj Hs ltac:(congruence)) as [r' Hr']. rewrite Hr' in Hat. destruct Hat as [_ Hlost].
    assert (Hd : accepted (pipe s1) `prefix_of` delivered (pipe s)).
    { pose proof (i_items _ _ _ (w_pipe _ _ _ _ _ Hws)) as Hi. unfold remaining in Hi. rewrite Hr', Hlost in Hi.
      cbn in Hi. rewrite app_nil_r in Hi. rewrite <-Hi.
      destruct (grpc_grown _ _ _ _ _ _ _ _ _ Hs) as (la & _ & Hacc & _). exists la. exact Hacc. }
    split_and!; [by apply Htk|done|by eapply polled_streamed].
  - destruct (abandoned_finishes front_err boxed _ nobody (GrpcSystem.streams status_handle)
      (deliver_total _ _ _ _ HC) (pipe s0)
      (w_pipe _ _ _ _ _ Hw0) Ho0 Ht0 Hn0) as (p1 & R1 & Hat1 & Ht1 & _ & _ & Hs1).
    assert (S1 : rtc grpc_moves s0 (MkReporting p1 (sink_dropped s0))) by by apply worker_steps.
    destruct (joined_resolves _ _ _ _ front_err boxed nobody errors HN HC h _ _ _ (moves_whole _ _ Hw0 S1) Hat1 Ht1)
      as (s' & R & Hp & _ & _ & Hs').
    exists s'. split; [|done]. apply (pending_steps (grpc_signal_stays _ _ _ _ front_err boxed nobody)); [by etrans|].
    exact (eq_trans Hs' Hs1).
Qed.

(** A reporter in the background that has not seen the signal is open. *)
Lemma unsignalled_background hd s :
  rtc grpc_moves (spawn_on fresh_front hd) s → signalled (pipe s) = false →
  open (pipe s) ∧ senders (chan (front (pipe s))) = 1%nat.
Proof.
  intros Hs Hsig. destruct (fresh_open hd) as [Ho Hn]. split.
  - apply unsignalled_open.
    apply (grpc_unsignalled report_instance_properties rpc_keep_alive err_handle status_handle front_err boxed nobody
      nobody_senders ltac:(done) (spawn_on fresh_front hd)).
    + eapply open_unsignalled; [by intros []|apply (spawn_on_whole fresh_front hd)|done|by rewrite Hn|done].
    + apply (pending_steps (grpc_signal_stays _ _ _ _ front_err boxed nobody)); [exact Hs|exact Hsig].
  - refine (grpc_keeps _ _ _ _ _ _ _ (λ p, senders (chan (front p)) = 1%nat) _ _ _ _ Hn Hs); [|done].
    intros p p'. apply (senders_stay front_err boxed). by intros c c' [].
Qed.

(** The request, if the signal does not come before it has been handled. *)
Lemma request_handled hd s1 sched clock u1 u2 p (reporter := MkRunning front_err) :
  (∀ m e h, ∃ h', h ⊢ front_err m e ⇓ tt ⊣ h') →
  background (spawn_on fresh_front hd) s1 → (∀ k s, background s (sched k s)) →
  let '(tracer, memory) := tracer_new "service" "instance" reporter ∅ in
  (MkProcess None None memory (MkWorld s1 sched 0), tt) ⊢ handle_request clock u1 u2 tracer ⇓ tt ⊣ (p, tt) →
  let s2 := Running.system (out p) in
  signalled (pipe s2) = false →
  rtc grpc_moves (spawn_on fresh_front hd) s2 ∧
  accepted (pipe s2) = [Trace (example_segment clock u1 u2 "service" "instance")].
Proof.
  intros Hfront [Hs1 Ha1] Hsched. cbn [tracer_new fst snd]. intros Hrun Hsig.
  set (s2 := Running.system (out p)) in *.
  set (seg := example_segment clock u1 u2 "service" "instance") in *.
  destruct (call_total front_err (Trace seg) (pipe s1) Hfront) as (r & p' & Hcall & Hc).
  assert (Hrep : MkWorld s1 sched 0 ⊢ report reporter (Trace seg) ⇓ tt
    ⊣ MkWorld (sched 0%nat (set_pipe p' s1)) sched 1).
  { unfold report, Report_running, call_system, others_turn, bind, zoom, modify, ret. cbn. by rewrite Hcall. }
  pose proof (example_runs (MkProcess None None (tracer_new "service" "instance" reporter ∅).2 (MkWorld s1 sched 0)) tt
    clock u1 u2 (tracer_new "service" "instance" reporter ∅).1 "service" "instance" reporter _
    (tracer_new_upgrade _ _ _ _) Hrep) as Hrun'.
  assert (E : s2 = sched 0%nat (set_pipe p' s1)).
  { cbn in Hrun, Hrun'. rewrite Hrun' in Hrun. by injection Hrun as <-. }
  destruct (Hsched 0%nat (set_pipe p' s1)) as [Hs2 Ha2]. rewrite <-E in Hs2, Ha2.
  assert (Hsig1 : signalled (pipe s1) = false).
  { rewrite <-Hc. destruct (signalled p') eqn:Ep; [|done].
    enough (signalled (pipe s2) = true) by congruence.
    refine (grpc_keeps _ _ _ _ _ _ _ (λ p, signalled p = true) (set_pipe p' s1) _ _ _ Ep Hs2); [|done].
    intros a b Ha Hab. by eapply signal_stays. }
  destruct (unsignalled_background hd s1 Hs1 Hsig1) as [Ho1 _].
  destruct (call_open front_err (Trace seg) (pipe s1) Ho1) as (p1 & Hc1 & _ & Hacc & _).
  rewrite Hcall in Hc1. injection Hc1 as -> ->. split.
  - etrans; [exact Hs1|]. etrans; [|exact Hs2].
    apply (lift_steps front_err boxed (deliver report_instance_properties rpc_keep_alive err_handle status_handle) nobody
      (GrpcSystem.streams status_handle) grpc_moves (grpc_lift _ _ _ _ _ _ _)); [by eapply call_steps|done].
  - rewrite Ha2. cbn. rewrite Hacc, Ha1. cbn.
    by destruct (channel_law (Ch := Ch) (I := CollectItem) None) as (-> & _).
Qed.

(** C38: the tracing example fails. Its [main] gives its only reporter to the
    tracer, and the tracer to the request; when the request has been handled
    both are gone. Unless Ctrl-C is pressed while the request is still handled,
    the reporting then ends with the error of the disconnected channel, which
    [main] returns, whether Ctrl-C comes afterwards or not, and it can end so by
    itself, without the Ctrl-C that [main] means to wait for. The segment has
    been given to the sink before, and streamed to the server unless the error
    handler was told of it. *)
Theorem simple_trace_report_fails clock u1 u2 n x fin :
  (∀ m e h, ∃ h', h ⊢ front_err m e ⇓ tt ⊣ h') →
  trace_main clock u1 u2 n x fin →
  match fin with
  | None => ∃ e, x = Err (TonicTransport e)
  | Some (s2, s) =>
      signalled (pipe s2) = false →
      x = Err (DISCONNECTED boxed) ∧
      (let items := [Trace (example_segment clock u1 u2 "service" "instance")] in
       items `prefix_of` delivered (pipe s) ∧ streamed errors traces segment_of InnerSender.TRACE_MSG h items s) ∧
      ∃ s', rtc (Running.pending grpc_moves) (drop_reporter s2) s' ∧
        handle_poll s' = Ready (Err (DISCONNECTED boxed))
  end.
Proof.
  intros Hfront.
  destruct 1 as [e n' (t & ->)%not_connected|r shared n' hd shared' s1 sched p s x Hr Hrep Hs1 Hsched Hrun s2 Hs Hp];
    [by exists t|].
  apply connected_new in Hr. rewrite Hr in Hrun. intros Hsig.
  destruct (request_handled _ s1 sched clock u1 u2 p Hfront Hs1 Hsched Hrun Hsig) as [Hs2 Ha].
  destruct (unsignalled_background _ _ Hs2 Hsig) as [Ho Hn].
  destruct (drop_last_reporter _ _ Hs2 Ho Hn) as [Hall Hex]. destruct (Hall s x Hs Hp) as (-> & Hd & Hst).
  rewrite Ha in Hd, Hst. by split_and!.
Qed.

(** It does end. *)
Lemma simple_trace_report_ends clock u1 u2 n r shared n' hd shared' (sched : nat → Grpc_ → Grpc_)
    (s0 := spawn_on fresh_front (GrpcReporter.with_graceful_shutdown ctrl_c hd)) :
  n ⊢ connect ADDRESS ⇓ Ok (r, shared) ⊣ n' → shared ⊢ reporting_ r ⇓ hd ⊣ shared' →
  (∀ k s, background s (sched k s)) → (∀ k s, signalled (pipe (sched k s)) = signalled (pipe s)) →
  (∀ k s, open (pipe s) → open (pipe (sched k s))) →
  ∃ x s2 s, trace_main clock u1 u2 n x (Some (s2, s)) ∧ signalled (pipe s2) = false.
Proof.
  intros Hr Hrep Hsched Hsame Hop. pose proof (connected_new _ _ _ _ _ Hr) as Er.
  set (seg := example_segment clock u1 u2 "service" "instance"). set (reporter := MkRunning front_err).
  destruct (fresh_open (GrpcReporter.with_graceful_shutdown ctrl_c hd)) as [Ho Hn].
  destruct (call_open front_err (Trace seg) (pipe s0) Ho) as (p' & Hcall & Ho' & _ & Hn').
  assert (Hrep' : MkWorld s0 sched 0 ⊢ report reporter (Trace seg) ⇓ tt
    ⊣ MkWorld (sched 0%nat (set_pipe p' s0)) sched 1).
  { unfold report, Report_running, call_system, others_turn, bind, zoom, modify, ret. cbn.
    change (pipe s0) with (pipe_of s0) in Hcall. cbn in Hcall. by rewrite Hcall. }
  pose proof (example_runs (MkProcess None None (tracer_new "service" "instance" reporter ∅).2 (MkWorld s0 sched 0)) tt
    clock u1 u2 (tracer_new "service" "instance" reporter ∅).1 "service" "instance" reporter _
    (tracer_new_upgrade _ _ _ _) Hrep') as Hrun.
  destruct (Hsched 0%nat (set_pipe p' s0)) as [Hs2 _].
  assert (Hs : rtc grpc_moves s0 (sched 0%nat (set_pipe p' s0))).
  { etrans; [|exact Hs2].
    apply (lift_steps front_err boxed (deliver report_instance_properties rpc_keep_alive err_handle status_handle) nobody
      (GrpcSystem.streams status_handle) grpc_moves (grpc_lift _ _ _ _ _ _ _)); [by eapply call_steps|by eapply call_signal]. }
  assert (Hsig : signalled (pipe (sched 0%nat (set_pipe p' s0))) = false)
    by (rewrite Hsame; exact (call_signal _ _ _ _ Hcall)).
  destruct (unsignalled_background (GrpcReporter.with_graceful_shutdown ctrl_c hd) _ Hs Hsig) as [Ho2 Hn2].
  destruct (drop_last_reporter (GrpcReporter.with_graceful_shutdown ctrl_c hd) _ Hs Ho2 Hn2) as [_ (s & R & Hp)].
  set (s2 := sched 0%nat (set_pipe p' s0)) in *.
  exists (Err (DISCONNECTED boxed)), s2, s. split; [|exact Hsig].
  refine (trace_awaited clock u1 u2 n r shared n' hd shared' s0 sched (MkProcess None None _ (MkWorld s2 sched 1)) s _
    Hr Hrep _ Hsched _ (pending_sub _ _ _ R) Hp); [by split|]. rewrite Er. exact Hrun.
Qed.
End Examples.

(** ** The examples against a server that accepts everything *)
Module ExamplesDemo.
#[local] Existing Instance text_errors.
#[local] Existing Instances test_build CountingLock.lock example_nums.
#[local] Existing Instances Reference.mpsc Reference.laws.
#[local] Existing Instances GrpcSystemDemo.inline GrpcSystemDemo.inline_laws.
Import GrpcSystemDemo.

#[local] Instance tonic : Tonic := {|
  request := list (string * string);
  metadata_value := string;
  parse_metadata := Some;
  metadata_insert k v r := (k, v) :: r
|}.

Definition parse (address : string) : result string transport_error := Ok address.
Definition dial (_ : string) : M unit (result unit transport_error) := ret (Ok tt).
(** Signals are named. *)
Definition reporter : GrpcReporter.t unit (string → channel_error → M unit unit) unit :=
  (GrpcReporter.new quiet (tt, tt) tt).1.

Abbreviation log_main_ := (log_main parse dial accept accept note note quiet boxed tt tt ([] : list string)
  "pending" "ready").
Abbreviation trace_main_ := (trace_main parse dial accept accept note note quiet boxed tt tt ([] : list string)
  "pending" "ctrl_c").

Lemma simple_log_report_succeeds_witness :
  ∃ s : Rep, log_main_ 7 tt (Ok tt) (Some s) ∧
    [log_item "service" "instance" 7 something] `prefix_of` delivered (pipe s).
Proof.
  destruct (simple_log_report_ends parse dial accept accept note note quiet boxed tt tt ([] : list string)
    "pending" "ready" id noting accepting 7 tt reporter (Reporting.new_with_pc tt) tt _ _ eq_refl eq_refl)
    as (x & s & Hm).
  destruct (simple_log_report_succeeds parse dial accept accept note note quiet boxed tt tt ([] : list string)
    "pending" "ready" id noting accepting 7 tt x (Some s) Hm) as (-> & Hd & _).
  by exists s.
Defined.

(** The worker has a turn after each report. *)
Definition rounds (_ : nat) (s : Rep) : Rep :=
  set_pipe (worker_round (deliver accept accept note note) (pipe s)) s.

Lemma rounds_background k (s : Rep) :
  background accept accept note note quiet boxed s (rounds k s).
Proof.
  destruct (worker_round_steps quiet boxed (deliver accept accept note note) nobody
    (GrpcSystem.streams note) (pipe s)) as (Hr & [Ha _ _ _] & _).
  split; [|exact Ha]. destruct s. by apply worker_steps.
Qed.

Lemma simple_trace_report_fails_witness :
  ∃ s2 s : Rep, trace_main_ Z.of_nat 1 2 tt (Err (Other "channel closed"%string)) (Some (s2, s)) ∧
    signalled (pipe s2) = false ∧
    [Trace (example_segment Z.of_nat 1 2 "service" "instance")] `prefix_of` delivered (pipe s).
Proof.
  destruct (simple_trace_report_ends parse dial accept accept note note quiet boxed tt tt ([] : list string)
    "pending" "ctrl_c" id noting accepting Z.of_nat 1 2 tt reporter (Reporting.new_with_pc tt) tt _ _ rounds
    eq_refl eq_refl rounds_background) as (x & s2 & s & Hm & Hsig).
  { intros k s. apply (worker_round_steps quiet boxed (deliver accept accept note note) nobody (GrpcSystem.streams note)). }
  { intros k s. apply (worker_round_steps quiet boxed (deliver accept accept note note) nobody (GrpcSystem.streams note)). }
  destruct (simple_trace_report_fails parse dial accept accept note note quiet boxed tt tt ([] : list string)
    "pending" "ctrl_c" id noting accepting Z.of_nat 1 2 tt x (Some (s2, s)) ltac:(by intros; eexists) Hm Hsig)
    as (-> & [Hd _] & _).
  by exists s2, s.
Defined.
End ExamplesDemo.
