(* ===== verification/Print.v ===== *)
(** * src/reporter/print.rs: the printing reporter

    The text of an item is the [Debug] output that is derived for the generated
    messages: a parameter. *)

From S2P Require Import Prelude Proto Reporter.

Local Open Scope sky_scope.

(** [format!("{:?}", data)] of the five messages. *)
Class DebugText := {
  debug_segment : SegmentObject.t → string;
  debug_log : LogData.t → string;
  debug_meter : MeterData.t → string;
  debug_instance : InstanceProperties.t → string;
  debug_ping : InstancePingPkg.t → string
}.

(** The lines written to the two standard streams. *)
Record Terminal := MkTerminal { stdout : list string; stderr : list string }.

Record PrintReporter := MkPrint { use_stderr_ : bool }.

Definition print_new : PrintReporter := MkPrint false.
Definition use_stderr (b : bool) (_ : PrintReporter) : PrintReporter := MkPrint b.

Definition eprintln (line : string) : M Terminal unit :=
  modify (λ t, MkTerminal (stdout t) (stderr t ++ [line])).
Definition println (line : string) : M Terminal unit :=
  modify (λ t, MkTerminal (stdout t ++ [line]) (stderr t)).

Section Print.
Context {DT : DebugText}.

(** [Report for PrintReporter]. *)
#[export] Instance Report_Print : Report PrintReporter Terminal := λ r items,
  match items with
  | Trace data =>
      if use_stderr_ r then eprintln ("trace segment=" +:+ debug_segment data)
      else println ("trace segment=" +:+ debug_segment data)
  | Log data =>
      if use_stderr_ r then eprintln ("log data=" +:+ debug_log data)
      else println ("log data=" +:+ debug_log data)
  | Meter data =>
      if use_stderr_ r then eprintln ("meter data=" +:+ debug_meter data)
      else println ("meter data=" +:+ debug_meter data)
  | Instance_ data =>
      if use_stderr_ r then eprintln ("instance properties data=" +:+ debug_instance data)
      else println ("instance properties data=" +:+ debug_instance data)
  | Ping data =>
      if use_stderr_ r then eprintln ("ping data=" +:+ debug_ping data)
      else println ("ping data=" +:+ debug_ping data)
  end.

(** the printing reporter writes exactly one line per item, to the chosen
    stream only, and never panics. *)
Lemma print_one_line (b : bool) item t :
  ∃ t' line, (t ⊢ report (use_stderr b print_new) item ⇓ tt ⊣ t') ∧
    (if b then stderr t' = stderr t ++ [line] ∧ stdout t' = stdout t
     else stdout t' = stdout t ++ [line] ∧ stderr t' = stderr t).
Proof. destruct b, item; by eexists _, _. Qed.
End Print.
