(* ===== verification/Tests.v ===== *)
(** * src/tests: the integration tests of the crate

    Each test is a program over the model, with the reporter of its file and the
    assertions of Assert.v, and is proved to pass; the tests marked
    [should_panic] are proved to panic. They run in the build with the mock
    clock, as the repository runs them. The tests of the metricer's task and of
    the heartbeat are about every run of the task. *)

From S2P Require Import Prelude RustStr F64 Assert Common Error WaitGroup Proto Reporter Codec Tracer SpanStack TraceContext Session Segment Base64 Propagation Logging E2e Meter Channel Task Metricer Booting E2eMetrics MetricExample Management Print.

Local Open Scope Z_scope.
Local Open Scope sky_scope.

#[local] Existing Instances text_errors test_build CountingLock.lock example_nums Rfc4648.rfc4648.

(** ** tests/propagation.rs *)
Module PropagationTests.
Definition DATA : string := "1-MQ==-NQ==-3-bWVzaA==-aW5zdGFuY2U=-L2FwaS92MS9oZWFsdGg=-ZXhhbXBsZS5jb206ODA4MA==".

Definition basic : M unit unit :=
  res <- unwrap (decode_propagation DATA) ;;
  assert (PropagationContext.do_sample res) ;;
  assert_eq (PropagationContext.parent_trace_id res) "1" ;;
  assert_eq (PropagationContext.parent_trace_segment_id res) "5" ;;
  assert_eq (PropagationContext.parent_span_id res) 3 ;;
  assert_eq (PropagationContext.parent_service res) "mesh" ;;
  assert_eq (PropagationContext.parent_service_instance res) "instance" ;;
  assert_eq (PropagationContext.destination_endpoint res) "/api/v1/health" ;;
  assert_eq (PropagationContext.destination_address res) "example.com:8080".

Definition is_err {T E} (r : result T E) : bool := match r with Ok _ => false | Err _ => true end.

Definition less_field : M unit unit :=
  let data := "1-MQ==-NQ==-3-bWVzaA==-aW5zdGFuY2U=-L2FwaS92MS9oZWFsdGg=" in
  assert (is_err (decode_propagation data)).
Definition more_field : M unit unit :=
  let data :=
    "1-MQ==-NQ==-3-bWVzaA==-aW5zdGFuY2U=-L2FwaS92MS9oZWFsdGg=-ZXhhbXBsZS5jb206ODA4MA==-hogehoge" in
  assert (is_err (decode_propagation data)).
Definition invalid_sample : M unit unit :=
  let data := "3-MQ==-NQ==-3-bWVzaA==-aW5zdGFuY2U=-L2FwaS92MS9oZWFsdGg=-ZXhhbXBsZS5jb206ODA4MA==" in
  assert (is_err (decode_propagation data)).

Lemma basic_passes : tt ⊢ basic ⇓ tt ⊣ tt.
Proof. vm_compute. reflexivity. Qed.
Lemma less_field_passes : tt ⊢ less_field ⇓ tt ⊣ tt.
Proof. vm_compute. reflexivity. Qed.
Lemma more_field_passes : tt ⊢ more_field ⇓ tt ⊣ tt.
Proof. vm_compute. reflexivity. Qed.
Lemma invalid_sample_passes : tt ⊢ invalid_sample ⇓ tt ⊣ tt.
Proof. vm_compute. reflexivity. Qed.
End PropagationTests.

(** ** What the tests of contexts share *)
Section Harness.
Context `{HR : Report R W}.
Abbreviation Proc := (Process R W * unit)%type.
Abbreviation Fr := (Frame (R := R) (W := W) (N := unit)).

Definition fresh (w : W) : Proc := (MkProcess None None ∅ w, tt).

(** [Tracer::new], its clone and its drop, in the memory of the process. *)
Definition set_memory (ts : gmap nat (ArcCell R)) (o : Proc) : Proc :=
  (MkProcess (tracer_cell o.1) (logger_cell o.1) ts (out o.1), o.2).
Definition new_tracer (service instance : string) (r : R) : M Proc Tracer := λ o,
  let '(t, ts) := tracer_new service instance r (memory o.1) in (Ret t, set_memory ts o).
Definition clone_tracer (t : Tracer) : M Proc Tracer := λ o,
  let '(t', ts) := tracer_clone t (memory o.1) in (Ret t', set_memory ts o).
Definition drop_tracer (t : Tracer) : M Proc unit := λ o, (Ret tt, set_memory (tracer_drop t (memory o.1)) o).

(** [tracer.create_trace_context()]. *)
Definition context_of (t : Tracer) (uuid1 uuid2 : Z) : M Proc CtxState :=
  o <- gets id ;; expect DANGLING_MSG (create_trace_context t (memory o.1) uuid1 uuid2).

(** A block whose context is moved by its last statement, [context.wait()]. *)
Definition wait : M Fr bool :=
  zoom (λ l, Segment.MkWorld (cx l) (memory (outer l).1) (out (outer l).1))
    (λ w l, MkFrame (Segment.context w)
      (MkProcess (tracer_cell (outer l).1) (logger_cell (outer l).1) (Segment.tracers w) (Segment.reporting w),
       (outer l).2))
    context_wait.
Definition in_frame {A} (c : CtxState) (body : M Fr A) : M Proc A := λ o,
  let '(r, l) := body (MkFrame c o) in (r, outer l).

(** What a test does with the state it ends in. *)
Definition on_out {A} : M W A → M Proc A :=
  zoom (λ o, out o.1) (λ w o, (MkProcess (tracer_cell o.1) (logger_cell o.1) (memory o.1) w, o.2)).
Definition this_context : M Fr TracingContext := on_cx (on_ctx (gets id)).
Definition passed {S} (m : M S unit) (s : S) : Prop := outcome_of m s = Ret tt.
End Harness.
Arguments fresh {R W}.

(** ** tests/trace_context.rs *)
Module TraceTests.
(** The reporter of the file keeps segments, and nothing else. *)
Inductive Keeper := Keep.
#[local] Instance Report_Keep : Report Keeper (list SegmentObject.t) := λ _ item,
  match item with Trace segment => modify (λ l, l ++ [segment]) | _ => panic UNREACHABLE_MSG end.
Abbreviation Proc := (Process Keeper (list SegmentObject.t) * unit)%type.
Abbreviation Fr := (Frame (R := Keeper) (W := list SegmentObject.t) (N := unit)).

(** [MockReporter::with_many] and [with]: the tracer that [f1] returns is gone
    when the segments are looked at. *)
Definition with_many (f1 : Keeper → M Proc Tracer) (f2 : list SegmentObject.t → M Proc unit) : M Proc unit :=
  tracer <- f1 Keep ;; drop_tracer tracer ;; o <- gets id ;; f2 (out o.1).
Definition with_ (f1 : Keeper → M Proc Tracer) (f2 : SegmentObject.t → M Proc unit) : M Proc unit :=
  with_many f1 (λ segments, segment <- expect UNWRAP_NONE_MSG (head segments) ;; f2 segment).

(** The times of the mock clock, whatever is read from the real one. *)
Definition spanned (span_id parent_span_id : Z) (operation_name peer : string) (ty : SpanType) (ly : SpanLayer)
    (tags : list KeyStringValuePair.t) (logs : list Proto.Log.t) : SpanObject.t :=
  SpanObject.Mk span_id parent_span_id 1 100 [] operation_name peer (SpanType_as_i32 ty) (SpanLayer_as_i32 ly)
    11000 false tags logs false.
Definition pairs (l : list (string * string)) : list KeyStringValuePair.t :=
  map (λ '(key, value), KeyStringValuePair.Mk key value) l.

Definition assert_last (o : SpanObject.t) : M Fr unit :=
  last <- on_cx last_span ;; assert_eq last (Some o).
Definition assert_last_name (name : string) : M Fr unit :=
  last <- on_cx last_span ;;
  last <- expect UNWRAP_NONE_MSG last ;;
  assert_eq (SpanObject.operation_name last) name.
Definition object `{HandleSpanObject H} (h : H) : M Fr SpanObject.t := of_outcome (span_object h).
Definition close (span : Span.t) : M Fr unit := on_cx (on_shared (span_drop 0 span)).
Definition finish (span : AsyncSpan.t) : M Fr unit := on_cx (on_shared (async_drop 0 span)).

(** Locals are dropped in the reverse order of their declaration. *)
Definition create_span_body : M Fr unit :=
  context <- this_context ;;
  assert_eq (service context) "service" ;;
  assert_eq (service_instance context) "instance" ;;
  span1 <- on_cx (create_entry_span 0 "op1") ;;
  let logs := [("hoge", "fuga"); ("hoge2", "fuga2")] in
  span1 <- of_outcome (handle_add_log 0 logs span1) ;;
  span1 <- of_outcome (handle_add_tag "hoge" "fuga" span1) ;;
  with_span (create_local_span 0 "op2") 0 (λ _, ret tt) ;;
  with_span (create_exit_span 0 "op3" "example.com/test") 0 (λ _, ret tt) ;;
  assert_last (spanned 2 0 "op3" "example.com/test" Exit Unknown [] []) ;;
  with_span (create_local_span 0 "op4") 0 (λ _,
    with_span (create_exit_span 0 "op5" "example.com/test") 0 (λ _, ret tt) ;;
    assert_last (spanned 4 3 "op5" "example.com/test" Exit Unknown [] [])) ;;
  with_span (create_local_span 0 "op6") 0 (λ span6,
    span7 <- on_cx (create_local_span 0 "op7") ;;
    span7 <- on_cx (on_shared (prepare_for_async 0 span7)) ;;
    assert_last_name "op4" ;;
    o6 <- object span6 ;;
    o7 <- object span7 ;;
    assert_eq (SpanObject.parent_span_id o7) (SpanObject.span_id o6) ;;
    span8 <- on_cx (create_exit_span 0 "op7" "example.com/test") ;;
    span8 <- on_cx (on_shared (prepare_for_async 0 span8)) ;;
    assert_last_name "op4" ;;
    o8 <- object span8 ;;
    assert_eq (SpanObject.parent_span_id o8) (SpanObject.span_id o6) ;;
    span8 <- of_outcome (handle_add_tag "foo" "bar" span8) ;;
    finish span8 ;; finish span7 ;;
    assert_last (spanned 7 5 "op7" "example.com/test" Exit Unknown (pairs [("foo", "bar")]) [])) ;;
  close span1 ;;
  assert_last (spanned 0 (-1) "op1" "" Entry Http (pairs [("hoge", "fuga")]) [Proto.Log.Mk 10 (pairs logs)]).

Definition create_span (uuid1 uuid2 : Z) : M Proc unit :=
  with_ (λ reporter,
    tracer <- new_tracer "service" "instance" reporter ;;
    c <- context_of tracer uuid1 uuid2 ;;
    in_frame c (create_span_body ;; waited <- wait ;; assert waited) ;;
    ret tracer)
  (λ segment,
    assert_ne (String.length (SegmentObject.trace_id segment)) 0%nat ;;
    assert_ne (String.length (SegmentObject.trace_segment_id segment)) 0%nat ;;
    assert_eq (SegmentObject.service segment) "service" ;;
    assert_eq (SegmentObject.service_instance segment) "instance" ;;
    assert (negb (SegmentObject.is_size_limited segment))).

Definition create_span_from_context (uuid1 uuid2 : Z) : M Proc unit :=
  prop <- unwrap (decode_propagation PropagationTests.DATA) ;;
  with_ (λ reporter,
    tracer <- new_tracer "service2" "instance2" reporter ;;
    c <- context_of tracer uuid1 uuid2 ;;
    with_context c (with_span (create_entry_span_with_propagation 0 "operation_name" prop) 0 (λ _, ret tt)) ;;
    ret tracer)
  (λ segment,
    assert_ne (String.length (SegmentObject.trace_id segment)) 0%nat ;;
    assert_ne (String.length (SegmentObject.trace_segment_id segment)) 0%nat ;;
    assert_eq (SegmentObject.service segment) "service2" ;;
    assert_eq (SegmentObject.service_instance segment) "instance2" ;;
    assert (negb (SegmentObject.is_size_limited segment))).

(** The header passes from one process to the other through a cell. *)
Definition cross_process_test_1 (uuid1 uuid2 uuid3 uuid4 : Z) : M (Proc * string) unit :=
  let first {A} : M Proc A → M (Proc * string) A := zoom fst (λ o s, (o, s.2)) in
  tracer <- first (new_tracer "service1" "instance1" Keep) ;;
  c <- first (context_of tracer uuid1 uuid2) ;;
  header <- first (with_context c (
    with_span (create_entry_span 0 "entry_1") 0 (λ _,
      with_span (create_exit_span 0 "exit_1" "peer_1") 0 (λ _,
        on_cx (encode_propagation "exit_1" "peer_1"))))) ;;
  modify (λ s, (s.1, header)) ;;
  first (drop_tracer tracer) ;;
  s <- gets id ;;
  segment1 <- expect UNWRAP_NONE_MSG (head (out s.1.1)) ;;
  (* the second process has a reporter of its own *)
  let second := with_ (λ reporter,
      tracer <- new_tracer "service2" "instance2" reporter ;;
      c <- context_of tracer uuid3 uuid4 ;;
      prop <- unwrap (decode_propagation s.2) ;;
      with_context c (with_span (create_entry_span_with_propagation 0 "entry_1" prop) 0 (λ _, ret tt)) ;;
      ret tracer)
    (λ segment2,
      assert_eq (SegmentObject.trace_id segment1) (SegmentObject.trace_id segment2) ;;
      span0 <- index (SegmentObject.spans segment2) 0 ;;
      r <- index (SpanObject.refs span0) 0 ;;
      exit <- index (SegmentObject.spans segment1) 0 ;;
      assert_eq r (SegmentReference.Mk (RefType_as_i32 CrossProcess) (SegmentObject.trace_id segment1)
        (SegmentObject.trace_segment_id segment1) 1 (SegmentObject.service segment1)
        (SegmentObject.service_instance segment1) (SpanObject.operation_name exit) (SpanObject.peer exit))) in
  of_outcome (outcome_of second (fresh [])).

Definition cross_threads_test (uuid1 uuid2 uuid3 uuid4 : Z) : M Proc unit :=
  with_many (λ reporter,
    tracer <- new_tracer "service" "instance" reporter ;;
    ctx1 <- context_of tracer uuid1 uuid2 ;;
    with_context ctx1 (
      with_span (create_entry_span 0 "op1") 0 (λ _,
        with_span (create_local_span 0 "op2") 0 (λ _,
          snapshot <- on_cx capture ;;
          tracer_ <- on_outer (clone_tracer tracer) ;;
          (* thread::spawn(..).join().unwrap() *)
          on_outer (spawn_await (
            ctx2 <- context_of tracer_ uuid3 uuid4 ;;
            with_context ctx2 (
              with_span (create_entry_span 0 "op3") 0 (λ _,
                o <- gets outer ;;
                on_cx (continued (memory o.1) snapshot))) ;;
            drop_tracer tracer_))))) ;;
    ret tracer)
  (λ segments,
    first <- expect UNWRAP_NONE_MSG (segments !! 0%nat) ;;
    second <- expect UNWRAP_NONE_MSG (segments !! 1%nat) ;;
    assert_eq (SegmentObject.trace_id first) (SegmentObject.trace_id second) ;;
    youngest <- last_of (SegmentObject.spans first) ;;
    assert_eq (length (SpanObject.refs youngest)) 1%nat ;;
    r <- index (SpanObject.refs youngest) 0 ;;
    assert_eq r (SegmentReference.Mk (RefType_as_i32 CrossThread) (SegmentObject.trace_id second)
      (SegmentObject.trace_segment_id second) 1 "service" "instance" "op2" "") ;;
    assert_eq (length (SegmentObject.spans second)) 2%nat).

Lemma create_span_passes : passed (create_span 1 2) (fresh []).
Proof. vm_compute. reflexivity. Qed.
Lemma create_span_from_context_passes : passed (create_span_from_context 1 2) (fresh []).
Proof. vm_compute. reflexivity. Qed.
Lemma cross_process_test_1_passes : passed (cross_process_test_1 1 2 3 4) (fresh [], "").
Proof. vm_compute. reflexivity. Qed.
Lemma cross_threads_test_passes : passed (cross_threads_test 1 2 3 4) (fresh []).
Proof. vm_compute. reflexivity. Qed.

(** *** The tests over the printing reporter *)
Section Printed.
Context {DT : DebugText}.
Abbreviation Pr := (Process PrintReporter Terminal * unit)%type.

Definition create_failed (create : M CtxState Span.t) (uuid1 uuid2 : Z) : M Pr unit :=
  tracer <- new_tracer "service" "instance" print_new ;;
  scoped (c <- context_of tracer uuid1 uuid2 ;; with_context c (with_span create 0 (λ _, ret tt)))
    (drop_tracer tracer).
Definition create_local_span_failed : Z → Z → M Pr unit := create_failed (create_local_span 0 "op1").
Definition create_exit_span_failed : Z → Z → M Pr unit :=
  create_failed (create_exit_span 0 "op1" "example.com/test").

(** The serializations of two references are equal if they are. *)
Definition cross_process_test (uuid1 uuid2 uuid3 uuid4 : Z) : M Pr unit :=
  tracer <- new_tracer "service" "instance" print_new ;;
  c <- context_of tracer uuid1 uuid2 ;;
  with_context c (
    context1 <- this_context ;;
    assert_eq (service context1) "service" ;;
    assert_eq (service_instance context1) "instance" ;;
    with_span (create_entry_span 0 "op1") 0 (λ _,
      with_span (create_exit_span 0 "op2" "remote_peer") 0 (λ _,
        enc_prop <- on_cx (encode_propagation "endpoint" "address") ;;
        dec_prop <- unwrap (decode_propagation enc_prop) ;;
        on_outer (
          tracer2 <- new_tracer "service2" "instance2" print_new ;;
          c2 <- context_of tracer2 uuid3 uuid4 ;;
          with_context c2 (
            with_span (create_entry_span_with_propagation 0 "op2" dec_prop) 0 (λ _, ret tt) ;;
            span3 <- on_cx last_span ;;
            span3 <- expect UNWRAP_NONE_MSG span3 ;;
            context2 <- this_context ;;
            assert_eq (trace_id context1) (trace_id context2) ;;
            assert_eq (SpanObject.span_id span3) 0 ;;
            assert_eq (SpanObject.parent_span_id span3) (-1) ;;
            assert_eq (length (SpanObject.refs span3)) 1%nat ;;
            r <- index (SpanObject.refs span3) 0 ;;
            assert_eq (SegmentReference.Mk (RefType_as_i32 CrossProcess) (trace_id context2)
              (trace_segment_id context1) 1 (service context1)
              (service_instance context1) "endpoint" "address") r) ;;
          drop_tracer tracer2)))) ;;
  drop_tracer tracer.

(** tests/propagation.rs. *)
Definition basic_encode (uuid1 uuid2 : Z) : M Pr unit :=
  tracer <- new_tracer "mesh" "instance" print_new ;;
  tc <- context_of tracer uuid1 uuid2 ;;
  with_context tc (
    res <- on_cx (encode_propagation "/api/v1/health" "example.com:8080") ;;
    res2 <- unwrap (decode_propagation res) ;;
    assert (PropagationContext.do_sample res2) ;;
    assert_eq "/api/v1/health" (PropagationContext.destination_endpoint res2) ;;
    assert_eq "example.com:8080" (PropagationContext.destination_address res2)) ;;
  drop_tracer tracer.

Abbreviation terminal := (fresh (MkTerminal [] [])).

Lemma create_local_span_panics : outcome_of (create_local_span_failed 1 2) terminal = Panic ENTRY_MSG.
Proof. vm_compute. reflexivity. Qed.
Lemma create_exit_span_panics : outcome_of (create_exit_span_failed 1 2) terminal = Panic ENTRY_MSG.
Proof. vm_compute. reflexivity. Qed.
Lemma cross_process_test_passes : passed (cross_process_test 1 2 3 4) terminal.
Proof. vm_compute. reflexivity. Qed.
Lemma basic_encode_passes : passed (basic_encode 1 2) terminal.
Proof. vm_compute. reflexivity. Qed.
End Printed.
End TraceTests.

(** ** tests/logging.rs *)
Module LoggingTests.
Inductive Keeper := Keep.
#[local] Instance Report_Keep : Report Keeper (list LogData.t) := λ _ item,
  match item with Log data => modify (λ l, l ++ [data]) | _ => ret tt end.
Definition pop : M (list LogData.t) LogData.t :=
  items <- gets id ;;
  data <- expect UNWRAP_NONE_MSG (last items) ;;
  modify (@removelast LogData.t) ;; ret data.

Definition logged (timestamp : Z) (endpoint : string) (content : LogDataBody.Content)
    (trace_context : option Proto.TraceContext.t) (tags : option LogTags.t) : LogData.t :=
  LogData.Mk timestamp "service_name" "instance_name" endpoint (Some (LogDataBody.Mk "" (Some content)))
    trace_context tags "".
Definition JSON : string := "{" +:+ quoted "content" +:+ ": " +:+ quoted "something to log" +:+ "}".

Definition log : M (list LogData.t) unit :=
  let logger := Logger.new "service_name" "instance_name" Keep in
  Logger.log 0 LogRecord.new logger ;;
  data <- pop ;;
  assert_eq data (logged 10 "" (LogDataBody.Text "") None None) ;;
  Logger.log 0 (LogRecord.ignore_time LogRecord.new) logger ;;
  data <- pop ;;
  assert_eq data (logged 0 "" (LogDataBody.Text "") None None) ;;
  Logger.log 0 (LogRecord.set_content JSON (LogRecord.set_record_type LogRecord.Json
    (LogRecord.add_tags [("bar", "bar")] (LogRecord.add_tag "foo" "foo"
      (LogRecord.set_endpoint "endpoint" LogRecord.new))))) logger ;;
  data <- pop ;;
  assert_eq data (logged 10 "endpoint" (LogDataBody.Json JSON) None
    (Some (LogTags.Mk [KeyStringValuePair.Mk "foo" "foo"; KeyStringValuePair.Mk "bar" "bar"]))).

Definition integrate_trace (uuid1 uuid2 : Z) : M (Process Keeper (list LogData.t) * unit) unit :=
  tracer <- new_tracer "service_name" "instance_name" Keep ;;
  let logger := Logger.new "service_name" "instance_name" Keep in
  c <- context_of tracer uuid1 uuid2 ;;
  with_context c (
    with_span (create_entry_span 0 "operation_name") 0 (λ span,
      ctx <- this_context ;;
      record <- of_outcome (LogRecord.with_span span (LogRecord.with_tracing_context ctx LogRecord.new)) ;;
      on_outer (on_out (Logger.log 0 record logger)) ;;
      data <- on_outer (on_out pop) ;;
      span_id <- of_outcome (handle_span_id span) ;;
      assert_eq data (logged 10 "" (LogDataBody.Text "")
        (Some (Proto.TraceContext.Mk (trace_id ctx) (trace_segment_id ctx) span_id)) None))) ;;
  drop_tracer tracer.

Lemma log_passes : passed log [].
Proof. vm_compute. reflexivity. Qed.
Lemma integrate_trace_passes : passed (integrate_trace 1 2) (fresh []).
Proof. vm_compute. reflexivity. Qed.
End LoggingTests.

(** ** tests/metrics.rs

    The reporter of the file keeps meters, which is all that a metricer reports;
    [pop] is the last of them. *)
Module MetricsTests.
Section Metrics.
Context {TK : Tasks} {KL : TasksLaws} {IV : Intervals} {IL : IntervalsLaws} {E : Type}.
Abbreviation Use := (M (Metricer MockReporter * gmap nat (Dyn.t E)) unit).

Definition counter_block : Use :=
  counter <- register (Dyn.OfCounter (Counter.add_labels [("az", "az-1")]
    (Counter.add_label "region" "us-west" (Counter.new NAME)))) ;;
  on_counter counter (Counter.increment (f64_of_Z 100)).
Definition gauge_block : Use :=
  _ <- register (Dyn.OfGauge (Gauge.add_labels [("az", "az-1")]
    (Gauge.add_label "region" "us-west" (Gauge.new NAME (ret (f64_of_Z 100)))))) ;;
  ret tt.
Definition ONE_AND_A_HALF : f64 := SpecFloat.binary_normalize 53 1024 3 (-1) false.
Definition histogram_block : Use :=
  histogram <- register (Dyn.OfHistogram (Histogram.add_labels [("az", "az-1")]
    (Histogram.add_label "region" "us-west" (Histogram.new NAME [f64_of_Z 1; f64_of_Z 2])))) ;;
  on_histogram histogram (Histogram.add_value (f64_of_Z 1)) ;;
  on_histogram histogram (Histogram.add_value ONE_AND_A_HALF) ;;
  on_histogram histogram (Histogram.add_value (f64_of_Z 2)).

(** One block: the meter is registered and used, and then [boot().shutdown()]
    is awaited; [items] is what the reporter then holds. *)
Inductive block (use : Use) (e : E) (before : list CollectItem) : list CollectItem → Prop :=
| block_awaited m cs b :
    (metricer_new "service_name" "instance_name" Mock, ∅) ⊢ use ⇓ tt ⊣ (m, cs) →
    rtc (left_alone m) (Boot.boot (MkWorld cs e before)) b →
    Boot.shutdown_join b = Ready (Ok tt) →
    block use e before (reporting (Boot.world b)).

Definition popped (items : list CollectItem) : option MeterData.t := last (omap meter_of items).

Definition expected (metric : MeterData.Metric) : MeterData.t :=
  MeterData.Mk "service_name" "instance_name" 10 (Some metric).
Definition single : MeterData.Metric :=
  MeterData.SingleValue (MeterSingleValue.Mk NAME (labels "us-west" "az-1") (f64_of_Z 100)).
Definition two_buckets : MeterData.Metric :=
  MeterData.Histogram (MeterHistogram.Mk NAME (labels "us-west" "az-1")
    [MeterBucketValue.Mk (f64_of_Z 1) 2 false; MeterBucketValue.Mk (f64_of_Z 2) 1 false]).

(** What the metricer and its only meter are after a block. *)
Definition metricer (typ : MeterType) : Metricer MockReporter :=
  MkMetricer "service_name" "instance_name" Mock {[id_of typ "us-west" "az-1" := 0%nat]} DEFAULT_INTERVAL.
Definition counter : Dyn.t E :=
  Dyn.OfCounter (Counter.Mk (id_of TypeCounter "us-west" "az-1") Counter.INCREMENT (f64_of_Z 100) f64_zero).
Definition gauge : Dyn.t E := Dyn.OfGauge (Gauge.Mk (id_of TypeGauge "us-west" "az-1") (ret (f64_of_Z 100))).
Definition histogram : Dyn.t E :=
  Dyn.OfHistogram (Histogram.Mk (id_of TypeHistogram "us-west" "az-1")
    [Histogram.MkBucket (f64_of_Z 1) 2; Histogram.MkBucket (f64_of_Z 2) 1]).

Abbreviation start := (metricer_new "service_name" "instance_name" Mock, ∅).
Lemma counter_block_run : start ⊢ counter_block ⇓ tt ⊣ (metricer TypeCounter, {[0%nat := counter]}).
Proof. by_evaluation. Qed.
Lemma gauge_block_run : start ⊢ gauge_block ⇓ tt ⊣ (metricer TypeGauge, {[0%nat := gauge]}).
Proof. by_evaluation. Qed.
Lemma histogram_block_run : start ⊢ histogram_block ⇓ tt ⊣ (metricer TypeHistogram, {[0%nat := histogram]}).
Proof. by_evaluation. Qed.

(** The meter that pops out when [shutdown] has returned. *)
Lemma one_meter_pops m (i : MeterId.t) (t : Dyn.t E) metric (use : Use) e before items :
  start ⊢ use ⇓ tt ⊣ (m, {[0%nat := t]}) →
  meter_map m = {[i := 0%nat]} → Metricer.service_name m = "service_name" → Metricer.instance_name m = "instance_name" →
  (∀ w : World (Dyn.t E) E (list CollectItem), cells w = {[0%nat := t]} → steady m w 0 metric) →
  block use e before items → popped items = Some (expected metric).
Proof.
  intros Hu Hm Hs Hi Ht [m' cs b Hu' Hb Hj]. rewrite Hu in Hu'. injection Hu' as <- <-.
  destruct (steadily_run (λ _ _, True) id m i t metric Hm Ht e before b I Hb) as [_ _ Ho (times & Hl & Hd)].
  assert (Hat : Boot.at_ b = Boot.Returned).
  { unfold Boot.shutdown_join, Boot.poll, poll_map in Hj.
    destruct (joined (Boot.spawned b)) as [[[]|?]|] eqn:Hp; try done. apply joined_ok in Hp.
    unfold Boot.spawned in Hp. by destruct (Boot.at_ b). }
  unfold done_rounds in Hl. rewrite Hat in Ho, Hl. unfold popped, id in *. rewrite Hd, omap_app, last_app.
  destruct times as [|now times _] using rev_ind; [done|].
  rewrite map_app, omap_app. cbn [map omap list_omap meter_of]. rewrite last_snoc. unfold message, expected. by rewrite Hs, Hi.
Qed.

Lemma steady_counter (w : World (Dyn.t E) E (list CollectItem)) :
  cells w = {[0%nat := counter]} → steady (metricer TypeCounter) w 0 single.
Proof. intros Hc. exists counter. rewrite Hc, lookup_singleton_eq. by split. Qed.
Lemma steady_gauge (w : World (Dyn.t E) E (list CollectItem)) :
  cells w = {[0%nat := gauge]} → steady (metricer TypeGauge) w 0 single.
Proof. intros Hc. exists gauge. rewrite Hc, lookup_singleton_eq. by split. Qed.
Lemma steady_histogram (w : World (Dyn.t E) E (list CollectItem)) :
  cells w = {[0%nat := histogram]} → steady (metricer TypeHistogram) w 0 two_buckets.
Proof. intros Hc. exists histogram. rewrite Hc, lookup_singleton_eq. by split. Qed.

(** The test: each block starts with what the one before has left, without the
    meter that was popped, and ends in any state of the task in which its
    assertion is reached. *)
Lemma metrics_passes e items1 items2 items3 :
  block counter_block e [] items1 → block gauge_block e (removelast items1) items2 →
  block histogram_block e (removelast items2) items3 →
  popped items1 = Some (expected single) ∧ popped items2 = Some (expected single) ∧
  popped items3 = Some (expected two_buckets).
Proof.
  intros H1 H2 H3. split_and!.
  - by eapply one_meter_pops; [apply counter_block_run|done|done|done|apply steady_counter|].
  - by eapply one_meter_pops; [apply gauge_block_run|done|done|done|apply steady_gauge|].
  - by eapply one_meter_pops; [apply histogram_block_run|done|done|done|apply steady_histogram|].
Qed.
End Metrics.
End MetricsTests.

(** ** tests/management.rs

    The closure of the test returns the properties of the system [o], in any
    order of their map; the test sleeps for ten periods, aborts the task, and
    pops what was reported, oldest first. *)
Module ManagementTests.
Section Management.
Context {TK : Tasks} {KL : TasksLaws} {IV : Intervals} {IL : IntervalsLaws}.
Context (o : Os.t) (host : string).

Definition manager : Manager MockReporter := manager_new "service_name" "instance_name" Mock.
Definition HEARTBEAT : Z := 100 * 1000000.
Abbreviation St := (Alive.state (list CollectItem)).

Definition props : Properties.t := Os.insert_os_info o Properties.new.

Definition test_step : St → St → Prop := Alive.step manager HEARTBEAT 3 (Os.properties o).

(** [pop_ins_props] and [pop_ping]. *)
Definition pop {A} (kind : CollectItem → option A) : M (list CollectItem) A := λ items,
  match items with
  | item :: items => match kind item with Some a => (Ret a, items) | None => panic "isn't that" items end
  | [] => panic UNWRAP_NONE_MSG []
  end.
Definition properties_of (item : CollectItem) : option InstanceProperties.t :=
  match item with Instance_ p => Some p | _ => None end.
Definition ping_of (item : CollectItem) : option InstancePingPkg.t :=
  match item with Ping p => Some p | _ => None end.
Definition kvs_get_value (kvs : list KeyStringValuePair.t) (key : string) : M (list CollectItem) string :=
  expect UNWRAP_NONE_MSG (head (values_of key kvs)).

Definition management : M (list CollectItem) unit :=
  actual_props <- pop properties_of ;;
  assert_eq (InstanceProperties.service actual_props) "service_name" ;;
  assert_eq (InstanceProperties.service_instance actual_props) "instance_name" ;;
  language <- kvs_get_value (InstanceProperties.properties actual_props) Properties.KEY_LANGUAGE ;;
  assert_eq language "rust" ;;
  host_name <- kvs_get_value (InstanceProperties.properties actual_props) Properties.KEY_HOST_NAME ;;
  assert_eq host_name host ;;
  process_no <- kvs_get_value (InstanceProperties.properties actual_props) Properties.KEY_PROCESS_NO ;;
  assert_eq process_no (dec_string (Os.process_id o)) ;;
  ping <- pop ping_of ;;
  assert_eq (InstancePingPkg.service ping) "service_name" ;;
  assert_eq (InstancePingPkg.service_instance ping) "instance_name" ;;
  assert_eq (InstancePingPkg.layer ping) "" ;;
  _ <- pop ping_of ;;
  _ <- pop properties_of ;;
  _ <- pop ping_of ;;
  _ <- pop ping_of ;;
  ret tt.

(** The values of the properties of the system in the message. *)
Lemma message_values order :
  Os.hostname o = Some host → Properties.yields props order →
  let kvs := InstanceProperties.properties
    (Properties.convert_to_instance_properties order "service_name" "instance_name") in
  values_of Properties.KEY_LANGUAGE kvs = ["rust"] ∧ values_of Properties.KEY_HOST_NAME kvs = [host] ∧
  values_of Properties.KEY_PROCESS_NO kvs = [dec_string (Os.process_id o)].
Proof.
  intros Hh Ho. destruct (os_info_spec o Properties.new [] order) as (H1 & H2 & _ & H3 & _);
    [unfold Properties.yields; reflexivity|exact Ho|]. rewrite Hh in H3. by split_and!.
Qed.

Definition PACKAGE : InstancePingPkg.t := InstancePingPkg.Mk "service_name" "instance_name" "".

Lemma kvs_get_run key v kvs items :
  values_of key kvs = [v] → items ⊢ kvs_get_value kvs key ⇓ v ⊣ items.
Proof. intros H. unfold kvs_get_value. by rewrite H. Qed.

(** Once six periods have passed, the pops of the test find what they expect,
    whatever state of the task the abort has hit. *)
Lemma management_passes s :
  Os.hostname o = Some host → rtc test_step (Alive.spawn []) s → (6 ≤ Alive.ticks s)%nat →
  passed management (Alive.world s).
Proof.
  intros Hh Hs Ht.
  destruct (life_reachable (λ _ _, True) id manager HEARTBEAT 3 (Os.properties o) [] eq_refl s Logic.I Hs)
    as [_ _ (orders & Hl & Hos & Hw) _ _].
  destruct orders as [|o0 [|o1 [|o2 [|o3 [|o4 [|o5 rest]]]]]]; cbn [length] in Hl; try lia.
  destruct (Hos 0%nat o0 eq_refl eq_refl) as (o0' & [= <-] & Hy). destruct (message_values o0 Hh Hy) as (H1 & H2 & H3).
  assert (∃ rest', Alive.world s = Instance_ (Properties.convert_to_instance_properties o0 "service_name" "instance_name")
      :: Ping PACKAGE :: Ping PACKAGE
      :: Instance_ (Properties.convert_to_instance_properties o3 "service_name" "instance_name")
      :: Ping PACKAGE :: Ping PACKAGE :: rest') as [rest' ->] by (eexists; exact Hw).
  unfold passed, outcome_of, management.
  repeat (erewrite bind_Ret; [|first [by apply kvs_get_run | by apply passes_assert | reflexivity]]). reflexivity.
Qed.
End Management.
End ManagementTests.

(** ** The tests together *)

(** C12: the integration tests of the repository pass. Each test of
    src/tests, run as a program over the model, returns with all its assertions
    passed, and the two that are marked [should_panic] panic with the message
    of [push_active_span]. The test of the metricer passes for every number of
    rounds that its task makes before the shutdown is awaited, and the test of
    the manager for every run of the heartbeat in which six periods have
    passed before the task is aborted. *)
Theorem integration_tests_pass {DT : DebugText} {TK : Tasks} {KL : TasksLaws} {IV : Intervals} {IL : IntervalsLaws}
    {E : Type} (e : E) items1 items2 items3 o host s :
  MetricsTests.block MetricsTests.counter_block e [] items1 →
  MetricsTests.block MetricsTests.gauge_block e (removelast items1) items2 →
  MetricsTests.block MetricsTests.histogram_block e (removelast items2) items3 →
  Os.hostname o = Some host →
  rtc (ManagementTests.test_step o) (Alive.spawn []) s → (6 ≤ Alive.ticks s)%nat →
  (passed (TraceTests.create_span 1 2) (fresh []) ∧
   passed (TraceTests.create_span_from_context 1 2) (fresh []) ∧
   passed (TraceTests.cross_process_test 1 2 3 4) (fresh (MkTerminal [] [])) ∧
   passed (TraceTests.cross_process_test_1 1 2 3 4) (fresh [], "") ∧
   passed (TraceTests.cross_threads_test 1 2 3 4) (fresh []) ∧
   outcome_of (TraceTests.create_local_span_failed 1 2) (fresh (MkTerminal [] [])) = Panic ENTRY_MSG ∧
   outcome_of (TraceTests.create_exit_span_failed 1 2) (fresh (MkTerminal [] [])) = Panic ENTRY_MSG) ∧
  (passed PropagationTests.basic tt ∧ passed PropagationTests.less_field tt ∧
   passed PropagationTests.more_field tt ∧ passed PropagationTests.invalid_sample tt ∧
   passed (TraceTests.basic_encode 1 2) (fresh (MkTerminal [] []))) ∧
  (passed LoggingTests.log [] ∧ passed (LoggingTests.integrate_trace 1 2) (fresh [])) ∧
  (MetricsTests.popped items1 = Some (MetricsTests.expected MetricsTests.single) ∧
   MetricsTests.popped items2 = Some (MetricsTests.expected MetricsTests.single) ∧
   MetricsTests.popped items3 = Some (MetricsTests.expected MetricsTests.two_buckets)) ∧
  passed (ManagementTests.management o host) (Alive.world s).
Proof.
  intros H1 H2 H3 Hh Hs Ht.
  pose proof (MetricsTests.metrics_passes e items1 items2 items3 H1 H2 H3) as Hm.
  pose proof (ManagementTests.management_passes o host s Hh Hs Ht) as Hg.
  split; [|split; [|split; [|split; [exact Hm|exact Hg]]]].
  - split_and!; [apply TraceTests.create_span_passes|apply TraceTests.create_span_from_context_passes
      |apply TraceTests.cross_process_test_passes|apply TraceTests.cross_process_test_1_passes
      |apply TraceTests.cross_threads_test_passes|apply TraceTests.create_local_span_panics
      |apply TraceTests.create_exit_span_panics].
  - split_and!; [by unfold passed, outcome_of; rewrite PropagationTests.basic_passes
      |by unfold passed, outcome_of; rewrite PropagationTests.less_field_passes
      |by unfold passed, outcome_of; rewrite PropagationTests.more_field_passes
      |by unfold passed, outcome_of; rewrite PropagationTests.invalid_sample_passes
      |apply TraceTests.basic_encode_passes].
  - split_and!; [apply LoggingTests.log_passes|apply LoggingTests.integrate_trace_passes].
Qed.

(** ** One round of each block, and six periods *)
Module TestsDemo.
#[local] Existing Instances Inline.intervals Inline.intervals_laws.
#[local] Instance inline : Tasks := Inline.tasks (FE := text_errors) id "cancelled"%string.
#[local] Instance inline_laws : TasksLaws := Inline.tasks_laws (FE := text_errors) id "cancelled"%string.
#[local] Instance debug_text : DebugText := Build_DebugText (λ _, "") (λ _, "") (λ _, "") (λ _, "") (λ _, "").
Import MetricsTests.

Lemma one_block use m (t : Dyn.t unit) x before :
  ((metricer_new "service_name" "instance_name" Mock, ∅) ⊢ use ⇓ tt ⊣ (m, {[0%nat := t]})) →
  values_order m [(0%nat, 5)] → report_interval m = DEFAULT_INTERVAL →
  (MkWorld {[0%nat := t]} tt before ⊢ report_meter m (0%nat, 5) ⇓ tt ⊣ MkWorld {[0%nat := t]} tt (before ++ [x])) →
  block use tt before (before ++ [x]).
Proof.
  intros Hu Ho Hi Hr.
  eapply (block_awaited use tt before m _ (Boot.MkState Boot.Returned Boot.ShutdownSent
    (MkWorld {[0%nat := t]} tt (before ++ [x])) 1)); [exact Hu| |done].
  eapply rtc_l; [split; [apply Boot.step_interval; [done|by rewrite Hi]|done]|].
  eapply rtc_l; [split; [apply (Boot.step_spawn _ [(0%nat, 5)]); [done|exact Ho]|done]|].
  eapply rtc_l; [split; [eapply Boot.step_meter; [done|exact Hr]|done]|].
  eapply rtc_l; [split; [by apply Boot.step_joined|done]|].
  eapply rtc_l; [split; [by apply Boot.step_shutdown|done]|].
  apply rtc_once. split; [by apply Boot.step_recv|done].
Qed.

Definition one : list CollectItem := [Meter (expected single)].
Definition three : list CollectItem := [Meter (expected two_buckets)].

Lemma first_block : block counter_block tt [] one.
Proof.
  apply (one_block _ _ _ (Meter (expected single)) [] counter_block_run); [by unfold values_order; vm_compute|done|by_evaluation].
Qed.
Lemma second_block : block gauge_block tt (removelast one) one.
Proof.
  apply (one_block _ _ _ (Meter (expected single)) [] gauge_block_run); [by unfold values_order; vm_compute|done|by_evaluation].
Qed.
Lemma third_block : block histogram_block tt (removelast one) three.
Proof.
  apply (one_block _ _ _ (Meter (expected two_buckets)) [] histogram_block_run);
    [by unfold values_order; vm_compute|done|by_evaluation].
Qed.

Definition host : Os.t := ManagementDemo.host.
Definition order : list (string * list string) := map_to_list (Properties.inner (ManagementTests.props host)).
Definition after (n : nat) : Alive.state (list CollectItem) :=
  Alive.MkState Running true (Z.of_nat n `mod` 3)
    (imap (heartbeat_item ManagementTests.manager 3) (replicate n order)) n.

Lemma order_returned : Os.properties host (Ret order).
Proof. exists order. split; [done|]. unfold Properties.yields. reflexivity. Qed.

Lemma one_tick n :
  ((Alive.counter (after n), Alive.world (after n)) ⊢ beat ManagementTests.manager 3 (Ret order) ⇓ tt
    ⊣ (Alive.counter (after (S n)), Alive.world (after (S n)))) →
  ManagementTests.test_step host (after n) (after (S n)).
Proof.
  intros Hb. by apply (Alive.step_tick _ _ _ _ (after n) (Ret order) (Alive.counter (after (S n)))
    (Alive.world (after (S n))) eq_refl eq_refl (λ _, order_returned)).
Qed.

Lemma six_periods : rtc (ManagementTests.test_step host) (Alive.spawn []) (after 6).
Proof.
  eapply rtc_l; [by apply Alive.step_interval|].
  change (rtc (ManagementTests.test_step host) (after 0) (after 6)).
  do 6 (eapply rtc_l; [apply one_tick; by vm_compute|]). apply rtc_refl.
Qed.

Lemma integration_tests_pass_witness :
  passed (ManagementTests.management host "host") (Alive.world (after 6)) ∧
  popped three = Some (expected two_buckets).
Proof.
  destruct (integration_tests_pass tt one one three host "host" (after 6)
    first_block second_block third_block eq_refl six_periods ltac:(cbn; lia)) as (_ & _ & _ & (_ & _ & H) & Hm).
  split; [exact Hm|exact H].
Defined.
End TestsDemo.
